(** * Netpbm: a verification development for the PBM / PGM / PPM library

    The Go sources are embedded shallowly.  A slice is a list, indexed by a
    Go [int] (a [Z]); an index outside the slice makes the Go runtime panic,
    which every operation reports as [None].  Methods with a pointer
    receiver mutate the image in place: they are functions from the image
    to the image after the call. *)

From Stdlib Require Import ZArith List Bool Ascii String Lia SpecFloat.
From Stdlib Require Import DecimalString DecimalPos DecimalFacts.
From stdpp Require Import base option list.
Import ListNotations.

Local Open Scope Z_scope.

(** ** The Go runtime: slices, machine integers, counted loops *)

Module Go.

(** [l[i]] : panics when [i] is negative or not below [len(l)]. *)
Definition index {A} (l : list A) (i : Z) : option A :=
  if i <? 0 then None else l !! Z.to_nat i.

(** [l[i] = v] : the same bounds check, then the update. *)
Definition update {A} (l : list A) (i : Z) (v : A) : option (list A) :=
  if (0 <=? i) && (i <? Z.of_nat (length l))
  then Some (<[Z.to_nat i := v]> l)
  else None.

(** [make([]T, n)] : [n] zero values; a negative length panics. *)
Definition make {A} (n : Z) (zero : A) : option (list A) :=
  if n <? 0 then None else Some (replicate (Z.to_nat n) zero).

(** [len(l)] as a Go int. *)
Definition len {A} (l : list A) : Z := Z.of_nat (length l).

(** Conversion to [uint8] keeps the low eight bits. *)
Definition uint8 (z : Z) : Z := z mod 256.

(** 64-bit two's complement [int]. *)
Definition int64 (z : Z) : Z := (z + 2 ^ 63) mod 2 ^ 64 - 2 ^ 63.

(** 64-bit [uint]. *)
Definition uint64 (z : Z) : Z := z mod 2 ^ 64.

(** Integer division and remainder truncate toward zero. *)
Definition div (a b : Z) : Z := Z.quot a b.
Definition rem (a b : Z) : Z := Z.rem a b.

(** [for i := lo; i < hi; i++ { body }] where the body neither assigns
    [i] nor changes [hi]; the state is threaded through and a panic in
    the body ends the loop. *)
Fixpoint loop {S} (n : nat) (i : Z) (body : Z -> S -> option S) (s : S)
  : option S :=
  match n with
  | O => Some s
  | Datatypes.S n' =>
      match body i s with
      | Some s' => loop n' (i + 1) body s'
      | None => None
      end
  end.

Definition for_range {S} (lo hi : Z) (body : Z -> S -> option S) (s : S)
  : option S :=
  loop (Z.to_nat (hi - lo)) lo body s.

(** [d[i][j]] and [d[i][j] = v] on a slice of slices. *)
Definition index2 {A} (d : list (list A)) (i j : Z) : option A :=
  row ← index d i; index row j.

Definition update2 {A} (d : list (list A)) (i j : Z) (v : A)
  : option (list (list A)) :=
  row ← index d i; row' ← update row j v; update d i row'.

(** [a[i], a[j] = a[j], a[i]]: both operands are read, then both
    assigned. *)
Definition swap {A} (l : list A) (i j : Z) : option (list A) :=
  x ← index l j; y ← index l i;
  l1 ← update l i x; update l1 j y.

(** [d[i][j], d[i][k] = d[i][k], d[i][j]]. *)
Definition swap2 {A} (d : list (list A)) (i j k : Z)
  : option (list (list A)) :=
  x ← index2 d i k; y ← index2 d i j;
  d1 ← update2 d i j x; update2 d1 i k y.

End Go.

(** ** The Go standard library, as far as the codecs use it

    Files and Go strings are byte sequences: [string].  White space is the
    ASCII white space of [unicode.IsSpace]; the inputs of the codecs are
    ASCII headers and raw sample bytes. *)

Module Str.

Fixpoint take (n : nat) (s : string) : string :=
  match n, s with
  | Datatypes.S n', String c s' => String c (take n' s')
  | _, _ => EmptyString
  end.

Fixpoint drop (n : nat) (s : string) : string :=
  match n, s with
  | Datatypes.S n', String _ s' => drop n' s'
  | _, _ => s
  end.

Definition len (s : string) : Z := Z.of_nat (String.length s).

Definition isEmpty (s : string) : bool :=
  match s with EmptyString => true | _ => false end.

(** The prefix of [s] up to and including the first [delim], and what
    follows it. *)
Fixpoint cut (delim : ascii) (s : string) : option (string * string) :=
  match s with
  | EmptyString => None
  | String c s' =>
      if Ascii.eqb c delim then Some (String c EmptyString, s')
      else match cut delim s' with
           | Some (l, r) => Some (String c l, r)
           | None => None
           end
  end.

Definition byte (z : Z) : ascii := ascii_of_N (Z.to_N z).
Definition code (c : ascii) : Z := Z.of_N (N_of_ascii c).

Definition ofBytes (l : list Z) : string :=
  string_of_list_ascii (map byte l).
Definition toBytes (s : string) : list Z :=
  map code (list_ascii_of_string s).

Definition newline : ascii := byte 10.
Definition nl : string := String newline EmptyString.

End Str.

Module strings.

(** [unicode.IsSpace] on ASCII: space, \t, \n, \v, \f, \r. *)
Definition isSpace (c : ascii) : bool :=
  let n := Str.code c in (n =? 32) || ((9 <=? n) && (n <=? 13)).

Fixpoint trimLeft (s : string) : string :=
  match s with
  | String c s' => if isSpace c then trimLeft s' else s
  | EmptyString => EmptyString
  end.

Fixpoint trimRight (s : string) : string :=
  match s with
  | EmptyString => EmptyString
  | String c s' =>
      match trimRight s' with
      | EmptyString => if isSpace c then EmptyString else String c EmptyString
      | r => String c r
      end
  end.

Definition TrimSpace (s : string) : string := trimRight (trimLeft s).

(** [strings.Fields]: the maximal runs of non-space bytes, in order;
    [cur] is the run being read. *)
Fixpoint fieldsFrom (cur : string) (s : string) : list string :=
  match s with
  | EmptyString => if Str.isEmpty cur then [] else [cur]
  | String c s' =>
      if isSpace c
      then (if Str.isEmpty cur then fieldsFrom EmptyString s'
            else cur :: fieldsFrom EmptyString s')
      else fieldsFrom (cur ++ String c EmptyString) s'
  end.

Definition Fields (s : string) : list string := fieldsFrom EmptyString s.

Definition HasPrefix (s prefix : string) : bool := String.prefix prefix s.

End strings.

Module bufio.

(** [bufio.NewReader] allocates [defaultBufSize] bytes. *)
Definition defaultBufSize : Z := 4096.

(** A reader over a regular file: the bytes fetched and not yet
    consumed, and the bytes still in the file.  [os.File.Read] on a
    regular file delivers as many bytes as asked for while the file has
    them, and [io.EOF] with no byte at the end. *)
Record Reader := mkReader { buffered : string; file : string }.

Definition NewReader (content : string) : Reader :=
  mkReader EmptyString content.

(** [fill]: one read of the file into the free space of the buffer. *)
Definition fill (b : Reader) : Reader :=
  let n := Z.to_nat (defaultBufSize - Str.len (buffered b)) in
  mkReader (buffered b ++ Str.take n (file b)) (Str.drop n (file b)).

(** [ReadString(delim)]: the bytes up to and including the first
    [delim]; at the end of the file, the bytes read so far and
    [io.EOF] ([true]).  A buffer that fills up without a delimiter is
    handed over whole and refilled. *)
Fixpoint readString (fuel : nat) (delim : ascii) (acc : string)
  (b : Reader) : string * bool * Reader :=
  match Str.cut delim (buffered b) with
  | Some (line, rest) => ((acc ++ line)%string, false, mkReader rest (file b))
  | None =>
      match fuel with
      | O => ((acc ++ buffered b)%string, true, mkReader EmptyString (file b))
      | Datatypes.S fuel' =>
          if defaultBufSize <=? Str.len (buffered b)
          then readString fuel' delim (acc ++ buffered b)
                 (mkReader EmptyString (file b))
          else if Str.isEmpty (file b)
          then ((acc ++ buffered b)%string, true,
                 mkReader EmptyString EmptyString)
          else readString fuel' delim acc (fill b)
      end
  end.

Definition ReadString (delim : ascii) (b : Reader)
  : string * bool * Reader :=
  readString (2 * String.length (file b) + 2) delim EmptyString b.

(** [Read(p)] with [len(p) = n]: "The bytes are taken from at most one
    Read on the underlying Reader, hence n may be less than len(p).  To
    read exactly len(p) bytes, use io.ReadFull(b, p)."  Buffered bytes
    are copied out first, without a further read; an empty buffer is
    refilled by one read, or bypassed when [p] is at least as large as
    the buffer.  The boolean is [io.EOF]. *)
Definition Read (n : nat) (b : Reader) : string * bool * Reader :=
  if (n =? 0)%nat then (EmptyString, false, b)
  else
    let copy b' :=
      (Str.take n (buffered b'), false,
       mkReader (Str.drop n (buffered b')) (file b')) in
    if Str.isEmpty (buffered b) then
      if defaultBufSize <=? Z.of_nat n then
        let p := Str.take n (file b) in
        (p, Str.isEmpty p, mkReader EmptyString (Str.drop n (file b)))
      else
        let b' := fill b in
        if Str.isEmpty (buffered b') then (EmptyString, true, b')
        else copy b'
    else copy b.

(** [bufio.Scanner] with the default [ScanLines] split function: what
    is left of the input, the last token, and whether the scanner is
    scanning, has met a line that does not fit the token buffer, or has
    stopped. *)
Definition MaxScanTokenSize : Z := 65536.

Inductive status := Scanning | TooLong | Stopped.

Record Scanner := mkScanner { rest : string; token : string; state : status }.

Definition NewScanner (content : string) : Scanner :=
  mkScanner content EmptyString Scanning.

Fixpoint dropCR (s : string) : string :=
  match s with
  | EmptyString => EmptyString
  | String c EmptyString =>
      if Ascii.eqb c (Str.byte 13) then EmptyString else s
  | String c s' => String c (dropCR s')
  end.

Fixpoint line (s : string) : string :=
  match s with
  | EmptyString => EmptyString
  | String c s' =>
      if Ascii.eqb c Str.newline then EmptyString else String c (line s')
  end.

(** [Scan]: the next line without its terminator becomes the token; a
    last line without a newline is a token too; at the end of the input
    the token is empty and the scanner stops.  When [MaxScanTokenSize]
    bytes hold no newline, [Scan] fails with an empty token and
    [ErrTooLong]; the call after that hands out the bytes of the full
    buffer as the final token, and then the scanner is stopped. *)
Definition Scan (s : Scanner) : Scanner :=
  match state s with
  | Stopped => mkScanner EmptyString EmptyString Stopped
  | TooLong =>
      mkScanner EmptyString
        (dropCR (Str.take (Z.to_nat MaxScanTokenSize) (rest s))) Stopped
  | Scanning =>
      if Str.isEmpty (rest s)
      then mkScanner EmptyString EmptyString Stopped
      else
        let l := line (rest s) in
        if MaxScanTokenSize <=? Str.len l
        then mkScanner (rest s) EmptyString TooLong
        else mkScanner (Str.drop (Datatypes.S (String.length l)) (rest s))
               (dropCR l) Scanning
  end.

Definition Text (s : Scanner) : string := token s.

End bufio.

Module fmt.

(** An integer operand of [Sscanf]: [*int], [*uint] or [*uint8]. *)
Inductive operand := Int | Uint | Uint8.

Definition isDigit (c : ascii) : bool :=
  let n := Str.code c in (48 <=? n) && (n <=? 57).

Definition isUnderscore (c : ascii) : bool := Str.code c =? 95.

Definition isSign (c : ascii) : bool :=
  let n := Str.code c in (n =? 43) || (n =? 45).

(** [SkipSpace] of [Sscanf]: spaces are skipped, a newline is an error
    ([None]); a carriage return before a newline is skipped first. *)
Fixpoint SkipSpace (s : string) : option string :=
  match s with
  | EmptyString => Some EmptyString
  | String c s' =>
      if Ascii.eqb c Str.newline then None
      else if strings.isSpace c then SkipSpace s'
      else Some s
  end.

(** [scanNumber]: the longest run of digits and underscores. *)
Fixpoint scanNumber (s : string) : string * string :=
  match s with
  | String c s' =>
      if isDigit c || isUnderscore c
      then let '(tok, r) := scanNumber s' in (String c tok, r)
      else (EmptyString, s)
  | EmptyString => (EmptyString, EmptyString)
  end.

(** [strconv.ParseUint(tok, 10, 64)] without the range check: base 10
    admits digits only. *)
Fixpoint parseDigits (acc : Z) (tok : string) : option Z :=
  match tok with
  | EmptyString => Some acc
  | String c tok' =>
      if isDigit c then parseDigits (10 * acc + (Str.code c - 48)) tok'
      else None
  end.

(** One [%d] verb: the value and the unread input, or an error. *)
Definition scanOne (o : operand) (s : string) : option (Z * string) :=
  s1 ← SkipSpace s;
  match s1 with
  | EmptyString => None
  | String c s2 =>
      let '(neg, s3) :=
        match o with
        | Int => if isSign c then (Str.code c =? 45, s2) else (false, s1)
        | _ => (false, s1)
        end in
      let '(tok, r) := scanNumber s3 in
      if Str.isEmpty tok then None
      else
        v ← parseDigits 0 tok;
        match o with
        | Int =>
            let i := if neg then - v else v in
            if (- 2 ^ 63 <=? i) && (i <? 2 ^ 63) then Some (i, r) else None
        | Uint => if v <? 2 ^ 64 then Some (v, r) else None
        | Uint8 => if v <? 2 ^ 8 then Some (v, r) else None
        end
  end.

(** A space in the format: one or more spaces of the input, or its
    end. *)
Definition advanceSpace (s : string) : option string :=
  match s with
  | EmptyString => Some EmptyString
  | String c _ => if strings.isSpace c then SkipSpace s else None
  end.

(** [Sscanf(s, "%d %d ... %d", &a1, ..., &an)]: the values stored, in
    order, and whether an error is returned.  Operands after a failed
    verb are left untouched; input after the last verb is ignored. *)
Fixpoint scanRest (os : list operand) (s : string) : list Z * bool :=
  match os with
  | [] => ([], false)
  | o :: os' =>
      match advanceSpace s with
      | None => ([], true)
      | Some s1 =>
          match scanOne o s1 with
          | None => ([], true)
          | Some (v, r) => let '(vs, e) := scanRest os' r in (v :: vs, e)
          end
      end
  end.

Definition Sscanf (s : string) (os : list operand) : list Z * bool :=
  match os with
  | [] => ([], false)
  | o :: os' =>
      match scanOne o s with
      | None => ([], true)
      | Some (v, r) => let '(vs, e) := scanRest os' r in (v :: vs, e)
      end
  end.

(** The [%d] verb of [Fprintf], and [Fprint] of an integer. *)
Definition d (z : Z) : string := NilZero.string_of_int (Z.to_int z).

(** The operand stored by the [k]-th verb, or the old value. *)
Definition stored (vs : list Z) (k : nat) (old : Z) : Z :=
  default old (vs !! k).

End fmt.

(** ** Results of the decoders and encoders

    A Go function returning [(T, error)] yields [Ok], or [Err] with the
    error of the [fmt.Errorf] call it returned from; [Panic] is a run-time
    panic. *)

Inductive error :=
| ErrReadingMagicNumber
| ErrInvalidMagicNumber (magicNumber : string)
| ErrReadingDimensions
| ErrInvalidDimensions
| ErrDimensionsNotPositive
| ErrReadingMaxValue
| ErrInvalidMaxValue
| ErrReadingRow (y : Z)
| ErrIndexOutOfRange (y : Z)
| ErrParsingPixel (y x : Z)
| ErrUnexpectedEOF (y : Z)
| ErrShortRow (y expected got : Z)
| ErrUnsupportedMagicNumber (magicNumber : string)
| ErrInconsistentRowLength.

Inductive result (A : Type) :=
| Ok (a : A)
| Err (e : error)
| Panic.

Arguments Ok {A} a.
Arguments Err {A} e.
Arguments Panic {A}.

Definition bindR {A B} (m : result A) (f : A -> result B) : result B :=
  match m with
  | Ok a => f a
  | Err e => Err e
  | Panic => Panic
  end.

(** A step that can only panic, inside a function that can also fail. *)
Definition run {A} (o : option A) : result A :=
  match o with
  | Some a => Ok a
  | None => Panic
  end.

#[global] Instance result_bind : MBind result := fun A B f m => bindR m f.

(** The counted loop of [Go.loop] for bodies that can return an error. *)
Fixpoint loopR {S} (n : nat) (i : Z) (body : Z -> S -> result S) (s : S)
  : result S :=
  match n with
  | O => Ok s
  | Datatypes.S n' => s' ← body i s; loopR n' (i + 1) body s'
  end.

Definition for_rangeR {S} (lo hi : Z) (body : Z -> S -> result S) (s : S)
  : result S :=
  loopR (Z.to_nat (hi - lo)) lo body s.

(** ** PBM.go : bitmaps *)

Module PBM.

Record t := mk {
  data : list (list bool);
  width : Z;
  height : Z;
  magicNumber : string
}.

(** [make([][]bool, height)] followed by [make([]bool, width)] for
    every row. *)
Definition makeRaster {A} (height width : Z) (zero : A)
  : option (list (list A)) :=
  rows ← Go.make height ([] : list A);
  Go.for_range 0 height (fun i d =>
    r ← Go.make width zero; Go.update d i r) rows.

(** [for x, field := range fields] of the P1 reader, on row [y]. *)
Fixpoint readP1Fields (y width : Z) (fields : list string) (x : Z)
  (d : list (list bool)) : result (list (list bool)) :=
  match fields with
  | [] => Ok d
  | field :: fields' =>
      if x >=? width then Err (ErrIndexOutOfRange y)
      else
        row ← run (Go.index d y);
        row' ← run (Go.update row x (String.eqb field "1"));
        d' ← run (Go.update d y row');
        readP1Fields y width fields' (x + 1) d'
  end.

(** [for x := 0; x < width; x++] of the P4 reader: the bits of the
    bytes [row] go to raster row [y]. *)
Definition readP4Bits (y width : Z) (row : list Z) (d : list (list bool))
  : option (list (list bool)) :=
  Go.for_range 0 width (fun x d =>
    let byteIndex := Go.div x 8 in
    let bitIndex := 7 - Go.rem x 8 in
    byte ← Go.index row byteIndex;
    let bitValue := Z.land (Z.shiftr byte bitIndex) 1 in
    r ← Go.index d y;
    r' ← Go.update r x (negb (bitValue =? 0));
    Go.update d y r') d.

(** [ReadPBM] on the content of the opened file. *)
Definition ReadPBM (content : string) : result t :=
  let reader := bufio.NewReader content in
  let '(line1, err, reader) := bufio.ReadString Str.newline reader in
  if (err : bool) then Err ErrReadingMagicNumber else
  let magicNumber := strings.TrimSpace line1 in
  if negb (String.eqb magicNumber "P1") && negb (String.eqb magicNumber "P4")
  then Err (ErrInvalidMagicNumber magicNumber) else
  let '(dimensions, err, reader) := bufio.ReadString Str.newline reader in
  if (err : bool) then Err ErrReadingDimensions else
  let '(vs, err) :=
    fmt.Sscanf (strings.TrimSpace dimensions) [fmt.Int; fmt.Int] in
  let width := fmt.stored vs 0 0 in
  let height := fmt.stored vs 1 0 in
  if (err : bool) then Err ErrInvalidDimensions else
  data ← run (makeRaster height width false);
  if String.eqb magicNumber "P1" then
    '(_, data) ← for_rangeR 0 height (fun y '(reader, data) =>
        let '(line, err, reader) := bufio.ReadString Str.newline reader in
        if (err : bool) then Err (ErrReadingRow y) else
        data ← readP1Fields y width (strings.Fields line) 0 data;
        Ok (reader, data)) (reader, data);
    Ok (mk data width height magicNumber)
  else if String.eqb magicNumber "P4" then
    let expectedBytesPerRow := Go.div (width + 7) 8 in
    '(_, data) ← for_rangeR 0 height (fun y '(reader, data) =>
        _ ← run (Go.make expectedBytesPerRow 0);
        let '(row, err, reader) :=
          bufio.Read (Z.to_nat expectedBytesPerRow) reader in
        if (err : bool) then Err (ErrUnexpectedEOF y) else
        let n := Str.len row in
        if n <? expectedBytesPerRow
        then Err (ErrShortRow y expectedBytesPerRow n) else
        data ← run (readP4Bits y width (Str.toBytes row) data);
        Ok (reader, data)) (reader, data);
    Ok (mk data width height magicNumber)
  else Ok (mk data width height magicNumber).

Definition Size (pbm : t) : Z * Z := (width pbm, height pbm).

(** [At] and [Set] ([Set_] here, [Set] being reserved) index the raster
    without a check of their own. *)
Definition At (pbm : t) (x y : Z) : option bool :=
  row ← Go.index (data pbm) y; Go.index row x.

Definition Set_ (pbm : t) (x y : Z) (value : bool) : option t :=
  row ← Go.index (data pbm) y;
  row' ← Go.update row x value;
  d ← Go.update (data pbm) y row';
  Some (mk d (width pbm) (height pbm) (magicNumber pbm)).

(** [Invert]: every sample is negated in place. *)
Definition Invert (pbm : t) : option t :=
  d ← Go.for_range 0 (height pbm) (fun i d =>
        Go.for_range 0 (width pbm) (fun j d =>
          b ← Go.index2 d i j; Go.update2 d i j (negb b)) d) (data pbm);
  Some (mk d (width pbm) (height pbm) (magicNumber pbm)).

(** [Flip]: in every row, sample [j] and sample [width-j-1] are
    exchanged for [j < width/2]. *)
Definition Flip (pbm : t) : option t :=
  d ← Go.for_range 0 (height pbm) (fun i d =>
        Go.for_range 0 (Go.div (width pbm) 2) (fun j d =>
          Go.swap2 d i j (width pbm - j - 1)) d) (data pbm);
  Some (mk d (width pbm) (height pbm) (magicNumber pbm)).

(** [Flop]: row [i] and row [height-i-1] are exchanged for
    [i < height/2]. *)
Definition Flop (pbm : t) : option t :=
  d ← Go.for_range 0 (Go.div (height pbm) 2) (fun i d =>
        Go.swap d i (height pbm - i - 1)) (data pbm);
  Some (mk d (width pbm) (height pbm) (magicNumber pbm)).

Definition SetMagicNumber (pbm : t) (magicNumber : string) : t :=
  mk (data pbm) (width pbm) (height pbm) magicNumber.

(** [saveP1]: the samples of a row separated by one space, a newline
    after every row; the result is what is written to the file. *)
Definition saveP1 (pbm : t) : option string :=
  Go.for_range 0 (height pbm) (fun i out =>
    out ← Go.for_range 0 (width pbm) (fun j out =>
      row ← Go.index (data pbm) i;
      b ← Go.index row j;
      let out := (out ++ (if (b : bool) then "1" else "0"))%string in
      Some (if j <? width pbm - 1 then (out ++ " ")%string else out)) out;
    Some (out ++ Str.nl)%string) EmptyString.

(** The body of the [y] loop of [saveP4] up to the write: raster row
    [y] packed into [expectedBytesPerRow] bytes. *)
Definition saveP4_row (pbm : t) (y : Z) : option (list Z) :=
  let expectedBytesPerRow := Go.div (width pbm + 7) 8 in
  row0 ← Go.make expectedBytesPerRow 0;
  Go.for_range 0 (width pbm) (fun x row =>
    let byteIndex := Go.div x 8 in
    let bitIndex := 7 - Go.rem x 8 in
    src ← Go.index (data pbm) y;
    b ← Go.index src x;
    if (b : bool) then
      old ← Go.index row byteIndex;
      Go.update row byteIndex (Z.lor old (Go.uint8 (Z.shiftl 1 bitIndex)))
    else Some row) row0.

Definition saveP4 (pbm : t) : option string :=
  Go.for_range 0 (height pbm) (fun y out =>
    row ← saveP4_row pbm y;
    Some (out ++ Str.ofBytes row)%string) EmptyString.

(** [Save]: the bytes written to the created file. *)
Definition Save (pbm : t) : result string :=
  let header :=
    (magicNumber pbm ++ Str.nl ++ fmt.d (width pbm) ++ " "
       ++ fmt.d (height pbm) ++ Str.nl)%string in
  if String.eqb (magicNumber pbm) "P1" then
    body ← run (saveP1 pbm); Ok (header ++ body)%string
  else if String.eqb (magicNumber pbm) "P4" then
    body ← run (saveP4 pbm); Ok (header ++ body)%string
  else Err (ErrUnsupportedMagicNumber (magicNumber pbm)).

End PBM.


(** ** float64

    IEEE 754 binary64 with round-to-nearest-even, on the specification of
    floating-point numbers of the standard library.  Every operation is
    rounded on its own, as the amd64 compiler does it: no multiplication
    is fused with an addition. *)

Module F64.

Definition prec : Z := 53.
Definition emax : Z := 1024.

Definition float64 := spec_float.

Definition NaN : float64 := S754_nan.

(** [float64(i)] for an integer [i]. *)
Definition ofInt (i : Z) : float64 := binary_normalize prec emax i 0 false.

Definition add (x y : float64) : float64 := SFadd prec emax x y.
Definition mul (x y : float64) : float64 := SFmul prec emax x y.
Definition quo (x y : float64) : float64 := SFdiv prec emax x y.

(** [x > y]; false when either is a NaN. *)
Definition gt (x y : float64) : bool := SFltb y x.

(** A decimal constant [n/d], rounded once to the nearest float64. *)
Definition const (n d : Z) : float64 := quo (ofInt n) (ofInt d).

(** [math.Abs]. *)
Definition Abs (x : float64) : float64 := SFabs x.

(** [math.Max]: a NaN operand gives NaN, +Inf wins, and +0 is above
    -0. *)
Definition Max (x y : float64) : float64 :=
  match x, y with
  | S754_infinity false, _ | _, S754_infinity false => S754_infinity false
  | S754_nan, _ | _, S754_nan => S754_nan
  | S754_zero sx, S754_zero sy => S754_zero (sx && sy)
  | _, _ => if SFltb y x then x else y
  end.

(** The integer part of a finite float64, toward zero. *)
Definition trunc (x : float64) : option Z :=
  match x with
  | S754_zero _ => Some 0
  | S754_finite s m e =>
      let v := if e <? 0 then Z.shiftr (Zpos m) (- e)
               else Z.shiftl (Zpos m) e in
      Some (if s then - v else v)
  | _ => None
  end.

(** [int(x)]: the fraction is discarded.  For a NaN, an infinity or a
    value outside of [int] the language leaves the result to the
    implementation; amd64 delivers the least [int]. *)
Definition toInt (x : float64) : Z :=
  match trunc x with
  | Some v => if (- 2 ^ 63 <=? v) && (v <? 2 ^ 63) then v else - 2 ^ 63
  | None => - 2 ^ 63
  end.

(** [uint8(x)]: the integer part, of which eight bits are kept. *)
Definition toUint8 (x : float64) : Z := Go.uint8 (toInt x).

End F64.

(** ** PGM (the graymap of package Netpbm with a [uint] max value) *)

Module PGM.

Record t := mk {
  data : list (list Z);
  width : Z;
  height : Z;
  magicNumber : string;
  max : Z
}.

(** [for x, field := range fields] of the P2 reader, on row [y]. *)
Fixpoint readP2Fields (y width : Z) (fields : list string) (x : Z)
  (rowData : list Z) : result (list Z) :=
  match fields with
  | [] => Ok rowData
  | field :: fields' =>
      if x >=? width then Err (ErrIndexOutOfRange y)
      else
        let '(vs, err) := fmt.Sscanf field [fmt.Uint8] in
        let pixelValue := fmt.stored vs 0 0 in
        if (err : bool) then Err (ErrParsingPixel y x) else
        rowData' ← run (Go.update rowData x pixelValue);
        readP2Fields y width fields' (x + 1) rowData'
  end.

(** [ReadPGM] on the content of the opened file. *)
Definition ReadPGM (content : string) : result t :=
  let reader := bufio.NewReader content in
  let '(line1, err, reader) := bufio.ReadString Str.newline reader in
  if (err : bool) then Err ErrReadingMagicNumber else
  let magicNumber := strings.TrimSpace line1 in
  if negb (String.eqb magicNumber "P2") && negb (String.eqb magicNumber "P5")
  then Err (ErrInvalidMagicNumber magicNumber) else
  let '(dimensions, err, reader) := bufio.ReadString Str.newline reader in
  if (err : bool) then Err ErrReadingDimensions else
  let '(vs, err) :=
    fmt.Sscanf (strings.TrimSpace dimensions) [fmt.Int; fmt.Int] in
  let width := fmt.stored vs 0 0 in
  let height := fmt.stored vs 1 0 in
  if (err : bool) then Err ErrInvalidDimensions else
  if (width <=? 0) || (height <=? 0) then Err ErrDimensionsNotPositive else
  let '(maxValue, err, reader) := bufio.ReadString Str.newline reader in
  if (err : bool) then Err ErrReadingMaxValue else
  let maxValue := strings.TrimSpace maxValue in
  let '(vs, err) := fmt.Sscanf maxValue [fmt.Uint8] in
  let max := fmt.stored vs 0 0 in
  if (err : bool) then Err ErrInvalidMaxValue else
  data ← run (Go.make height ([] : list Z));
  let expectedBytesPerPixel := 1 in
  if String.eqb magicNumber "P2" then
    '(_, data) ← for_rangeR 0 height (fun y '(reader, data) =>
        let '(line, err, reader) := bufio.ReadString Str.newline reader in
        if (err : bool) then Err (ErrReadingRow y) else
        rowData ← run (Go.make width 0);
        rowData ← readP2Fields y width (strings.Fields line) 0 rowData;
        data ← run (Go.update data y rowData);
        Ok (reader, data)) (reader, data);
    Ok (mk data width height magicNumber max)
  else if String.eqb magicNumber "P5" then
    '(_, data) ← for_rangeR 0 height (fun y '(reader, data) =>
        _ ← run (Go.make (Go.int64 (width * expectedBytesPerPixel)) 0);
        let '(row, err, reader) :=
          bufio.Read (Z.to_nat (Go.int64 (width * expectedBytesPerPixel)))
            reader in
        if (err : bool) then Err (ErrUnexpectedEOF y) else
        let n := Str.len row in
        if n <? Go.int64 (width * expectedBytesPerPixel)
        then Err (ErrShortRow y (Go.int64 (width * expectedBytesPerPixel)) n)
        else
        rowData ← run (Go.make width 0);
        rowData ← run (Go.for_range 0 width (fun x rowData =>
            pixelValue ← Go.index (Str.toBytes row)
                            (Go.int64 (x * expectedBytesPerPixel));
            Go.update rowData x pixelValue) rowData);
        data ← run (Go.update data y rowData);
        Ok (reader, data)) (reader, data);
    Ok (mk data width height magicNumber max)
  else Ok (mk data width height magicNumber max).

Definition Size (pgm : t) : Z * Z := (width pgm, height pgm).

Definition inBounds (pgm : t) (x y : Z) : bool :=
  (x >=? 0) && (x <? width pgm) && (y >=? 0) && (y <? height pgm).

(** [At] and [Set] ([Set_] here) check the coordinates against the
    stored width and height. *)
Definition At (pgm : t) (x y : Z) : option Z :=
  if inBounds pgm x y then Go.index2 (data pgm) y x else Some 0.

Definition Set_ (pgm : t) (x y : Z) (value : Z) : option t :=
  if inBounds pgm x y then
    d ← Go.update2 (data pgm) y x value;
    Some (mk d (width pgm) (height pgm) (magicNumber pgm) (max pgm))
  else Some pgm.

(** [saveP2PGM]: decimal samples separated by one space, a newline
    after every row. *)
Definition saveP2PGM (pgm : t) : option string :=
  Go.for_range 0 (height pgm) (fun y out =>
    out ← Go.for_range 0 (width pgm) (fun x out =>
      v ← Go.index2 (data pgm) y x;
      let out := (out ++ fmt.d v)%string in
      Some (if x <? width pgm - 1 then (out ++ " ")%string else out)) out;
    Some (out ++ Str.nl)%string) EmptyString.

(** [saveP5PGM]: one byte per sample. *)
Definition saveP5PGM (pgm : t) : option string :=
  Go.for_range 0 (height pgm) (fun y out =>
    row ← Go.make (width pgm) 0;
    row ← Go.for_range 0 (width pgm) (fun x row =>
      v ← Go.index2 (data pgm) y x; Go.update row x v) row;
    Some (out ++ Str.ofBytes row)%string) EmptyString.

(** [Save]: the bytes written to the created file. *)
Definition Save (pgm : t) : result string :=
  let header :=
    (magicNumber pgm ++ Str.nl ++ fmt.d (width pgm) ++ " "
       ++ fmt.d (height pgm) ++ Str.nl ++ fmt.d (max pgm) ++ Str.nl)%string in
  if forallb (fun row => Go.len row =? width pgm) (data pgm) then
    if String.eqb (magicNumber pgm) "P2" then
      body ← run (saveP2PGM pgm); Ok (header ++ body)%string
    else if String.eqb (magicNumber pgm) "P5" then
      body ← run (saveP5PGM pgm); Ok (header ++ body)%string
    else Ok header
  else Err ErrInconsistentRowLength.

(** [Invert]: [for i := range data], [for j := range data[i]]. *)
Definition Invert (pgm : t) : option t :=
  d ← Go.for_range 0 (Go.len (data pgm)) (fun i d =>
        row ← Go.index d i;
        Go.for_range 0 (Go.len row) (fun j d =>
          v ← Go.index2 d i j;
          Go.update2 d i j (Go.uint8 (Go.uint8 (max pgm) - v))) d)
      (data pgm);
  Some (mk d (width pgm) (height pgm) (magicNumber pgm) (max pgm)).

(** [for j, k := 0, len(row)-1; j < k; j, k = j+1, k-1] of [Flip] on
    row [i]; the distance [k-j] shrinks by two, so [fuel] above it is
    never used up. *)
Fixpoint flipRow (fuel : nat) (i j k : Z) (d : list (list Z))
  : option (list (list Z)) :=
  if j <? k then
    match fuel with
    | O => None
    | Datatypes.S fuel' =>
        d' ← Go.swap2 d i j k; flipRow fuel' i (j + 1) (k - 1) d'
    end
  else Some d.

Definition Flip (pgm : t) : option t :=
  d ← Go.for_range 0 (Go.len (data pgm)) (fun i d =>
        row ← Go.index d i;
        flipRow (length row) i 0 (Go.len row - 1) d) (data pgm);
  Some (mk d (width pgm) (height pgm) (magicNumber pgm) (max pgm)).

Definition Flop (pgm : t) : option t :=
  d ← Go.for_range 0 (Go.div (height pgm) 2) (fun i d =>
        Go.swap d i (height pgm - i - 1)) (data pgm);
  Some (mk d (width pgm) (height pgm) (magicNumber pgm) (max pgm)).

Definition SetMagicNumber (pgm : t) (magicNumber : string) : t :=
  mk (data pgm) (width pgm) (height pgm) magicNumber (max pgm).

(** [SetMaxValue]: every sample becomes
    [uint8(float64(sample) * float64(maxValue) / float64(max))]. *)
Definition SetMaxValue (pgm : t) (maxValue : Z) : option t :=
  d ← Go.for_range 0 (height pgm) (fun y d =>
        Go.for_range 0 (width pgm) (fun x d =>
          v ← Go.index2 d y x;
          let scaledValue :=
            F64.quo (F64.mul (F64.ofInt v) (F64.ofInt maxValue))
                    (F64.ofInt (max pgm)) in
          let newValue := F64.toUint8 scaledValue in
          Go.update2 d y x newValue) d) (data pgm);
  Some (mk d (width pgm) (height pgm) (magicNumber pgm) maxValue).

(** [Rotate90CW]: nothing happens unless both dimensions are positive;
    otherwise the new raster has [width] rows of [height] samples. *)
Definition Rotate90CW (pgm : t) : option t :=
  if (width pgm <=? 0) || (height pgm <=? 0) then Some pgm else
  newData ← Go.make (width pgm) ([] : list Z);
  newData ← Go.for_range 0 (width pgm) (fun i newData =>
      row ← Go.make (height pgm) 0;
      newData ← Go.update newData i row;
      Go.for_range 0 (height pgm) (fun j newData =>
        v ← Go.index2 (data pgm) (height pgm - j - 1) i;
        Go.update2 newData i j v) newData) newData;
  Some (mk newData (height pgm) (width pgm) (magicNumber pgm) (max pgm)).

(** [ToPBM]: a sample below [uint8(max/2)] becomes [true]. *)
Definition ToPBM (pgm : t) : option PBM.t :=
  d ← Go.make (height pgm) ([] : list bool);
  d ← Go.for_range 0 (height pgm) (fun y d =>
      row ← Go.make (width pgm) false;
      d ← Go.update d y row;
      Go.for_range 0 (width pgm) (fun x d =>
        v ← Go.index2 (data pgm) y x;
        Go.update2 d y x (v <? Go.uint8 (Go.div (max pgm) 2))) d) d;
  Some (PBM.mk d (width pgm) (height pgm) "P1").

End PGM.

(** ** PGM (the graymap of package Netpbm with an [int] max value) *)

Module PGM2.

Record t := mk {
  data : list (list Z);
  width : Z;
  height : Z;
  magicNumber : string;
  max : Z
}.

(** [ToPBM]: a sample above [uint8(max/2)] becomes [true]. *)
Definition ToPBM (pgm : t) : option PBM.t :=
  d ← Go.make (height pgm) ([] : list bool);
  d ← Go.for_range 0 (height pgm) (fun y d =>
      row ← Go.make (width pgm) false;
      d ← Go.update d y row;
      Go.for_range 0 (width pgm) (fun x d =>
        v ← Go.index2 (data pgm) y x;
        Go.update2 d y x (v >? Go.uint8 (Go.div (max pgm) 2))) d) d;
  Some (PBM.mk d (width pgm) (height pgm) "P4").

(** [Invert]: [uint8(max) - sample], for [y < height] and [x < width]. *)
Definition Invert (pgm : t) : option t :=
  d ← Go.for_range 0 (height pgm) (fun y d =>
        Go.for_range 0 (width pgm) (fun x d =>
          v ← Go.index2 d y x;
          Go.update2 d y x (Go.uint8 (Go.uint8 (max pgm) - v))) d)
      (data pgm);
  Some (mk d (width pgm) (height pgm) (magicNumber pgm) (max pgm)).

Definition Flip (pgm : t) : option t :=
  d ← Go.for_range 0 (height pgm) (fun y d =>
        Go.for_range 0 (Go.div (width pgm) 2) (fun x d =>
          Go.swap2 d y x (width pgm - x - 1)) d) (data pgm);
  Some (mk d (width pgm) (height pgm) (magicNumber pgm) (max pgm)).

Definition Flop (pgm : t) : option t :=
  d ← Go.for_range 0 (Go.div (height pgm) 2) (fun y d =>
        Go.swap d y (height pgm - y - 1)) (data pgm);
  Some (mk d (width pgm) (height pgm) (magicNumber pgm) (max pgm)).

(** [SetMaxValue] stores [int(maxValue)]; the samples stay. *)
Definition SetMaxValue (pgm : t) (maxValue : Z) : t :=
  mk (data pgm) (width pgm) (height pgm) (magicNumber pgm) maxValue.

(** [Rotate90CW], without a check of the dimensions. *)
Definition Rotate90CW (pgm : t) : option t :=
  newData ← Go.make (width pgm) ([] : list Z);
  newData ← Go.for_range 0 (width pgm) (fun x newData =>
      row ← Go.make (height pgm) 0;
      newData ← Go.update newData x row;
      Go.for_range 0 (height pgm) (fun y newData =>
        v ← Go.index2 (data pgm) (height pgm - y - 1) x;
        Go.update2 newData x y v) newData) newData;
  Some (mk newData (height pgm) (width pgm) (magicNumber pgm) (max pgm)).

End PGM2.

(** ** PPM : pixmaps and the drawing operations *)

Module PPM.

(** Three [uint8] channels. *)
Record Pixel := mkPixel { R : Z; G : Z; B : Z }.

Record t := mk {
  data : list (list Pixel);
  width : Z;
  height : Z;
  magicNumber : string;
  max : Z
}.

Record Point := mkPoint { X : Z; Y : Z }.

Definition zeroPixel : Pixel := mkPixel 0 0 0.

(** [ReadPPM] on the content of the opened file: no result of [Scan] or
    [Sscanf] is looked at, and a verb that fails leaves its operand as it
    was. *)
Definition ReadPPM (content : string) : result t :=
  let scanner := bufio.NewScanner content in
  let scanner := bufio.Scan scanner in
  let magicNumber := bufio.Text scanner in
  let scanner := bufio.Scan scanner in
  let '(vs, _) := fmt.Sscanf (bufio.Text scanner) [fmt.Int; fmt.Int] in
  let width := fmt.stored vs 0 0 in
  let height := fmt.stored vs 1 0 in
  let scanner := bufio.Scan scanner in
  let '(vs, _) := fmt.Sscanf (bufio.Text scanner) [fmt.Uint] in
  let max := fmt.stored vs 0 0 in
  data ← run (Go.make height ([] : list Pixel));
  '(_, data) ← run (Go.for_range 0 height (fun i '(scanner, data) =>
      row ← Go.make width zeroPixel;
      data ← Go.update data i row;
      Go.for_range 0 width (fun j '(scanner, data) =>
        let scanner := bufio.Scan scanner in
        let '(vs, _) :=
          fmt.Sscanf (bufio.Text scanner)
            [fmt.Uint8; fmt.Uint8; fmt.Uint8] in
        old ← Go.index2 data i j;
        data ← Go.update2 data i j
                 (mkPixel (fmt.stored vs 0 (R old)) (fmt.stored vs 1 (G old))
                          (fmt.stored vs 2 (B old)));
        Some (scanner, data)) (scanner, data)) (scanner, data));
  Ok (mk data width height magicNumber max).

Definition Size (ppm : t) : Z * Z := (width ppm, height ppm).

(** [At] and [Set] ([Set_] here) index the raster without a check of
    their own: [ppm.data[y][x]]. *)
Definition At (ppm : t) (x y : Z) : option Pixel :=
  Go.index2 (data ppm) y x.

Definition Set_ (ppm : t) (x y : Z) (value : Pixel) : option t :=
  d ← Go.update2 (data ppm) y x value;
  Some (mk d (width ppm) (height ppm) (magicNumber ppm) (max ppm)).

(** [Save]: the header, then one line of three decimals per pixel. *)
Definition Save (ppm : t) : result string :=
  let header :=
    (magicNumber ppm ++ Str.nl ++ fmt.d (width ppm) ++ " "
       ++ fmt.d (height ppm) ++ Str.nl ++ fmt.d (max ppm) ++ Str.nl)%string in
  body ← run (Go.for_range 0 (height ppm) (fun i out =>
      Go.for_range 0 (width ppm) (fun j out =>
        p ← Go.index2 (data ppm) i j;
        Some (out ++ fmt.d (R p) ++ " " ++ fmt.d (G p) ++ " "
                  ++ fmt.d (B p) ++ Str.nl)%string) out) EmptyString);
  Ok (header ++ body)%string.

Definition invertPixel (max : Z) (p : Pixel) : Pixel :=
  mkPixel (Go.uint8 (Go.uint8 max - R p)) (Go.uint8 (Go.uint8 max - G p))
          (Go.uint8 (Go.uint8 max - B p)).

Definition Invert (ppm : t) : option t :=
  d ← Go.for_range 0 (height ppm) (fun i d =>
        Go.for_range 0 (width ppm) (fun j d =>
          p ← Go.index2 d i j;
          Go.update2 d i j (invertPixel (max ppm) p)) d) (data ppm);
  Some (mk d (width ppm) (height ppm) (magicNumber ppm) (max ppm)).

Definition Flip (ppm : t) : option t :=
  d ← Go.for_range 0 (height ppm) (fun i d =>
        Go.for_range 0 (Go.div (width ppm) 2) (fun j d =>
          Go.swap2 d i j (width ppm - j - 1)) d) (data ppm);
  Some (mk d (width ppm) (height ppm) (magicNumber ppm) (max ppm)).

Definition Flop (ppm : t) : option t :=
  d ← Go.for_range 0 (Go.div (height ppm) 2) (fun i d =>
        Go.swap d i (height ppm - i - 1)) (data ppm);
  Some (mk d (width ppm) (height ppm) (magicNumber ppm) (max ppm)).

Definition SetMagicNumber (ppm : t) (magicNumber : string) : t :=
  mk (data ppm) (width ppm) (height ppm) magicNumber (max ppm).

(** [SetMaxValue] stores the new max value and nothing else. *)
Definition SetMaxValue (ppm : t) (maxValue : Z) : t :=
  mk (data ppm) (width ppm) (height ppm) (magicNumber ppm) maxValue.

(** [Rotate90CW]: a raster of [width] rows of [height] zero pixels is
    allocated, then [newData[j][height-1-i] = data[i][j]]. *)
Definition Rotate90CW (ppm : t) : option t :=
  newData ← Go.make (width ppm) ([] : list Pixel);
  newData ← Go.for_range 0 (width ppm) (fun i newData =>
      row ← Go.make (height ppm) zeroPixel;
      Go.update newData i row) newData;
  newData ← Go.for_range 0 (height ppm) (fun i newData =>
      Go.for_range 0 (width ppm) (fun j newData =>
        p ← Go.index2 (data ppm) i j;
        Go.update2 newData j (height ppm - 1 - i) p) newData) newData;
  Some (mk newData (height ppm) (width ppm) (magicNumber ppm) (max ppm)).

(** [0.299*R + 0.587*G + 0.114*B] in float64, each product and each sum
    rounded on its own. *)
Definition luma (p : Pixel) : F64.float64 :=
  F64.add
    (F64.add (F64.mul (F64.const 299 1000) (F64.ofInt (R p)))
             (F64.mul (F64.const 587 1000) (F64.ofInt (G p))))
    (F64.mul (F64.const 114 1000) (F64.ofInt (B p))).

(** [ToPBM]: a pixel is [true] when its luma is above
    [float64(max)/2]. *)
Definition ToPBM (ppm : t) : option PBM.t :=
  d ← Go.make (height ppm) ([] : list bool);
  d ← Go.for_range 0 (height ppm) (fun i d =>
      row ← Go.make (width ppm) false;
      d ← Go.update d i row;
      Go.for_range 0 (width ppm) (fun j d =>
        p ← Go.index2 (data ppm) i j;
        let gray := luma p in
        Go.update2 d i j
          (F64.gt gray (F64.quo (F64.ofInt (max ppm)) (F64.ofInt 2)))) d) d;
  Some (PBM.mk d (width ppm) (height ppm) "P1").

(** [DrawLine]: [steps+1] pixels from [p1], advancing by [dx/steps] and
    [dy/steps] in float64. *)
Definition DrawLine (ppm : t) (p1 p2 : Point) (color : Pixel) : option t :=
  let dx := F64.ofInt (Go.int64 (X p2 - X p1)) in
  let dy := F64.ofInt (Go.int64 (Y p2 - Y p1)) in
  let steps := F64.toInt (F64.Max (F64.Abs dx) (F64.Abs dy)) in
  let xIncrement := F64.quo dx (F64.ofInt steps) in
  let yIncrement := F64.quo dy (F64.ofInt steps) in
  '(ppm, _, _) ← Go.for_range 0 (steps + 1) (fun i '(ppm, x, y) =>
      ppm ← Set_ ppm (F64.toInt x) (F64.toInt y) color;
      Some (ppm, F64.add x xIncrement, F64.add y yIncrement))
    (ppm, F64.ofInt (X p1), F64.ofInt (Y p1));
  Some ppm.

Definition DrawRectangle (ppm : t) (p1 : Point) (width height : Z)
  (color : Pixel) : option t :=
  let p2 := mkPoint (Go.int64 (X p1 + width)) (Y p1) in
  let p3 := mkPoint (X p1) (Go.int64 (Y p1 + height)) in
  let p4 := mkPoint (Go.int64 (X p1 + width)) (Go.int64 (Y p1 + height)) in
  ppm ← DrawLine ppm p1 p2 color;
  ppm ← DrawLine ppm p2 p4 color;
  ppm ← DrawLine ppm p4 p3 color;
  DrawLine ppm p3 p1 color.

Definition DrawFilledRectangle (ppm : t) (p1 : Point) (width height : Z)
  (color : Pixel) : option t :=
  Go.for_range (Y p1) (Go.int64 (Y p1 + height)) (fun i ppm =>
    Go.for_range (X p1) (Go.int64 (X p1 + width)) (fun j ppm =>
      Set_ ppm j i color) ppm) ppm.

Definition DrawCircle (ppm : t) (center : Point) (radius : Z)
  (color : Pixel) : option t :=
  Go.for_range 0 (Go.int64 (radius * 2) + 1) (fun i ppm =>
    Go.for_range 0 (Go.int64 (radius * 2) + 1) (fun j ppm =>
      let x := Go.int64 (i - radius) in
      let y := Go.int64 (j - radius) in
      if Go.int64 (Go.int64 (x * x) + Go.int64 (y * y))
           <=? Go.int64 (radius * radius)
      then Set_ ppm (Go.int64 (X center + x)) (Go.int64 (Y center + y)) color
      else Some ppm) ppm) ppm.

Definition DrawFilledCircle (ppm : t) (center : Point) (radius : Z)
  (color : Pixel) : option t :=
  Go.for_range (Go.int64 (- radius)) (radius + 1) (fun i ppm =>
    Go.for_range (Go.int64 (- radius)) (radius + 1) (fun j ppm =>
      if Go.int64 (Go.int64 (i * i) + Go.int64 (j * j))
           <=? Go.int64 (radius * radius)
      then Set_ ppm (Go.int64 (X center + i)) (Go.int64 (Y center + j)) color
      else Some ppm) ppm) ppm.

Definition DrawTriangle (ppm : t) (p1 p2 p3 : Point) (color : Pixel)
  : option t :=
  ppm ← DrawLine ppm p1 p2 color;
  ppm ← DrawLine ppm p2 p3 color;
  DrawLine ppm p3 p1 color.

(** [if points[i].Y > points[j].Y { swap }] on the three vertices. *)
Definition sortStep (i j : Z) (points : list Point) : option (list Point) :=
  a ← Go.index points i; b ← Go.index points j;
  if Y a >? Y b then Go.swap points i j else Some points.

Definition DrawFilledTriangle (ppm : t) (p1 p2 p3 : Point) (color : Pixel)
  : option t :=
  points ← Go.for_range 0 2 (fun i points =>
    Go.for_range (i + 1) 3 (fun j points => sortStep i j points) points)
    [p1; p2; p3];
  q0 ← Go.index points 0; q1 ← Go.index points 1; q2 ← Go.index points 2;
  let slope a b :=
    F64.quo (F64.ofInt (Go.int64 (X b - X a)))
            (F64.ofInt (Go.int64 (Y b - Y a))) in
  let slope1 := slope q0 q1 in
  let slope2 := slope q0 q2 in
  let slope3 := slope q1 q2 in
  let edge q sl y :=
    F64.toInt (F64.add (F64.ofInt (X q))
                 (F64.mul sl (F64.ofInt (Go.int64 (y - Y q))))) in
  ppm ← Go.for_range (Y q0) (Y q1 + 1) (fun y ppm =>
    let x1 := edge q0 slope1 y in
    let x2 := edge q0 slope2 y in
    DrawLine ppm (mkPoint x1 y) (mkPoint x2 y) color) ppm;
  Go.for_range (Go.int64 (Y q1 + 1)) (Y q2 + 1) (fun y ppm =>
    let x1 := edge q1 slope3 y in
    let x2 := edge q0 slope2 y in
    DrawLine ppm (mkPoint x1 y) (mkPoint x2 y) color) ppm.

Definition DrawPolygon (ppm : t) (points : list Point) (color : Pixel)
  : option t :=
  ppm ← Go.for_range 0 (Go.len points - 1) (fun i ppm =>
    a ← Go.index points i; b ← Go.index points (i + 1);
    DrawLine ppm a b color) ppm;
  a ← Go.index points (Go.len points - 1); b ← Go.index points 0;
  DrawLine ppm a b color.

(** The bounding box of [DrawFilledPolygon]: [for _, p := range points]. *)
Definition boundingBox (points : list Point) : option (Z * Z * Z * Z) :=
  p0 ← Go.index points 0;
  Some (fold_left (fun '(minX, minY, maxX, maxY) p =>
          let minX := if X p <? minX then X p else minX in
          let maxX := if X p >? maxX then X p else maxX in
          let minY := if Y p <? minY then Y p else minY in
          let maxY := if Y p >? maxY then Y p else maxY in
          (minX, minY, maxX, maxY)) points (X p0, Y p0, X p0, Y p0)).

(** [DrawFilledPolygon]: on every scanline of the bounding box the edges
    are visited in order; an edge crossing the scanline left of its
    first vertex is counted, and after every edge, counted or not, the
    pixel under that vertex is set when the count is odd. *)
Definition DrawFilledPolygon (ppm : t) (points : list Point) (color : Pixel)
  : option t :=
  '(minX, minY, maxX, maxY) ← boundingBox points;
  Go.for_range minY (maxY + 1) (fun y ppm =>
    '(ppm, _) ← Go.for_range 0 (Go.len points) (fun i '(ppm, intersections) =>
      a ← Go.index points i;
      b ← Go.index points (Go.rem (i + 1) (Go.len points));
      let '(x1, y1, x2, y2) := (X a, Y a, X b, Y b) in
      let crosses :=
        ((y1 <=? y) && (y <? y2)) || ((y2 <=? y) && (y <? y1)) in
      let xi :=
        F64.toInt
          (F64.add (F64.ofInt x1)
             (F64.mul (F64.quo (F64.ofInt (Go.int64 (y - y1)))
                               (F64.ofInt (Go.int64 (y2 - y1))))
                      (F64.ofInt (Go.int64 (x2 - x1))))) in
      let intersections :=
        if crosses && (xi <? X a) then Go.int64 (intersections + 1)
        else intersections in
      if negb (Go.rem intersections 2 =? 0)
      then ppm ← Set_ ppm (X a) y color; Some (ppm, intersections)
      else Some (ppm, intersections)) (ppm, 0);
    Some ppm) ppm.

(** [ToPGM]: every pixel becomes the sample [uint8] of its luma; the
    graymap is plain ("P2") and keeps the max value. *)
Definition ToPGM (ppm : t) : option PGM.t :=
  d ← Go.make (height ppm) ([] : list Z);
  d ← Go.for_range 0 (height ppm) (fun i d =>
      row ← Go.make (width ppm) 0;
      d ← Go.update d i row;
      Go.for_range 0 (width ppm) (fun j d =>
        p ← Go.index2 (data ppm) i j;
        let gray := F64.toUint8 (luma p) in
        Go.update2 d i j gray) d) d;
  Some (PGM.mk d (width ppm) (height ppm) "P2" (max ppm)).

End PPM.

(** ** strconv *)

Module strconv.

Inductive parsed := Value (n : Z) | SyntaxError | RangeError.

(** [ParseUint(s, 10, 64)] from the left: a byte that is no digit is a
    syntax error, a value that leaves [uint64] a range error, whichever
    comes first. *)
Fixpoint parseUint (n : Z) (s : string) : parsed :=
  match s with
  | EmptyString => Value n
  | String c s' =>
      if fmt.isDigit c then
        let n1 := 10 * n + (Str.code c - 48) in
        if 2 ^ 64 <=? n1 then RangeError else parseUint n1 s'
      else SyntaxError
  end.

(** [Atoi]: an optional sign, then digits.  The value and whether an
    error is returned: 0 with a syntax error, the nearest [int] with a
    range error. *)
Definition Atoi (s : string) : Z * bool :=
  let '(neg, digits) :=
    match s with
    | String c s' =>
        if fmt.isSign c then (Str.code c =? 45, s') else (false, s)
    | EmptyString => (false, s)
    end in
  if Str.isEmpty digits then (0, true) else
  match parseUint 0 digits with
  | SyntaxError => (0, true)
  | RangeError => if neg then (- 2 ^ 63, true) else (2 ^ 63 - 1, true)
  | Value un =>
      if neg then (if 2 ^ 63 <? un then (- 2 ^ 63, true) else (- un, false))
      else (if 2 ^ 63 <=? un then (2 ^ 63 - 1, true) else (un, false))
  end.

End strconv.

(** ** PGM of package functions: a graymap kept as text *)

Module PGM3.

Record t := mk {
  data : list (list Z);
  width : Z;
  height : Z;
  magicNumber : string;
  max : Z
}.

(** What [ReadPGM] does on an opened file: it returns an image, or the
    error for a magic number that is neither P2 nor P5, or it panics. *)
Inductive outcome := Image (pgm : t) | Unsupported | Panics.

(** [ReadPGM] on the content of the opened file; the results of [Scan]
    and the errors of [Atoi] are not looked at. *)
Definition ReadPGM (content : string) : outcome :=
  let scanner := bufio.NewScanner content in
  let scanner := bufio.Scan scanner in
  let magicNumber := bufio.Text scanner in
  if negb (String.eqb magicNumber "P2") && negb (String.eqb magicNumber "P5")
  then Unsupported else
  let scanner := bufio.Scan scanner in
  let dimensions := strings.Fields (bufio.Text scanner) in
  let decoded :=
    d0 ← Go.index dimensions 0;
    let width := fst (strconv.Atoi d0) in
    d1 ← Go.index dimensions 1;
    let height := fst (strconv.Atoi d1) in
    let scanner := bufio.Scan scanner in
    let maxVal := fst (strconv.Atoi (bufio.Text scanner)) in
    data ← Go.make height ([] : list Z);
    '(_, data) ← Go.for_range 0 (Go.len data) (fun i '(scanner, data) =>
        row ← Go.make width 0;
        data ← Go.update data i row;
        Go.for_range 0 (Go.len row) (fun j '(scanner, data) =>
          let scanner := bufio.Scan scanner in
          let val := fst (strconv.Atoi (bufio.Text scanner)) in
          data ← Go.update2 data i j (Go.uint8 val);
          Some (scanner, data)) (scanner, data)) (scanner, data);
    Some (mk data width height magicNumber maxVal) in
  match decoded with
  | Some pgm => Image pgm
  | None => Panics
  end.

(** [Save]: the header, then every sample on a line of its own,
    whatever the magic number; the result is what is written to the
    file. *)
Definition Save (pgm : t) : option string :=
  let header :=
    (magicNumber pgm ++ Str.nl ++ fmt.d (width pgm) ++ " "
       ++ fmt.d (height pgm) ++ Str.nl ++ fmt.d (max pgm) ++ Str.nl)%string in
  body ← Go.for_range 0 (height pgm) (fun i out =>
      Go.for_range 0 (width pgm) (fun j out =>
        v ← Go.index2 (data pgm) i j;
        Some (out ++ fmt.d v ++ Str.nl)%string) out) EmptyString;
  Some (header ++ body)%string.

End PGM3.

(** * Specifications *)

Module Spec.

(** Column [c] of a raster row; columns past the end read as zero bits. *)
Definition column (src : list bool) (c : Z) : bool :=
  default false (Go.index src c).

(** What the [x] loop of [saveP4] has established before column [k]: the
    row keeps its length, every byte is a byte, and bit [7 - c mod 8] of
    byte [c / 8] holds column [c] for the columns below [k], the other
    bits being zero. *)
Definition packed (src : list bool) (n k : Z) (row : list Z) : Prop :=
  Go.len row = n /\
  forall q byte, Go.index row q = Some byte ->
    0 <= byte < 256 /\
    forall c, 0 <= c < 8 ->
      Z.testbit byte (7 - c) = (8 * q + c <? k) && column src (8 * q + c).

(** The raster-shape invariant: [h] rows of [w] samples each. *)
Definition shape {A} (d : list (list A)) (w h : Z) : Prop :=
  Go.len d = h /\ Forall (fun row => Go.len row = w) d.

(** An image of any of the three formats, and its header: width,
    height, magic number and, but for bitmaps, max value. *)
Inductive image :=
| Bitmap (pbm : PBM.t)
| Graymap (pgm : PGM.t)
| Pixmap (ppm : PPM.t).

Definition header (img : image) : Z * Z * string * option Z :=
  match img with
  | Bitmap p => (PBM.width p, PBM.height p, PBM.magicNumber p, None)
  | Graymap p =>
      (PGM.width p, PGM.height p, PGM.magicNumber p, Some (PGM.max p))
  | Pixmap p =>
      (PPM.width p, PPM.height p, PPM.magicNumber p, Some (PPM.max p))
  end.

Definition well_shaped (img : image) : Prop :=
  match img with
  | Bitmap p => shape (PBM.data p) (PBM.width p) (PBM.height p)
  | Graymap p => shape (PGM.data p) (PGM.width p) (PGM.height p)
  | Pixmap p => shape (PPM.data p) (PPM.width p) (PPM.height p)
  end.

(** The in-place transforms that keep the dimensions. *)
Inductive transform := Invert | Flip | Flop.

Definition apply (t : transform) (img : image) : option image :=
  match img, t with
  | Bitmap p, Invert => Bitmap <$> PBM.Invert p
  | Bitmap p, Flip => Bitmap <$> PBM.Flip p
  | Bitmap p, Flop => Bitmap <$> PBM.Flop p
  | Graymap p, Invert => Graymap <$> PGM.Invert p
  | Graymap p, Flip => Graymap <$> PGM.Flip p
  | Graymap p, Flop => Graymap <$> PGM.Flop p
  | Pixmap p, Invert => Pixmap <$> PPM.Invert p
  | Pixmap p, Flip => Pixmap <$> PPM.Flip p
  | Pixmap p, Flop => Pixmap <$> PPM.Flop p
  end.

(** [d'] is [d], of [h] rows and [w] columns, turned a quarter clockwise:
    [w] rows of [h] samples, row [i] column [j] holding what [d] has at
    row [h-1-j], column [i]. *)
Definition rotated {A} (d d' : list (list A)) (w h : Z) : Prop :=
  shape d' h w /\
  forall i j, 0 <= i < w -> 0 <= j < h ->
    Go.index2 d' i j = Go.index2 d (h - 1 - j) i.

(** Row [i] of the new raster [nd] is complete: it has [cols] samples, and
    column [j] holds [cell i j]. *)
Definition filled {B} (cell : Z -> Z -> option B) (cols : Z)
  (nd : list (list B)) (i : Z) : Prop :=
  (exists row, Go.index nd i = Some row /\ Go.len row = cols) /\
  forall j, 0 <= j < cols -> Go.index2 nd i j = cell i j.

(** The cells a row-by-row loop has visited before row [k], column [m]. *)
Definition visited (k m i j : Z) : bool :=
  (i <? k) || ((i =? k) && (j <? m)).

(** The spec's rescale: [s * newMax / oldMax] rounded to the nearest
    integer, a half upwards. *)
Definition rescale_rounded (s newMax oldMax : Z) : Z :=
  (2 * s * newMax + oldMax) / (2 * oldMax).

(** What bounds the iterations of [bufio.readString]: two for every
    byte still in the file, one more for a full buffer. *)
Definition pending (b : bufio.Reader) : nat :=
  (2 * String.length (bufio.file b)
   + (if Z.leb bufio.defaultBufSize (Str.len (bufio.buffered b)) then 1
      else 0))%nat.

(** Four calls in a row. *)
Definition four_times {T} (f : T -> option T) (x : T) : option T :=
  x1 ← f x; x2 ← f x1; x3 ← f x2; f x3.

(** ** Notions used by the further properties *)

(** A Go [uint8] sample, a pixel of three of them, and a raster all of
    whose samples satisfy [P]. *)
Definition byte (v : Z) : Prop := 0 <= v < 256.

Definition byte_pixel (p : PPM.Pixel) : Prop :=
  byte (PPM.R p) /\ byte (PPM.G p) /\ byte (PPM.B p).

Definition samples {A} (P : A -> Prop) (d : list (list A)) : Prop :=
  Forall (Forall P) d.

Definition byte_samples (img : image) : Prop :=
  match img with
  | Bitmap _ => True
  | Graymap p => samples byte (PGM.data p)
  | Pixmap p => samples byte_pixel (PPM.data p)
  end.

(** Two calls in a row. *)
Definition twice {T} (f : T -> option T) (x : T) : option T :=
  x1 ← f x; f x1.

(** Every byte of [s] satisfies [p]. *)
Fixpoint every (p : ascii -> bool) (s : string) : bool :=
  match s with
  | EmptyString => true
  | String c s' => p c && every p s'
  end.

(** The first byte of [s], if any, satisfies [p]. *)
Definition starts (p : ascii -> bool) (s : string) : bool :=
  match s with
  | EmptyString => false
  | String c _ => p c
  end.

(** The value [parseDigits] accumulates over the decimal [d]. *)
Fixpoint valueZ (acc : Z) (d : Decimal.uint) : Z :=
  match d with
  | Decimal.Nil => acc
  | Decimal.D0 l => valueZ (10 * acc) l
  | Decimal.D1 l => valueZ (10 * acc + 1) l
  | Decimal.D2 l => valueZ (10 * acc + 2) l
  | Decimal.D3 l => valueZ (10 * acc + 3) l
  | Decimal.D4 l => valueZ (10 * acc + 4) l
  | Decimal.D5 l => valueZ (10 * acc + 5) l
  | Decimal.D6 l => valueZ (10 * acc + 6) l
  | Decimal.D7 l => valueZ (10 * acc + 7) l
  | Decimal.D8 l => valueZ (10 * acc + 8) l
  | Decimal.D9 l => valueZ (10 * acc + 9) l
  end.

(** The bytes a reader has yet to deliver. *)
Definition stream (b : bufio.Reader) : string :=
  (bufio.buffered b ++ bufio.file b)%string.

(** Nothing is left in the file, or nothing has been fetched from a
    file that one read will fetch whole. *)
Definition fits (b : bufio.Reader) : Prop :=
  bufio.file b = EmptyString \/
  (bufio.buffered b = EmptyString /\
   Str.len (bufio.file b) <= bufio.defaultBufSize).
(** Bytes that end no line, and bytes that end no field. *)
Definition notNewline (c : ascii) : bool := negb (Ascii.eqb c Str.newline).
Definition notSpace (c : ascii) : bool := negb (strings.isSpace c).

(** The pieces [g j x] of the entries of [l], numbered from [j], one
    after the other: what a loop writes that appends [g j x] for entry
    [j]. *)
Fixpoint flati {X} (g : Z -> X -> string) (j : Z) (l : list X) : string :=
  match l with
  | [] => EmptyString
  | x :: l' => (g j x ++ flati g (j + 1) l')%string
  end.

(** The separator after sample [j] of [w]: a space, but for the last. *)
Definition sep (w j : Z) : string := if j <? w - 1 then " " else "".

(** What the encoders write after the header: a line of decimals for
    every row of a plain graymap, the sample bytes of a raw one. *)
Definition rowP2 (w : Z) (row : list Z) : string :=
  flati (fun x v => (fmt.d v ++ sep w x)%string) 0 row.

Definition textP2 (w : Z) (d : list (list Z)) : string :=
  flati (fun _ row => (rowP2 w row ++ Str.nl)%string) 0 d.

Definition textP5 (d : list (list Z)) : string :=
  flati (fun _ row => Str.ofBytes row) 0 d.

(** A bitmap sample as [saveP1] writes it. *)
Definition bit (b : bool) : string := if b then "1" else "0".

Definition textP1 (w : Z) (d : list (list bool)) : string :=
  flati (fun _ row =>
    (flati (fun x b => (bit b ++ sep w x)%string) 0 row ++ Str.nl)%string)
    0 d.

(** The bytes [saveP4] writes for row [y], and its whole output. *)
Definition packedRow (pbm : PBM.t) (y : Z) : list Z :=
  default [] (PBM.saveP4_row pbm y).

Definition textP4 (pbm : PBM.t) : string :=
  flati (fun y (_ : list bool) => Str.ofBytes (packedRow pbm y)) 0
    (PBM.data pbm).

(** Bytes that [Scan] hands over as they are: neither a newline nor a
    carriage return. *)
Definition plain (c : ascii) : bool :=
  negb (Ascii.eqb c Str.newline) && negb (Ascii.eqb c (Str.byte 13)).

(** The line [Save] writes for a pixel, and the lines of a pixmap. *)
Definition pixelLine (p : PPM.Pixel) : string :=
  (fmt.d (PPM.R p) ++ " " ++ fmt.d (PPM.G p) ++ " " ++ fmt.d (PPM.B p)
     ++ Str.nl)%string.

Definition textP3 (d : list (list PPM.Pixel)) : string :=
  flati (fun _ row => flati (fun _ p => pixelLine p) 0 row) 0 d.

(** The gray pixel of level [v], and the 256 levels. *)
Definition grayPixel (v : Z) : PPM.Pixel := PPM.mkPixel v v v.
Definition levels : list Z := Z.of_nat <$> seq 0 256.

(** The values an operand of [Sscanf] can hold. *)
Definition inRange (o : fmt.operand) (v : Z) : Prop :=
  match o with
  | fmt.Int => - 2 ^ 63 <= v < 2 ^ 63
  | fmt.Uint => 0 <= v < 2 ^ 64
  | fmt.Uint8 => 0 <= v < 2 ^ 8
  end.

(** [paintedIn region color ppm ppm']: the header of [ppm'] is that of
    [ppm], and at every address the pixel of [ppm'] is the pixel of
    [ppm], or the address is a pixel of [ppm] inside [region] that now
    holds [color]. *)
Definition paintedIn (region : Z -> Z -> Prop) (color : PPM.Pixel)
  (ppm ppm' : PPM.t) : Prop :=
  PPM.width ppm' = PPM.width ppm /\ PPM.height ppm' = PPM.height ppm /\
  PPM.magicNumber ppm' = PPM.magicNumber ppm /\
  PPM.max ppm' = PPM.max ppm /\
  forall x y,
    PPM.At ppm' x y = PPM.At ppm x y \/
    (region x y /\ is_Some (PPM.At ppm x y) /\
     PPM.At ppm' x y = Some color).

Definition painted : PPM.Pixel -> PPM.t -> PPM.t -> Prop :=
  paintedIn (fun _ _ => True).

(** The drawing operations of a pixmap, with their arguments. *)
Inductive drawing : Type :=
  | Line (p1 p2 : PPM.Point)
  | Rectangle (p1 : PPM.Point) (width height : Z)
  | FilledRectangle (p1 : PPM.Point) (width height : Z)
  | Circle (center : PPM.Point) (radius : Z)
  | FilledCircle (center : PPM.Point) (radius : Z)
  | Triangle (p1 p2 p3 : PPM.Point)
  | FilledTriangle (p1 p2 p3 : PPM.Point)
  | Polygon (points : list PPM.Point)
  | FilledPolygon (points : list PPM.Point).

Definition draw (ppm : PPM.t) (op : drawing) (color : PPM.Pixel)
  : option PPM.t :=
  match op with
  | Line p1 p2 => PPM.DrawLine ppm p1 p2 color
  | Rectangle p1 w h => PPM.DrawRectangle ppm p1 w h color
  | FilledRectangle p1 w h => PPM.DrawFilledRectangle ppm p1 w h color
  | Circle c r => PPM.DrawCircle ppm c r color
  | FilledCircle c r => PPM.DrawFilledCircle ppm c r color
  | Triangle p1 p2 p3 => PPM.DrawTriangle ppm p1 p2 p3 color
  | FilledTriangle p1 p2 p3 => PPM.DrawFilledTriangle ppm p1 p2 p3 color
  | Polygon points => PPM.DrawPolygon ppm points color
  | FilledPolygon points => PPM.DrawFilledPolygon ppm points color
  end.

(** The scanlines and the columns [DrawFilledPolygon] can reach: a
    column of a vertex, on a row between two vertices. *)
Definition vertexColumn (points : list PPM.Point) (x y : Z) : Prop :=
  Exists (fun p => PPM.X p = x) points /\
  Exists (fun p => PPM.Y p <= y) points /\
  Exists (fun p => y <= PPM.Y p) points.



(** The offsets [i], [j] from the centre that lie in the disc of a
    radius. *)
Definition inDisc (radius i j : Z) : Prop := i * i + j * j <= radius * radius.

#[global] Instance inDisc_dec (radius i j : Z) : Decision (inDisc radius i j) :=
  Z_le_dec (i * i + j * j) (radius * radius).

End Spec.

(** * Example images *)

Module Examples.

Definition o : PPM.Pixel := PPM.zeroPixel.
Definition red : PPM.Pixel := PPM.mkPixel 255 0 0.

(** The blank 4x4 canvas. *)
Definition canvas4 : PPM.t :=
  PPM.mk [[o; o; o; o]; [o; o; o; o]; [o; o; o; o]; [o; o; o; o]]
    4 4 "P3" 255.

(** The canvas with the red diagonal. *)
Definition diagonal4 : PPM.t :=
  PPM.mk [[red; o; o; o]; [o; red; o; o]; [o; o; red; o]; [o; o; o; red]]
    4 4 "P3" 255.

Definition pix3x2 : PPM.t :=
  PPM.mk [[red; o; o]; [o; o; PPM.mkPixel 1 2 3]] 3 2 "P3" 255.

Definition pix2x2 : PPM.t :=
  PPM.mk [[red; o]; [PPM.mkPixel 1 2 3; PPM.mkPixel 9 8 7]] 2 2 "P3" 255.

(** The ten-column row 1,0,1,0,1,0,1,0,1,0 as a binary bitmap. *)
Definition row10 : PBM.t :=
  PBM.mk [[true; false; true; false; true; false; true; false; true; false]]
    10 1 "P4".

Definition bitmap3x2 : PBM.t :=
  PBM.mk [[true; true; false]; [false; false; true]] 3 2 "P4".

Definition bitmap10x2 : PBM.t :=
  PBM.mk [[true; false; true; false; true; false; true; false; true; false];
          [false; false; false; false; false; false; false; false; true;
           true]] 10 2 "P1".

(** The 2x2 graymap "P2\n2 2\n255\n0 255\n128 64\n". *)
Definition gray2x2 : PGM.t := PGM.mk [[0; 255]; [128; 64]] 2 2 "P2" 255.

Definition gray3x2 : PGM.t := PGM.mk [[0; 255; 7]; [128; 64; 9]] 3 2 "P2" 255.

(** A graymap of max value 3, and one of one sample. *)
Definition gray3x2_max3 : PGM.t := PGM.mk [[1; 2; 3]; [0; 3; 1]] 3 2 "P2" 3.
Definition gray1x1_max3 : PGM.t := PGM.mk [[1]] 1 1 "P2" 3.
Definition gray1x1_max0 : PGM.t := PGM.mk [[1]] 1 1 "P2" 0.
Definition pix1x1_max3 : PPM.t := PPM.mk [[PPM.mkPixel 1 1 1]] 1 1 "P3" 3.

(** One bright sample, 200 of 255, in each of the three formats that
    convert to a bitmap. *)
Definition bright : PGM.t := PGM.mk [[200]] 1 1 "P2" 255.
Definition bright2 : PGM2.t := PGM2.mk [[200]] 1 1 "P2" 255.
Definition brightPixel : PPM.t :=
  PPM.mk [[PPM.mkPixel 200 200 200]] 1 1 "P3" 255.

(** A 100x100 binary graymap and a 64x600 binary bitmap: 10015 and 4810
    bytes when encoded. *)
Definition gray100x100 : PGM.t :=
  PGM.mk (replicate 100 (replicate 100 7)) 100 100 "P5" 255.
Definition bitmap64x600 : PBM.t :=
  PBM.mk (replicate 600 (replicate 64 true)) 64 600 "P4".

(** A stream whose header declares the magic number P9. *)
Definition streamP9 : string :=
  ("P9" ++ Str.nl ++ "1 1" ++ Str.nl ++ "255" ++ Str.nl ++ "1 2 3"
     ++ Str.nl)%string.

(** A plain bitmap and a plain graymap as files. *)
Definition streamP1 : string :=
  ("P1" ++ Str.nl ++ "3 2" ++ Str.nl ++ "1 1 0" ++ Str.nl ++ "0 0 1"
     ++ Str.nl)%string.

Definition streamP2 : string :=
  ("P2" ++ Str.nl ++ "2 2" ++ Str.nl ++ "255" ++ Str.nl ++ "0 255"
     ++ Str.nl ++ "128 64" ++ Str.nl)%string.

(** What [DrawFilledTriangle] on (1,0), (3,3), (0,3) and
    [DrawFilledPolygon] on (3,0), (0,3), (3,3) leave of the blank
    canvas. *)
Definition triangle4 : PPM.t :=
  PPM.mk [[o; red; o; o]; [red; red; o; o]; [red; red; red; o];
          [red; red; red; red]]
    4 4 "P3" 255.

Definition columns4 : PPM.t :=
  PPM.mk [[o; o; o; o]; [red; o; o; red]; [red; o; o; red]; [o; o; o; o]]
    4 4 "P3" 255.

End Examples.

Import Spec.

(** * Properties *)

(** ** Slices and loops *)

Section Slices.

Context {A : Type}.
Implicit Types (l : list A) (d : list (list A)).

Lemma index_Some l i v :
  Go.index l i = Some v <-> 0 <= i /\ l !! Z.to_nat i = Some v.
Proof.
  unfold Go.index. destruct (Z.ltb_spec i 0); split.
  - discriminate.
  - intros [? _]. lia.
  - intros H1. split; [lia | exact H1].
  - intros [_ H1]. exact H1.
Qed.

Lemma index_in_range l i :
  0 <= i < Go.len l -> exists v, Go.index l i = Some v.
Proof.
  intros Hi. unfold Go.len in Hi.
  destruct (lookup_lt_is_Some_2 l (Z.to_nat i)) as [v Hv]; [lia |].
  exists v. apply index_Some. split; [lia | exact Hv].
Qed.

Lemma index_range l i v : Go.index l i = Some v -> 0 <= i < Go.len l.
Proof.
  intros [H0 H1]%index_Some. apply lookup_lt_Some in H1.
  unfold Go.len. lia.
Qed.

Lemma index_None l i : ~ (0 <= i < Go.len l) -> Go.index l i = None.
Proof.
  intros Hi. destruct (Go.index l i) eqn:E; [| reflexivity].
  apply index_range in E. contradiction.
Qed.

Lemma update_Some l i v :
  0 <= i < Go.len l -> Go.update l i v = Some (<[Z.to_nat i := v]> l).
Proof.
  intros Hi. unfold Go.update, Go.len in *.
  destruct (Z.leb_spec 0 i); [| lia].
  destruct (Z.ltb_spec i (Z.of_nat (length l))); [reflexivity | lia].
Qed.

Lemma update_inv l i v l' :
  Go.update l i v = Some l' ->
  0 <= i < Go.len l /\ l' = <[Z.to_nat i := v]> l.
Proof.
  unfold Go.update, Go.len.
  destruct (Z.leb_spec 0 i); [| discriminate].
  destruct (Z.ltb_spec i (Z.of_nat (length l))); [| discriminate].
  intros [= <-]. split; [lia | reflexivity].
Qed.

Lemma update_None l i v : ~ (0 <= i < Go.len l) -> Go.update l i v = None.
Proof.
  intros Hi. destruct (Go.update l i v) eqn:E; [| reflexivity].
  apply update_inv in E as [? _]. contradiction.
Qed.

Lemma len_insert l n v : Go.len (<[n := v]> l) = Go.len l.
Proof. unfold Go.len. by rewrite length_insert. Qed.

Lemma index_insert_eq l i v :
  0 <= i < Go.len l -> Go.index (<[Z.to_nat i := v]> l) i = Some v.
Proof.
  intros Hi. apply index_Some. split; [lia |].
  apply list_lookup_insert_eq. unfold Go.len in Hi. lia.
Qed.

Lemma index_insert_ne l i j v :
  0 <= i -> i <> j -> Go.index (<[Z.to_nat i := v]> l) j = Go.index l j.
Proof.
  intros Hi Hne. unfold Go.index. destruct (j <? 0) eqn:E; [reflexivity |].
  apply Z.ltb_ge in E. apply list_lookup_insert_ne. lia.
Qed.

Lemma make_Some n (z : A) :
  0 <= n -> Go.make n z = Some (replicate (Z.to_nat n) z).
Proof.
  intros Hn. unfold Go.make. destruct (Z.ltb_spec n 0); [lia | reflexivity].
Qed.

Lemma len_replicate n (z : A) : 0 <= n -> Go.len (replicate (Z.to_nat n) z) = n.
Proof. intros Hn. unfold Go.len. rewrite length_replicate. lia. Qed.

Lemma index_replicate n (z : A) i :
  0 <= i < n -> Go.index (replicate (Z.to_nat n) z) i = Some z.
Proof.
  intros Hi. apply index_Some. split; [lia |].
  apply lookup_replicate_2. lia.
Qed.

End Slices.

Section Loops.

Context {S : Type}.
Implicit Types (body : Z -> S -> option S).

(** The invariant rule of the counted loop: an invariant that every
    iteration re-establishes without a panic holds at the end, and the
    loop ends without a panic. *)
Lemma loop_invariant (P : Z -> S -> Prop) n i body s :
  P i s ->
  (forall k t, i <= k < i + Z.of_nat n -> P k t ->
     exists t', body k t = Some t' /\ P (k + 1) t') ->
  exists s', Go.loop n i body s = Some s' /\ P (i + Z.of_nat n) s'.
Proof.
  revert i s. induction n as [| n IH]; intros i s HP Hstep.
  - exists s. split; [reflexivity |]. by replace (i + Z.of_nat 0) with i by lia.
  - destruct (Hstep i s) as (t & Hb & Ht); [lia | exact HP |].
    cbn [Go.loop]. rewrite Hb.
    destruct (IH (i + 1) t Ht) as (s' & Hl & Hs').
    + intros k u Hk. apply Hstep. lia.
    + exists s'. split; [exact Hl |].
      by replace (i + Z.of_nat (Datatypes.S n)) with (i + 1 + Z.of_nat n) by lia.
Qed.

Lemma for_range_invariant (P : Z -> S -> Prop) lo hi body s :
  lo <= hi ->
  P lo s ->
  (forall k t, lo <= k < hi -> P k t ->
     exists t', body k t = Some t' /\ P (k + 1) t') ->
  exists s', Go.for_range lo hi body s = Some s' /\ P hi s'.
Proof.
  intros Hle HP Hstep. unfold Go.for_range.
  destruct (loop_invariant P (Z.to_nat (hi - lo)) lo body s HP)
    as (s' & Hl & Hs').
  - intros k t Hk. apply Hstep. lia.
  - exists s'. split; [exact Hl |].
    by replace (lo + Z.of_nat (Z.to_nat (hi - lo))) with hi in Hs' by lia.
Qed.

Lemma for_range_empty lo hi body s :
  hi <= lo -> Go.for_range lo hi body s = Some s.
Proof.
  intros Hle. unfold Go.for_range.
  by replace (Z.to_nat (hi - lo)) with O by lia.
Qed.

End Loops.

(** ** The buffered reader *)

Section Reader.

Lemma length_drop (n : nat) (s : string) :
  String.length (Str.drop n s) = (String.length s - n)%nat.
Proof.
  revert s. induction n as [| n IH]; intros s.
  - cbn. lia.
  - destruct s as [| c s]; cbn; [reflexivity | apply IH].
Qed.

(** [readString] never runs out of its fuel: any two amounts above
    [pending] give the same result, and [ReadString] starts above it. *)
Lemma readString_fuel (fuel1 fuel2 : nat) (delim : ascii) (acc : string)
  (b : bufio.Reader) :
  (pending b < fuel1)%nat -> (pending b < fuel2)%nat ->
  bufio.readString fuel1 delim acc b = bufio.readString fuel2 delim acc b.
Proof.
  revert fuel2 acc b.
  induction fuel1 as [| fuel1 IH]; intros fuel2 acc b H1 H2; [lia |].
  destruct fuel2 as [| fuel2]; [lia |].
  cbn [bufio.readString].
  destruct (Str.cut delim (bufio.buffered b)) as [[l r] |]; [reflexivity |].
  unfold pending in H1, H2.
  destruct (Z.leb_spec bufio.defaultBufSize (Str.len (bufio.buffered b)))
    as [Hfull | Hfree].
  - apply IH; unfold pending; cbn [bufio.file bufio.buffered];
      change (bufio.defaultBufSize <=? Str.len "") with false; cbv iota; lia.
  - destruct (bufio.file b) as [| c f] eqn:Hfile; [reflexivity |].
    cbn [Str.isEmpty].
    assert (Hfill : (pending (bufio.fill b) < 2 * String.length (bufio.file b))%nat).
    { unfold pending, bufio.fill. cbn [bufio.file bufio.buffered].
      rewrite length_drop. rewrite Hfile. cbn [String.length].
      unfold Str.len, bufio.defaultBufSize in *.
      destruct (_ <=? _); lia. }
    rewrite Hfile in Hfill. cbn [String.length] in Hfill, H1, H2.
    apply IH; lia.
Qed.

Lemma ReadString_fuel (fuel : nat) (delim : ascii) (b : bufio.Reader) :
  (2 * String.length (bufio.file b) + 2 <= fuel)%nat ->
  bufio.readString fuel delim EmptyString b = bufio.ReadString delim b.
Proof.
  intros Hfuel. unfold bufio.ReadString.
  apply readString_fuel; unfold pending; destruct (_ <=? _); lia.
Qed.

Lemma take_all (n : nat) (s : string) :
  (String.length s <= n)%nat -> Str.take n s = s.
Proof.
  revert n. induction s as [| c s IH]; intros n Hn.
  - by destruct n.
  - destruct n as [| n]; cbn in *; [lia |]. rewrite IH; [reflexivity | lia].
Qed.

Lemma drop_all (n : nat) (s : string) :
  (String.length s <= n)%nat -> Str.drop n s = EmptyString.
Proof.
  revert n. induction s as [| c s IH]; intros n Hn.
  - by destruct n.
  - destruct n as [| n]; cbn in *; [lia |]. apply IH. lia.
Qed.

(** A buffer that holds some bytes, but fewer than asked for, is all
    that [Read] delivers, whatever the file still holds: a short count
    and no [io.EOF]. *)
Lemma Read_short (n : nat) (b : bufio.Reader) :
  bufio.buffered b <> EmptyString ->
  (String.length (bufio.buffered b) < n)%nat ->
  bufio.Read n b
  = (bufio.buffered b, false, bufio.mkReader EmptyString (bufio.file b)).
Proof.
  intros Hne Hlt. unfold bufio.Read.
  destruct n as [| n]; [lia |]. cbn [Nat.eqb].
  destruct (bufio.buffered b) as [| c s] eqn:E; [done |].
  cbn [Str.isEmpty]. rewrite take_all, drop_all by lia. reflexivity.
Qed.

End Reader.

(** ** PBM: the P4 row encoder *)

Section PackBits.

Lemma bit_of_column k :
  0 <= k -> Go.uint8 (Z.shiftl 1 (7 - Go.rem k 8)) = 2 ^ (7 - k mod 8).
Proof.
  intros Hk. unfold Go.rem, Go.uint8. rewrite Z.rem_mod_nonneg by lia.
  rewrite Z.shiftl_1_l.
  assert (0 <= k mod 8 < 8) by (apply Z.mod_pos_bound; lia).
  apply Z.mod_small. split; [apply Z.pow_nonneg; lia |].
  change 256 with (2 ^ 8). apply Z.pow_lt_mono_r; lia.
Qed.

Lemma lor_bit_range byte t :
  0 <= byte < 256 -> 0 <= t < 8 -> 0 <= Z.lor byte (2 ^ t) < 256.
Proof.
  intros Hb Ht. split; [apply Z.lor_nonneg; split; [lia | apply Z.pow_nonneg; lia] |].
  change 256 with (2 ^ 8).
  destruct (Z.eq_dec (Z.lor byte (2 ^ t)) 0) as [-> | Hne]; [reflexivity |].
  apply Z.log2_lt_pow2.
  - assert (0 <= Z.lor byte (2 ^ t)).
    { apply Z.lor_nonneg. split; [lia | apply Z.pow_nonneg; lia]. }
    lia.
  - rewrite Z.log2_lor by (try lia; apply Z.pow_nonneg; lia).
    apply Z.max_lub_lt.
    + destruct (Z.eq_dec byte 0) as [-> | ?]; [reflexivity |].
      apply Z.log2_lt_pow2; lia.
    + rewrite Z.log2_pow2; lia.
Qed.

Lemma packed_step src n k row :
  0 <= k < Go.len src -> k < 8 * n ->
  packed src n k row ->
  exists row',
    (b ← Go.index src k;
     if (b : bool) then
       old ← Go.index row (Go.div k 8);
       Go.update row (Go.div k 8)
         (Z.lor old (Go.uint8 (Z.shiftl 1 (7 - Go.rem k 8))))
     else Some row) = Some row' /\ packed src n (k + 1) row'.
Proof.
  intros Hk Hn [Hlen Hbits].
  destruct (index_in_range src k Hk) as [b Hb]. rewrite Hb. cbn.
  assert (Hq : Go.div k 8 = k / 8) by (unfold Go.div; apply Z.quot_div_nonneg; lia).
  assert (Hm : 0 <= k mod 8 < 8) by (apply Z.mod_pos_bound; lia).
  assert (Hdm := Z.div_mod k 8 ltac:(lia)).
  assert (Hqr : 0 <= k / 8 < Go.len row) by (rewrite Hlen; lia).
  destruct (index_in_range row (k / 8) Hqr) as [old Hold].
  destruct (Hbits _ _ Hold) as [Hrange Hold_bits].
  destruct b.
  - rewrite Hq, Hold. cbn. rewrite bit_of_column by lia.
    rewrite update_Some by exact Hqr. eexists. split; [reflexivity |].
    split; [by rewrite len_insert |].
    intros q byte Hbyte.
    destruct (Z.eq_dec (k / 8) q) as [<- | Hne].
    + rewrite index_insert_eq in Hbyte by exact Hqr. injection Hbyte as <-.
      split; [apply lor_bit_range; lia |].
      intros c Hc. rewrite Z.lor_spec, Z.pow2_bits_eqb by lia.
      rewrite Hold_bits by exact Hc.
      destruct (Z.eq_dec c (k mod 8)) as [-> | Hc'].
      * rewrite Z.eqb_refl, orb_true_r.
        replace (8 * (k / 8) + k mod 8) with k by lia.
        unfold column. rewrite Hb. cbn.
        symmetry. rewrite andb_true_r. apply Z.ltb_lt. lia.
      * replace (7 - k mod 8 =? 7 - c) with false
          by (symmetry; apply Z.eqb_neq; lia).
        rewrite orb_false_r. f_equal.
        destruct (Z.ltb_spec (8 * (k / 8) + c) k);
          destruct (Z.ltb_spec (8 * (k / 8) + c) (k + 1)); lia || reflexivity.
    + rewrite index_insert_ne in Hbyte by lia.
      destruct (Hbits _ _ Hbyte) as [Hr Hb']. split; [exact Hr |].
      intros c Hc. rewrite Hb' by exact Hc. f_equal.
      destruct (Z.ltb_spec (8 * q + c) k);
        destruct (Z.ltb_spec (8 * q + c) (k + 1)); lia || reflexivity.
  - exists row. split; [reflexivity |]. split; [exact Hlen |].
    intros q byte Hbyte. destruct (Hbits _ _ Hbyte) as [Hr Hb'].
    split; [exact Hr |]. intros c Hc. rewrite Hb' by exact Hc.
    destruct (Z.eq_dec (8 * q + c) k) as [-> | Hne].
    + unfold column. rewrite Hb. cbn. by rewrite !andb_false_r.
    + f_equal.
      destruct (Z.ltb_spec (8 * q + c) k);
        destruct (Z.ltb_spec (8 * q + c) (k + 1)); lia || reflexivity.
Qed.

End PackBits.

Section SaveP4.

Lemma packed_init src n : 0 <= n -> packed src n 0 (replicate (Z.to_nat n) 0).
Proof.
  intros Hn. split; [by apply len_replicate |].
  intros q byte Hq.
  assert (Hr := index_range _ _ _ Hq). rewrite len_replicate in Hr by lia.
  rewrite index_replicate in Hq by lia. injection Hq as <-.
  split; [lia |]. intros c Hc. rewrite Z.bits_0.
  destruct (Z.ltb_spec (8 * q + c) 0); [lia | reflexivity].
Qed.

Lemma column_past_end src c : Go.len src <= c -> column src c = false.
Proof.
  intros Hc. unfold column. rewrite index_None; [reflexivity | lia].
Qed.

(** C6. The row encoder of the binary PBM writer: for a raster row of
    [width] samples it emits ceil(width/8) bytes, bit 7 of every byte
    holding the lowest of its eight columns and the bits past the last
    column being zero; the ten-column row 1,0,1,0,1,0,1,0,1,0 packs to
    the bytes 0b10101010 and 0b10000000. *)
Theorem saveP4_row_packs (pbm : PBM.t) (y : Z) (src : list bool)
  (Hrow : Go.index (PBM.data pbm) y = Some src)
  (Hlen : Go.len src = PBM.width pbm) :
  (exists row,
      PBM.saveP4_row pbm y = Some row /\
      8 * (Go.len row - 1) < PBM.width pbm <= 8 * Go.len row /\
      forall q byte, Go.index row q = Some byte ->
        0 <= byte < 256 /\
        forall c, 0 <= c < 8 ->
          Z.testbit byte (7 - c) = column src (8 * q + c)) /\
  PBM.saveP4_row Examples.row10 0 = Some [170; 128].
Proof.
  split; [| reflexivity].
  set (w := PBM.width pbm) in *.
  assert (Hw : 0 <= w) by (unfold Go.len in Hlen; lia).
  set (n := (w + 7) / 8).
  assert (Hn : 8 * n <= w + 7 < 8 * n + 8).
  { pose proof (Z.div_mod (w + 7) 8 ltac:(lia)).
    pose proof (Z.mod_pos_bound (w + 7) 8 ltac:(lia)). subst n. lia. }
  unfold PBM.saveP4_row. fold w.
  replace (Go.div (w + 7) 8) with n
    by (unfold Go.div; symmetry; apply Z.quot_div_nonneg; lia).
  rewrite make_Some by lia. cbn [mbind option_bind].
  destruct (for_range_invariant (packed src n) 0 w
    (fun x row =>
       src0 ← Go.index (PBM.data pbm) y;
       b ← Go.index src0 x;
       if (b : bool) then
         old ← Go.index row (Go.div x 8);
         Go.update row (Go.div x 8)
           (Z.lor old (Go.uint8 (Z.shiftl 1 (7 - Go.rem x 8))))
       else Some row)
    (replicate (Z.to_nat n) 0)) as (row & Hrun & Hlen' & Hbits).
  - exact Hw.
  - apply packed_init. lia.
  - intros k t Hk Hp. rewrite Hrow. cbn [mbind option_bind].
    apply packed_step; [lia | lia | exact Hp].
  - exists row. split; [exact Hrun |]. split; [lia |].
    intros q byte Hq. destruct (Hbits q byte Hq) as [Hr Hb].
    split; [exact Hr |]. intros c Hc. rewrite Hb by exact Hc.
    destruct (Z.ltb_spec (8 * q + c) w); [reflexivity |].
    cbn. symmetry. apply column_past_end. lia.
Qed.

Lemma saveP4_row_packs_witness :
  Go.index (PBM.data Examples.bitmap3x2) 1 = Some [false; false; true] /\
  Go.len [false; false; true] = PBM.width Examples.bitmap3x2 /\
  (exists row,
      PBM.saveP4_row Examples.bitmap3x2 1 = Some row /\
      8 * (Go.len row - 1) < PBM.width Examples.bitmap3x2 <= 8 * Go.len row /\
      forall q byte, Go.index row q = Some byte ->
        0 <= byte < 256 /\
        forall c, 0 <= c < 8 ->
          Z.testbit byte (7 - c) = column [false; false; true] (8 * q + c)) /\
  PBM.saveP4_row Examples.row10 0 = Some [170; 128].
Proof.
  split; [reflexivity |]. split; [reflexivity |].
  exact (saveP4_row_packs Examples.bitmap3x2 1 [false; false; true]
           eq_refl eq_refl).
Defined.

End SaveP4.

(** ** Rasters of a fixed shape *)

Section Shape.

Context {A : Type}.
Implicit Types (d : list (list A)) (row : list A).

Lemma shape_row d w h i row :
  shape d w h -> Go.index d i = Some row -> Go.len row = w.
Proof.
  intros [_ Hall] [_ Hi]%index_Some.
  rewrite Forall_lookup in Hall. exact (Hall _ _ Hi).
Qed.

Lemma shape_nonneg d w h : shape d w h -> 0 <= h.
Proof. intros [<- _]. unfold Go.len. lia. Qed.

Lemma shape_insert d w h n row :
  shape d w h -> Go.len row = w -> shape (<[n := row]> d) w h.
Proof.
  intros [Hh Hall] Hrow. split; [by rewrite len_insert |].
  by apply Forall_insert.
Qed.

Lemma shape_index2 d w h i j :
  shape d w h -> 0 <= i < h -> 0 <= j < w ->
  exists v, Go.index2 d i j = Some v.
Proof.
  intros Hs Hi Hj. unfold Go.index2.
  destruct (index_in_range d i) as [row Hrow]; [destruct Hs; lia |].
  rewrite Hrow. cbn. apply index_in_range.
  rewrite (shape_row _ _ _ _ _ Hs Hrow). exact Hj.
Qed.

Lemma shape_update2 d w h i j v :
  shape d w h -> 0 <= i < h -> 0 <= j < w ->
  exists d', Go.update2 d i j v = Some d' /\ shape d' w h.
Proof.
  intros Hs Hi Hj. unfold Go.update2.
  destruct (index_in_range d i) as [row Hrow]; [destruct Hs; lia |].
  rewrite Hrow. cbn.
  pose proof (shape_row _ _ _ _ _ Hs Hrow) as Hlen.
  rewrite update_Some by lia. cbn.
  rewrite update_Some by (destruct Hs; lia).
  eexists. split; [reflexivity |].
  apply shape_insert; [exact Hs |]. by rewrite len_insert.
Qed.

Lemma shape_swap d w h i j :
  shape d w h -> 0 <= i < h -> 0 <= j < h ->
  exists d', Go.swap d i j = Some d' /\ shape d' w h.
Proof.
  intros Hs Hi Hj. unfold Go.swap.
  destruct (index_in_range d j) as [x Hx]; [destruct Hs; lia |].
  destruct (index_in_range d i) as [y Hy]; [destruct Hs; lia |].
  rewrite Hx, Hy. cbn.
  rewrite update_Some by (destruct Hs; lia). cbn.
  rewrite update_Some by (rewrite len_insert; destruct Hs; lia).
  eexists. split; [reflexivity |].
  apply shape_insert; [apply shape_insert; [exact Hs |] |];
    eapply shape_row; eauto.
Qed.

Lemma shape_swap2 d w h i j k :
  shape d w h -> 0 <= i < h -> 0 <= j < w -> 0 <= k < w ->
  exists d', Go.swap2 d i j k = Some d' /\ shape d' w h.
Proof.
  intros Hs Hi Hj Hk. unfold Go.swap2.
  destruct (shape_index2 d w h i k Hs Hi Hk) as [x ->].
  destruct (shape_index2 d w h i j Hs Hi Hj) as [y ->]. cbn.
  destruct (shape_update2 d w h i j x Hs Hi Hj) as (d1 & -> & Hs1). cbn.
  exact (shape_update2 d1 w h i k y Hs1 Hi Hk).
Qed.

(** A loop over the rows, or over the rows and then the columns, whose
    body keeps the shape and does not panic inside the raster. *)
Lemma shape_rows d w h n (body : Z -> list (list A) -> option (list (list A))) :
  shape d w h -> n <= h ->
  (forall i t, 0 <= i < n -> shape t w h ->
     exists t', body i t = Some t' /\ shape t' w h) ->
  exists d', Go.for_range 0 n body d = Some d' /\ shape d' w h.
Proof.
  intros Hs Hn Hbody.
  destruct (Z.le_gt_cases 0 n) as [H0 | H0].
  - apply (for_range_invariant (fun _ t => shape t w h)); auto.
  - rewrite for_range_empty by lia. eauto.
Qed.

Lemma shape_rows_cols d w h m
  (body : Z -> Z -> list (list A) -> option (list (list A))) :
  shape d w h -> m <= w ->
  (forall i j t, 0 <= i < h -> 0 <= j < m -> shape t w h ->
     exists t', body i j t = Some t' /\ shape t' w h) ->
  exists d',
    Go.for_range 0 h (fun i t => Go.for_range 0 m (body i) t) d = Some d' /\
    shape d' w h.
Proof.
  intros Hs Hm Hbody. apply shape_rows; [exact Hs | lia |].
  intros i t Hi Ht.
  destruct (Z.le_gt_cases 0 m) as [H0 | H0].
  - apply (for_range_invariant (fun _ u => shape u w h)); auto.
  - rewrite for_range_empty by lia. eauto.
Qed.

Lemma half_range n k : 0 <= n -> 0 <= k < Go.div n 2 -> 0 <= n - k - 1 < n /\ k < n.
Proof.
  intros Hn. unfold Go.div. rewrite Z.quot_div_nonneg by lia.
  pose proof (Z.div_mod n 2 ltac:(lia)).
  pose proof (Z.mod_pos_bound n 2 ltac:(lia)). lia.
Qed.

Lemma half_le n : Go.div n 2 <= Z.max n 0.
Proof.
  unfold Go.div. destruct (Z.le_gt_cases 0 n).
  - rewrite Z.quot_div_nonneg by lia.
    pose proof (Z.div_mod n 2 ltac:(lia)).
    pose proof (Z.mod_pos_bound n 2 ltac:(lia)). lia.
  - pose proof (Z.quot_opp_l n 2 ltac:(lia)).
    assert (0 <= Z.quot (- n) 2) by (apply Z.quot_pos; lia). lia.
Qed.

(** [Flip] of PBM and PPM, [Flop] of all three. *)
Lemma shape_Flip d w h :
  shape d w h ->
  exists d',
    Go.for_range 0 h (fun i t =>
      Go.for_range 0 (Go.div w 2) (fun j t => Go.swap2 t i j (w - j - 1)) t) d
    = Some d' /\ shape d' w h.
Proof.
  intros Hs.
  destruct (Z.le_gt_cases 0 w) as [Hw | Hw].
  - apply (shape_rows_cols d w h (Go.div w 2)
             (fun i j t => Go.swap2 t i j (w - j - 1)) Hs).
    + pose proof (half_le w). lia.
    + intros i j t Hi Hj Ht. pose proof (half_range w j Hw Hj).
      apply (shape_swap2 t w h); auto; lia.
  - apply shape_rows; [exact Hs | lia |]. intros i t Hi Ht.
    rewrite for_range_empty; [eauto |]. pose proof (half_le w). lia.
Qed.

Lemma shape_Flop d w h :
  shape d w h ->
  exists d',
    Go.for_range 0 (Go.div h 2) (fun i t => Go.swap t i (h - i - 1)) d
    = Some d' /\ shape d' w h.
Proof.
  intros Hs. pose proof (shape_nonneg _ _ _ Hs) as Hh.
  apply shape_rows; [exact Hs | pose proof (half_le h); lia |].
  intros i t Hi Ht. pose proof (half_range h i Hh Hi).
  apply (shape_swap t w h); auto; lia.
Qed.

(** [Invert] of PBM and PPM: every sample is replaced by a function of
    itself. *)
Lemma shape_Invert d w h (f : A -> A) :
  shape d w h ->
  exists d',
    Go.for_range 0 h (fun i t =>
      Go.for_range 0 w (fun j t =>
        v ← Go.index2 t i j; Go.update2 t i j (f v)) t) d
    = Some d' /\ shape d' w h.
Proof.
  intros Hs.
  apply (shape_rows_cols d w h w
           (fun i j t => v ← Go.index2 t i j; Go.update2 t i j (f v)) Hs);
    [lia |].
  intros i j t Hi Hj Ht.
  destruct (shape_index2 t w h i j Ht Hi Hj) as [v ->]. cbn.
  by apply shape_update2.
Qed.

End Shape.

(** ** Invert, Flip and Flop keep the header and the shape *)

Section Transforms.

Lemma flipRow_shape fuel i j k (d : list (list Z)) w h :
  shape d w h -> 0 <= i < h -> 0 <= j -> k < w -> k - j < Z.of_nat fuel ->
  exists d', PGM.flipRow fuel i j k d = Some d' /\ shape d' w h.
Proof.
  revert j k d. induction fuel as [| fuel IH]; intros j k d Hs Hi Hj Hk Hf.
  - cbn. destruct (Z.ltb_spec j k); [lia | eauto].
  - cbn [PGM.flipRow]. destruct (Z.ltb_spec j k); [| eauto].
    destruct (shape_swap2 d w h i j k Hs Hi) as (d1 & -> & Hs1); [lia | lia |].
    cbn. apply IH; auto; lia.
Qed.

Lemma PGM_Invert_shape (d : list (list Z)) w h m :
  shape d w h ->
  exists d',
    Go.for_range 0 (Go.len d) (fun i t =>
      row ← Go.index t i;
      Go.for_range 0 (Go.len row) (fun j t =>
        v ← Go.index2 t i j;
        Go.update2 t i j (Go.uint8 (Go.uint8 m - v))) t) d
    = Some d' /\ shape d' w h.
Proof.
  intros Hs. replace (Go.len d) with h by (by destruct Hs).
  apply shape_rows; [exact Hs | lia |]. intros i t Hi Ht.
  destruct (index_in_range t i) as [row Hrow]; [destruct Ht; lia |].
  rewrite Hrow. cbn. rewrite (shape_row _ _ _ _ _ Ht Hrow).
  destruct (Z.le_gt_cases 0 w) as [Hw | Hw].
  - apply (for_range_invariant (fun _ u => shape u w h)); auto.
    intros j u Hj Hu.
    destruct (shape_index2 u w h i j Hu Hi Hj) as [v ->]. cbn.
    by apply shape_update2.
  - rewrite for_range_empty by lia. eauto.
Qed.

Lemma PGM_Flip_shape (d : list (list Z)) w h :
  shape d w h ->
  exists d',
    Go.for_range 0 (Go.len d) (fun i t =>
      row ← Go.index t i;
      PGM.flipRow (length row) i 0 (Go.len row - 1) t) d
    = Some d' /\ shape d' w h.
Proof.
  intros Hs. replace (Go.len d) with h by (by destruct Hs).
  apply shape_rows; [exact Hs | lia |]. intros i t Hi Ht.
  destruct (index_in_range t i) as [row Hrow]; [destruct Ht; lia |].
  rewrite Hrow. cbn. pose proof (shape_row _ _ _ _ _ Ht Hrow) as Hlen.
  apply flipRow_shape; auto; unfold Go.len in *; lia.
Qed.

(** C10. On an image of any of the three formats whose raster has
    [height] rows of [width] samples, Invert, Flip and Flop run to
    completion, leave width, height, magic number and max value as they
    were, and leave a raster of the same shape. *)
Theorem transforms_keep_header_and_shape (t : transform) (img : image)
  (Hwf : well_shaped img) :
  exists img',
    apply t img = Some img' /\ header img' = header img /\ well_shaped img'.
Proof.
  destruct img as [p | p | p]; destruct t; cbn in Hwf |- *.
  - destruct (shape_Invert _ _ _ negb Hwf) as (d' & Hd & Hs).
    unfold PBM.Invert. rewrite Hd. cbn. eauto.
  - destruct (shape_Flip _ _ _ Hwf) as (d' & Hd & Hs).
    unfold PBM.Flip. rewrite Hd. cbn. eauto.
  - destruct (shape_Flop _ _ _ Hwf) as (d' & Hd & Hs).
    unfold PBM.Flop. rewrite Hd. cbn. eauto.
  - destruct (PGM_Invert_shape _ _ _ (PGM.max p) Hwf) as (d' & Hd & Hs).
    unfold PGM.Invert. rewrite Hd. cbn. eauto.
  - destruct (PGM_Flip_shape _ _ _ Hwf) as (d' & Hd & Hs).
    unfold PGM.Flip. rewrite Hd. cbn. eauto.
  - destruct (shape_Flop _ _ _ Hwf) as (d' & Hd & Hs).
    unfold PGM.Flop. rewrite Hd. cbn. eauto.
  - destruct (shape_Invert _ _ _ (PPM.invertPixel (PPM.max p)) Hwf)
      as (d' & Hd & Hs).
    unfold PPM.Invert. rewrite Hd. cbn. eauto.
  - destruct (shape_Flip _ _ _ Hwf) as (d' & Hd & Hs).
    unfold PPM.Flip. rewrite Hd. cbn. eauto.
  - destruct (shape_Flop _ _ _ Hwf) as (d' & Hd & Hs).
    unfold PPM.Flop. rewrite Hd. cbn. eauto.
Qed.

Lemma gray3x2_well_shaped : well_shaped (Graymap Examples.gray3x2).
Proof. split; [reflexivity | repeat constructor]. Defined.

Lemma transforms_keep_header_and_shape_witness :
  well_shaped (Graymap Examples.gray3x2) /\
  exists img',
    apply Flip (Graymap Examples.gray3x2) = Some img' /\
    header img' = header (Graymap Examples.gray3x2) /\
    well_shaped img'.
Proof.
  exact (conj gray3x2_well_shaped
           (transforms_keep_header_and_shape Flip (Graymap Examples.gray3x2)
              gray3x2_well_shaped)).
Defined.

End Transforms.

(** ** Rotate90CW *)

Section Rotation.

Context {A : Type}.
Implicit Types (d nd : list (list A)).

Lemma update2_inv d i j v d' :
  Go.update2 d i j v = Some d' ->
  exists row, Go.index d i = Some row /\ 0 <= j < Go.len row /\
    d' = <[Z.to_nat i := <[Z.to_nat j := v]> row]> d.
Proof.
  unfold Go.update2. destruct (Go.index d i) as [row |] eqn:Hrow; [| discriminate].
  cbn. destruct (Go.update row j v) as [row' |] eqn:Hu; [| discriminate].
  cbn. apply update_inv in Hu as [Hj ->].
  intros [_ ->]%update_inv. eauto.
Qed.

Lemma update2_Some d i j v row :
  Go.index d i = Some row -> 0 <= j < Go.len row ->
  Go.update2 d i j v = Some (<[Z.to_nat i := <[Z.to_nat j := v]> row]> d).
Proof.
  intros Hrow Hj. unfold Go.update2. rewrite Hrow. cbn.
  rewrite update_Some by exact Hj. cbn.
  apply update_Some. eapply index_range. exact Hrow.
Qed.

Lemma index2_update2 d i j v d' i' j' :
  Go.update2 d i j v = Some d' ->
  Go.index2 d' i' j' =
    if decide (i = i' /\ j = j') then Some v else Go.index2 d i' j'.
Proof.
  intros (row & Hrow & Hj & ->)%update2_inv.
  pose proof (index_range _ _ _ Hrow) as Hi.
  unfold Go.index2. destruct (Z.eq_dec i i') as [<- | Hne].
  - rewrite index_insert_eq by exact Hi. rewrite Hrow. cbn.
    destruct (Z.eq_dec j j') as [<- | Hne].
    + rewrite index_insert_eq by exact Hj. by rewrite decide_True.
    + rewrite index_insert_ne by lia. rewrite decide_False by tauto. done.
  - rewrite index_insert_ne by lia. rewrite decide_False by tauto. done.
Qed.

Lemma index2_Some d i j v :
  Go.index2 d i j = Some v ->
  exists row, Go.index d i = Some row /\ Go.index row j = Some v.
Proof.
  unfold Go.index2. destruct (Go.index d i) as [row |]; [| discriminate].
  cbn. eauto.
Qed.

(** Two rasters of the same shape with the same samples are equal. *)
Lemma raster_ext d d' w h :
  shape d w h -> shape d' w h ->
  (forall i j, 0 <= i < h -> 0 <= j < w ->
     Go.index2 d i j = Go.index2 d' i j) ->
  d = d'.
Proof.
  intros Hs Hs' Heq.
  pose proof (proj1 Hs) as Hl. pose proof (proj1 Hs') as Hl'.
  unfold Go.len in Hl, Hl'.
  apply list_eq_same_length with (Z.to_nat h); [lia | lia |].
  intros n row row' Hn Hrow Hrow'.
  assert (Hi : Go.index d (Z.of_nat n) = Some row)
    by (apply index_Some; rewrite Nat2Z.id; split; [lia | done]).
  assert (Hi' : Go.index d' (Z.of_nat n) = Some row')
    by (apply index_Some; rewrite Nat2Z.id; split; [lia | done]).
  pose proof (shape_row _ _ _ _ _ Hs Hi) as Hlr.
  pose proof (shape_row _ _ _ _ _ Hs' Hi') as Hlr'.
  unfold Go.len in Hlr, Hlr'.
  apply list_eq_same_length with (Z.to_nat w); [lia | lia |].
  intros m x y Hm Hx Hy.
  specialize (Heq (Z.of_nat n) (Z.of_nat m) ltac:(lia) ltac:(lia)).
  unfold Go.index2 in Heq. rewrite Hi, Hi' in Heq. cbn in Heq.
  unfold Go.index in Heq.
  destruct (Z.ltb_spec (Z.of_nat m) 0); [lia |].
  rewrite Nat2Z.id, Hx, Hy in Heq. congruence.
Qed.

(** Rows given one by one form a raster of that shape. *)
Lemma shape_of_rows nd w h :
  Go.len nd = h ->
  (forall i, 0 <= i < h ->
     exists row, Go.index nd i = Some row /\ Go.len row = w) ->
  shape nd w h.
Proof.
  intros Hl Hrows. split; [exact Hl |]. apply Forall_lookup.
  intros n row Hn. pose proof (lookup_lt_Some _ _ _ Hn) as Hlt.
  destruct (Hrows (Z.of_nat n)) as (row' & Hi & Hw);
    [unfold Go.len in Hl; lia |].
  apply index_Some in Hi as [_ Hi]. rewrite Nat2Z.id in Hi. congruence.
Qed.

End Rotation.

Section Filling.

Context {B : Type}.

(** *** Rasters allocated and filled row after row

    [make] for the rows, then for every row [make] and one assignment
    per column; [body i j] assigns [cell i j] to row [i], column [j]. *)

Lemma fill_row (cell : Z -> Z -> option B)
  (body : Z -> Z -> list (list B) -> option (list (list B)))
  rows cols (u : list (list B)) k (zero : B) :
  (forall j t, 0 <= j < cols ->
     exists v, cell k j = Some v /\ body k j t = Go.update2 t k j v) ->
  0 <= cols -> 0 <= k < rows -> Go.len u = rows ->
  (forall i, 0 <= i < k -> filled cell cols u i) ->
  exists u',
    (row ← Go.make cols zero;
     u1 ← Go.update u k row;
     Go.for_range 0 cols (body k) u1) = Some u' /\
    Go.len u' = rows /\ forall i, 0 <= i < k + 1 -> filled cell cols u' i.
Proof.
  intros Hbody Hcols Hk Hl Hdone.
  rewrite make_Some by exact Hcols. cbn.
  rewrite update_Some by lia. cbn.
  set (u1 := <[Z.to_nat k := replicate (Z.to_nat cols) zero]> u).
  destruct (for_range_invariant
    (fun m t =>
       Go.len t = rows /\
       (forall i, 0 <= i < k -> filled cell cols t i) /\
       (exists row, Go.index t k = Some row /\ Go.len row = cols) /\
       forall j, 0 <= j < m -> Go.index2 t k j = cell k j)
    0 cols (body k) u1)
    as (u' & Hrun & Hl' & Hprev & Hrow & Hcells).
  - exact Hcols.
  - split; [subst u1; by rewrite len_insert |].
    split.
    + intros i Hi. destruct (Hdone i Hi) as [(row & Hr & Hlr) Hc].
      subst u1. split.
      * exists row. by rewrite index_insert_ne by lia.
      * intros j Hj. rewrite <- Hc by exact Hj. unfold Go.index2.
        by rewrite index_insert_ne by lia.
    + split; [| intros; lia].
      exists (replicate (Z.to_nat cols) zero). subst u1.
      rewrite index_insert_eq by lia. split; [done | by apply len_replicate].
  - intros m t Hm (Hlt & Hprev & (row & Hr & Hlr) & Hcells).
    destruct (Hbody m t Hm) as (v & Hv & ->).
    pose proof (update2_Some t k m v row Hr ltac:(lia)) as Hu.
    rewrite Hu. eexists. split; [reflexivity |].
    split; [by rewrite len_insert |]. split; [| split].
    + intros i Hi. destruct (Hprev i Hi) as [(r & Hri & Hlri) Hc]. split.
      * exists r. by rewrite index_insert_ne by lia.
      * intros j Hj. rewrite (index2_update2 _ _ _ _ _ i j Hu).
        rewrite decide_False by lia. by apply Hc.
    + eexists. rewrite index_insert_eq by lia.
      split; [reflexivity | by rewrite len_insert].
    + intros j Hj. rewrite (index2_update2 _ _ _ _ _ k j Hu).
      destruct (Z.eq_dec m j) as [<- | Hne].
      * rewrite decide_True by done. by rewrite Hv.
      * rewrite decide_False by tauto. apply Hcells. lia.
  - exists u'. split; [exact Hrun |]. split; [exact Hl' |].
    intros i Hi. destruct (Z.eq_dec i k) as [-> | Hne].
    + split; [exact Hrow | exact Hcells].
    + apply Hprev. lia.
Qed.

Lemma fill_rows (cell : Z -> Z -> option B)
  (body : Z -> Z -> list (list B) -> option (list (list B)))
  rows cols (zero : B) :
  (forall i j t, 0 <= i < rows -> 0 <= j < cols ->
     exists v, cell i j = Some v /\ body i j t = Go.update2 t i j v) ->
  0 <= rows -> 0 <= cols ->
  exists u,
    (u0 ← Go.make rows ([] : list B);
     Go.for_range 0 rows (fun i t =>
       row ← Go.make cols zero;
       t1 ← Go.update t i row;
       Go.for_range 0 cols (body i) t1) u0) = Some u /\
    shape u cols rows /\
    forall i j, 0 <= i < rows -> 0 <= j < cols ->
      Go.index2 u i j = cell i j.
Proof.
  intros Hbody Hrows Hcols. rewrite (make_Some rows) by exact Hrows. cbn.
  destruct (for_range_invariant
    (fun k t =>
       Go.len t = rows /\ forall i, 0 <= i < k -> filled cell cols t i)
    0 rows
    (fun i t =>
       row ← Go.make cols zero;
       t1 ← Go.update t i row;
       Go.for_range 0 cols (body i) t1)
    (replicate (Z.to_nat rows) [])) as (u & Hrun & Hl & Hfilled).
  - exact Hrows.
  - split; [by apply len_replicate | intros; lia].
  - intros k t Hk [Hlt Hdone].
    apply (fill_row cell body rows cols t k zero); auto.
  - exists u. split; [exact Hrun |]. split.
    + apply shape_of_rows; [exact Hl |]. intros i Hi.
      by destruct (Hfilled i Hi) as [? _].
    + intros i j Hi Hj. by destruct (Hfilled i Hi) as [_ ->].
Qed.

End Filling.

Section Turns.

Context {A : Type}.
Implicit Types (d nd : list (list A)).

(** *** The graymap version: row after row, gathering from the source *)

Lemma gather_rotated d w h (zero : A) :
  shape d w h -> 0 <= w -> 0 <= h ->
  exists nd,
    (nd0 ← Go.make w ([] : list A);
     Go.for_range 0 w (fun i t =>
       row ← Go.make h zero;
       t1 ← Go.update t i row;
       Go.for_range 0 h (fun j t =>
         v ← Go.index2 d (h - j - 1) i; Go.update2 t i j v) t1) nd0)
    = Some nd /\ rotated d nd w h.
Proof.
  intros Hs Hw Hh.
  destruct (fill_rows (fun i j => Go.index2 d (h - 1 - j) i)
    (fun i j t => v ← Go.index2 d (h - j - 1) i; Go.update2 t i j v)
    w h zero) as (nd & Hrun & Hsn & Hcells); [| exact Hw | exact Hh |].
  - intros i j t Hi Hj.
    destruct (shape_index2 d w h (h - 1 - j) i Hs) as [v Hv]; [lia | lia |].
    exists v. split; [exact Hv |].
    replace (h - j - 1) with (h - 1 - j) by lia. by rewrite Hv.
  - exists nd. split; [exact Hrun |]. split; [exact Hsn | exact Hcells].
Qed.

(** *** Conversion to a raster of another sample type *)

Lemma convert_raster {B} d w h (g : A -> B) (zero : B) :
  shape d w h -> 0 <= w ->
  exists u,
    (u0 ← Go.make h ([] : list B);
     Go.for_range 0 h (fun i t =>
       row ← Go.make w zero;
       t1 ← Go.update t i row;
       Go.for_range 0 w (fun j t =>
         v ← Go.index2 d i j; Go.update2 t i j (g v)) t1) u0)
    = Some u /\
    shape u w h /\
    forall i j, 0 <= i < h -> 0 <= j < w ->
      Go.index2 u i j = g <$> Go.index2 d i j.
Proof.
  intros Hs Hw. pose proof (shape_nonneg _ _ _ Hs) as Hh.
  apply (fill_rows (fun i j => g <$> Go.index2 d i j)
    (fun i j t => v ← Go.index2 d i j; Go.update2 t i j (g v))
    h w zero); [| exact Hh | exact Hw].
  intros i j t Hi Hj.
  destruct (shape_index2 d w h i j Hs Hi Hj) as [v Hv].
  exists (g v). by rewrite Hv.
Qed.

(** *** The pixmap version: a zero raster, then scattering the source *)

Lemma zero_raster w h (zero : A) :
  0 <= w -> 0 <= h ->
  exists nd,
    (nd0 ← Go.make w ([] : list A);
     Go.for_range 0 w (fun i t =>
       row ← Go.make h zero; Go.update t i row) nd0) = Some nd /\
    shape nd h w.
Proof.
  intros Hw Hh. rewrite (make_Some w) by exact Hw. cbn.
  destruct (for_range_invariant
    (fun k t =>
       Go.len t = w /\
       forall i, 0 <= i < k ->
         exists row, Go.index t i = Some row /\ Go.len row = h)
    0 w (fun i t => row ← Go.make h zero; Go.update t i row)
    (replicate (Z.to_nat w) [])) as (nd & Hrun & Hl & Hrows).
  - exact Hw.
  - split; [by apply len_replicate | intros; lia].
  - intros k t Hk [Hlt Hdone]. rewrite make_Some by exact Hh. cbn.
    rewrite update_Some by lia. eexists. split; [reflexivity |].
    split; [by rewrite len_insert |]. intros i Hi.
    destruct (Z.eq_dec i k) as [-> | Hne].
    + eexists. rewrite index_insert_eq by lia.
      split; [reflexivity | by apply len_replicate].
    + rewrite index_insert_ne by lia. apply Hdone. lia.
  - exists nd. split; [exact Hrun |]. by apply shape_of_rows.
Qed.

Lemma scatter_rotated d w h nd0 :
  shape d w h -> 0 <= w -> 0 <= h -> shape nd0 h w ->
  exists nd,
    Go.for_range 0 h (fun i t =>
      Go.for_range 0 w (fun j t =>
        p ← Go.index2 d i j; Go.update2 t j (h - 1 - i) p) t) nd0
    = Some nd /\ rotated d nd w h.
Proof.
  intros Hs Hw Hh Hs0.
  destruct (for_range_invariant
    (fun k t =>
       shape t h w /\
       forall r c, 0 <= r < w -> h - k <= c < h ->
         Go.index2 t r c = Go.index2 d (h - 1 - c) r)
    0 h
    (fun i t =>
       Go.for_range 0 w (fun j t =>
         p ← Go.index2 d i j; Go.update2 t j (h - 1 - i) p) t) nd0)
    as (nd & Hrun & Hsn & Hcells).
  - exact Hh.
  - split; [exact Hs0 | intros; lia].
  - intros k t Hk [Hst Hdone].
    destruct (for_range_invariant
      (fun m u =>
         shape u h w /\
         (forall r c, 0 <= r < w -> h - k <= c < h ->
            Go.index2 u r c = Go.index2 d (h - 1 - c) r) /\
         forall r, 0 <= r < m ->
           Go.index2 u r (h - 1 - k) = Go.index2 d k r)
      0 w
      (fun j t => p ← Go.index2 d k j; Go.update2 t j (h - 1 - k) p) t)
      as (u & Hrun & Hsu & Hold & Hnew).
    + exact Hw.
    + split; [exact Hst |]. split; [exact Hdone | intros; lia].
    + intros m u Hm (Hsu & Hold & Hnew).
      destruct (shape_index2 d w h k m Hs) as [p Hp]; [lia | lia |].
      rewrite Hp. cbn.
      destruct (shape_update2 u h w m (h - 1 - k) p Hsu) as (u' & Hu & Hsu');
        [lia | lia |].
      exists u'. split; [exact Hu |]. split; [exact Hsu' |]. split.
      * intros r c Hr Hc. rewrite (index2_update2 _ _ _ _ _ r c Hu).
        rewrite decide_False by lia. by apply Hold.
      * intros r Hr. rewrite (index2_update2 _ _ _ _ _ r (h - 1 - k) Hu).
        destruct (Z.eq_dec m r) as [<- | Hne].
        -- rewrite decide_True by done. by rewrite Hp.
        -- rewrite decide_False by tauto. apply Hnew. lia.
    + exists u. split; [exact Hrun |]. split; [exact Hsu |].
      intros r c Hr Hc. destruct (Z.eq_dec c (h - 1 - k)) as [-> | Hne].
      * rewrite Hnew by exact Hr. f_equal. lia.
      * apply Hold; [exact Hr | lia].
  - exists nd. split; [exact Hrun |]. split; [exact Hsn |].
    intros i j Hi Hj. apply Hcells; lia.
Qed.

(** Four quarter turns bring every sample back. *)
Lemma rotated_four d0 d1 d2 d3 d4 w h :
  shape d0 w h -> 0 <= w ->
  rotated d0 d1 w h -> rotated d1 d2 h w ->
  rotated d2 d3 w h -> rotated d3 d4 h w ->
  d4 = d0.
Proof.
  intros Hs Hw [Hs1 H1] [Hs2 H2] [Hs3 H3] [Hs4 H4].
  pose proof (shape_nonneg _ _ _ Hs) as Hh.
  apply (raster_ext d4 d0 w h Hs4 Hs). intros i j Hi Hj.
  rewrite H4, H3, H2, H1 by lia. f_equal; lia.
Qed.

End Turns.

Section Rotate90CW.

Lemma PPM_Rotate90CW_rotated (ppm : PPM.t) :
  shape (PPM.data ppm) (PPM.width ppm) (PPM.height ppm) ->
  0 <= PPM.width ppm ->
  exists nd,
    PPM.Rotate90CW ppm
    = Some (PPM.mk nd (PPM.height ppm) (PPM.width ppm)
              (PPM.magicNumber ppm) (PPM.max ppm)) /\
    rotated (PPM.data ppm) nd (PPM.width ppm) (PPM.height ppm).
Proof.
  intros Hs Hw. pose proof (shape_nonneg _ _ _ Hs) as Hh.
  unfold PPM.Rotate90CW.
  destruct (zero_raster (PPM.width ppm) (PPM.height ppm) PPM.zeroPixel Hw Hh)
    as (nd0 & Hz & Hs0).
  destruct (Go.make (PPM.width ppm) []) as [l |]; [| discriminate].
  cbn in Hz |- *. rewrite Hz. cbn.
  destruct (scatter_rotated _ _ _ nd0 Hs Hw Hh Hs0) as (nd & -> & Hrot).
  cbn. eauto.
Qed.

Lemma PGM_Rotate90CW_rotated (pgm : PGM.t) :
  shape (PGM.data pgm) (PGM.width pgm) (PGM.height pgm) ->
  0 < PGM.width pgm -> 0 < PGM.height pgm ->
  exists nd,
    PGM.Rotate90CW pgm
    = Some (PGM.mk nd (PGM.height pgm) (PGM.width pgm)
              (PGM.magicNumber pgm) (PGM.max pgm)) /\
    rotated (PGM.data pgm) nd (PGM.width pgm) (PGM.height pgm).
Proof.
  intros Hs Hw Hh. unfold PGM.Rotate90CW.
  destruct (Z.leb_spec (PGM.width pgm) 0); [lia |].
  destruct (Z.leb_spec (PGM.height pgm) 0); [lia |]. cbn [orb].
  destruct (gather_rotated _ _ _ 0 Hs ltac:(lia) ltac:(lia))
    as (nd & Hg & Hrot).
  destruct (Go.make (PGM.width pgm) []) as [l |]; [| discriminate].
  cbn in Hg |- *. rewrite Hg. cbn. eauto.
Qed.

(** C7. Rotate90CW on a pixmap, and on a graymap of positive
    dimensions, of width [w] and height [h]: the raster is replaced by
    one of [w] rows of [h] samples whose row [i], column [j] holds the
    old row [h-1-j], column [i]; the stored width and height are
    exchanged with it; four calls give back the image, dimensions and
    samples. *)
Theorem Rotate90CW_quarter_turn (ppm : PPM.t) (pgm : PGM.t)
  (Hppm : shape (PPM.data ppm) (PPM.width ppm) (PPM.height ppm))
  (Hwidth : 0 <= PPM.width ppm)
  (Hpgm : shape (PGM.data pgm) (PGM.width pgm) (PGM.height pgm))
  (Hpos : 0 < PGM.width pgm /\ 0 < PGM.height pgm) :
  (exists ppm',
      PPM.Rotate90CW ppm = Some ppm' /\
      PPM.width ppm' = PPM.height ppm /\
      PPM.height ppm' = PPM.width ppm /\
      rotated (PPM.data ppm) (PPM.data ppm')
        (PPM.width ppm) (PPM.height ppm)) /\
  four_times PPM.Rotate90CW ppm = Some ppm /\
  (exists pgm',
      PGM.Rotate90CW pgm = Some pgm' /\
      PGM.width pgm' = PGM.height pgm /\
      PGM.height pgm' = PGM.width pgm /\
      rotated (PGM.data pgm) (PGM.data pgm')
        (PGM.width pgm) (PGM.height pgm)) /\
  four_times PGM.Rotate90CW pgm = Some pgm.
Proof.
  destruct Hpos as [Hw Hh].
  pose proof (shape_nonneg _ _ _ Hppm) as Hheight.
  split; [| split; [| split]].
  - destruct (PPM_Rotate90CW_rotated ppm Hppm Hwidth) as (nd & -> & Hrot).
    eexists. split; [reflexivity |]. cbn. auto.
  - destruct ppm as [d0 w h m x]. cbn in *. unfold four_times.
    destruct (PPM_Rotate90CW_rotated (PPM.mk d0 w h m x) Hppm Hwidth)
      as (d1 & -> & Hr1). cbn in Hr1 |- *.
    destruct (PPM_Rotate90CW_rotated (PPM.mk d1 h w m x) (proj1 Hr1) Hheight)
      as (d2 & -> & Hr2). cbn in Hr2 |- *.
    destruct (PPM_Rotate90CW_rotated (PPM.mk d2 w h m x) (proj1 Hr2) Hwidth)
      as (d3 & -> & Hr3). cbn in Hr3 |- *.
    destruct (PPM_Rotate90CW_rotated (PPM.mk d3 h w m x) (proj1 Hr3) Hheight)
      as (d4 & -> & Hr4). cbn in Hr4 |- *.
    by rewrite (rotated_four d0 d1 d2 d3 d4 w h Hppm Hwidth Hr1 Hr2 Hr3 Hr4).
  - destruct (PGM_Rotate90CW_rotated pgm Hpgm Hw Hh) as (nd & -> & Hrot).
    eexists. split; [reflexivity |]. cbn. auto.
  - destruct pgm as [d0 w h m x]. cbn in *. unfold four_times.
    destruct (PGM_Rotate90CW_rotated (PGM.mk d0 w h m x) Hpgm Hw Hh)
      as (d1 & -> & Hr1). cbn in Hr1 |- *.
    destruct (PGM_Rotate90CW_rotated (PGM.mk d1 h w m x) (proj1 Hr1) Hh Hw)
      as (d2 & -> & Hr2). cbn in Hr2 |- *.
    destruct (PGM_Rotate90CW_rotated (PGM.mk d2 w h m x) (proj1 Hr2) Hw Hh)
      as (d3 & -> & Hr3). cbn in Hr3 |- *.
    destruct (PGM_Rotate90CW_rotated (PGM.mk d3 h w m x) (proj1 Hr3) Hh Hw)
      as (d4 & -> & Hr4). cbn in Hr4 |- *.
    by rewrite (rotated_four d0 d1 d2 d3 d4 w h Hpgm ltac:(lia) Hr1 Hr2 Hr3 Hr4).
Qed.

Lemma pix3x2_shape :
  shape (PPM.data Examples.pix3x2) (PPM.width Examples.pix3x2)
    (PPM.height Examples.pix3x2).
Proof. split; [reflexivity | repeat constructor]. Defined.

Lemma gray3x2_shape :
  shape (PGM.data Examples.gray3x2) (PGM.width Examples.gray3x2)
    (PGM.height Examples.gray3x2).
Proof. split; [reflexivity | repeat constructor]. Defined.

Lemma Rotate90CW_quarter_turn_witness :
  shape (PPM.data Examples.pix3x2) (PPM.width Examples.pix3x2)
    (PPM.height Examples.pix3x2) /\
  0 <= PPM.width Examples.pix3x2 /\
  shape (PGM.data Examples.gray3x2) (PGM.width Examples.gray3x2)
    (PGM.height Examples.gray3x2) /\
  (0 < PGM.width Examples.gray3x2 /\ 0 < PGM.height Examples.gray3x2) /\
  (exists ppm',
      PPM.Rotate90CW Examples.pix3x2 = Some ppm' /\
      PPM.width ppm' = PPM.height Examples.pix3x2 /\
      PPM.height ppm' = PPM.width Examples.pix3x2 /\
      rotated (PPM.data Examples.pix3x2) (PPM.data ppm')
        (PPM.width Examples.pix3x2) (PPM.height Examples.pix3x2)) /\
  four_times PPM.Rotate90CW Examples.pix3x2 = Some Examples.pix3x2 /\
  (exists pgm',
      PGM.Rotate90CW Examples.gray3x2 = Some pgm' /\
      PGM.width pgm' = PGM.height Examples.gray3x2 /\
      PGM.height pgm' = PGM.width Examples.gray3x2 /\
      rotated (PGM.data Examples.gray3x2) (PGM.data pgm')
        (PGM.width Examples.gray3x2) (PGM.height Examples.gray3x2)) /\
  four_times PGM.Rotate90CW Examples.gray3x2 = Some Examples.gray3x2.
Proof.
  assert (Hwidth : 0 <= PPM.width Examples.pix3x2) by (cbn; lia).
  assert (Hpos : 0 < PGM.width Examples.gray3x2 /\
                 0 < PGM.height Examples.gray3x2) by (cbn; lia).
  exact (conj pix3x2_shape (conj Hwidth (conj gray3x2_shape (conj Hpos
           (Rotate90CW_quarter_turn Examples.pix3x2 Examples.gray3x2
              pix3x2_shape Hwidth gray3x2_shape Hpos))))).
Defined.

End Rotate90CW.

(** ** float64: integers below 2^53 convert exactly *)

Section Float64.

Lemma digits2_lower (m : positive) :
  2 ^ (Z.pos (digits2_pos m) - 1) <= Z.pos m.
Proof.
  induction m as [m IH | m IH |]; cbn [digits2_pos].
  - rewrite Pos2Z.inj_succ.
    replace (Z.succ (Z.pos (digits2_pos m)) - 1)
      with (Z.succ (Z.pos (digits2_pos m) - 1)) by lia.
    rewrite Z.pow_succ_r by lia. lia.
  - rewrite Pos2Z.inj_succ.
    replace (Z.succ (Z.pos (digits2_pos m)) - 1)
      with (Z.succ (Z.pos (digits2_pos m) - 1)) by lia.
    rewrite Z.pow_succ_r by lia. lia.
  - cbn. lia.
Qed.

Lemma digits2_bound (m : positive) :
  Z.pos m < 2 ^ 53 -> Z.pos (digits2_pos m) <= 53.
Proof.
  intros Hm. destruct (Z.le_gt_cases (Z.pos (digits2_pos m)) 53) as [| Hd];
    [assumption |].
  pose proof (digits2_lower m).
  assert (2 ^ 53 <= 2 ^ (Z.pos (digits2_pos m) - 1))
    by (apply Z.pow_le_mono_r; lia).
  lia.
Qed.

Lemma digits2_shift (k m : positive) :
  digits2_pos (Pos.iter xO m k) = (digits2_pos m + k)%positive.
Proof.
  change (Pos.iter xO m k) with (shift_pos k m).
  rewrite shift_pos_nat.
  rewrite <- (Pos2Nat.id k) at 2.
  destruct (Pos2Nat.is_succ k) as [n ->].
  induction n as [| n IH].
  - cbn. lia.
  - change (shift_nat (Datatypes.S (Datatypes.S n)) m)
      with (xO (shift_nat (Datatypes.S n) m)).
    cbn [digits2_pos]. rewrite IH.
    rewrite (Nat2Pos.inj_succ (Datatypes.S n)) by discriminate. lia.
Qed.

Lemma shr_fexp_aligned (mz : positive) (ez : Z) :
  Z.pos (digits2_pos mz) = 53 -> -1074 <= ez ->
  shr_fexp F64.prec F64.emax (Z.pos mz) ez loc_Exact
  = (Build_shr_record (Z.pos mz) false false, ez).
Proof.
  intros Hd He. unfold shr_fexp, fexp, emin, Zdigits2, F64.prec, F64.emax.
  rewrite Hd.
  replace (Z.sub (Z.max (Z.sub (Z.add 53 ez) 53) (Z.sub (Z.sub 3 1024) 53)) ez)
    with 0 by lia.
  reflexivity.
Qed.

Lemma round_aligned (s : bool) (mz : positive) (ez : Z) :
  Z.pos (digits2_pos mz) = 53 -> -1074 <= ez <= 971 ->
  binary_round_aux F64.prec F64.emax s (Z.pos mz) ez loc_Exact
  = S754_finite s mz ez.
Proof.
  intros Hd He. unfold binary_round_aux.
  rewrite shr_fexp_aligned by (auto; lia). cbn [shr_m loc_of_shr_record round_nearest_even].
  rewrite shr_fexp_aligned by (auto; lia). cbn [shr_m].
  unfold F64.prec, F64.emax.
  destruct (Z.leb_spec ez (Z.sub 1024 53)); [reflexivity | lia].
Qed.

(** Rounding an integer mantissa below 2^53: nothing is lost, the
    mantissa is shifted up to 53 bits. *)
Lemma binary_round_exact (s : bool) (m : positive) :
  Z.pos m < 2 ^ 53 ->
  exists k,
    0 <= k /\
    binary_round F64.prec F64.emax s m 0
    = S754_finite s (Z.to_pos (Z.pos m * 2 ^ k)) (- k).
Proof.
  intros Hm. pose proof (digits2_bound m Hm) as Hd.
  unfold binary_round, shl_align, fexp, emin, F64.prec, F64.emax.
  replace (Z.sub (Z.max (Z.sub (Z.add (Z.pos (digits2_pos m)) 0) 53)
                    (Z.sub (Z.sub 3 1024) 53)) 0)
    with (Z.pos (digits2_pos m) - 53) by lia.
  replace (Z.max (Z.sub (Z.add (Z.pos (digits2_pos m)) 0) 53)
                    (Z.sub (Z.sub 3 1024) 53))
    with (Z.pos (digits2_pos m) - 53) by lia.
  destruct (Z.pos (digits2_pos m) - 53) as [| p | p] eqn:E; [| lia |].
  - exists 0. split; [lia |].
    fold F64.prec F64.emax. rewrite round_aligned by lia.
    by rewrite Z.pow_0_r, Z.mul_1_r.
  - exists (Z.pos p). split; [lia |].
    fold F64.prec F64.emax. rewrite round_aligned.
    + f_equal. change (Pos.iter xO m p) with (shift_pos p m).
      apply Pos2Z.inj. rewrite shift_pos_correct, Z2Pos.id.
      * rewrite Z.pow_pos_fold. lia.
      * assert (0 < 2 ^ Z.pos p) by (apply Z.pow_pos_nonneg; lia). lia.
    + rewrite digits2_shift. lia.
    + lia.
Qed.

Lemma trunc_shifted (m : positive) (k : Z) :
  0 <= k ->
  (if - k <? 0 then Z.shiftr (Z.pos (Z.to_pos (Z.pos m * 2 ^ k))) (- - k)
   else Z.shiftl (Z.pos (Z.to_pos (Z.pos m * 2 ^ k))) (- k)) = Z.pos m.
Proof.
  intros Hk.
  assert (Hp : 0 < 2 ^ k) by (apply Z.pow_pos_nonneg; lia).
  rewrite Z2Pos.id by lia.
  destruct (Z.ltb_spec (- k) 0).
  - rewrite Z.opp_involutive, Z.shiftr_div_pow2 by lia.
    apply Z.div_mul. lia.
  - replace k with 0 by lia.
    change (- 0) with 0. rewrite Z.shiftl_0_r, Z.pow_0_r. lia.
Qed.

(** [int(float64(x)) = x] for an [int] of magnitude below 2^53. *)
Lemma toInt_ofInt (x : Z) :
  - 2 ^ 53 < x < 2 ^ 53 -> F64.toInt (F64.ofInt x) = x.
Proof.
  intros Hx. destruct x as [| m | m]; [reflexivity | |].
  - unfold F64.ofInt, binary_normalize.
    destruct (binary_round_exact false m) as (k & Hk & ->); [lia |].
    unfold F64.toInt, F64.trunc. rewrite trunc_shifted by exact Hk.
    destruct (Z.leb_spec (- 2 ^ 63) (Z.pos m)); [| lia].
    destruct (Z.ltb_spec (Z.pos m) (2 ^ 63)); [reflexivity | lia].
  - unfold F64.ofInt, binary_normalize.
    destruct (binary_round_exact true m) as (k & Hk & ->); [lia |].
    unfold F64.toInt, F64.trunc. rewrite trunc_shifted by exact Hk.
    destruct (Z.leb_spec (- 2 ^ 63) (- Z.pos m)); [| lia].
    destruct (Z.ltb_spec (- Z.pos m) (2 ^ 63)); [reflexivity | lia].
Qed.

End Float64.

(** ** DrawLine *)

Section DrawLine.

(** C3. DrawLine from (0,0) to (3,3) in red on the blank 4x4 canvas
    leaves the canvas with the red diagonal (0,0), (1,1), (2,2), (3,3) and
    nothing else changed; and so on any 4x4 canvas in any colour: the
    four pixels of the diagonal get the colour, the twelve others stay
    what they were. *)
Theorem DrawLine_diagonal :
  PPM.DrawLine Examples.canvas4 (PPM.mkPoint 0 0) (PPM.mkPoint 3 3)
    Examples.red
  = Some Examples.diagonal4 /\
  forall (c p00 p01 p02 p03 p10 p11 p12 p13 p20 p21 p22 p23
            p30 p31 p32 p33 : PPM.Pixel) (magicNumber : string) (max : Z),
    PPM.DrawLine
      (PPM.mk [[p00; p01; p02; p03]; [p10; p11; p12; p13];
               [p20; p21; p22; p23]; [p30; p31; p32; p33]]
         4 4 magicNumber max)
      (PPM.mkPoint 0 0) (PPM.mkPoint 3 3) c
    = Some (PPM.mk [[c; p01; p02; p03]; [p10; c; p12; p13];
                    [p20; p21; c; p23]; [p30; p31; p32; c]]
              4 4 magicNumber max).
Proof.
  split; [| intros]; vm_compute; reflexivity.
Qed.

(** With equal end points the step count is zero and both increments
    are 0/0: a float64 division, whose result is a NaN and not a
    panic. *)
Lemma DrawLine_zero_steps :
  F64.toInt (F64.Max (F64.Abs (F64.ofInt (Go.int64 0)))
                     (F64.Abs (F64.ofInt (Go.int64 0)))) = 0 /\
  F64.quo (F64.ofInt (Go.int64 0)) (F64.ofInt 0) = F64.NaN.
Proof. split; reflexivity. Qed.

(** DrawLine with equal end points is one call of Set at that point. *)
Lemma DrawLine_same_point (ppm : PPM.t) (p : PPM.Point) (c : PPM.Pixel) :
  - 2 ^ 53 < PPM.X p < 2 ^ 53 -> - 2 ^ 53 < PPM.Y p < 2 ^ 53 ->
  PPM.DrawLine ppm p p c = PPM.Set_ ppm (PPM.X p) (PPM.Y p) c.
Proof.
  intros Hx Hy. unfold PPM.DrawLine. rewrite !Z.sub_diag.
  rewrite (proj1 DrawLine_zero_steps).
  unfold Go.for_range. change (Z.to_nat (0 + 1 - 0)) with 1%nat.
  cbn [Go.loop]. rewrite !toInt_ofInt by lia.
  by destruct (PPM.Set_ ppm (PPM.X p) (PPM.Y p) c).
Qed.

(** C4, as the code has it.  DrawLine from a pixel [p] of the canvas to
    itself draws exactly the pixel [p]: the call ends well, [p] has the
    colour, and every other pixel and the header are what they were.
    The zero step count is not guarded: both increments are computed,
    as the float64 quotient 0/0, which is a NaN and no failure; the
    loop body runs once, before an increment is added.  The
    coordinates are below 2^53, where float64 holds them exactly. *)
Theorem DrawLine_single_pixel (ppm : PPM.t) (p : PPM.Point) (c : PPM.Pixel)
  (Hshape : shape (PPM.data ppm) (PPM.width ppm) (PPM.height ppm))
  (Hx : 0 <= PPM.X p < PPM.width ppm)
  (Hy : 0 <= PPM.Y p < PPM.height ppm)
  (Hexact : PPM.X p < 2 ^ 53 /\ PPM.Y p < 2 ^ 53) :
  let dx := F64.ofInt (Go.int64 (PPM.X p - PPM.X p)) in
  let dy := F64.ofInt (Go.int64 (PPM.Y p - PPM.Y p)) in
  let steps := F64.toInt (F64.Max (F64.Abs dx) (F64.Abs dy)) in
  (steps = 0 /\
   F64.quo dx (F64.ofInt steps) = F64.NaN /\
   F64.quo dy (F64.ofInt steps) = F64.NaN) /\
  exists ppm',
    PPM.DrawLine ppm p p c = Some ppm' /\
    (PPM.width ppm', PPM.height ppm', PPM.magicNumber ppm', PPM.max ppm')
    = (PPM.width ppm, PPM.height ppm, PPM.magicNumber ppm, PPM.max ppm) /\
    shape (PPM.data ppm') (PPM.width ppm) (PPM.height ppm) /\
    forall x y,
      PPM.At ppm' x y
      = if decide (x = PPM.X p /\ y = PPM.Y p) then Some c
        else PPM.At ppm x y.
Proof.
  cbv zeta. rewrite !Z.sub_diag. split.
  { destruct DrawLine_zero_steps as [Hsteps Hquo]. rewrite Hsteps.
    by rewrite Hquo. }
  rewrite (DrawLine_same_point ppm p c) by lia.
  destruct (shape_update2 _ _ _ (PPM.Y p) (PPM.X p) c Hshape Hy Hx)
    as (d' & Hd & Hs').
  unfold PPM.Set_. rewrite Hd. cbn.
  eexists. split; [reflexivity |]. cbn.
  split; [reflexivity |]. split; [exact Hs' |].
  intros x y. unfold PPM.At. cbn.
  rewrite (index2_update2 _ _ _ _ _ y x Hd).
  destruct (decide (PPM.Y p = y /\ PPM.X p = x)) as [[<- <-] | Hne].
  - by rewrite decide_True.
  - rewrite decide_False; [reflexivity |].
    intros [-> ->]. by apply Hne.
Qed.

Lemma DrawLine_single_pixel_witness :
  let ppm := Examples.pix3x2 in
  let p := PPM.mkPoint 2 1 in
  let c := Examples.red in
  shape (PPM.data ppm) (PPM.width ppm) (PPM.height ppm) /\
  0 <= PPM.X p < PPM.width ppm /\
  0 <= PPM.Y p < PPM.height ppm /\
  (PPM.X p < 2 ^ 53 /\ PPM.Y p < 2 ^ 53) /\
  let dx := F64.ofInt (Go.int64 (PPM.X p - PPM.X p)) in
  let dy := F64.ofInt (Go.int64 (PPM.Y p - PPM.Y p)) in
  let steps := F64.toInt (F64.Max (F64.Abs dx) (F64.Abs dy)) in
  (steps = 0 /\
   F64.quo dx (F64.ofInt steps) = F64.NaN /\
   F64.quo dy (F64.ofInt steps) = F64.NaN) /\
  exists ppm',
    PPM.DrawLine ppm p p c = Some ppm' /\
    (PPM.width ppm', PPM.height ppm', PPM.magicNumber ppm', PPM.max ppm')
    = (PPM.width ppm, PPM.height ppm, PPM.magicNumber ppm, PPM.max ppm) /\
    shape (PPM.data ppm') (PPM.width ppm) (PPM.height ppm) /\
    forall x y,
      PPM.At ppm' x y
      = if decide (x = PPM.X p /\ y = PPM.Y p) then Some c
        else PPM.At ppm x y.
Proof.
  intros ppm p c.
  assert (Hx : 0 <= PPM.X p < PPM.width ppm) by (cbn; lia).
  assert (Hy : 0 <= PPM.Y p < PPM.height ppm) by (cbn; lia).
  assert (He : PPM.X p < 2 ^ 53 /\ PPM.Y p < 2 ^ 53) by (cbn; lia).
  exact (conj pix3x2_shape (conj Hx (conj Hy (conj He
           (DrawLine_single_pixel ppm p c pix3x2_shape Hx Hy He))))).
Defined.

(** C4 as the spec words it fails twice.  The point (4,0) is no pixel
    of the blank 4x4 canvas: DrawLine from it to itself draws nothing,
    the call panics.  And at the pixel (1,1) nothing guards the zero
    step count: the increment is the quotient 0/0. *)
Lemma DrawLine_unguarded :
  PPM.DrawLine Examples.canvas4 (PPM.mkPoint 4 0) (PPM.mkPoint 4 0)
    Examples.red = None /\
  F64.toInt (F64.Max (F64.Abs (F64.ofInt (Go.int64 (1 - 1))))
                     (F64.Abs (F64.ofInt (Go.int64 (1 - 1))))) = 0 /\
  F64.quo (F64.ofInt (Go.int64 (1 - 1))) (F64.ofInt 0) = F64.NaN.
Proof. split; [vm_compute; reflexivity | split; reflexivity]. Qed.

End DrawLine.

(** ** Loops that replace every sample by a function of itself *)

Section PointwiseLoops.

Context {A : Type}.
Implicit Types (d t : list (list A)).

Lemma index2_outside d w h i j :
  shape d w h -> ~ (0 <= i < h /\ 0 <= j < w) -> Go.index2 d i j = None.
Proof.
  intros Hs Hout. destruct (Go.index2 d i j) as [v |] eqn:E; [| reflexivity].
  apply index2_Some in E as (row & Hrow & Hv).
  pose proof (index_range _ _ _ Hrow) as Hi.
  pose proof (index_range _ _ _ Hv) as Hj.
  rewrite (shape_row _ _ _ _ _ Hs Hrow) in Hj.
  destruct Hs as [Hl _]. rewrite Hl in Hi. tauto.
Qed.

Lemma pointwise_loop d w h (f : A -> A) :
  shape d w h ->
  exists d',
    Go.for_range 0 h (fun i t =>
      Go.for_range 0 w (fun j t =>
        v ← Go.index2 t i j; Go.update2 t i j (f v)) t) d
    = Some d' /\
    shape d' w h /\
    forall i j, Go.index2 d' i j = f <$> Go.index2 d i j.
Proof.
  intros Hs. pose proof (shape_nonneg _ _ _ Hs) as Hh.
  set (inv := fun k m t =>
    shape t w h /\
    forall i j, Go.index2 t i j
                = if visited k m i j then f <$> Go.index2 d i j
                  else Go.index2 d i j).
  (* the cells compared are inside the raster, or read as [None] *)
  assert (Hcmp : forall k m k' m' i j,
    (0 <= i < h -> 0 <= j < w -> visited k m i j = visited k' m' i j) ->
    (if visited k m i j then f <$> Go.index2 d i j else Go.index2 d i j)
    = (if visited k' m' i j then f <$> Go.index2 d i j
       else Go.index2 d i j)).
  { intros k m k' m' i j Hin.
    destruct (decide (0 <= i < h /\ 0 <= j < w)) as [[Hi Hj] | Hout].
    - by rewrite Hin.
    - rewrite (index2_outside d w h i j Hs Hout).
      by destruct (visited k m i j), (visited k' m' i j). }
  assert (Hrow : forall k t, 0 <= k < h -> inv k 0 t ->
    exists t',
      Go.for_range 0 w (fun j t =>
        v ← Go.index2 t k j; Go.update2 t k j (f v)) t = Some t' /\
      inv (k + 1) 0 t').
  { intros k t Hk Hinv.
    destruct (Z.le_gt_cases 0 w) as [Hw | Hw].
    - destruct (for_range_invariant (inv k) 0 w
        (fun j t => v ← Go.index2 t k j; Go.update2 t k j (f v)) t Hw Hinv)
        as (t' & Hrun & Hst' & Hcells).
      + intros m u Hm [Hsu Hu].
        destruct (shape_index2 u w h k m Hsu Hk Hm) as [v Hv].
        rewrite Hv. cbn.
        destruct (shape_update2 u w h k m (f v) Hsu Hk Hm) as (u' & Hu' & Hsu').
        exists u'. split; [exact Hu' |]. split; [exact Hsu' |].
        intros i j. rewrite (index2_update2 _ _ _ _ _ i j Hu').
        destruct (decide (k = i /\ m = j)) as [[<- <-] | Hne].
        * rewrite Hu in Hv. unfold visited in Hv |- *.
          rewrite Z.ltb_irrefl, Z.eqb_refl in Hv. cbn in Hv.
          rewrite Z.ltb_irrefl in Hv. rewrite Hv.
          rewrite Z.ltb_irrefl, Z.eqb_refl.
          replace (m <? m + 1) with true by (symmetry; apply Z.ltb_lt; lia).
          reflexivity.
        * rewrite Hu. apply Hcmp. intros Hi Hj. unfold visited.
          destruct (Z.ltb_spec i k); [reflexivity |]. cbn.
          destruct (Z.eqb_spec i k) as [-> | ?]; [| reflexivity]. cbn.
          destruct (Z.ltb_spec j m); destruct (Z.ltb_spec j (m + 1));
            try reflexivity; lia.
      + exists t'. split; [exact Hrun |]. split; [exact Hst' |].
        intros i j. rewrite Hcells. apply Hcmp. intros Hi Hj. unfold visited.
        destruct (Z.ltb_spec i k); destruct (Z.ltb_spec i (k + 1));
          destruct (Z.eqb_spec i k); destruct (Z.eqb_spec i (k + 1));
          destruct (Z.ltb_spec j w); destruct (Z.ltb_spec j 0);
          try reflexivity; lia.
    - rewrite for_range_empty by lia. exists t. split; [reflexivity |].
      destruct Hinv as [Hst Hcells]. split; [exact Hst |].
      intros i j. rewrite Hcells. apply Hcmp. intros Hi Hj. lia. }
  destruct (for_range_invariant (fun k t => inv k 0 t) 0 h
    (fun i t =>
       Go.for_range 0 w (fun j t =>
         v ← Go.index2 t i j; Go.update2 t i j (f v)) t) d Hh)
    as (d' & Hrun & Hsd' & Hcells).
  - split; [exact Hs |]. intros i j.
    destruct (decide (0 <= i < h /\ 0 <= j < w)) as [[Hi Hj] | Hout].
    + unfold visited. destruct (Z.ltb_spec i 0); [lia |].
      destruct (Z.ltb_spec j 0); [lia |]. by rewrite andb_false_r.
    + rewrite (index2_outside d w h i j Hs Hout).
      by destruct (visited 0 0 i j).
  - intros k t Hk Hinv. by apply Hrow.
  - exists d'. split; [exact Hrun |]. split; [exact Hsd' |].
    intros i j. rewrite Hcells.
    destruct (decide (0 <= i < h /\ 0 <= j < w)) as [[Hi Hj] | Hout].
    + unfold visited. destruct (Z.ltb_spec i h); [reflexivity | lia].
    + rewrite (index2_outside d w h i j Hs Hout).
      by destruct (visited h 0 i j).
Qed.

End PointwiseLoops.

(** ** SetMaxValue *)

Section SetMaxValue.

(** What the code computes.  SetMaxValue on a graymap of [height] rows
    of [width] samples replaces every sample [s] by
    [uint8(float64(s) * float64(maxValue) / float64(max))] and stores
    [maxValue]; SetMaxValue on a pixmap stores [maxValue] only. *)
Lemma SetMaxValue_samples (pgm : PGM.t) (ppm : PPM.t) (maxValue : Z)
  (Hshape : shape (PGM.data pgm) (PGM.width pgm) (PGM.height pgm)) :
  (exists pgm',
      PGM.SetMaxValue pgm maxValue = Some pgm' /\
      PGM.max pgm' = maxValue /\
      (PGM.width pgm', PGM.height pgm', PGM.magicNumber pgm')
      = (PGM.width pgm, PGM.height pgm, PGM.magicNumber pgm) /\
      shape (PGM.data pgm') (PGM.width pgm) (PGM.height pgm) /\
      forall x y,
        Go.index2 (PGM.data pgm') y x
        = (fun s =>
             F64.toUint8
               (F64.quo (F64.mul (F64.ofInt s) (F64.ofInt maxValue))
                        (F64.ofInt (PGM.max pgm))))
          <$> Go.index2 (PGM.data pgm) y x) /\
  PPM.SetMaxValue ppm maxValue
  = PPM.mk (PPM.data ppm) (PPM.width ppm) (PPM.height ppm)
      (PPM.magicNumber ppm) maxValue.
Proof.
  split; [| reflexivity].
  destruct (pointwise_loop _ _ _
    (fun s =>
       F64.toUint8
         (F64.quo (F64.mul (F64.ofInt s) (F64.ofInt maxValue))
                  (F64.ofInt (PGM.max pgm)))) Hshape)
    as (d' & Hrun & Hs' & Hcells).
  unfold PGM.SetMaxValue. rewrite Hrun. cbn.
  eexists. split; [reflexivity |]. cbn. repeat split; try apply Hs'.
  intros x y. apply Hcells.
Qed.

(** C8 fails on the code.  On the graymap of the one sample 1 and max
    value 3, SetMaxValue(2) leaves the sample 0: the conversion
    [uint8(scaledValue)] drops the fraction of 1 * 2 / 3, where the
    comment above it, and the claim, round to the nearest integer,
    which is 1. *)
Theorem SetMaxValue_truncates :
  PGM.SetMaxValue Examples.gray1x1_max3 2 = Some (PGM.mk [[0]] 1 1 "P2" 2) /\
  rescale_rounded 1 2 3 = 1.
Proof. split; reflexivity. Qed.

End SetMaxValue.

(** ** Drawing outside of the canvas *)

Section Clipping.

(** [Set] outside of the canvas is a run-time panic. *)
Lemma Set_outside_panics (ppm : PPM.t) (x y : Z) (value : PPM.Pixel) :
  shape (PPM.data ppm) (PPM.width ppm) (PPM.height ppm) ->
  ~ (0 <= x < PPM.width ppm /\ 0 <= y < PPM.height ppm) ->
  PPM.Set_ ppm x y value = None.
Proof.
  intros Hs Hout. unfold PPM.Set_.
  destruct (Go.update2 (PPM.data ppm) y x value) as [d' |] eqn:E;
    [| reflexivity].
  apply update2_inv in E as (row & Hrow & Hx & _).
  pose proof (index_range _ _ _ Hrow) as Hy.
  rewrite (shape_row _ _ _ _ _ Hs Hrow) in Hx.
  destruct Hs as [Hl _]. rewrite Hl in Hy. tauto.
Qed.

(** The graymap's [Set], by contrast, skips an address outside of the
    stored dimensions. *)
Lemma PGM_Set_outside_skips (pgm : PGM.t) (x y value : Z) :
  ~ (0 <= x < PGM.width pgm /\ 0 <= y < PGM.height pgm) ->
  PGM.Set_ pgm x y value = Some pgm.
Proof.
  intros Hout. unfold PGM.Set_, PGM.inBounds.
  destruct (Z.geb_spec x 0); destruct (Z.ltb_spec x (PGM.width pgm));
    destruct (Z.geb_spec y 0); destruct (Z.ltb_spec y (PGM.height pgm));
    cbn; try reflexivity.
  exfalso. apply Hout. lia.
Qed.

(** C2 fails on the code.  On the blank 4x4 canvas every drawing
    operation that reaches a pixel address outside of the canvas ends in
    a run-time panic instead of skipping that address. *)
Theorem drawing_outside_canvas_panics :
  PPM.Set_ Examples.canvas4 4 0 Examples.red = None /\
  PPM.DrawLine Examples.canvas4 (PPM.mkPoint 0 0) (PPM.mkPoint 4 0)
    Examples.red = None /\
  PPM.DrawRectangle Examples.canvas4 (PPM.mkPoint 1 1) 3 2 Examples.red
  = None /\
  PPM.DrawFilledRectangle Examples.canvas4 (PPM.mkPoint 1 1) 4 2 Examples.red
  = None /\
  PPM.DrawCircle Examples.canvas4 (PPM.mkPoint 0 0) 1 Examples.red = None /\
  PPM.DrawFilledCircle Examples.canvas4 (PPM.mkPoint 0 0) 1 Examples.red
  = None /\
  PPM.DrawTriangle Examples.canvas4 (PPM.mkPoint 0 0) (PPM.mkPoint 4 0)
    (PPM.mkPoint 0 3) Examples.red = None /\
  PPM.DrawFilledTriangle Examples.canvas4 (PPM.mkPoint 0 0) (PPM.mkPoint 5 1)
    (PPM.mkPoint 1 3) Examples.red = None /\
  PPM.DrawPolygon Examples.canvas4
    [PPM.mkPoint 0 0; PPM.mkPoint 4 0; PPM.mkPoint 0 3] Examples.red
  = None /\
  PPM.DrawFilledPolygon Examples.canvas4
    [PPM.mkPoint 5 0; PPM.mkPoint 0 3; PPM.mkPoint 5 3] Examples.red
  = None.
Proof. repeat split; vm_compute; reflexivity. Qed.

End Clipping.

(** ** ToPBM *)

Section Threshold.

(** What ToPBM computes for every sample, in each of the three
    implementations: the graymap with the [uint] max value marks the
    samples below the threshold, the two others the samples above it. *)
Lemma PGM_ToPBM_samples (pgm : PGM.t) :
  shape (PGM.data pgm) (PGM.width pgm) (PGM.height pgm) ->
  0 <= PGM.width pgm ->
  exists d,
    PGM.ToPBM pgm = Some (PBM.mk d (PGM.width pgm) (PGM.height pgm) "P1") /\
    shape d (PGM.width pgm) (PGM.height pgm) /\
    forall y x, 0 <= y < PGM.height pgm -> 0 <= x < PGM.width pgm ->
      Go.index2 d y x
      = (fun v => v <? Go.uint8 (Go.div (PGM.max pgm) 2))
        <$> Go.index2 (PGM.data pgm) y x.
Proof.
  intros Hs Hw. unfold PGM.ToPBM.
  destruct (convert_raster (PGM.data pgm) _ _
    (fun v => v <? Go.uint8 (Go.div (PGM.max pgm) 2)) false Hs Hw)
    as (d & Hrun & Hsd & Hcells).
  destruct (Go.make (PGM.height pgm) []) as [l |]; [| discriminate].
  cbn in Hrun |- *. rewrite Hrun. cbn. eauto.
Qed.

Lemma PGM2_ToPBM_samples (pgm : PGM2.t) :
  shape (PGM2.data pgm) (PGM2.width pgm) (PGM2.height pgm) ->
  0 <= PGM2.width pgm ->
  exists d,
    PGM2.ToPBM pgm
    = Some (PBM.mk d (PGM2.width pgm) (PGM2.height pgm) "P4") /\
    shape d (PGM2.width pgm) (PGM2.height pgm) /\
    forall y x, 0 <= y < PGM2.height pgm -> 0 <= x < PGM2.width pgm ->
      Go.index2 d y x
      = (fun v => v >? Go.uint8 (Go.div (PGM2.max pgm) 2))
        <$> Go.index2 (PGM2.data pgm) y x.
Proof.
  intros Hs Hw. unfold PGM2.ToPBM.
  destruct (convert_raster (PGM2.data pgm) _ _
    (fun v => v >? Go.uint8 (Go.div (PGM2.max pgm) 2)) false Hs Hw)
    as (d & Hrun & Hsd & Hcells).
  destruct (Go.make (PGM2.height pgm) []) as [l |]; [| discriminate].
  cbn in Hrun |- *. rewrite Hrun. cbn. eauto.
Qed.

Lemma PPM_ToPBM_samples (ppm : PPM.t) :
  shape (PPM.data ppm) (PPM.width ppm) (PPM.height ppm) ->
  0 <= PPM.width ppm ->
  exists d,
    PPM.ToPBM ppm = Some (PBM.mk d (PPM.width ppm) (PPM.height ppm) "P1") /\
    shape d (PPM.width ppm) (PPM.height ppm) /\
    forall y x, 0 <= y < PPM.height ppm -> 0 <= x < PPM.width ppm ->
      Go.index2 d y x
      = (fun p =>
           F64.gt (PPM.luma p)
             (F64.quo (F64.ofInt (PPM.max ppm)) (F64.ofInt 2)))
        <$> Go.index2 (PPM.data ppm) y x.
Proof.
  intros Hs Hw. unfold PPM.ToPBM.
  destruct (convert_raster (PPM.data ppm) _ _
    (fun p =>
       F64.gt (PPM.luma p) (F64.quo (F64.ofInt (PPM.max ppm)) (F64.ofInt 2)))
    false Hs Hw) as (d & Hrun & Hsd & Hcells).
  destruct (Go.make (PPM.height ppm) []) as [l |]; [| discriminate].
  cbn in Hrun |- *. rewrite Hrun. cbn. eauto.
Qed.

(** For a max value below 256, a sample is above [uint8(max/2)] exactly
    when twice the sample is above the max value. *)
Lemma above_half (v max : Z) :
  0 <= max < 256 -> (v >? Go.uint8 (Go.div max 2)) = (max <? 2 * v).
Proof.
  intros Hm. unfold Go.uint8, Go.div. rewrite Z.quot_div_nonneg by lia.
  pose proof (Z.div_mod max 2 ltac:(lia)).
  pose proof (Z.mod_pos_bound max 2 ltac:(lia)).
  rewrite Z.mod_small by lia.
  rewrite Z.gtb_ltb.
  destruct (Z.ltb_spec (max / 2) v); destruct (Z.ltb_spec max (2 * v));
    lia || reflexivity.
Qed.

(** C5 fails on the graymap of package Netpbm with the [uint] max value:
    with max value 255 the sample 200 converts to [false], where the
    other graymap and the pixmap convert it to [true]. *)
Theorem ToPBM_bright_sample :
  PGM.ToPBM Examples.bright = Some (PBM.mk [[false]] 1 1 "P1") /\
  PGM2.ToPBM Examples.bright2 = Some (PBM.mk [[true]] 1 1 "P4") /\
  PPM.ToPBM Examples.brightPixel = Some (PBM.mk [[true]] 1 1 "P1").
Proof. repeat split; vm_compute; reflexivity. Qed.

End Threshold.

(** ** Decoding an unknown magic number *)

Section MagicNumber.

(** ReadPBM returns an image for the magic numbers P1 and P4 only. *)
Lemma ReadPBM_magicNumber (content : string) (pbm : PBM.t) :
  PBM.ReadPBM content = Ok pbm ->
  PBM.magicNumber pbm = "P1"%string \/ PBM.magicNumber pbm = "P4"%string.
Proof.
  unfold PBM.ReadPBM.
  destruct (bufio.ReadString _ _) as [[line1 [|]] r1]; [discriminate |].
  destruct (String.eqb_spec (strings.TrimSpace line1) "P1") as [E1 | E1];
    destruct (String.eqb_spec (strings.TrimSpace line1) "P4") as [E4 | E4];
    cbn [negb andb]; try discriminate.
  - congruence.
  - destruct (bufio.ReadString _ r1) as [[dims [|]] r2]; [discriminate |].
    destruct (fmt.Sscanf _ _) as [vs [|]]; [discriminate |].
    destruct (run (PBM.makeRaster _ _ _)) as [d | |]; cbn; try discriminate.
    destruct (for_rangeR _ _ _ _) as [[r d'] | |]; cbn; try discriminate.
    intros [= <-]. cbn. by left.
  - destruct (bufio.ReadString _ r1) as [[dims [|]] r2]; [discriminate |].
    destruct (fmt.Sscanf _ _) as [vs [|]]; [discriminate |].
    destruct (run (PBM.makeRaster _ _ _)) as [d | |]; cbn; try discriminate.
    destruct (for_rangeR _ _ _ _) as [[r d'] | |]; cbn; try discriminate.
    intros [= <-]. cbn. by right.
Qed.

(** ReadPGM returns an image for the magic numbers P2 and P5 only. *)
Lemma ReadPGM_magicNumber (content : string) (pgm : PGM.t) :
  PGM.ReadPGM content = Ok pgm ->
  PGM.magicNumber pgm = "P2"%string \/ PGM.magicNumber pgm = "P5"%string.
Proof.
  unfold PGM.ReadPGM.
  destruct (bufio.ReadString _ _) as [[line1 [|]] r1]; [discriminate |].
  destruct (String.eqb_spec (strings.TrimSpace line1) "P2") as [E1 | E1];
    destruct (String.eqb_spec (strings.TrimSpace line1) "P5") as [E4 | E4];
    cbn [negb andb]; try discriminate.
  - congruence.
  - destruct (bufio.ReadString _ r1) as [[dims [|]] r2]; [discriminate |].
    destruct (fmt.Sscanf _ _) as [vs [|]]; [discriminate |].
    destruct (_ || _); [discriminate |].
    destruct (bufio.ReadString _ r2) as [[mx [|]] r3]; [discriminate |].
    destruct (fmt.Sscanf _ _) as [vs' [|]]; [discriminate |].
    destruct (run (Go.make _ [])) as [d | |]; cbn; try discriminate.
    destruct (for_rangeR _ _ _ _) as [[r d'] | |]; cbn; try discriminate.
    intros [= <-]. cbn. by left.
  - destruct (bufio.ReadString _ r1) as [[dims [|]] r2]; [discriminate |].
    destruct (fmt.Sscanf _ _) as [vs [|]]; [discriminate |].
    destruct (_ || _); [discriminate |].
    destruct (bufio.ReadString _ r2) as [[mx [|]] r3]; [discriminate |].
    destruct (fmt.Sscanf _ _) as [vs' [|]]; [discriminate |].
    destruct (run (Go.make _ [])) as [d | |]; cbn; try discriminate.
    destruct (for_rangeR _ _ _ _) as [[r d'] | |]; cbn; try discriminate.
    intros [= <-]. cbn. by right.
Qed.

(** ReadPPM has no error to return. *)
Lemma ReadPPM_never_fails (content : string) (e : error) :
  PPM.ReadPPM content <> Err e.
Proof.
  unfold PPM.ReadPPM.
  destruct (fmt.Sscanf _ [fmt.Int; fmt.Int]) as [vs ?].
  destruct (fmt.Sscanf _ [fmt.Uint]) as [vs' ?].
  destruct (Go.make (fmt.stored vs 1 0) []) as [d |]; cbn; [| discriminate].
  destruct (Go.for_range 0 (fmt.stored vs 1 0) _ _) as [[sc d'] |]; cbn;
    discriminate.
Qed.

(** C9 fails on ReadPPM.  A stream declaring the magic number P9 is
    refused by ReadPBM and ReadPGM, and decoded by ReadPPM into an image
    whose magic number is P9. *)
Theorem ReadPPM_accepts_P9 :
  PBM.ReadPBM Examples.streamP9 = Err (ErrInvalidMagicNumber "P9") /\
  PGM.ReadPGM Examples.streamP9 = Err (ErrInvalidMagicNumber "P9") /\
  PPM.ReadPPM Examples.streamP9
  = Ok (PPM.mk [[PPM.mkPixel 1 2 3]] 1 1 "P9" 255).
Proof. repeat split; vm_compute; reflexivity. Qed.

End MagicNumber.

(** ** Encoding, then decoding *)

Section RoundTrip.

(** Small images come back from their encoding: the 2x2 graymap of the
    spec in both variants, a bitmap whose width is no multiple of 8 in
    both variants, and a pixmap. *)
Lemma round_trip_small_images :
  (s ← PGM.Save Examples.gray2x2; PGM.ReadPGM s) = Ok Examples.gray2x2 /\
  (s ← PGM.Save (PGM.SetMagicNumber Examples.gray2x2 "P5"); PGM.ReadPGM s)
  = Ok (PGM.SetMagicNumber Examples.gray2x2 "P5") /\
  (s ← PBM.Save Examples.bitmap10x2; PBM.ReadPBM s)
  = Ok Examples.bitmap10x2 /\
  (s ← PBM.Save (PBM.SetMagicNumber Examples.bitmap10x2 "P4");
   PBM.ReadPBM s)
  = Ok (PBM.SetMagicNumber Examples.bitmap10x2 "P4") /\
  (s ← PPM.Save Examples.pix2x2; PPM.ReadPPM s) = Ok Examples.pix2x2.
Proof. repeat split; vm_compute; reflexivity. Qed.

(** C1 fails on the binary variants.  The encoding of the 100x100 binary
    graymap is a 15 byte header and 10000 sample bytes; the reader's
    buffer holds 4096 bytes, so that the read of row 40 delivers the 81
    bytes left in the buffer, which ReadPGM takes for the end of the
    file.  The 64x600 binary bitmap fails the same way at row 510. *)
Theorem binary_round_trip_fails :
  (s ← PGM.Save Examples.gray100x100; PGM.ReadPGM s)
  = Err (ErrShortRow 40 100 81) /\
  (s ← PBM.Save Examples.bitmap64x600; PBM.ReadPBM s)
  = Err (ErrShortRow 510 8 6).
Proof. split; vm_compute; reflexivity. Qed.

End RoundTrip.

(** * Further properties of the library *)

Section SliceFacts.

Context {A : Type}.
Implicit Types (l r : list A) (d t : list (list A)).

Lemma list_ext_index l r :
  Go.len l = Go.len r ->
  (forall i, 0 <= i < Go.len l -> Go.index l i = Go.index r i) ->
  l = r.
Proof.
  unfold Go.len. intros Hlen H.
  apply list_eq_same_length with (n := length l); [lia | lia |].
  intros i x y Hi Hx Hy.
  specialize (H (Z.of_nat i) ltac:(lia)).
  unfold Go.index in H.
  destruct (Z.ltb_spec (Z.of_nat i) 0); [lia |].
  rewrite Nat2Z.id in H. congruence.
Qed.

Lemma index_reverse l i :
  0 <= i < Go.len l ->
  Go.index (reverse l) i = Go.index l (Go.len l - 1 - i).
Proof.
  unfold Go.len, Go.index. intros Hi.
  destruct (Z.ltb_spec i 0); [lia |].
  destruct (Z.ltb_spec (Z.of_nat (length l) - 1 - i) 0); [lia |].
  rewrite reverse_lookup by lia. f_equal. lia.
Qed.

Lemma index_fmap {B} (f : A -> B) l i :
  Go.index (f <$> l) i = f <$> Go.index l i.
Proof.
  unfold Go.index. destruct (i <? 0); [done |]. apply list_lookup_fmap.
Qed.

Lemma for_range_step {S} lo hi (body : Z -> S -> option S) s :
  lo < hi ->
  Go.for_range lo hi body s
  = (s' ← body lo s; Go.for_range (lo + 1) hi body s').
Proof.
  intros H. unfold Go.for_range.
  replace (Z.to_nat (hi - lo)) with (Datatypes.S (Z.to_nat (hi - (lo + 1))))
    by lia.
  cbn [Go.loop]. destruct (body lo s); reflexivity.
Qed.

Lemma for_range_agree {S} (P : Z -> S -> Prop) lo hi
  (body1 body2 : Z -> S -> option S) s :
  P lo s ->
  (forall k st, lo <= k < hi -> P k st ->
     body1 k st = body2 k st /\
     forall st', body2 k st = Some st' -> P (k + 1) st') ->
  Go.for_range lo hi body1 s = Go.for_range lo hi body2 s.
Proof.
  unfold Go.for_range.
  destruct (Z.le_gt_cases hi lo) as [Hle | Hlt].
  { replace (Z.to_nat (hi - lo)) with O by lia. reflexivity. }
  remember (Z.to_nat (hi - lo)) as n eqn:Hn.
  assert (Hhi : hi = lo + Z.of_nat n) by lia. clear Hn Hlt.
  revert lo s Hhi.
  induction n as [| n IH]; intros lo s Hhi HP Hstep; [reflexivity |].
  cbn [Go.loop].
  destruct (Hstep lo s ltac:(lia) HP) as [Heq Hnext].
  rewrite Heq. destruct (body2 lo s) as [s' |] eqn:Hb; [| reflexivity].
  apply IH; [lia | by apply Hnext |].
  intros k st Hk. apply Hstep. lia.
Qed.

End SliceFacts.

Section Mirror.

Context {A : Type}.
Implicit Types (l r : list A) (d t : list (list A)).

Lemma half_bounds n k :
  0 <= n -> 0 <= k < Go.div n 2 -> 2 * k + 2 <= n.
Proof.
  unfold Go.div. intros Hn Hk.
  rewrite Z.quot_div_nonneg in Hk by lia.
  pose proof (Z.div_mod n 2 ltac:(lia)).
  pose proof (Z.mod_pos_bound n 2 ltac:(lia)). lia.
Qed.

Lemma half_covers n :
  0 <= n -> n - 1 <= 2 * Go.div n 2 <= n.
Proof.
  unfold Go.div. intros Hn.
  rewrite Z.quot_div_nonneg by lia.
  pose proof (Z.div_mod n 2 ltac:(lia)).
  pose proof (Z.mod_pos_bound n 2 ltac:(lia)). lia.
Qed.

Lemma swap_spec l i j :
  0 <= i < Go.len l -> 0 <= j < Go.len l ->
  exists l',
    Go.swap l i j = Some l' /\
    Go.len l' = Go.len l /\
    forall k, Go.index l' k =
      if decide (k = j) then Go.index l i
      else if decide (k = i) then Go.index l j else Go.index l k.
Proof.
  intros Hi Hj. unfold Go.swap.
  destruct (index_in_range l j Hj) as [x Hx].
  destruct (index_in_range l i Hi) as [y Hy].
  rewrite Hx, Hy. cbn.
  rewrite (update_Some l i x Hi). cbn.
  rewrite update_Some by (rewrite len_insert; lia).
  eexists. split; [reflexivity |]. split.
  { by rewrite !len_insert. }
  intros k. destruct (decide (k = j)) as [-> | Hkj].
  { rewrite index_insert_eq by (rewrite len_insert; lia). done. }
  rewrite index_insert_ne by lia.
  destruct (decide (k = i)) as [-> | Hki].
  { rewrite index_insert_eq by lia. done. }
  by rewrite index_insert_ne by lia.
Qed.

(** The loop of [Flop], and of [Flip] on one row: exchanging entry [j]
    and entry [n-j-1] for [j < n/2] reverses the slice. *)
Lemma mirror_loop l n :
  Go.len l = n ->
  Go.for_range 0 (Go.div n 2) (fun j r => Go.swap r j (n - j - 1)) l
  = Some (reverse l).
Proof.
  intros Hn.
  assert (H0 : 0 <= n) by (unfold Go.len in Hn; lia).
  pose proof (half_covers n H0) as Hhalf.
  destruct (for_range_invariant
    (fun m r => Go.len r = n /\
       forall k, 0 <= k < n ->
         Go.index r k
         = Go.index l (if (k <? m) || (n - m <=? k) then n - 1 - k else k))
    0 (Go.div n 2) (fun j r => Go.swap r j (n - j - 1)) l)
    as (r & Hr & Hlen & Hidx).
  - lia.
  - split; [done |]. intros k Hk.
    destruct (Z.ltb_spec k 0); [lia |].
    destruct (Z.leb_spec (n - 0) k); [lia |]. done.
  - intros m r Hm [Hlen Hidx].
    pose proof (half_bounds n m H0 Hm) as Hb.
    destruct (swap_spec r m (n - m - 1)) as (r' & Hs & Hlen' & Hidx');
      [lia | lia |].
    exists r'. split; [done |]. split; [lia |].
    intros k Hk. rewrite Hidx'.
    destruct (decide (k = n - m - 1)) as [-> | Hk1].
    { rewrite Hidx by lia.
      destruct (Z.ltb_spec m m); [lia |].
      destruct (Z.leb_spec (n - m) m); [lia |].
      destruct (Z.leb_spec (n - (m + 1)) (n - m - 1)); [| lia].
      rewrite orb_true_r. cbn. f_equal. lia. }
    destruct (decide (k = m)) as [-> | Hk2].
    { rewrite Hidx by lia.
      destruct (Z.ltb_spec (n - m - 1) m); [lia |].
      destruct (Z.leb_spec (n - m) (n - m - 1)); [lia |].
      destruct (Z.ltb_spec m (m + 1)); [| lia]. cbn. f_equal; lia. }
    rewrite Hidx by lia.
    destruct (Z.ltb_spec k m), (Z.ltb_spec k (m + 1)),
      (Z.leb_spec (n - m) k), (Z.leb_spec (n - (m + 1)) k);
      try lia; reflexivity.
  - rewrite Hr. f_equal. apply list_ext_index.
    { unfold Go.len in *. rewrite length_reverse. lia. }
    intros k Hk. rewrite index_reverse by lia. rewrite Hidx by lia.
    rewrite Hn.
    destruct (Z.ltb_spec k (Go.div n 2)), (Z.leb_spec (n - Go.div n 2) k);
      cbn; try reflexivity.
    f_equal. lia.
Qed.

Lemma swap2_row d i j k row :
  Go.index d i = Some row ->
  Go.swap2 d i j k = (row' ← Go.swap row j k; Go.update d i row').
Proof.
  intros Hrow. pose proof (index_range d i row Hrow) as Hi.
  unfold Go.swap2, Go.swap, Go.index2, Go.update2. rewrite Hrow. cbn.
  destruct (Go.index row k) as [x |]; [| reflexivity]. cbn.
  destruct (Go.index row j) as [y |]; [| reflexivity]. cbn.
  destruct (Go.update row j x) as [row1 |] eqn:Hu1; [| reflexivity]. cbn.
  rewrite (update_Some d i row1 Hi). cbn.
  rewrite index_insert_eq by lia. cbn.
  destruct (Go.update row1 k y) as [row2 |]; [| reflexivity]. cbn.
  rewrite !update_Some by (rewrite ?len_insert; lia).
  by rewrite list_insert_insert_eq.
Qed.

Lemma flip_row_loop d i w n lo r r' :
  0 <= i < Go.len d ->
  Go.loop n lo (fun j r => Go.swap r j (w - j - 1)) r = Some r' ->
  Go.loop n lo (fun j t => Go.swap2 t i j (w - j - 1))
    (<[Z.to_nat i := r]> d)
  = Some (<[Z.to_nat i := r']> d).
Proof.
  intros Hi. revert r lo.
  induction n as [| n IH]; intros r lo Hm; cbn [Go.loop] in *.
  { by inversion Hm. }
  destruct (Go.swap r lo (w - lo - 1)) as [r1 |] eqn:Hs; [| done].
  rewrite (swap2_row _ i lo (w - lo - 1) r)
    by (apply index_insert_eq; lia).
  rewrite Hs. cbn.
  rewrite update_Some by (rewrite len_insert; lia).
  rewrite list_insert_insert_eq. by apply IH.
Qed.

Lemma flip_row d i row w :
  Go.index d i = Some row -> Go.len row = w ->
  Go.for_range 0 (Go.div w 2) (fun j t => Go.swap2 t i j (w - j - 1)) d
  = Some (<[Z.to_nat i := reverse row]> d).
Proof.
  intros Hrow Hw. pose proof (index_range d i row Hrow) as Hi.
  pose proof (mirror_loop row w Hw) as Hm.
  assert (Hd : d = <[Z.to_nat i := row]> d).
  { symmetry. apply list_insert_id. apply index_Some in Hrow. tauto. }
  rewrite Hd at 1.
  by apply flip_row_loop.
Qed.

(** [Flip] on a raster: every row is reversed. *)
Lemma flip_rows d w h :
  shape d w h ->
  Go.for_range 0 h (fun i t =>
    Go.for_range 0 (Go.div w 2) (fun j t => Go.swap2 t i j (w - j - 1)) t) d
  = Some (reverse <$> d).
Proof.
  intros Hsh. pose proof (shape_nonneg d w h Hsh) as Hh.
  destruct (for_range_invariant
    (fun k t => Go.len t = h /\
       forall i, 0 <= i < h ->
         Go.index t i
         = if i <? k then reverse <$> Go.index d i else Go.index d i)
    0 h (fun i t =>
      Go.for_range 0 (Go.div w 2)
        (fun j t => Go.swap2 t i j (w - j - 1)) t) d)
    as (t & Ht & Hlen & Hidx).
  - done.
  - split; [apply Hsh |]. intros i Hi.
    destruct (Z.ltb_spec i 0); [lia | done].
  - intros k t Hk [Hlen Hidx].
    destruct (index_in_range d k) as [row Hrow]; [destruct Hsh; lia |].
    assert (Htk : Go.index t k = Some row).
    { rewrite Hidx by lia. destruct (Z.ltb_spec k k); [lia | done]. }
    rewrite (flip_row t k row w Htk (shape_row d w h k row Hsh Hrow)).
    eexists. split; [reflexivity |]. split; [by rewrite len_insert |].
    intros i Hi. destruct (decide (i = k)) as [-> | Hne].
    + rewrite index_insert_eq by lia.
      destruct (Z.ltb_spec k (k + 1)); [| lia]. by rewrite Hrow.
    + rewrite index_insert_ne by lia. rewrite Hidx by lia.
      destruct (Z.ltb_spec i k), (Z.ltb_spec i (k + 1)); try lia; done.
  - rewrite Ht. f_equal. apply list_ext_index.
    { destruct Hsh. unfold Go.len in *. rewrite length_fmap. lia. }
    intros i Hi. rewrite index_fmap, Hidx by lia.
    destruct (Z.ltb_spec i h); [done | lia].
Qed.

Lemma shape_reverse d w h : shape d w h -> shape (reverse d) w h.
Proof.
  intros [Hlen Hrows]. split.
  - unfold Go.len in *. by rewrite length_reverse.
  - by apply Forall_reverse.
Qed.

Lemma shape_reverse_rows d w h : shape d w h -> shape (reverse <$> d) w h.
Proof.
  intros [Hlen Hrows]. split.
  - unfold Go.len in *. by rewrite length_fmap.
  - apply Forall_fmap. eapply Forall_impl; [exact Hrows |].
    intros row Hrow. cbn. unfold Go.len in *. by rewrite length_reverse.
Qed.

Lemma shape_fmap {B} (f : A -> B) d w h :
  shape d w h -> shape (fmap (M := list) f <$> d) w h.
Proof.
  intros [Hlen Hrows]. split.
  - unfold Go.len in *. by rewrite length_fmap.
  - apply Forall_fmap. eapply Forall_impl; [exact Hrows |].
    intros row Hrow. cbn. unfold Go.len in *. by rewrite length_fmap.
Qed.

Lemma index2_fmap {B} (f : A -> B) d i j :
  Go.index2 (fmap (M := list) f <$> d) i j = f <$> Go.index2 d i j.
Proof.
  unfold Go.index2. rewrite index_fmap.
  destruct (Go.index d i) as [row |]; cbn; [apply index_fmap | done].
Qed.

(** The loop of [Invert] and of every other pointwise update maps [f]
    over the raster. *)
Lemma pointwise_map d w h (f : A -> A) :
  shape d w h ->
  Go.for_range 0 h (fun i t =>
    Go.for_range 0 w (fun j t =>
      v ← Go.index2 t i j; Go.update2 t i j (f v)) t) d
  = Some (fmap (M := list) f <$> d).
Proof.
  intros Hsh. destruct (pointwise_loop d w h f Hsh) as (d' & Hd & Hsh' & Hidx).
  rewrite Hd. f_equal. apply (raster_ext _ _ w h); [done | |].
  { by apply shape_fmap. }
  intros i j _ _. by rewrite index2_fmap.
Qed.

End Mirror.

Section InPlace.

Lemma inner_pointwise_shape {A} (d : list (list A)) w h i (f : A -> A) d' :
  shape d w h -> 0 <= i < h ->
  Go.for_range 0 w (fun j t =>
    v ← Go.index2 t i j; Go.update2 t i j (f v)) d = Some d' ->
  shape d' w h.
Proof.
  intros Hsh Hi Hd.
  destruct (Z.le_gt_cases w 0) as [Hw | Hw].
  { rewrite for_range_empty in Hd by lia. inversion Hd. by subst. }
  destruct (for_range_invariant (fun _ t => shape t w h) 0 w
    (fun j t => v ← Go.index2 t i j; Go.update2 t i j (f v)) d)
    as (t & Ht & Hsh'); [lia | done | | congruence].
  intros j t Hj Ht.
  destruct (shape_index2 t w h i j Ht Hi Hj) as [v Hv]. rewrite Hv. cbn.
  by apply shape_update2.
Qed.

(** [for i := range data], [for j := range data[i]] visits the same
    cells as the loops over [height] and [width]. *)
Lemma range_loops {A} (d : list (list A)) w h (f : A -> A) :
  shape d w h ->
  Go.for_range 0 (Go.len d) (fun i t =>
    row ← Go.index t i;
    Go.for_range 0 (Go.len row) (fun j t =>
      v ← Go.index2 t i j; Go.update2 t i j (f v)) t) d
  = Go.for_range 0 h (fun i t =>
      Go.for_range 0 w (fun j t =>
        v ← Go.index2 t i j; Go.update2 t i j (f v)) t) d.
Proof.
  intros Hsh. destruct Hsh as [Hlen Hrows] eqn:E. clear E.
  rewrite Hlen.
  apply (for_range_agree (fun _ t => shape t w h)); [by split |].
  intros k t Hk Ht.
  destruct (index_in_range t k) as [row Hrow]; [destruct Ht; lia |].
  rewrite Hrow. cbn. rewrite (shape_row t w h k row Ht Hrow).
  split; [done |]. intros t'. by apply inner_pointwise_shape.
Qed.

Lemma flipRow_for_range fuel i j w (d : list (list Z)) :
  0 <= w -> 0 <= j -> w - 1 - 2 * j < Z.of_nat fuel ->
  PGM.flipRow fuel i j (w - 1 - j) d
  = Go.for_range j (Go.div w 2) (fun j t => Go.swap2 t i j (w - j - 1)) d.
Proof.
  intros Hw. pose proof (half_covers w Hw) as Hhalf.
  revert j d. induction fuel as [| fuel IH]; intros j d Hj Hfuel.
  - cbn [PGM.flipRow]. destruct (Z.ltb_spec j (w - 1 - j)); [lia |].
    rewrite for_range_empty by lia. by destruct (j <? w - 1 - j).
  - cbn [PGM.flipRow]. destruct (Z.ltb_spec j (w - 1 - j)).
    + rewrite for_range_step by lia.
      replace (w - j - 1) with (w - 1 - j) by lia.
      destruct (Go.swap2 d i j (w - 1 - j)) as [d' |]; [| done]. cbn.
      replace (w - 1 - j - 1) with (w - 1 - (j + 1)) by lia.
      apply IH; lia.
    + by rewrite for_range_empty by lia.
Qed.

Lemma PGM_Flip_loop (d : list (list Z)) w h :
  shape d w h ->
  Go.for_range 0 (Go.len d) (fun i t =>
    row ← Go.index t i;
    PGM.flipRow (length row) i 0 (Go.len row - 1) t) d
  = Go.for_range 0 h (fun i t =>
      Go.for_range 0 (Go.div w 2)
        (fun j t => Go.swap2 t i j (w - j - 1)) t) d.
Proof.
  intros Hsh. destruct Hsh as [Hlen Hrows] eqn:E. clear E.
  rewrite Hlen.
  apply (for_range_agree (fun _ t => shape t w h)); [by split |].
  intros k t Hk Ht.
  destruct (index_in_range t k) as [row Hrow]; [destruct Ht; lia |].
  rewrite Hrow. cbn.
  pose proof (shape_row t w h k row Ht Hrow) as Hw.
  rewrite Hw. split.
  - replace (w - 1) with (w - 1 - 0) by lia.
    apply flipRow_for_range; unfold Go.len in Hw; lia.
  - intros t'. rewrite (flip_row t k row w Hrow Hw). intros [= <-].
    apply shape_insert; [done |]. unfold Go.len in *.
    by rewrite length_reverse.
Qed.

End InPlace.

Section InPlaceTransforms.

(** X1.  On a well-shaped image [Invert] maps the complement over the
    raster: negation for a bitmap, [uint8(max) - sample] in 8-bit
    arithmetic for a graymap and for each channel of a pixmap; that is
    [max - sample] whenever the sample is at most a max value below
    256. *)
Theorem Invert_complements (pbm : PBM.t) (pgm : PGM.t) (ppm : PPM.t)
  (Hpbm : shape (PBM.data pbm) (PBM.width pbm) (PBM.height pbm))
  (Hpgm : shape (PGM.data pgm) (PGM.width pgm) (PGM.height pgm))
  (Hppm : shape (PPM.data ppm) (PPM.width ppm) (PPM.height ppm)) :
  PBM.Invert pbm
  = Some (PBM.mk (fmap (M := list) negb <$> PBM.data pbm) (PBM.width pbm)
            (PBM.height pbm) (PBM.magicNumber pbm)) /\
  PGM.Invert pgm
  = Some (PGM.mk
            (fmap (M := list)
               (fun v => Go.uint8 (Go.uint8 (PGM.max pgm) - v))
               <$> PGM.data pgm)
            (PGM.width pgm) (PGM.height pgm) (PGM.magicNumber pgm)
            (PGM.max pgm)) /\
  PPM.Invert ppm
  = Some (PPM.mk
            (fmap (M := list) (PPM.invertPixel (PPM.max ppm))
               <$> PPM.data ppm)
            (PPM.width ppm) (PPM.height ppm) (PPM.magicNumber ppm)
            (PPM.max ppm)) /\
  forall max v, 0 <= v <= max -> max < 256 ->
    Go.uint8 (Go.uint8 max - v) = max - v.
Proof.
  repeat split.
  - unfold PBM.Invert. by rewrite (pointwise_map _ _ _ negb Hpbm).
  - unfold PGM.Invert.
    rewrite (range_loops _ _ _
               (fun v => Go.uint8 (Go.uint8 (PGM.max pgm) - v)) Hpgm).
    by rewrite (pointwise_map _ _ _ _ Hpgm).
  - unfold PPM.Invert.
    by rewrite (pointwise_map _ _ _ (PPM.invertPixel (PPM.max ppm)) Hppm).
  - intros max v Hv Hmax. unfold Go.uint8.
    rewrite (Z.mod_small max) by lia. apply Z.mod_small. lia.
Qed.

Lemma Invert_complements_witness :
  let pbm := Examples.bitmap3x2 in
  let pgm := Examples.gray3x2 in
  let ppm := Examples.pix3x2 in
  shape (PBM.data pbm) (PBM.width pbm) (PBM.height pbm) /\
  shape (PGM.data pgm) (PGM.width pgm) (PGM.height pgm) /\
  shape (PPM.data ppm) (PPM.width ppm) (PPM.height ppm) /\
  PBM.Invert pbm
  = Some (PBM.mk (fmap (M := list) negb <$> PBM.data pbm) (PBM.width pbm)
            (PBM.height pbm) (PBM.magicNumber pbm)) /\
  PGM.Invert pgm
  = Some (PGM.mk
            (fmap (M := list)
               (fun v => Go.uint8 (Go.uint8 (PGM.max pgm) - v))
               <$> PGM.data pgm)
            (PGM.width pgm) (PGM.height pgm) (PGM.magicNumber pgm)
            (PGM.max pgm)) /\
  PPM.Invert ppm
  = Some (PPM.mk
            (fmap (M := list) (PPM.invertPixel (PPM.max ppm))
               <$> PPM.data ppm)
            (PPM.width ppm) (PPM.height ppm) (PPM.magicNumber ppm)
            (PPM.max ppm)) /\
  forall max v, 0 <= v <= max -> max < 256 ->
    Go.uint8 (Go.uint8 max - v) = max - v.
Proof.
  assert (H1 : shape (PBM.data Examples.bitmap3x2)
                 (PBM.width Examples.bitmap3x2)
                 (PBM.height Examples.bitmap3x2))
    by (split; [reflexivity | repeat constructor]).
  refine (conj H1 (conj gray3x2_shape (conj pix3x2_shape _))).
  exact (Invert_complements Examples.bitmap3x2 Examples.gray3x2
           Examples.pix3x2 H1 gray3x2_shape pix3x2_shape).
Defined.

End InPlaceTransforms.

Section Mirrors.

(** X2.  On a well-shaped image [Flip] reverses every row of the raster
    and leaves the header alone, in each of the three formats. *)
Theorem Flip_reverses_rows (pbm : PBM.t) (pgm : PGM.t) (ppm : PPM.t)
  (Hpbm : shape (PBM.data pbm) (PBM.width pbm) (PBM.height pbm))
  (Hpgm : shape (PGM.data pgm) (PGM.width pgm) (PGM.height pgm))
  (Hppm : shape (PPM.data ppm) (PPM.width ppm) (PPM.height ppm)) :
  PBM.Flip pbm
  = Some (PBM.mk (reverse <$> PBM.data pbm) (PBM.width pbm)
            (PBM.height pbm) (PBM.magicNumber pbm)) /\
  PGM.Flip pgm
  = Some (PGM.mk (reverse <$> PGM.data pgm) (PGM.width pgm)
            (PGM.height pgm) (PGM.magicNumber pgm) (PGM.max pgm)) /\
  PPM.Flip ppm
  = Some (PPM.mk (reverse <$> PPM.data ppm) (PPM.width ppm)
            (PPM.height ppm) (PPM.magicNumber ppm) (PPM.max ppm)).
Proof.
  repeat split.
  - unfold PBM.Flip. by rewrite (flip_rows _ _ _ Hpbm).
  - unfold PGM.Flip. rewrite (PGM_Flip_loop _ _ _ Hpgm).
    by rewrite (flip_rows _ _ _ Hpgm).
  - unfold PPM.Flip. by rewrite (flip_rows _ _ _ Hppm).
Qed.

Lemma bitmap3x2_shape :
  shape (PBM.data Examples.bitmap3x2) (PBM.width Examples.bitmap3x2)
    (PBM.height Examples.bitmap3x2).
Proof. split; [reflexivity | repeat constructor]. Qed.

Lemma Flip_reverses_rows_witness :
  let pbm := Examples.bitmap3x2 in
  let pgm := Examples.gray3x2 in
  let ppm := Examples.pix3x2 in
  shape (PBM.data pbm) (PBM.width pbm) (PBM.height pbm) /\
  shape (PGM.data pgm) (PGM.width pgm) (PGM.height pgm) /\
  shape (PPM.data ppm) (PPM.width ppm) (PPM.height ppm) /\
  PBM.Flip pbm
  = Some (PBM.mk (reverse <$> PBM.data pbm) (PBM.width pbm)
            (PBM.height pbm) (PBM.magicNumber pbm)) /\
  PGM.Flip pgm
  = Some (PGM.mk (reverse <$> PGM.data pgm) (PGM.width pgm)
            (PGM.height pgm) (PGM.magicNumber pgm) (PGM.max pgm)) /\
  PPM.Flip ppm
  = Some (PPM.mk (reverse <$> PPM.data ppm) (PPM.width ppm)
            (PPM.height ppm) (PPM.magicNumber ppm) (PPM.max ppm)).
Proof.
  refine (conj bitmap3x2_shape (conj gray3x2_shape (conj pix3x2_shape _))).
  exact (Flip_reverses_rows Examples.bitmap3x2 Examples.gray3x2
           Examples.pix3x2 bitmap3x2_shape gray3x2_shape pix3x2_shape).
Defined.

(** X3.  [Flop] reverses the order of the rows whenever the raster has
    [height] rows, whatever their lengths, and leaves the header
    alone. *)
Theorem Flop_reverses_row_order (pbm : PBM.t) (pgm : PGM.t) (ppm : PPM.t)
  (Hpbm : Go.len (PBM.data pbm) = PBM.height pbm)
  (Hpgm : Go.len (PGM.data pgm) = PGM.height pgm)
  (Hppm : Go.len (PPM.data ppm) = PPM.height ppm) :
  PBM.Flop pbm
  = Some (PBM.mk (reverse (PBM.data pbm)) (PBM.width pbm)
            (PBM.height pbm) (PBM.magicNumber pbm)) /\
  PGM.Flop pgm
  = Some (PGM.mk (reverse (PGM.data pgm)) (PGM.width pgm)
            (PGM.height pgm) (PGM.magicNumber pgm) (PGM.max pgm)) /\
  PPM.Flop ppm
  = Some (PPM.mk (reverse (PPM.data ppm)) (PPM.width ppm)
            (PPM.height ppm) (PPM.magicNumber ppm) (PPM.max ppm)).
Proof.
  repeat split.
  - unfold PBM.Flop. by rewrite (mirror_loop _ _ Hpbm).
  - unfold PGM.Flop. by rewrite (mirror_loop _ _ Hpgm).
  - unfold PPM.Flop. by rewrite (mirror_loop _ _ Hppm).
Qed.

Lemma Flop_reverses_row_order_witness :
  let pbm := Examples.bitmap3x2 in
  let pgm := Examples.gray3x2 in
  let ppm := Examples.pix3x2 in
  Go.len (PBM.data pbm) = PBM.height pbm /\
  Go.len (PGM.data pgm) = PGM.height pgm /\
  Go.len (PPM.data ppm) = PPM.height ppm /\
  PBM.Flop pbm
  = Some (PBM.mk (reverse (PBM.data pbm)) (PBM.width pbm)
            (PBM.height pbm) (PBM.magicNumber pbm)) /\
  PGM.Flop pgm
  = Some (PGM.mk (reverse (PGM.data pgm)) (PGM.width pgm)
            (PGM.height pgm) (PGM.magicNumber pgm) (PGM.max pgm)) /\
  PPM.Flop ppm
  = Some (PPM.mk (reverse (PPM.data ppm)) (PPM.width ppm)
            (PPM.height ppm) (PPM.magicNumber ppm) (PPM.max ppm)).
Proof.
  refine (conj eq_refl (conj eq_refl (conj eq_refl _))).
  exact (Flop_reverses_row_order Examples.bitmap3x2 Examples.gray3x2
           Examples.pix3x2 eq_refl eq_refl eq_refl).
Defined.

End Mirrors.

Lemma option_fmap_Some {A B} (f : A -> B) (x : A) : f <$> Some x = Some (f x).
Proof. reflexivity. Qed.

Ltac fields :=
  rewrite ?option_fmap_Some;
  cbn [mbind option_bind apply PBM.data PBM.width PBM.height PBM.magicNumber
       PGM.data PGM.width PGM.height PGM.magicNumber PGM.max
       PPM.data PPM.width PPM.height PPM.magicNumber PPM.max].

Ltac fields_in_all :=
  cbn [PBM.data PBM.width PBM.height PBM.magicNumber
       PGM.data PGM.width PGM.height PGM.magicNumber PGM.max
       PPM.data PPM.width PPM.height PPM.magicNumber PPM.max] in *.

Section Involutions.

Lemma map_map_id {A} (P : A -> Prop) (f g : A -> A) (d : list (list A)) :
  samples P d -> (forall v, P v -> g (f v) = v) ->
  fmap (M := list) g <$> (fmap (M := list) f <$> d) = d.
Proof.
  intros Hd Hfg. induction Hd as [| row d Hrow _ IH]; [done |].
  cbn. f_equal; [| exact IH].
  clear IH. induction Hrow as [| v row Hv _ IH]; [done |].
  cbn. f_equal; [by apply Hfg | exact IH].
Qed.

Lemma reverse_rows_twice {A} (d : list (list A)) :
  reverse <$> (reverse <$> d) = d.
Proof.
  induction d as [| row d IH]; [done |].
  cbn. by rewrite reverse_involutive, IH.
Qed.

Lemma complement_twice m v :
  byte v -> Go.uint8 (Go.uint8 m - Go.uint8 (Go.uint8 m - v)) = v.
Proof.
  unfold byte, Go.uint8. intros Hv.
  rewrite Zminus_mod_idemp_r.
  replace (m mod 256 - (m mod 256 - v)) with v by lia.
  by apply Z.mod_small.
Qed.

Lemma invertPixel_twice m p :
  byte_pixel p -> PPM.invertPixel m (PPM.invertPixel m p) = p.
Proof.
  destruct p as [r g b]. intros (Hr & Hg & Hb). unfold PPM.invertPixel.
  cbn in *. by rewrite !complement_twice.
Qed.

Lemma samples_True {A} (d : list (list A)) : samples (fun _ => True) d.
Proof. apply Forall_forall. intros row _. by apply Forall_forall. Qed.

Lemma PBM_Invert_map (pbm : PBM.t) :
  shape (PBM.data pbm) (PBM.width pbm) (PBM.height pbm) ->
  PBM.Invert pbm
  = Some (PBM.mk (fmap (M := list) negb <$> PBM.data pbm) (PBM.width pbm)
            (PBM.height pbm) (PBM.magicNumber pbm)).
Proof.
  intros H. unfold PBM.Invert. by rewrite (pointwise_map _ _ _ negb H).
Qed.

Lemma PGM_Invert_map (pgm : PGM.t) :
  shape (PGM.data pgm) (PGM.width pgm) (PGM.height pgm) ->
  PGM.Invert pgm
  = Some (PGM.mk
            (fmap (M := list)
               (fun v => Go.uint8 (Go.uint8 (PGM.max pgm) - v))
               <$> PGM.data pgm)
            (PGM.width pgm) (PGM.height pgm) (PGM.magicNumber pgm)
            (PGM.max pgm)).
Proof.
  intros H. unfold PGM.Invert.
  rewrite (range_loops _ _ _
             (fun v => Go.uint8 (Go.uint8 (PGM.max pgm) - v)) H).
  by rewrite (pointwise_map _ _ _ _ H).
Qed.

Lemma PPM_Invert_map (ppm : PPM.t) :
  shape (PPM.data ppm) (PPM.width ppm) (PPM.height ppm) ->
  PPM.Invert ppm
  = Some (PPM.mk
            (fmap (M := list) (PPM.invertPixel (PPM.max ppm))
               <$> PPM.data ppm)
            (PPM.width ppm) (PPM.height ppm) (PPM.magicNumber ppm)
            (PPM.max ppm)).
Proof.
  intros H. unfold PPM.Invert.
  by rewrite (pointwise_map _ _ _ (PPM.invertPixel (PPM.max ppm)) H).
Qed.

Lemma PBM_Flip_map (pbm : PBM.t) :
  shape (PBM.data pbm) (PBM.width pbm) (PBM.height pbm) ->
  PBM.Flip pbm
  = Some (PBM.mk (reverse <$> PBM.data pbm) (PBM.width pbm)
            (PBM.height pbm) (PBM.magicNumber pbm)).
Proof. intros H. unfold PBM.Flip. by rewrite (flip_rows _ _ _ H). Qed.

Lemma PGM_Flip_map (pgm : PGM.t) :
  shape (PGM.data pgm) (PGM.width pgm) (PGM.height pgm) ->
  PGM.Flip pgm
  = Some (PGM.mk (reverse <$> PGM.data pgm) (PGM.width pgm)
            (PGM.height pgm) (PGM.magicNumber pgm) (PGM.max pgm)).
Proof.
  intros H. unfold PGM.Flip. rewrite (PGM_Flip_loop _ _ _ H).
  by rewrite (flip_rows _ _ _ H).
Qed.

Lemma PPM_Flip_map (ppm : PPM.t) :
  shape (PPM.data ppm) (PPM.width ppm) (PPM.height ppm) ->
  PPM.Flip ppm
  = Some (PPM.mk (reverse <$> PPM.data ppm) (PPM.width ppm)
            (PPM.height ppm) (PPM.magicNumber ppm) (PPM.max ppm)).
Proof. intros H. unfold PPM.Flip. by rewrite (flip_rows _ _ _ H). Qed.

Lemma PBM_Flop_map (pbm : PBM.t) :
  Go.len (PBM.data pbm) = PBM.height pbm ->
  PBM.Flop pbm
  = Some (PBM.mk (reverse (PBM.data pbm)) (PBM.width pbm)
            (PBM.height pbm) (PBM.magicNumber pbm)).
Proof. intros H. unfold PBM.Flop. by rewrite (mirror_loop _ _ H). Qed.

Lemma PGM_Flop_map (pgm : PGM.t) :
  Go.len (PGM.data pgm) = PGM.height pgm ->
  PGM.Flop pgm
  = Some (PGM.mk (reverse (PGM.data pgm)) (PGM.width pgm)
            (PGM.height pgm) (PGM.magicNumber pgm) (PGM.max pgm)).
Proof. intros H. unfold PGM.Flop. by rewrite (mirror_loop _ _ H). Qed.

Lemma PPM_Flop_map (ppm : PPM.t) :
  Go.len (PPM.data ppm) = PPM.height ppm ->
  PPM.Flop ppm
  = Some (PPM.mk (reverse (PPM.data ppm)) (PPM.width ppm)
            (PPM.height ppm) (PPM.magicNumber ppm) (PPM.max ppm)).
Proof. intros H. unfold PPM.Flop. by rewrite (mirror_loop _ _ H). Qed.

Lemma len_reverse {A} (l : list A) : Go.len (reverse l) = Go.len l.
Proof. unfold Go.len. by rewrite length_reverse. Qed.

(** X4.  Each of [Invert], [Flip] and [Flop] undoes itself: applied
    twice to a well-shaped image whose samples are bytes, it gives the
    image back, in each of the three formats. *)
Theorem transform_twice_is_identity (t : transform) (img : image)
  (Hwf : well_shaped img) (Hbytes : byte_samples img) :
  twice (apply t) img = Some img.
Proof.
  unfold twice.
  destruct img as [[d w h m] | [d w h m mx] | [d w h m mx]], t;
    cbn in Hwf, Hbytes; cbn [apply].
  - rewrite (PBM_Invert_map (PBM.mk d w h m) Hwf). fields.
    rewrite PBM_Invert_map by (by apply shape_fmap). fields.
    rewrite (map_map_id (fun _ => True)); [done | apply samples_True |].
    intros v _. apply negb_involutive.
  - rewrite (PBM_Flip_map (PBM.mk d w h m) Hwf). fields.
    rewrite PBM_Flip_map by (by apply shape_reverse_rows). fields.
    by rewrite reverse_rows_twice.
  - rewrite (PBM_Flop_map (PBM.mk d w h m) (proj1 Hwf)). fields.
    rewrite PBM_Flop_map
      by (change (Go.len (reverse d) = h); rewrite len_reverse;
          apply Hwf).
    fields.
    by rewrite reverse_involutive.
  - rewrite (PGM_Invert_map (PGM.mk d w h m mx) Hwf). fields.
    rewrite PGM_Invert_map by (by apply shape_fmap). fields.
    rewrite (map_map_id byte); [done | done |].
    intros v Hv. by apply complement_twice.
  - rewrite (PGM_Flip_map (PGM.mk d w h m mx) Hwf). fields.
    rewrite PGM_Flip_map by (by apply shape_reverse_rows). fields.
    by rewrite reverse_rows_twice.
  - rewrite (PGM_Flop_map (PGM.mk d w h m mx) (proj1 Hwf)). fields.
    rewrite PGM_Flop_map
      by (change (Go.len (reverse d) = h); rewrite len_reverse;
          apply Hwf).
    fields.
    by rewrite reverse_involutive.
  - rewrite (PPM_Invert_map (PPM.mk d w h m mx) Hwf). fields.
    rewrite PPM_Invert_map by (by apply shape_fmap). fields.
    rewrite (map_map_id byte_pixel); [done | done |].
    intros v Hv. by apply invertPixel_twice.
  - rewrite (PPM_Flip_map (PPM.mk d w h m mx) Hwf). fields.
    rewrite PPM_Flip_map by (by apply shape_reverse_rows). fields.
    by rewrite reverse_rows_twice.
  - rewrite (PPM_Flop_map (PPM.mk d w h m mx) (proj1 Hwf)). fields.
    rewrite PPM_Flop_map
      by (change (Go.len (reverse d) = h); rewrite len_reverse;
          apply Hwf).
    fields.
    by rewrite reverse_involutive.
Qed.

Lemma gray3x2_bytes : byte_samples (Graymap Examples.gray3x2).
Proof. repeat constructor; lia. Qed.

Lemma transform_twice_is_identity_witness :
  well_shaped (Graymap Examples.gray3x2) /\
  byte_samples (Graymap Examples.gray3x2) /\
  twice (apply Invert) (Graymap Examples.gray3x2)
  = Some (Graymap Examples.gray3x2).
Proof.
  refine (conj gray3x2_well_shaped (conj gray3x2_bytes _)).
  exact (transform_twice_is_identity Invert (Graymap Examples.gray3x2)
           gray3x2_well_shaped gray3x2_bytes).
Defined.

End Involutions.

Section HalfTurn.

Lemma rotated_twice {A} (d d1 d2 : list (list A)) w h :
  shape d w h -> rotated d d1 w h -> rotated d1 d2 h w ->
  d2 = reverse (reverse <$> d).
Proof.
  intros Hsh [Hs1 H1] [Hs2 H2].
  apply (raster_ext _ _ w h); [done | |].
  { by apply shape_reverse, shape_reverse_rows. }
  intros i j Hi Hj.
  rewrite H2 by lia. rewrite H1 by lia.
  unfold Go.index2 at 2.
  rewrite index_reverse
    by (unfold Go.len; rewrite length_fmap; destruct Hsh as [Hl _];
        unfold Go.len in Hl; lia).
  replace (Go.len (reverse <$> d)) with h
    by (unfold Go.len; rewrite length_fmap; symmetry; apply Hsh).
  rewrite index_fmap. unfold Go.index2.
  replace (h - 1 - i) with (h - 1 - i) by lia.
  destruct (Go.index d (h - 1 - i)) as [row |] eqn:Hrow; [| done]. cbn.
  pose proof (shape_row d w h _ row Hsh Hrow) as Hw.
  rewrite index_reverse by lia. by rewrite Hw.
Qed.

(** X5.  Two quarter turns are a half turn: on a well-shaped image
    [Rotate90CW] twice gives what [Flip] followed by [Flop] gives, and
    [Flip] and [Flop] may be exchanged.  The graymap needs positive
    dimensions, without which its [Rotate90CW] does nothing. *)
Theorem half_turn (ppm : PPM.t) (pgm : PGM.t)
  (Hppm : shape (PPM.data ppm) (PPM.width ppm) (PPM.height ppm))
  (Hwidth : 0 <= PPM.width ppm)
  (Hpgm : shape (PGM.data pgm) (PGM.width pgm) (PGM.height pgm))
  (Hpos : 0 < PGM.width pgm /\ 0 < PGM.height pgm) :
  twice PPM.Rotate90CW ppm = (p ← PPM.Flip ppm; PPM.Flop p) /\
  (p ← PPM.Flip ppm; PPM.Flop p) = (p ← PPM.Flop ppm; PPM.Flip p) /\
  twice PGM.Rotate90CW pgm = (p ← PGM.Flip pgm; PGM.Flop p) /\
  (p ← PGM.Flip pgm; PGM.Flop p) = (p ← PGM.Flop pgm; PGM.Flip p).
Proof.
  pose proof (shape_nonneg _ _ _ Hppm) as Hh.
  destruct ppm as [d w h m mx], pgm as [d' w' h' m' mx']. fields_in_all.
  repeat split.
  - unfold twice.
    destruct (PPM_Rotate90CW_rotated (PPM.mk d w h m mx) Hppm Hwidth)
      as (d1 & -> & Hr1). fields_in_all. fields.
    destruct (PPM_Rotate90CW_rotated (PPM.mk d1 h w m mx)) as (d2 & -> & Hr2);
      [apply Hr1 | done |]. fields_in_all. fields.
    rewrite (PPM_Flip_map (PPM.mk d w h m mx) Hppm). fields.
    rewrite PPM_Flop_map
      by (fields_in_all; unfold Go.len; rewrite length_fmap;
          apply Hppm).
    fields.
    by rewrite (rotated_twice d d1 d2 w h Hppm Hr1 Hr2).
  - rewrite (PPM_Flip_map (PPM.mk d w h m mx) Hppm). fields.
    rewrite PPM_Flop_map
      by (fields_in_all; unfold Go.len; rewrite length_fmap;
          apply Hppm).
    fields.
    rewrite (PPM_Flop_map (PPM.mk d w h m mx) (proj1 Hppm)). fields.
    rewrite PPM_Flip_map by (by apply shape_reverse). fields.
    by rewrite fmap_reverse.
  - unfold twice.
    destruct (PGM_Rotate90CW_rotated (PGM.mk d' w' h' m' mx') Hpgm)
      as (d1 & -> & Hr1); [fields_in_all; lia | fields_in_all; lia |].
    fields_in_all. fields.
    destruct (PGM_Rotate90CW_rotated (PGM.mk d1 h' w' m' mx'))
      as (d2 & -> & Hr2);
      [apply Hr1 | fields_in_all; lia | fields_in_all; lia |].
    fields_in_all. fields.
    rewrite (PGM_Flip_map (PGM.mk d' w' h' m' mx') Hpgm). fields.
    rewrite PGM_Flop_map
      by (fields_in_all; unfold Go.len; rewrite length_fmap;
          apply Hpgm).
    fields.
    by rewrite (rotated_twice d' d1 d2 w' h' Hpgm Hr1 Hr2).
  - rewrite (PGM_Flip_map (PGM.mk d' w' h' m' mx') Hpgm). fields.
    rewrite PGM_Flop_map
      by (fields_in_all; unfold Go.len; rewrite length_fmap;
          apply Hpgm).
    fields.
    rewrite (PGM_Flop_map (PGM.mk d' w' h' m' mx') (proj1 Hpgm)). fields.
    rewrite PGM_Flip_map by (by apply shape_reverse). fields.
    by rewrite fmap_reverse.
Qed.

Lemma half_turn_witness :
  let ppm := Examples.pix3x2 in
  let pgm := Examples.gray3x2 in
  shape (PPM.data ppm) (PPM.width ppm) (PPM.height ppm) /\
  0 <= PPM.width ppm /\
  shape (PGM.data pgm) (PGM.width pgm) (PGM.height pgm) /\
  (0 < PGM.width pgm /\ 0 < PGM.height pgm) /\
  twice PPM.Rotate90CW ppm = (p ← PPM.Flip ppm; PPM.Flop p) /\
  (p ← PPM.Flip ppm; PPM.Flop p) = (p ← PPM.Flop ppm; PPM.Flip p) /\
  twice PGM.Rotate90CW pgm = (p ← PGM.Flip pgm; PGM.Flop p) /\
  (p ← PGM.Flip pgm; PGM.Flop p) = (p ← PGM.Flop pgm; PGM.Flip p).
Proof.
  assert (Hw : 0 <= PPM.width Examples.pix3x2) by (cbn; lia).
  assert (Hp : 0 < PGM.width Examples.gray3x2 /\
               0 < PGM.height Examples.gray3x2) by (cbn; lia).
  refine (conj pix3x2_shape (conj Hw (conj gray3x2_shape (conj Hp _)))).
  exact (half_turn Examples.pix3x2 Examples.gray3x2 pix3x2_shape Hw
           gray3x2_shape Hp).
Defined.

End HalfTurn.

Section Strings.

Lemma sapp_assoc (a b c : string) : ((a ++ b) ++ c = a ++ b ++ c)%string.
Proof. induction a as [| x a IH]; cbn; [done | by rewrite IH]. Qed.

Lemma sapp_nil_r (a : string) : (a ++ "" = a)%string.
Proof. induction a as [| x a IH]; cbn; [done | by rewrite IH]. Qed.

Lemma slen_app (a b : string) :
  String.length (a ++ b) = (String.length a + String.length b)%nat.
Proof. induction a as [| x a IH]; cbn; [done | by rewrite IH]. Qed.

Lemma every_app p (a b : string) :
  every p (a ++ b) = every p a && every p b.
Proof.
  induction a as [| x a IH]; cbn; [done |]. rewrite IH. by destruct (p x).
Qed.

Lemma every_impl (p q : ascii -> bool) (s : string) :
  (forall c, p c = true -> q c = true) -> every p s = true ->
  every q s = true.
Proof.
  intros Hpq. induction s as [| c s IH]; cbn; [done |].
  intros [Hc Hs]%andb_true_iff. rewrite (Hpq c Hc). by apply IH.
Qed.

Lemma stake_app (a b : string) : Str.take (String.length a) (a ++ b) = a.
Proof. induction a as [| x a IH]; cbn; [by destruct b | by rewrite IH]. Qed.

Lemma sdrop_app (a b : string) : Str.drop (String.length a) (a ++ b) = b.
Proof. induction a as [| x a IH]; cbn; [by destruct b | exact IH]. Qed.

Lemma stake_drop (n : nat) (s : string) :
  (Str.take n s ++ Str.drop n s = s)%string.
Proof.
  revert s. induction n as [| n IH]; intros [| c s]; cbn; try done.
  by rewrite IH.
Qed.

Lemma slength_take (n : nat) (s : string) :
  String.length (Str.take n s) = Nat.min n (String.length s).
Proof.
  revert s. induction n as [| n IH]; intros [| c s]; cbn; try done.
  by rewrite IH.
Qed.

End Strings.

Section Decimal.

Lemma isDigit_code (c : ascii) :
  fmt.isDigit c = true -> 48 <= Str.code c <= 57.
Proof. unfold fmt.isDigit. cbn zeta. lia. Qed.

Lemma digit_not_space (c : ascii) :
  fmt.isDigit c = true -> strings.isSpace c = false.
Proof.
  intros H%isDigit_code. unfold strings.isSpace. cbn zeta. lia.
Qed.

Lemma digit_not_newline (c : ascii) :
  fmt.isDigit c = true -> Ascii.eqb c Str.newline = false.
Proof.
  intros H%isDigit_code. apply Ascii.eqb_neq. intros ->.
  vm_compute in H. destruct H as [H _]. by apply H.
Qed.

Lemma digit_not_sign (c : ascii) :
  fmt.isDigit c = true -> fmt.isSign c = false.
Proof. intros H%isDigit_code. unfold fmt.isSign. cbn zeta. lia. Qed.

Lemma digits_uint (d : Decimal.uint) :
  every fmt.isDigit (NilEmpty.string_of_uint d) = true.
Proof. induction d; cbn [NilEmpty.string_of_uint every]; try done. Qed.

Lemma parseDigits_uint (d : Decimal.uint) (acc : Z) :
  fmt.parseDigits acc (NilEmpty.string_of_uint d) = Some (valueZ acc d).
Proof.
  revert acc.
  induction d; intros acc; cbn [NilEmpty.string_of_uint valueZ]; [done | ..];
    cbn [fmt.parseDigits];
    match goal with
    | |- context [fmt.isDigit ?c] =>
        change (fmt.isDigit c) with true; cbv iota;
        let v := eval vm_compute in (Str.code c - 48) in
        change (Str.code c - 48) with v
    end; rewrite IHd; f_equal; f_equal; lia.
Qed.

Lemma valueZ_acc (d : Decimal.uint) (acc : positive) :
  valueZ (Z.pos acc) d = Z.pos (Pos.of_uint_acc d acc).
Proof.
  revert acc.
  induction d; intros acc; cbn [valueZ Pos.of_uint_acc]; [done | ..];
    rewrite <- IHd; f_equal; lia.
Qed.

Lemma valueZ_of_uint (d : Decimal.uint) :
  valueZ 0 d = Z.of_N (Pos.of_uint d).
Proof.
  induction d; cbn [valueZ Pos.of_uint]; [done | exact IHd | ..];
    cbn [Z.of_N]; rewrite <- valueZ_acc; reflexivity.
Qed.

(** The decimal of a non-negative integer: digits only, at least one,
    and [parseDigits] reads the integer back. *)
Lemma d_digits (z : Z) : 0 <= z -> every fmt.isDigit (fmt.d z) = true.
Proof.
  intros Hz. unfold fmt.d. destruct z as [| p | p]; [done | | lia].
  cbn [Z.to_int NilZero.string_of_int]. unfold NilZero.string_of_uint.
  destruct (Pos.to_uint p) eqn:E; try (rewrite <- E; apply digits_uint).
  done.
Qed.

Lemma d_nonempty (z : Z) : 0 <= z -> starts fmt.isDigit (fmt.d z) = true.
Proof.
  intros Hz. unfold fmt.d. destruct z as [| p | p]; [done | | lia].
  cbn [Z.to_int NilZero.string_of_int]. unfold NilZero.string_of_uint.
  pose proof (Unsigned.to_uint_nonnil p) as Hn.
  destruct (Pos.to_uint p); done.
Qed.

Lemma d_parse (z : Z) : 0 <= z -> fmt.parseDigits 0 (fmt.d z) = Some z.
Proof.
  intros Hz. unfold fmt.d. destruct z as [| p | p]; [done | | lia].
  cbn [Z.to_int NilZero.string_of_int]. unfold NilZero.string_of_uint.
  pose proof (Unsigned.to_uint_nonnil p) as Hn.
  assert (H : fmt.parseDigits 0 (NilEmpty.string_of_uint (Pos.to_uint p))
              = Some (Z.pos p)).
  { rewrite parseDigits_uint, valueZ_of_uint, DecimalPos.Unsigned.of_to.
    done. }
  destruct (Pos.to_uint p); done.
Qed.

Lemma scanNumber_digits (tok r : string) :
  every fmt.isDigit tok = true ->
  starts (fun c => fmt.isDigit c || fmt.isUnderscore c) r = false ->
  fmt.scanNumber (tok ++ r) = (tok, r).
Proof.
  intros Htok Hr.
  induction tok as [| c tok IH]; cbn [String.append every] in *.
  - destruct r as [| c r]; [done |]. cbn [starts] in Hr.
    cbn [fmt.scanNumber]. by rewrite Hr.
  - apply andb_true_iff in Htok as [Hc Htok]. cbn [fmt.scanNumber].
    rewrite Hc. cbn [orb]. by rewrite IH.
Qed.

Lemma SkipSpace_digit (s : string) :
  starts fmt.isDigit s = true -> fmt.SkipSpace s = Some s.
Proof.
  destruct s as [| c s]; [done |]. cbn [starts fmt.SkipSpace]. intros Hc.
  by rewrite (digit_not_newline c Hc), (digit_not_space c Hc).
Qed.

Lemma starts_app p (a b : string) :
  starts p a = true -> starts p (a ++ b) = true.
Proof. by destruct a. Qed.

Lemma scanOne_d (o : fmt.operand) (z : Z) (r : string) :
  0 <= z ->
  match o with
  | fmt.Int => z < 2 ^ 63
  | fmt.Uint => z < 2 ^ 64
  | fmt.Uint8 => z < 2 ^ 8
  end ->
  starts (fun c => fmt.isDigit c || fmt.isUnderscore c) r = false ->
  fmt.scanOne o (fmt.d z ++ r) = Some (z, r).
Proof.
  intros Hz Hrange Hr. unfold fmt.scanOne.
  pose proof (d_nonempty z Hz) as Hne.
  rewrite SkipSpace_digit by (by apply starts_app). cbn [mbind option_bind].
  destruct (fmt.d z ++ r)%string as [| c s2] eqn:E.
  { destruct (fmt.d z); done. }
  assert (Hc : fmt.isDigit c = true).
  { destruct (fmt.d z) as [| c' s']; [done |]. cbn in E, Hne. congruence. }
  rewrite (digit_not_sign c Hc).
  assert (Hscan : fmt.scanNumber (String c s2) = (fmt.d z, r)).
  { rewrite <- E. apply scanNumber_digits; [by apply d_digits | done]. }
  assert (Hfull : Str.isEmpty (fmt.d z) = false)
    by (by destruct (fmt.d z)).
  destruct o; rewrite Hscan, Hfull, (d_parse z Hz);
    cbn [mbind option_bind].
  - destruct (Z.leb_spec (- 2 ^ 63) z), (Z.ltb_spec z (2 ^ 63)); try lia.
    done.
  - destruct (Z.ltb_spec z (2 ^ 64)); [done | lia].
  - destruct (Z.ltb_spec z (2 ^ 8)); [done | lia].
Qed.

End Decimal.

Section Lines.

Lemma sapp_split (a b c e : string) :
  (a ++ b = c ++ e)%string ->
  (exists m, a = (c ++ m)%string /\ e = (m ++ b)%string) \/
  (exists m, c = (a ++ m)%string /\ b = (m ++ e)%string).
Proof.
  revert c. induction a as [| x a IH]; intros c H.
  - right. exists c. by cbn in *.
  - destruct c as [| y c].
    + left. exists (String x a). by cbn in *.
    + cbn in H. injection H as -> H.
      destruct (IH c H) as [(m & -> & ->) | (m & -> & ->)].
      * left. by exists m.
      * right. by exists m.
Qed.

Lemma cut_None (delim : ascii) (s : string) :
  every (fun c => negb (Ascii.eqb c delim)) s = true ->
  Str.cut delim s = None.
Proof.
  induction s as [| c s IH]; [done |]. cbn [every Str.cut].
  intros [Hc Hs]%andb_true_iff. apply negb_true_iff in Hc. rewrite Hc.
  by rewrite IH.
Qed.

Lemma cut_line (delim : ascii) (line rest : string) :
  every (fun c => negb (Ascii.eqb c delim)) line = true ->
  Str.cut delim (line ++ String delim rest)
  = Some ((line ++ String delim "")%string, rest).
Proof.
  induction line as [| c line IH]; cbn [every Str.cut String.append].
  - intros _. by rewrite Ascii.eqb_refl.
  - intros [Hc Hs]%andb_true_iff. apply negb_true_iff in Hc. rewrite Hc.
    by rewrite IH.
Qed.

Lemma stream_fill (b : bufio.Reader) : stream (bufio.fill b) = stream b.
Proof.
  unfold stream, bufio.fill. cbn [bufio.buffered bufio.file].
  by rewrite sapp_assoc, stake_drop.
Qed.

Lemma fits_fill (b : bufio.Reader) : fits b -> fits (bufio.fill b).
Proof.
  unfold fits, bufio.fill. cbn [bufio.buffered bufio.file].
  intros [-> | [-> Hlen]]; left.
  - by destruct (Z.to_nat _).
  - apply drop_all. unfold Str.len in *. cbn [String.length].
    unfold bufio.defaultBufSize in *. lia.
Qed.

Lemma pending_empty (f : string) :
  pending (bufio.mkReader "" f) = (2 * String.length f)%nat.
Proof.
  unfold pending. cbn [bufio.buffered bufio.file].
  change (bufio.defaultBufSize <=? Str.len "") with false. cbv iota. lia.
Qed.

Lemma pending_bounds (b : bufio.Reader) :
  (2 * String.length (bufio.file b) <= pending b
   <= 2 * String.length (bufio.file b) + 1)%nat.
Proof. unfold pending. destruct (_ <=? _)%Z; lia. Qed.

Lemma pending_full (b : bufio.Reader) :
  bufio.defaultBufSize <= Str.len (bufio.buffered b) ->
  pending b = (2 * String.length (bufio.file b) + 1)%nat.
Proof.
  intros H. unfold pending.
  destruct (Z.leb_spec bufio.defaultBufSize (Str.len (bufio.buffered b)));
    lia.
Qed.

Lemma pending_fill (b : bufio.Reader) :
  Str.len (bufio.buffered b) < bufio.defaultBufSize ->
  bufio.file b <> EmptyString ->
  (pending (bufio.fill b) < 2 * String.length (bufio.file b))%nat.
Proof.
  intros Hlen Hfile.
  pose proof (pending_bounds (bufio.fill b)) as [_ Hb].
  unfold bufio.fill in *. cbn [bufio.buffered bufio.file] in *.
  rewrite length_drop in Hb.
  assert (0 < String.length (bufio.file b))%nat
    by (destruct (bufio.file b); [done | cbn; lia]).
  unfold Str.len, bufio.defaultBufSize in *. lia.
Qed.

Lemma readString_line (fuel : nat) (acc : string) (b : bufio.Reader)
  (line rest : string) :
  every notNewline line = true ->
  stream b = (line ++ String Str.newline rest)%string ->
  (pending b < fuel)%nat ->
  exists b',
    bufio.readString fuel Str.newline acc b
    = ((acc ++ line ++ Str.nl)%string, false, b') /\
    stream b' = rest /\ (fits b -> bufio.file b' = EmptyString).
Proof.
  revert acc b line.
  induction fuel as [| fuel IH]; intros acc b line Hline Hs Hfuel; [lia |].
  assert (Hcases :
    (exists m, bufio.buffered b = (line ++ String Str.newline m)%string /\
       rest = (m ++ bufio.file b)%string) \/
    (exists m, line = (bufio.buffered b ++ m)%string /\
       bufio.file b = (m ++ String Str.newline rest)%string)).
  { unfold stream in Hs.
    destruct (sapp_split _ _ _ _ Hs) as [(m & Hbuf & Hrest) | Hright];
      [| by right].
    destruct m as [| c m].
    - right. exists ""%string. rewrite sapp_nil_r in *. by cbn in *.
    - left. cbn [String.append] in Hrest. injection Hrest as <- ->.
      by exists m. }
  destruct Hcases as [(m & Hbuf & ->) | (m & -> & Hfile)].
  - cbn [bufio.readString]. rewrite Hbuf, (cut_line _ line m Hline).
    eexists. split; [reflexivity |]. split; [done |].
    cbn [bufio.file].
    intros [Hfile | [Hbuf' _]]; [done |].
    rewrite Hbuf in Hbuf'. by destruct line.
  - rewrite every_app in Hline.
    apply andb_true_iff in Hline as [Hbuf Hm].
    assert (Hne : bufio.file b <> EmptyString)
      by (rewrite Hfile; by destruct m).
    cbn [bufio.readString]. rewrite (cut_None _ _ Hbuf).
    destruct (Z.leb_spec bufio.defaultBufSize (Str.len (bufio.buffered b)))
      as [Hfull | Hroom].
    + destruct (IH (acc ++ bufio.buffered b)%string
                  (bufio.mkReader "" (bufio.file b)) m Hm)
        as (b' & -> & Hb' & Hf).
      { by rewrite Hfile. }
      { rewrite pending_empty. rewrite (pending_full b Hfull) in Hfuel.
        lia. }
      exists b'. split; [by rewrite !sapp_assoc |]. split; [done |].
      intros [Hfile' | [Hbuf' _]].
      * apply Hf. by left.
      * rewrite Hbuf' in Hfull.
        unfold bufio.defaultBufSize, Str.len in Hfull.
        cbn [String.length] in Hfull. lia.
    + destruct (bufio.file b) as [| c f] eqn:Ef; [done |].
      cbn [Str.isEmpty].
      destruct (IH acc (bufio.fill b) (bufio.buffered b ++ m)%string)
        as (b' & -> & Hb' & Hf).
      { rewrite every_app. by rewrite Hbuf, Hm. }
      { rewrite stream_fill. unfold stream.
        by rewrite Ef, Hfile, sapp_assoc. }
      { pose proof (pending_fill b Hroom) as Hp.
        pose proof (pending_bounds b). rewrite Ef in *.
        specialize (Hp ltac:(done)). lia. }
      exists b'. split; [done |]. split; [done |].
      intros Hfits. by apply Hf, fits_fill.
Qed.

(** [ReadString] on a reader whose pending bytes begin with a line:
    the line and its newline are delivered without an error, and the
    reader is left before what follows. *)
Lemma ReadString_line (b : bufio.Reader) (line rest : string) :
  every notNewline line = true ->
  stream b = (line ++ String Str.newline rest)%string ->
  exists b',
    bufio.ReadString Str.newline b = ((line ++ Str.nl)%string, false, b') /\
    stream b' = rest /\ (fits b -> bufio.file b' = EmptyString).
Proof.
  intros Hline Hs. unfold bufio.ReadString.
  destruct (readString_line (2 * String.length (bufio.file b) + 2) "" b
              line rest Hline Hs) as (b' & Hr & Hb' & Hf).
  { unfold pending. destruct (_ <=? _)%Z; lia. }
  exists b'. by rewrite Hr.
Qed.

End Lines.

Section Headers.

Lemma trimLeft_word (s : string) :
  starts notSpace s = true -> strings.trimLeft s = s.
Proof.
  destruct s as [| c s]; [done |]. cbn [starts strings.trimLeft].
  unfold notSpace. intros H%negb_true_iff. by rewrite H.
Qed.

Lemma trimRight_newline (s : string) :
  strings.trimRight (s ++ Str.nl) = strings.trimRight s.
Proof.
  induction s as [| c s IH]; [done |].
  cbn [String.append strings.trimRight]. by rewrite IH.
Qed.

Lemma trimRight_word (a b : string) :
  starts notSpace b = true -> every notSpace b = true ->
  strings.trimRight (a ++ b) = (a ++ b)%string.
Proof.
  intros Hne Hb.
  assert (Hb' : strings.trimRight b = b /\ b <> EmptyString).
  { split; [| by destruct b]. clear Hne.
    induction b as [| c b IH]; [done |]. cbn [every] in Hb.
    apply andb_true_iff in Hb as [Hc Hb]. cbn [strings.trimRight].
    rewrite (IH Hb). unfold notSpace in Hc. apply negb_true_iff in Hc.
    rewrite Hc. by destruct b. }
  destruct Hb' as [Hb1 Hb2].
  induction a as [| c a IH]; [done |].
  cbn [String.append strings.trimRight]. rewrite IH.
  destruct (a ++ b)%string eqn:E; [| done].
  destruct a; [done | discriminate].
Qed.

Lemma digits_notSpace (s : string) :
  every fmt.isDigit s = true -> every notSpace s = true.
Proof.
  apply every_impl. intros c Hc. unfold notSpace.
  by rewrite (digit_not_space c Hc).
Qed.

Lemma digits_notNewline (s : string) :
  every fmt.isDigit s = true -> every notNewline s = true.
Proof.
  apply every_impl. intros c Hc. unfold notNewline.
  by rewrite (digit_not_newline c Hc).
Qed.

Lemma starts_digit_notSpace (s : string) :
  starts fmt.isDigit s = true -> starts notSpace s = true.
Proof.
  destruct s as [| c s]; [done |]. cbn [starts]. intros Hc.
  unfold notSpace. by rewrite (digit_not_space c Hc).
Qed.

(** The line of two decimals that every encoder writes for the
    dimensions is read back by [Sscanf] after [TrimSpace]. *)
Lemma TrimSpace_pair (a b : Z) :
  0 <= a -> 0 <= b ->
  strings.TrimSpace (fmt.d a ++ " " ++ fmt.d b ++ Str.nl)
  = (fmt.d a ++ " " ++ fmt.d b)%string.
Proof.
  intros Ha Hb. unfold strings.TrimSpace.
  rewrite trimLeft_word
    by (apply starts_digit_notSpace, starts_app; by apply d_nonempty).
  replace (fmt.d a ++ " " ++ fmt.d b ++ Str.nl)%string
    with ((fmt.d a ++ " " ++ fmt.d b) ++ Str.nl)%string
    by (by rewrite !sapp_assoc).
  rewrite trimRight_newline.
  replace (fmt.d a ++ " " ++ fmt.d b)%string
    with ((fmt.d a ++ " ") ++ fmt.d b)%string by (by rewrite !sapp_assoc).
  apply trimRight_word.
  - by apply starts_digit_notSpace, d_nonempty.
  - by apply digits_notSpace, d_digits.
Qed.

Lemma TrimSpace_one (a : Z) :
  0 <= a -> strings.TrimSpace (fmt.d a ++ Str.nl) = fmt.d a.
Proof.
  intros Ha. unfold strings.TrimSpace.
  rewrite trimLeft_word
    by (apply starts_digit_notSpace, starts_app; by apply d_nonempty).
  rewrite trimRight_newline.
  apply (trimRight_word "").
  - by apply starts_digit_notSpace, d_nonempty.
  - by apply digits_notSpace, d_digits.
Qed.

Lemma scanOne_last (o : fmt.operand) (z : Z) :
  0 <= z ->
  match o with
  | fmt.Int => z < 2 ^ 63
  | fmt.Uint => z < 2 ^ 64
  | fmt.Uint8 => z < 2 ^ 8
  end ->
  fmt.scanOne o (fmt.d z) = Some (z, EmptyString).
Proof.
  intros Hz Hr. rewrite <- (sapp_nil_r (fmt.d z)) at 1.
  by apply scanOne_d.
Qed.

Lemma Sscanf_one (o : fmt.operand) (z : Z) :
  0 <= z ->
  match o with
  | fmt.Int => z < 2 ^ 63
  | fmt.Uint => z < 2 ^ 64
  | fmt.Uint8 => z < 2 ^ 8
  end ->
  fmt.Sscanf (fmt.d z) [o] = ([z], false).
Proof.
  intros Hz Hr. unfold fmt.Sscanf. by rewrite scanOne_last.
Qed.

Lemma advanceSpace_d (z : Z) (r : string) :
  0 <= z ->
  fmt.advanceSpace (" " ++ fmt.d z ++ r) = Some (fmt.d z ++ r)%string.
Proof.
  intros Hz. cbn [String.append fmt.advanceSpace].
  change (strings.isSpace " ") with true. cbv iota.
  cbn [fmt.SkipSpace].
  change (Ascii.eqb " " Str.newline) with false.
  change (strings.isSpace " ") with true. cbv iota.
  apply SkipSpace_digit, starts_app. by apply d_nonempty.
Qed.

Lemma Sscanf_pair (a b : Z) :
  0 <= a < 2 ^ 63 -> 0 <= b < 2 ^ 63 ->
  fmt.Sscanf (fmt.d a ++ " " ++ fmt.d b) [fmt.Int; fmt.Int]
  = ([a; b], false).
Proof.
  intros Ha Hb. unfold fmt.Sscanf.
  rewrite (scanOne_d fmt.Int a) by (done || lia).
  cbn [fmt.scanRest].
  rewrite <- (sapp_nil_r (fmt.d b)) at 1.
  rewrite (advanceSpace_d b "") by lia. rewrite sapp_nil_r.
  by rewrite (scanOne_last fmt.Int b) by lia.
Qed.

Lemma Sscanf_triple (r g b : Z) :
  0 <= r < 256 -> 0 <= g < 256 -> 0 <= b < 256 ->
  fmt.Sscanf (fmt.d r ++ " " ++ fmt.d g ++ " " ++ fmt.d b)
    [fmt.Uint8; fmt.Uint8; fmt.Uint8]
  = ([r; g; b], false).
Proof.
  intros Hr Hg Hb. unfold fmt.Sscanf.
  rewrite (scanOne_d fmt.Uint8 r) by (done || lia).
  cbn [fmt.scanRest].
  rewrite (advanceSpace_d g) by lia.
  rewrite (scanOne_d fmt.Uint8 g) by (done || lia).
  rewrite <- (sapp_nil_r (fmt.d b)) at 1.
  rewrite (advanceSpace_d b "") by lia. rewrite sapp_nil_r.
  by rewrite (scanOne_last fmt.Uint8 b) by lia.
Qed.

End Headers.

Section CodecLoops.

Lemma loopR_invariant {S} (P : Z -> S -> Prop) n i
  (body : Z -> S -> result S) s :
  P i s ->
  (forall k st, i <= k < i + Z.of_nat n -> P k st ->
     exists st', body k st = Ok st' /\ P (k + 1) st') ->
  exists s', loopR n i body s = Ok s' /\ P (i + Z.of_nat n) s'.
Proof.
  revert i s. induction n as [| n IH]; intros i s HP Hstep.
  - exists s. split; [done |]. by replace (i + Z.of_nat 0) with i by lia.
  - cbn [loopR]. destruct (Hstep i s ltac:(lia) HP) as (s1 & -> & HP1).
    destruct (IH (i + 1) s1 HP1) as (s' & Hs' & HP').
    { intros k st Hk. apply Hstep. lia. }
    exists s'. split; [done |].
    by replace (i + Z.of_nat (Datatypes.S n)) with (i + 1 + Z.of_nat n)
      by lia.
Qed.

Lemma for_rangeR_invariant {S} (P : Z -> S -> Prop) lo hi
  (body : Z -> S -> result S) s :
  lo <= hi ->
  P lo s ->
  (forall k st, lo <= k < hi -> P k st ->
     exists st', body k st = Ok st' /\ P (k + 1) st') ->
  exists s', for_rangeR lo hi body s = Ok s' /\ P hi s'.
Proof.
  intros Hle HP Hstep. unfold for_rangeR.
  destruct (loopR_invariant P (Z.to_nat (hi - lo)) lo body s HP)
    as (s' & Hs' & HP').
  { intros k st Hk. apply Hstep. lia. }
  exists s'. split; [done |].
  by replace hi with (lo + Z.of_nat (Z.to_nat (hi - lo))) by lia.
Qed.

(** A loop that appends one piece for every entry of a slice writes
    the pieces in order. *)
Lemma emit_loop {X} (l : list X) (g : Z -> X -> string)
  (body : Z -> string -> option string) lo out :
  (forall k x out', Go.index l k = Some x ->
     body (lo + k) out' = Some (out' ++ g (lo + k) x)%string) ->
  Go.for_range lo (lo + Go.len l) body out
  = Some (out ++ flati g lo l)%string.
Proof.
  revert lo out. induction l as [| x l IH]; intros lo out Hbody.
  - rewrite for_range_empty by (unfold Go.len; cbn; lia).
    cbn [flati]. by rewrite sapp_nil_r.
  - rewrite for_range_step by (unfold Go.len; cbn [length]; lia).
    pose proof (Hbody 0 x out eq_refl) as H0.
    replace (lo + 0) with lo in H0 by lia. rewrite H0.
    cbn [mbind option_bind flati].
    replace (lo + Go.len (x :: l)) with (lo + 1 + Go.len l)
      by (unfold Go.len; cbn [length]; lia).
    rewrite IH; [by rewrite sapp_assoc |].
    intros k y out' Hk.
    replace (lo + 1 + k) with (lo + (k + 1)) by lia. apply Hbody.
    pose proof (index_range l k y Hk) as Hr.
    apply index_Some in Hk as [Hk0 Hk]. apply index_Some.
    split; [lia |].
    replace (Z.to_nat (k + 1)) with (Datatypes.S (Z.to_nat k)) by lia.
    done.
Qed.

(** A loop that stores entry [x] of [src] at index [x] makes a copy of
    [src]. *)
Lemma copy_loop {A} (src r0 : list A) (get : Z -> option A) w :
  Go.len src = w -> Go.len r0 = w ->
  (forall x, 0 <= x < w -> get x = Go.index src x) ->
  Go.for_range 0 w (fun x r => v ← get x; Go.update r x v) r0 = Some src.
Proof.
  intros Hsrc Hr0 Hget.
  assert (Hw : 0 <= w) by (unfold Go.len in Hsrc; lia).
  destruct (for_range_invariant
    (fun k r => Go.len r = w /\
       forall i, 0 <= i < k -> Go.index r i = Go.index src i)
    0 w (fun x r => v ← get x; Go.update r x v) r0)
    as (r & Hr & Hlen & Hidx); [done | | |].
  - split; [done |]. intros i Hi. lia.
  - intros k r Hk [Hlen Hidx]. rewrite (Hget k Hk).
    destruct (index_in_range src k) as [v Hv]; [lia |]. rewrite Hv.
    cbn [mbind option_bind]. rewrite update_Some by lia.
    eexists. split; [reflexivity |]. split; [by rewrite len_insert |].
    intros i Hi. destruct (decide (i = k)) as [-> | Hne].
    + by rewrite index_insert_eq by lia.
    + rewrite index_insert_ne by lia. apply Hidx. lia.
  - rewrite Hr. f_equal. apply list_ext_index; [lia |].
    intros i Hi. apply Hidx. lia.
Qed.

Lemma flati_drop {X} (g : Z -> X -> string) (l : list X) (k : Z) (x : X) :
  Go.index l k = Some x ->
  flati g k (drop (Z.to_nat k) l)
  = (g k x ++ flati g (k + 1) (drop (Z.to_nat (k + 1)) l))%string.
Proof.
  intros Hk. apply index_Some in Hk as [Hk0 Hk].
  rewrite (drop_S l x _ Hk). cbn [flati].
  by replace (Z.to_nat (k + 1)) with (Datatypes.S (Z.to_nat k)) by lia.
Qed.

End CodecLoops.

Section Fields.

Lemma fieldsFrom_word (cur tok s : string) :
  every notSpace tok = true ->
  strings.fieldsFrom cur (tok ++ s) = strings.fieldsFrom (cur ++ tok) s.
Proof.
  revert cur. induction tok as [| c tok IH]; intros cur Htok.
  - by rewrite sapp_nil_r.
  - cbn [every] in Htok. apply andb_true_iff in Htok as [Hc Htok].
    unfold notSpace in Hc. apply negb_true_iff in Hc.
    cbn [String.append strings.fieldsFrom]. rewrite Hc.
    rewrite (IH _ Htok). by rewrite sapp_assoc.
Qed.

Lemma fieldsFrom_space (cur s : string) (c : ascii) :
  strings.isSpace c = true -> starts notSpace cur = true ->
  strings.fieldsFrom cur (String c s)
  = cur :: strings.fieldsFrom EmptyString s.
Proof.
  intros Hc Hcur. cbn [strings.fieldsFrom]. rewrite Hc.
  by destruct cur.
Qed.

(** The words of a row written with [sep], followed by a newline, are
    the fields of the line. *)
Lemma Fields_row {X} (g : X -> string) (w : Z) (vs : list X) (j : Z) :
  j + Go.len vs = w ->
  Forall (fun v => starts notSpace (g v) = true /\
                   every notSpace (g v) = true) vs ->
  strings.fieldsFrom EmptyString
    (flati (fun x v => (g v ++ sep w x)%string) j vs ++ Str.nl)%string
  = g <$> vs.
Proof.
  revert j. induction vs as [| v vs IH]; intros j Hj Hvs; [done |].
  apply Forall_cons in Hvs as [[Hv1 Hv2] Hvs].
  cbn [flati fmap list_fmap]. rewrite !sapp_assoc.
  rewrite (fieldsFrom_word _ _ _ Hv2). cbn [String.append].
  unfold Go.len in Hj. cbn [length] in Hj. unfold sep at 1.
  destruct (Z.ltb_spec j (w - 1)).
  - cbn [String.append]. rewrite fieldsFrom_space by done.
    f_equal. apply IH; [unfold Go.len; lia | done].
  - destruct vs as [| v' vs]; [| cbn [length] in Hj; lia].
    cbn [flati String.append]. unfold Str.nl.
    by rewrite fieldsFrom_space.
Qed.

Lemma row_notNewline {X} (g : X -> string) (w : Z) (vs : list X) (j : Z) :
  Forall (fun v => every notNewline (g v) = true) vs ->
  every notNewline (flati (fun x v => (g v ++ sep w x)%string) j vs) = true.
Proof.
  revert j. induction vs as [| v vs IH]; intros j Hvs; [done |].
  apply Forall_cons in Hvs as [Hv Hvs]. cbn [flati].
  rewrite !every_app, Hv, (IH _ Hvs). unfold sep.
  by destruct (j <? w - 1).
Qed.

End Fields.

Section Bytes.

Lemma code_byte (v : Z) : byte v -> Str.code (Str.byte v) = v.
Proof.
  unfold byte, Str.code, Str.byte. intros Hv.
  rewrite N_ascii_embedding by lia. lia.
Qed.

Lemma toBytes_ofBytes (l : list Z) :
  Forall byte l -> Str.toBytes (Str.ofBytes l) = l.
Proof.
  intros Hl. unfold Str.toBytes, Str.ofBytes.
  rewrite list_ascii_of_string_of_list_ascii.
  induction Hl as [| v l Hv _ IH]; [done |].
  cbn [map]. by rewrite (code_byte v Hv), IH.
Qed.

Lemma len_ofBytes (l : list Z) : Str.len (Str.ofBytes l) = Go.len l.
Proof.
  unfold Str.len, Str.ofBytes, Go.len. f_equal.
  induction l as [| v l IH]; [done |]. cbn. by rewrite IH.
Qed.

Lemma int64_small (z : Z) : - 2 ^ 63 <= z < 2 ^ 63 -> Go.int64 z = z.
Proof. intros Hz. unfold Go.int64. rewrite Z.mod_small; lia. Qed.

Lemma Read_buffered (n : nat) (b : bufio.Reader) :
  (0 < n <= String.length (bufio.buffered b))%nat ->
  bufio.Read n b
  = (Str.take n (bufio.buffered b), false,
     bufio.mkReader (Str.drop n (bufio.buffered b)) (bufio.file b)).
Proof.
  intros Hn. unfold bufio.Read.
  destruct (Nat.eqb_spec n 0); [lia |].
  destruct (bufio.buffered b) as [| c s]; [cbn in Hn; lia |]. done.
Qed.

End Bytes.

Section GraymapCodec.

Variables (d : list (list Z)) (w h : Z).
Hypothesis Hshape : shape d w h.

Lemma saveP2PGM_text magic mx :
  PGM.saveP2PGM (PGM.mk d w h magic mx) = Some (textP2 w d).
Proof.
  unfold PGM.saveP2PGM, textP2. cbn [PGM.data PGM.width PGM.height].
  replace h with (0 + Go.len d) by (destruct Hshape; lia).
  rewrite (emit_loop d (fun _ row => (rowP2 w row ++ Str.nl)%string));
    [done |].
  intros k row out Hrow.
  pose proof (shape_row d w h k row Hshape Hrow) as Hw.
  replace w with (0 + Go.len row) at 1 by lia.
  rewrite (emit_loop row (fun x v => (fmt.d v ++ sep w x)%string)).
  { cbn [mbind option_bind]. by rewrite sapp_assoc. }
  intros x v out' Hv. unfold Go.index2.
  replace (0 + k) with k by lia. replace (0 + x) with x by lia.
  rewrite Hrow. cbn [mbind option_bind]. rewrite Hv.
  cbn [mbind option_bind]. unfold sep.
  destruct (x <? w - 1); by rewrite ?sapp_assoc, ?sapp_nil_r.
Qed.

Lemma saveP5PGM_text magic mx :
  0 <= w ->
  PGM.saveP5PGM (PGM.mk d w h magic mx) = Some (textP5 d).
Proof.
  intros Hw0.
  unfold PGM.saveP5PGM, textP5. cbn [PGM.data PGM.width PGM.height].
  replace h with (0 + Go.len d) by (destruct Hshape; lia).
  rewrite (emit_loop d (fun _ row => Str.ofBytes row)); [done |].
  intros k row out Hrow.
  pose proof (shape_row d w h k row Hshape Hrow) as Hw.
  rewrite (make_Some w 0 Hw0). cbn [mbind option_bind].
  rewrite (copy_loop row _ (fun x => Go.index2 d (0 + k) x) w);
    [done | done | by apply len_replicate |].
  intros x Hx. unfold Go.index2. replace (0 + k) with k by lia.
  by rewrite Hrow.
Qed.

End GraymapCodec.

Section GraymapDecoder.

Lemma nl_app (a r : string) :
  ((a ++ Str.nl) ++ r = a ++ String Str.newline r)%string.
Proof. by rewrite sapp_assoc. Qed.

Lemma stake_app_eq (n : nat) (a b : string) :
  n = String.length a -> Str.take n (a ++ b) = a.
Proof. intros ->. apply stake_app. Qed.

Lemma sdrop_app_eq (n : nat) (a b : string) :
  n = String.length a -> Str.drop n (a ++ b) = b.
Proof. intros ->. apply sdrop_app. Qed.

Lemma readP2Fields_row (y w : Z) (vs : list Z) (n : nat) (cur : list Z) :
  Z.of_nat n + Go.len vs = w -> Go.len cur = w -> Forall byte vs ->
  PGM.readP2Fields y w (fmt.d <$> vs) (Z.of_nat n) cur
  = Ok (take n cur ++ vs).
Proof.
  revert n cur. induction vs as [| v vs IH]; intros n cur Hn Hcur Hvs.
  - cbn [fmap list_fmap PGM.readP2Fields]. rewrite app_nil_r.
    rewrite take_ge; [done |]. unfold Go.len in *. cbn [length] in Hn. lia.
  - apply Forall_cons in Hvs as [Hv Hvs].
    unfold Go.len in Hn. cbn [length] in Hn.
    cbn [fmap list_fmap PGM.readP2Fields].
    destruct (Z.geb_spec (Z.of_nat n) w); [lia |].
    rewrite (Sscanf_one fmt.Uint8 v) by (unfold byte in Hv; lia).
    cbv beta iota. change (fmt.stored [v] 0 0) with v.
    rewrite update_Some by lia.
    cbn [run mbind result_bind bindR].
    replace (Z.of_nat n + 1) with (Z.of_nat (Datatypes.S n)) by lia.
    rewrite Nat2Z.id.
    rewrite (IH (Datatypes.S n)); [| unfold Go.len; lia
                                   | by rewrite len_insert | done].
    f_equal.
    rewrite (take_S_r _ n v)
      by (apply list_lookup_insert_eq; unfold Go.len in Hcur; lia).
    rewrite take_insert_ge by lia. by rewrite <- app_assoc.
Qed.

Variables (d : list (list Z)) (w h : Z).
Hypothesis Hshape : shape d w h.
Hypothesis Hbytes : samples byte d.
Hypothesis Hw : 0 < w < 2 ^ 63.

Lemma row_bytes (k : Z) (row : list Z) :
  Go.index d k = Some row -> Forall byte row.
Proof.
  intros Hrow. apply index_Some in Hrow as [_ Hrow].
  unfold samples in Hbytes. rewrite Forall_lookup in Hbytes.
  by apply (Hbytes _ _ Hrow).
Qed.

Lemma readP2_rows (reader0 : bufio.Reader) (data0 : list (list Z)) :
  stream reader0 = textP2 w d -> Go.len data0 = h ->
  exists reader',
    for_rangeR 0 h (fun y '(reader, data) =>
        let '(line, err, reader) := bufio.ReadString Str.newline reader in
        if (err : bool) then Err (ErrReadingRow y) else
        rowData ← run (Go.make w 0);
        rowData ← PGM.readP2Fields y w (strings.Fields line) 0 rowData;
        data ← run (Go.update data y rowData);
        Ok (reader, data)) (reader0, data0)
    = Ok (reader', d).
Proof.
  intros Hs Hlen0.
  pose proof (shape_nonneg d w h Hshape) as Hh.
  destruct (for_rangeR_invariant
    (fun y st =>
       stream (fst st)
       = flati (fun _ row => (rowP2 w row ++ Str.nl)%string) y
           (drop (Z.to_nat y) d) /\
       Go.len (snd st) = h /\
       forall i, 0 <= i < y -> Go.index (snd st) i = Go.index d i)
    0 h (fun y '(reader, data) =>
        let '(line, err, reader) := bufio.ReadString Str.newline reader in
        if (err : bool) then Err (ErrReadingRow y) else
        rowData ← run (Go.make w 0);
        rowData ← PGM.readP2Fields y w (strings.Fields line) 0 rowData;
        data ← run (Go.update data y rowData);
        Ok (reader, data)) (reader0, data0))
    as ([reader' data'] & Hloop & _ & Hlen & Hidx); [done | | |].
  - cbn [fst snd]. split; [done |]. split; [done |]. intros i Hi. lia.
  - intros k [reader data] Hk (Hst & Hlen & Hidx). cbn [fst snd] in *.
    destruct (index_in_range d k) as [row Hrow]; [destruct Hshape; lia |].
    pose proof (shape_row d w h k row Hshape Hrow) as Hrw.
    pose proof (row_bytes k row Hrow) as Hrb.
    rewrite (flati_drop _ d k row Hrow), nl_app in Hst.
    destruct (ReadString_line reader (rowP2 w row) _
                (row_notNewline fmt.d w row 0
                   (Forall_impl _ _ _ Hrb
                      (fun v Hv => digits_notNewline _
                                     (d_digits v (proj1 Hv))))) Hst)
      as (b' & -> & Hb' & _).
    cbv beta iota.
    rewrite (make_Some w 0) by lia. cbn [run mbind result_bind bindR].
    unfold strings.Fields, rowP2.
    rewrite (Fields_row fmt.d w row 0) by
      (lia || (eapply Forall_impl; [exact Hrb |]; intros v Hv; cbv beta;
               split; [apply starts_digit_notSpace, d_nonempty, Hv
                      | apply digits_notSpace, d_digits, Hv])).
    rewrite (readP2Fields_row k w row 0)
      by (lia || done || by apply len_replicate; lia).
    cbn [take app mbind result_bind bindR].
    rewrite update_Some by lia. cbn [run mbind result_bind bindR].
    eexists. split; [reflexivity |]. cbn [fst snd].
    split; [done |]. split; [by rewrite len_insert |].
    intros i Hi. destruct (decide (i = k)) as [-> | Hne].
    + by rewrite index_insert_eq by lia.
    + rewrite index_insert_ne by lia. apply Hidx. lia.
  - exists reader'. rewrite Hloop. f_equal. f_equal. cbn [snd] in *.
    apply list_ext_index; [destruct Hshape; lia |].
    intros i Hi. apply Hidx. lia.
Qed.

Lemma readP5_rows (reader0 : bufio.Reader) (data0 : list (list Z)) :
  bufio.buffered reader0 = textP5 d -> Go.len data0 = h ->
  exists reader',
    for_rangeR 0 h (fun y '(reader, data) =>
        _ ← run (Go.make (Go.int64 (w * 1)) 0);
        let '(row, err, reader) :=
          bufio.Read (Z.to_nat (Go.int64 (w * 1))) reader in
        if (err : bool) then Err (ErrUnexpectedEOF y) else
        if Str.len row <? Go.int64 (w * 1)
        then Err (ErrShortRow y (Go.int64 (w * 1)) (Str.len row))
        else
        rowData ← run (Go.make w 0);
        rowData ← run (Go.for_range 0 w (fun x rowData =>
            pixelValue ← Go.index (Str.toBytes row) (Go.int64 (x * 1));
            Go.update rowData x pixelValue) rowData);
        data ← run (Go.update data y rowData);
        Ok (reader, data)) (reader0, data0)
    = Ok (reader', d).
Proof.
  intros Hs Hlen0.
  pose proof (shape_nonneg d w h Hshape) as Hh.
  destruct (for_rangeR_invariant
    (fun y st =>
       bufio.buffered (fst st)
       = flati (fun _ row => Str.ofBytes row) y (drop (Z.to_nat y) d) /\
       Go.len (snd st) = h /\
       forall i, 0 <= i < y -> Go.index (snd st) i = Go.index d i)
    0 h (fun y '(reader, data) =>
        _ ← run (Go.make (Go.int64 (w * 1)) 0);
        let '(row, err, reader) :=
          bufio.Read (Z.to_nat (Go.int64 (w * 1))) reader in
        if (err : bool) then Err (ErrUnexpectedEOF y) else
        if Str.len row <? Go.int64 (w * 1)
        then Err (ErrShortRow y (Go.int64 (w * 1)) (Str.len row))
        else
        rowData ← run (Go.make w 0);
        rowData ← run (Go.for_range 0 w (fun x rowData =>
            pixelValue ← Go.index (Str.toBytes row) (Go.int64 (x * 1));
            Go.update rowData x pixelValue) rowData);
        data ← run (Go.update data y rowData);
        Ok (reader, data)) (reader0, data0))
    as ([reader' data'] & Hloop & _ & Hlen & Hidx); [done | | |].
  - cbn [fst snd]. split; [done |]. split; [done |]. intros i Hi. lia.
  - intros k [reader data] Hk (Hst & Hlen & Hidx). cbn [fst snd] in *.
    destruct (index_in_range d k) as [row Hrow]; [destruct Hshape; lia |].
    pose proof (shape_row d w h k row Hshape Hrow) as Hrw.
    pose proof (row_bytes k row Hrow) as Hrb.
    rewrite (flati_drop _ d k row Hrow) in Hst.
    replace (w * 1) with w by lia. rewrite (int64_small w) by lia.
    rewrite (make_Some w 0) by lia. cbn [run mbind result_bind bindR].
    assert (Hlr : String.length (Str.ofBytes row) = Z.to_nat w).
    { pose proof (len_ofBytes row) as Hl. unfold Str.len in Hl. lia. }
    rewrite Read_buffered by (rewrite Hst, slen_app; lia).
    cbv beta iota zeta. rewrite Hst.
    rewrite (stake_app_eq _ _ _ (eq_sym Hlr)),
      (sdrop_app_eq _ _ _ (eq_sym Hlr)).
    rewrite len_ofBytes.
    destruct (Z.ltb_spec (Go.len row) w); [lia |].
    rewrite (copy_loop row _
               (fun x => Go.index (Str.toBytes (Str.ofBytes row))
                           (Go.int64 (x * 1))) w);
      [| done | by apply len_replicate; lia |].
    2: { intros x Hx. rewrite (toBytes_ofBytes row Hrb).
         replace (x * 1) with x by lia. by rewrite int64_small by lia. }
    cbn [run mbind result_bind bindR]. rewrite update_Some by lia.
    cbn [run mbind result_bind bindR].
    eexists. split; [reflexivity |]. cbn [fst snd bufio.buffered].
    split; [done |]. split; [by rewrite len_insert |].
    intros i Hi. destruct (decide (i = k)) as [-> | Hne].
    + by rewrite index_insert_eq by lia.
    + rewrite index_insert_ne by lia. apply Hidx. lia.
  - exists reader'. rewrite Hloop. f_equal. f_equal. cbn [snd] in *.
    apply list_ext_index; [destruct Hshape; lia |].
    intros i Hi. apply Hidx. lia.
Qed.

End GraymapDecoder.

Section GraymapRoundTrip.

Lemma shape_forallb {A} (d : list (list A)) w h :
  shape d w h -> forallb (fun row => Go.len row =? w) d = true.
Proof.
  intros [_ Hrows]. apply forallb_forall. intros row Hin.
  rewrite Forall_forall in Hrows. apply Z.eqb_eq, Hrows.
  by apply list_elem_of_In.
Qed.

Lemma TrimSpace_dims (a b : Z) :
  0 <= a -> 0 <= b ->
  strings.TrimSpace ((fmt.d a ++ " " ++ fmt.d b) ++ Str.nl)
  = (fmt.d a ++ " " ++ fmt.d b)%string.
Proof.
  intros Ha Hb.
  replace ((fmt.d a ++ " " ++ fmt.d b) ++ Str.nl)%string
    with (fmt.d a ++ " " ++ fmt.d b ++ Str.nl)%string
    by (by rewrite !sapp_assoc).
  by apply TrimSpace_pair.
Qed.

Lemma pair_notNewline (a b : Z) :
  0 <= a -> 0 <= b ->
  every notNewline (fmt.d a ++ " " ++ fmt.d b) = true.
Proof.
  intros Ha Hb. rewrite !every_app.
  rewrite (digits_notNewline (fmt.d a)) by (by apply d_digits).
  by rewrite (digits_notNewline (fmt.d b)) by (by apply d_digits).
Qed.

(** What [ReadPGM] does with a header written by [Save]: the rest of
    the function runs on the reader left after the third line. *)
Lemma ReadPGM_header (magic body : string) (w h mx : Z) :
  magic = "P2"%string \/ magic = "P5"%string ->
  0 < w < 2 ^ 63 -> 0 < h < 2 ^ 63 -> 0 <= mx < 256 ->
  exists reader,
    stream reader = body /\
    (Str.len
       ((magic ++ Str.nl ++ fmt.d w ++ " " ++ fmt.d h ++ Str.nl
           ++ fmt.d mx ++ Str.nl) ++ body) <= bufio.defaultBufSize ->
     bufio.file reader = EmptyString) /\
    PGM.ReadPGM
      ((magic ++ Str.nl ++ fmt.d w ++ " " ++ fmt.d h ++ Str.nl
          ++ fmt.d mx ++ Str.nl) ++ body)
    = (data ← run (Go.make h ([] : list Z));
       if String.eqb magic "P2" then
         '(_, data) ← for_rangeR 0 h (fun y '(reader, data) =>
             let '(line, err, reader) :=
               bufio.ReadString Str.newline reader in
             if (err : bool) then Err (ErrReadingRow y) else
             rowData ← run (Go.make w 0);
             rowData ← PGM.readP2Fields y w (strings.Fields line) 0 rowData;
             data ← run (Go.update data y rowData);
             Ok (reader, data)) (reader, data);
         Ok (PGM.mk data w h magic mx)
       else
         '(_, data) ← for_rangeR 0 h (fun y '(reader, data) =>
             _ ← run (Go.make (Go.int64 (w * 1)) 0);
             let '(row, err, reader) :=
               bufio.Read (Z.to_nat (Go.int64 (w * 1))) reader in
             if (err : bool) then Err (ErrUnexpectedEOF y) else
             let n := Str.len row in
             if n <? Go.int64 (w * 1)
             then Err (ErrShortRow y (Go.int64 (w * 1)) n)
             else
             rowData ← run (Go.make w 0);
             rowData ← run (Go.for_range 0 w (fun x rowData =>
                 pixelValue ← Go.index (Str.toBytes row) (Go.int64 (x * 1));
                 Go.update rowData x pixelValue) rowData);
             data ← run (Go.update data y rowData);
             Ok (reader, data)) (reader, data);
         Ok (PGM.mk data w h magic mx)).
Proof.
  intros Hmagic Hw Hh Hmx.
  set (content := ((magic ++ Str.nl ++ fmt.d w ++ " " ++ fmt.d h ++ Str.nl
                      ++ fmt.d mx ++ Str.nl) ++ body)%string).
  assert (Hc : content
    = (magic ++ String Str.newline
         ((fmt.d w ++ " " ++ fmt.d h) ++ String Str.newline
            (fmt.d mx ++ String Str.newline body)))%string).
  { unfold content. by rewrite !sapp_assoc. }
  assert (Hm : every notNewline magic = true)
    by (by destruct Hmagic as [-> | ->]).
  destruct (ReadString_line (bufio.NewReader content) magic _ Hm Hc)
    as (b1 & Hr1 & Hs1 & Hf1).
  destruct (ReadString_line b1 (fmt.d w ++ " " ++ fmt.d h) _
              (pair_notNewline w h ltac:(lia) ltac:(lia)) Hs1)
    as (b2 & Hr2 & Hs2 & Hf2).
  destruct (ReadString_line b2 (fmt.d mx) _
              (digits_notNewline _ (d_digits mx ltac:(lia))) Hs2)
    as (b3 & Hr3 & Hs3 & Hf3).
  exists b3. split; [done |]. split.
  { intros Hlen. apply Hf3. left. apply Hf2. left. apply Hf1. right.
    by split. }
  unfold PGM.ReadPGM. cbv zeta. rewrite Hr1. cbv beta iota.
  assert (Ht : strings.TrimSpace (magic ++ Str.nl) = magic)
    by (by destruct Hmagic as [-> | ->]).
  rewrite Ht.
  assert (Hv : negb (String.eqb magic "P2") && negb (String.eqb magic "P5")
               = false) by (by destruct Hmagic as [-> | ->]).
  rewrite Hv, Hr2. cbv beta iota.
  rewrite TrimSpace_dims, Sscanf_pair by lia. cbv beta iota.
  change (fmt.stored [w; h] 0 0) with w.
  change (fmt.stored [w; h] 1 0) with h.
  destruct (Z.leb_spec w 0), (Z.leb_spec h 0); try lia. cbn [orb].
  rewrite Hr3. cbv beta iota.
  rewrite TrimSpace_one, (Sscanf_one fmt.Uint8) by lia. cbv beta iota.
  change (fmt.stored [mx] 0 0) with mx.
  destruct Hmagic as [-> | ->]; reflexivity.
Qed.

(** X6.  Decoding what [Save] wrote gives the graymap back: for the
    plain format P2 whatever the size, and for the raw format P5 when
    the file is no longer than the 4096 bytes of the reader's buffer.
    The image is well shaped with positive dimensions and byte
    samples. *)
Theorem PGM_round_trip (pgm : PGM.t)
  (Hshape : shape (PGM.data pgm) (PGM.width pgm) (PGM.height pgm))
  (Hwidth : 0 < PGM.width pgm < 2 ^ 63)
  (Hheight : 0 < PGM.height pgm < 2 ^ 63)
  (Hbytes : samples byte (PGM.data pgm))
  (Hmax : 0 <= PGM.max pgm < 256)
  (Hmagic :
     PGM.magicNumber pgm = "P2"%string \/
     (PGM.magicNumber pgm = "P5"%string /\
      forall s, PGM.Save pgm = Ok s -> Str.len s <= bufio.defaultBufSize)) :
  (s ← PGM.Save pgm; PGM.ReadPGM s) = Ok pgm.
Proof.
  destruct pgm as [d w h magic mx].
  cbn [PGM.data PGM.width PGM.height PGM.magicNumber PGM.max] in *.
  assert (Hsave : exists body,
    PGM.Save (PGM.mk d w h magic mx)
    = Ok ((magic ++ Str.nl ++ fmt.d w ++ " " ++ fmt.d h ++ Str.nl
             ++ fmt.d mx ++ Str.nl) ++ body)%string /\
    (magic = "P2"%string -> body = textP2 w d) /\
    (magic = "P5"%string -> body = textP5 d)).
  { unfold PGM.Save.
    cbn [PGM.data PGM.width PGM.height PGM.magicNumber PGM.max].
    rewrite (shape_forallb d w h Hshape).
    destruct Hmagic as [-> | [-> _]].
    - change (String.eqb "P2" "P2") with true. cbv iota.
      rewrite (saveP2PGM_text d w h Hshape).
      eexists. split; [reflexivity |]. by split.
    - change (String.eqb "P5" "P2") with false.
      change (String.eqb "P5" "P5") with true. cbv iota.
      rewrite (saveP5PGM_text d w h Hshape) by lia.
      eexists. split; [reflexivity |]. by split. }
  destruct Hsave as (body & Hsave & HP2 & HP5).
  rewrite Hsave. cbn [mbind result_bind bindR].
  destruct (ReadPGM_header magic body w h mx) as (reader & Hs & Hf & ->);
    [destruct Hmagic as [-> | [-> _]]; [by left | by right] | done.. |].
  rewrite (make_Some h []) by lia. cbn [run mbind result_bind bindR].
  destruct Hmagic as [-> | [-> Hfit]].
  - change (String.eqb "P2" "P2") with true. cbv iota.
    destruct (readP2_rows d w h Hshape Hbytes Hwidth reader
                (replicate (Z.to_nat h) [])) as (r' & ->);
      [by rewrite Hs, HP2 | by apply len_replicate; lia |].
    done.
  - change (String.eqb "P5" "P2") with false. cbv iota.
    specialize (Hf (Hfit _ Hsave)).
    destruct (readP5_rows d w h Hshape Hbytes Hwidth reader
                (replicate (Z.to_nat h) [])) as (r' & ->);
      [| by apply len_replicate; lia | done].
    unfold stream in Hs. rewrite Hf, sapp_nil_r in Hs.
    by rewrite Hs, HP5.
Qed.

End GraymapRoundTrip.

Section BitmapCodec.

Lemma saveP4_row_bits (pbm : PBM.t) (y : Z) (src : list bool) :
  Go.index (PBM.data pbm) y = Some src ->
  Go.len src = PBM.width pbm ->
  exists row,
    PBM.saveP4_row pbm y = Some row /\
    Go.len row = (PBM.width pbm + 7) / 8 /\
    forall q byte, Go.index row q = Some byte ->
      0 <= byte < 256 /\
      forall c, 0 <= c < 8 ->
        Z.testbit byte (7 - c) = column src (8 * q + c).
Proof.
  intros Hrow Hlen.
  set (w := PBM.width pbm) in *.
  assert (Hw : 0 <= w) by (unfold Go.len in Hlen; lia).
  set (n := (w + 7) / 8).
  assert (Hn : 8 * n <= w + 7 < 8 * n + 8).
  { pose proof (Z.div_mod (w + 7) 8 ltac:(lia)).
    pose proof (Z.mod_pos_bound (w + 7) 8 ltac:(lia)). subst n. lia. }
  unfold PBM.saveP4_row. fold w.
  replace (Go.div (w + 7) 8) with n
    by (unfold Go.div; symmetry; apply Z.quot_div_nonneg; lia).
  rewrite make_Some by lia. cbn [mbind option_bind].
  destruct (for_range_invariant (packed src n) 0 w
    (fun x row =>
       src0 ← Go.index (PBM.data pbm) y;
       b ← Go.index src0 x;
       if (b : bool) then
         old ← Go.index row (Go.div x 8);
         Go.update row (Go.div x 8)
           (Z.lor old (Go.uint8 (Z.shiftl 1 (7 - Go.rem x 8))))
       else Some row)
    (replicate (Z.to_nat n) 0)) as (row & Hrun & Hlen' & Hbits).
  - exact Hw.
  - apply packed_init. lia.
  - intros k t Hk Hp. rewrite Hrow. cbn [mbind option_bind].
    apply packed_step; [lia | lia | exact Hp].
  - exists row. split; [exact Hrun |]. split; [exact Hlen' |].
    intros q byte Hq. destruct (Hbits q byte Hq) as [Hr Hb].
    split; [exact Hr |]. intros c Hc. rewrite Hb by exact Hc.
    destruct (Z.ltb_spec (8 * q + c) w); [reflexivity |].
    cbn. symmetry. apply column_past_end. lia.
Qed.

Lemma bit_test (byte k : Z) :
  0 <= k -> negb (Z.land (Z.shiftr byte k) 1 =? 0) = Z.testbit byte k.
Proof.
  intros Hk. change 1 with (Z.ones 1) at 1.
  rewrite Z.land_ones by lia. change (2 ^ 1) with 2.
  rewrite <- Z.bit0_mod, Z.shiftr_spec by lia.
  replace (0 + k) with k by lia. by destruct (Z.testbit byte k).
Qed.

(** The bit loop of the P4 reader restores the row that [saveP4]
    packed. *)
Lemma readP4Bits_row (y w : Z) (bytes : list Z) (src cur : list bool)
  (data : list (list bool)) :
  Go.index data y = Some cur -> Go.len cur = w -> Go.len src = w ->
  Go.len bytes = (w + 7) / 8 ->
  (forall q byte, Go.index bytes q = Some byte ->
     forall c, 0 <= c < 8 ->
       Z.testbit byte (7 - c) = column src (8 * q + c)) ->
  PBM.readP4Bits y w bytes data = Some (<[Z.to_nat y := src]> data).
Proof.
  intros Hcur Hlc Hls Hlb Hbits.
  pose proof (index_range _ _ _ Hcur) as Hy.
  assert (Hw : 0 <= w) by (unfold Go.len in Hls; lia).
  unfold PBM.readP4Bits.
  destruct (for_range_invariant
    (fun k t => exists r,
       t = <[Z.to_nat y := r]> data /\ Go.len r = w /\
       forall i, 0 <= i < k -> Go.index r i = Go.index src i)
    0 w (fun x t =>
      byte ← Go.index bytes (Go.div x 8);
      r ← Go.index t y;
      r' ← Go.update r x
             (negb (Z.land (Z.shiftr byte (7 - Go.rem x 8)) 1 =? 0));
      Go.update t y r') data)
    as (t & Ht & r & -> & Hlr & Hidx); [done | | |].
  - exists cur. split; [| split; [done | intros i Hi; lia]].
    symmetry. apply list_insert_id. apply index_Some in Hcur. tauto.
  - intros k t Hk (r & -> & Hlr & Hidx).
    unfold Go.div, Go.rem.
    rewrite Z.quot_div_nonneg, Z.rem_mod_nonneg by lia.
    pose proof (Z.div_mod k 8 ltac:(lia)) as Hdm.
    pose proof (Z.mod_pos_bound k 8 ltac:(lia)) as Hmb.
    pose proof (Z.div_mod (w + 7) 8 ltac:(lia)) as Hdm'.
    pose proof (Z.mod_pos_bound (w + 7) 8 ltac:(lia)) as Hmb'.
    destruct (index_in_range bytes (k / 8)) as [byte Hbyte]; [lia |].
    rewrite Hbyte. cbn [mbind option_bind].
    rewrite index_insert_eq by lia. cbn [mbind option_bind].
    rewrite update_Some by lia. cbn [mbind option_bind].
    rewrite update_Some by (rewrite len_insert; lia).
    rewrite list_insert_insert_eq.
    eexists. split; [reflexivity |]. eexists. split; [reflexivity |].
    split; [by rewrite len_insert |].
    intros i Hi. destruct (decide (i = k)) as [-> | Hne].
    + rewrite index_insert_eq by lia. rewrite bit_test by lia.
      rewrite (Hbits _ _ Hbyte (k mod 8)) by lia.
      replace (8 * (k / 8) + k mod 8) with k by lia.
      unfold column.
      destruct (index_in_range src k) as [v Hv]; [lia |]. by rewrite Hv.
    + rewrite index_insert_ne by lia. apply Hidx. lia.
  - rewrite Ht. f_equal. f_equal. apply list_ext_index; [lia |].
    intros i Hi. apply Hidx. lia.
Qed.

Lemma bit_eqb (b : bool) : String.eqb (bit b) "1" = b.
Proof. by destruct b. Qed.

Lemma bit_notNewline (row : list bool) :
  Forall (fun v => every notNewline (bit v) = true) row.
Proof. apply Forall_forall. by intros []. Qed.

Lemma bit_word (row : list bool) :
  Forall (fun v => starts notSpace (bit v) = true /\
                   every notSpace (bit v) = true) row.
Proof. apply Forall_forall. by intros []. Qed.

Lemma readP1Fields_row (y w : Z) (vs : list bool) (n : nat)
  (cur : list bool) (data : list (list bool)) :
  Go.index data y = Some cur -> Go.len cur = w ->
  Z.of_nat n + Go.len vs = w ->
  PBM.readP1Fields y w (bit <$> vs) (Z.of_nat n) data
  = Ok (<[Z.to_nat y := take n cur ++ vs]> data).
Proof.
  revert n cur data.
  induction vs as [| v vs IH]; intros n cur data Hcur Hlc Hn.
  - cbn [fmap list_fmap PBM.readP1Fields]. rewrite app_nil_r.
    rewrite take_ge by (unfold Go.len in *; cbn [length] in Hn; lia).
    f_equal. symmetry. apply list_insert_id.
    apply index_Some in Hcur. tauto.
  - pose proof (index_range _ _ _ Hcur) as Hy.
    unfold Go.len in Hn. cbn [length] in Hn.
    cbn [fmap list_fmap PBM.readP1Fields].
    destruct (Z.geb_spec (Z.of_nat n) w); [lia |].
    rewrite Hcur. cbn [run mbind result_bind bindR].
    rewrite update_Some by lia. cbn [run mbind result_bind bindR].
    rewrite update_Some by lia. cbn [run mbind result_bind bindR].
    rewrite bit_eqb, Nat2Z.id.
    replace (Z.of_nat n + 1) with (Z.of_nat (Datatypes.S n)) by lia.
    rewrite (IH (Datatypes.S n) (<[n := v]> cur));
      [| by apply index_insert_eq | by rewrite len_insert
       | unfold Go.len; lia].
    rewrite list_insert_insert_eq. f_equal. f_equal.
    rewrite (take_S_r _ n v)
      by (apply list_lookup_insert_eq; unfold Go.len in Hlc; lia).
    rewrite take_insert_ge by lia. by rewrite <- app_assoc.
Qed.

Variables (d : list (list bool)) (w h : Z) (magic : string).
Hypothesis Hshape : shape d w h.
Hypothesis Hw : 0 <= w.

Lemma saveP1_text : PBM.saveP1 (PBM.mk d w h magic) = Some (textP1 w d).
Proof.
  unfold PBM.saveP1, textP1. cbn [PBM.data PBM.width PBM.height].
  replace h with (0 + Go.len d) by (destruct Hshape; lia).
  rewrite (emit_loop d (fun _ row =>
    (flati (fun x b => (bit b ++ sep w x)%string) 0 row ++ Str.nl)%string));
    [done |].
  intros k row out Hrow.
  pose proof (shape_row d w h k row Hshape Hrow) as Hrw.
  replace w with (0 + Go.len row) at 1 by lia.
  rewrite (emit_loop row (fun x b => (bit b ++ sep w x)%string)).
  { cbn [mbind option_bind]. by rewrite sapp_assoc. }
  intros x v out' Hv.
  replace (0 + k) with k by lia. replace (0 + x) with x by lia.
  rewrite Hrow. cbn [mbind option_bind]. rewrite Hv.
  cbn [mbind option_bind]. unfold sep, bit.
  destruct (x <? w - 1), v; by rewrite ?sapp_assoc, ?sapp_nil_r.
Qed.

Lemma saveP4_text :
  PBM.saveP4 (PBM.mk d w h magic) = Some (textP4 (PBM.mk d w h magic)).
Proof.
  unfold PBM.saveP4, textP4. cbn [PBM.data PBM.width PBM.height].
  assert (Hh : h = 0 + Go.len d) by (destruct Hshape; lia).
  rewrite Hh at 1.
  rewrite (emit_loop d (fun y (_ : list bool) =>
    Str.ofBytes (packedRow (PBM.mk d w h magic) y))); [done |].
  intros k row out Hrow.
  pose proof (shape_row d w h k row Hshape Hrow) as Hrw.
  replace (0 + k) with k by lia. unfold packedRow.
  destruct (saveP4_row_bits (PBM.mk d w h magic) k row Hrow Hrw)
    as (bytes & -> & _). done.
Qed.

Lemma readP1_rows (reader0 : bufio.Reader) (data0 : list (list bool)) :
  stream reader0 = textP1 w d -> shape data0 w h ->
  exists reader',
    for_rangeR 0 h (fun y '(reader, data) =>
        let '(line, err, reader) := bufio.ReadString Str.newline reader in
        if (err : bool) then Err (ErrReadingRow y) else
        data ← PBM.readP1Fields y w (strings.Fields line) 0 data;
        Ok (reader, data)) (reader0, data0)
    = Ok (reader', d).
Proof.
  intros Hs Hsh0.
  pose proof (shape_nonneg d w h Hshape) as Hh.
  destruct (for_rangeR_invariant
    (fun y st =>
       stream (fst st)
       = flati (fun _ row =>
           (flati (fun x b => (bit b ++ sep w x)%string) 0 row
              ++ Str.nl)%string) y (drop (Z.to_nat y) d) /\
       shape (snd st) w h /\
       forall i, 0 <= i < y -> Go.index (snd st) i = Go.index d i)
    0 h (fun y '(reader, data) =>
        let '(line, err, reader) := bufio.ReadString Str.newline reader in
        if (err : bool) then Err (ErrReadingRow y) else
        data ← PBM.readP1Fields y w (strings.Fields line) 0 data;
        Ok (reader, data)) (reader0, data0))
    as ([reader' data'] & Hloop & _ & Hsh & Hidx); [done | | |].
  - cbn [fst snd]. split; [done |]. split; [done |]. intros i Hi. lia.
  - intros k [reader data] Hk (Hst & Hsh & Hidx). cbn [fst snd] in *.
    destruct (index_in_range d k) as [row Hrow]; [destruct Hshape; lia |].
    pose proof (shape_row d w h k row Hshape Hrow) as Hrw.
    destruct (index_in_range data k) as [cur Hcur]; [destruct Hsh; lia |].
    pose proof (shape_row data w h k cur Hsh Hcur) as Hcw.
    rewrite (flati_drop _ d k row Hrow), nl_app in Hst.
    destruct (ReadString_line reader _ _
                (row_notNewline bit w row 0 (bit_notNewline row)) Hst)
      as (b' & -> & Hb' & _).
    cbv beta iota. unfold strings.Fields.
    rewrite (Fields_row bit w row 0) by (lia || apply bit_word).
    pose proof (readP1Fields_row k w row 0 cur data Hcur Hcw
                  ltac:(cbn [Z.of_nat]; lia)) as Hfields.
    change (Z.of_nat 0) with 0 in Hfields. rewrite Hfields.
    cbn [take app mbind result_bind bindR].
    eexists. split; [reflexivity |]. cbn [fst snd].
    split; [done |]. split; [by apply shape_insert |].
    intros i Hi. destruct (decide (i = k)) as [-> | Hne].
    + by rewrite index_insert_eq by (destruct Hsh; lia).
    + rewrite index_insert_ne by lia. apply Hidx. lia.
  - exists reader'. rewrite Hloop. f_equal. f_equal. cbn [snd] in *.
    apply list_ext_index; [destruct Hshape, Hsh; lia |].
    intros i Hi. apply Hidx. destruct Hsh. lia.
Qed.

Lemma Read_prefix (n : nat) (b : bufio.Reader) (a r : string) :
  bufio.buffered b = (a ++ r)%string -> n = String.length a ->
  bufio.Read n b = (a, false, bufio.mkReader r (bufio.file b)).
Proof.
  intros Hb Hn. destruct n as [| n].
  - destruct a; [| done]. destruct b as [buf f]. cbn in *. by subst.
  - rewrite Read_buffered by (rewrite Hb, slen_app; lia).
    by rewrite Hb, (stake_app_eq _ _ _ Hn), (sdrop_app_eq _ _ _ Hn).
Qed.

Lemma readP4_rows (reader0 : bufio.Reader) (data0 : list (list bool)) :
  bufio.buffered reader0 = textP4 (PBM.mk d w h magic) -> shape data0 w h ->
  exists reader',
    for_rangeR 0 h (fun y '(reader, data) =>
        _ ← run (Go.make (Go.div (w + 7) 8) 0);
        let '(row, err, reader) :=
          bufio.Read (Z.to_nat (Go.div (w + 7) 8)) reader in
        if (err : bool) then Err (ErrUnexpectedEOF y) else
        if Str.len row <? Go.div (w + 7) 8
        then Err (ErrShortRow y (Go.div (w + 7) 8) (Str.len row)) else
        data ← run (PBM.readP4Bits y w (Str.toBytes row) data);
        Ok (reader, data)) (reader0, data0)
    = Ok (reader', d).
Proof.
  intros Hs Hsh0.
  pose proof (shape_nonneg d w h Hshape) as Hh.
  assert (Hdiv : Go.div (w + 7) 8 = (w + 7) / 8)
    by (unfold Go.div; apply Z.quot_div_nonneg; lia).
  assert (Hn0 : 0 <= (w + 7) / 8) by (apply Z.div_pos; lia).
  rewrite Hdiv.
  destruct (for_rangeR_invariant
    (fun y st =>
       bufio.buffered (fst st)
       = flati (fun y (_ : list bool) =>
           Str.ofBytes (packedRow (PBM.mk d w h magic) y)) y
           (drop (Z.to_nat y) d) /\
       shape (snd st) w h /\
       forall i, 0 <= i < y -> Go.index (snd st) i = Go.index d i)
    0 h (fun y '(reader, data) =>
        _ ← run (Go.make ((w + 7) / 8) 0);
        let '(row, err, reader) :=
          bufio.Read (Z.to_nat ((w + 7) / 8)) reader in
        if (err : bool) then Err (ErrUnexpectedEOF y) else
        if Str.len row <? (w + 7) / 8
        then Err (ErrShortRow y ((w + 7) / 8) (Str.len row)) else
        data ← run (PBM.readP4Bits y w (Str.toBytes row) data);
        Ok (reader, data)) (reader0, data0))
    as ([reader' data'] & Hloop & _ & Hsh & Hidx); [done | | |].
  - cbn [fst snd]. split; [done |]. split; [done |]. intros i Hi. lia.
  - intros k [reader data] Hk (Hst & Hsh & Hidx). cbn [fst snd] in *.
    destruct (index_in_range d k) as [row Hrow]; [destruct Hshape; lia |].
    pose proof (shape_row d w h k row Hshape Hrow) as Hrw.
    destruct (index_in_range data k) as [cur Hcur]; [destruct Hsh; lia |].
    pose proof (shape_row data w h k cur Hsh Hcur) as Hcw.
    rewrite (flati_drop _ d k row Hrow) in Hst.
    destruct (saveP4_row_bits (PBM.mk d w h magic) k row Hrow Hrw)
      as (bytes & Hbytes & Hlb & Hbits).
    cbn [PBM.width] in Hlb.
    unfold packedRow in Hst at 1. rewrite Hbytes in Hst.
    change (default [] (Some bytes)) with bytes in Hst.
    rewrite (make_Some ((w + 7) / 8) 0) by lia.
    cbn [run mbind result_bind bindR].
    rewrite (Read_prefix _ reader _ _ Hst)
      by (pose proof (len_ofBytes bytes) as Hl; unfold Str.len in Hl; lia).
    cbv beta iota. rewrite len_ofBytes.
    destruct (Z.ltb_spec (Go.len bytes) ((w + 7) / 8)); [lia |].
    rewrite toBytes_ofBytes
      by (apply Forall_lookup; intros i b Hb;
          apply (Hbits (Z.of_nat i) b); apply index_Some;
          split; [lia | by rewrite Nat2Z.id]).
    rewrite (readP4Bits_row k w bytes row cur data Hcur Hcw Hrw Hlb)
      by (intros q b Hb; apply (Hbits q b Hb)).
    cbn [run mbind result_bind bindR].
    eexists. split; [reflexivity |]. cbn [fst snd bufio.buffered].
    split; [done |]. split; [by apply shape_insert |].
    intros i Hi. destruct (decide (i = k)) as [-> | Hne].
    + by rewrite index_insert_eq by (destruct Hsh; lia).
    + rewrite index_insert_ne by lia. apply Hidx. lia.
  - exists reader'. rewrite Hloop. f_equal. f_equal. cbn [snd] in *.
    apply list_ext_index; [destruct Hshape, Hsh; lia |].
    intros i Hi. apply Hidx. destruct Hsh. lia.
Qed.

End BitmapCodec.

Section BitmapRoundTrip.

Lemma makeRaster_shape {A} (h w : Z) (zero : A) :
  0 <= h -> 0 <= w ->
  exists raster,
    PBM.makeRaster h w zero = Some raster /\ shape raster w h.
Proof.
  intros Hh Hw. unfold PBM.makeRaster.
  destruct (zero_raster h w zero Hh Hw) as (nd & Hnd & Hsh).
  exists nd. by split.
Qed.

Lemma ReadPBM_header (magic body : string) (w h : Z) :
  magic = "P1"%string \/ magic = "P4"%string ->
  0 <= w < 2 ^ 63 -> 0 <= h < 2 ^ 63 ->
  exists reader,
    stream reader = body /\
    (Str.len
       ((magic ++ Str.nl ++ fmt.d w ++ " " ++ fmt.d h ++ Str.nl) ++ body)
     <= bufio.defaultBufSize ->
     bufio.file reader = EmptyString) /\
    PBM.ReadPBM
      ((magic ++ Str.nl ++ fmt.d w ++ " " ++ fmt.d h ++ Str.nl) ++ body)
    = (data ← run (PBM.makeRaster h w false);
       if String.eqb magic "P1" then
         '(_, data) ← for_rangeR 0 h (fun y '(reader, data) =>
             let '(line, err, reader) :=
               bufio.ReadString Str.newline reader in
             if (err : bool) then Err (ErrReadingRow y) else
             data ← PBM.readP1Fields y w (strings.Fields line) 0 data;
             Ok (reader, data)) (reader, data);
         Ok (PBM.mk data w h magic)
       else
         '(_, data) ← for_rangeR 0 h (fun y '(reader, data) =>
             _ ← run (Go.make (Go.div (w + 7) 8) 0);
             let '(row, err, reader) :=
               bufio.Read (Z.to_nat (Go.div (w + 7) 8)) reader in
             if (err : bool) then Err (ErrUnexpectedEOF y) else
             if Str.len row <? Go.div (w + 7) 8
             then Err (ErrShortRow y (Go.div (w + 7) 8) (Str.len row)) else
             data ← run (PBM.readP4Bits y w (Str.toBytes row) data);
             Ok (reader, data)) (reader, data);
         Ok (PBM.mk data w h magic)).
Proof.
  intros Hmagic Hw Hh.
  set (content := ((magic ++ Str.nl ++ fmt.d w ++ " " ++ fmt.d h ++ Str.nl)
                     ++ body)%string).
  assert (Hc : content
    = (magic ++ String Str.newline
         ((fmt.d w ++ " " ++ fmt.d h) ++ String Str.newline body))%string).
  { unfold content. by rewrite !sapp_assoc. }
  assert (Hm : every notNewline magic = true)
    by (by destruct Hmagic as [-> | ->]).
  destruct (ReadString_line (bufio.NewReader content) magic _ Hm Hc)
    as (b1 & Hr1 & Hs1 & Hf1).
  destruct (ReadString_line b1 (fmt.d w ++ " " ++ fmt.d h) _
              (pair_notNewline w h ltac:(lia) ltac:(lia)) Hs1)
    as (b2 & Hr2 & Hs2 & Hf2).
  exists b2. split; [done |]. split.
  { intros Hlen. apply Hf2. left. apply Hf1. right. by split. }
  unfold PBM.ReadPBM. cbv zeta. rewrite Hr1. cbv beta iota.
  assert (Ht : strings.TrimSpace (magic ++ Str.nl) = magic)
    by (by destruct Hmagic as [-> | ->]).
  rewrite Ht.
  assert (Hv : negb (String.eqb magic "P1") && negb (String.eqb magic "P4")
               = false) by (by destruct Hmagic as [-> | ->]).
  rewrite Hv, Hr2. cbv beta iota.
  rewrite TrimSpace_dims, Sscanf_pair by lia. cbv beta iota.
  change (fmt.stored [w; h] 0 0) with w.
  change (fmt.stored [w; h] 1 0) with h.
  destruct Hmagic as [-> | ->]; reflexivity.
Qed.

(** X7.  Decoding what [Save] wrote gives the bitmap back: for the
    plain format P1 whatever the size, and for the raw format P4 when
    the file is no longer than the 4096 bytes of the reader's buffer;
    the padding bits of a row whose width is no multiple of 8 are
    dropped again. *)
Theorem PBM_round_trip (pbm : PBM.t)
  (Hshape : shape (PBM.data pbm) (PBM.width pbm) (PBM.height pbm))
  (Hwidth : 0 <= PBM.width pbm < 2 ^ 63)
  (Hheight : PBM.height pbm < 2 ^ 63)
  (Hmagic :
     PBM.magicNumber pbm = "P1"%string \/
     (PBM.magicNumber pbm = "P4"%string /\
      forall s, PBM.Save pbm = Ok s -> Str.len s <= bufio.defaultBufSize)) :
  (s ← PBM.Save pbm; PBM.ReadPBM s) = Ok pbm.
Proof.
  destruct pbm as [d w h magic].
  cbn [PBM.data PBM.width PBM.height PBM.magicNumber] in *.
  pose proof (shape_nonneg d w h Hshape) as Hh.
  assert (Hsave : exists body,
    PBM.Save (PBM.mk d w h magic)
    = Ok ((magic ++ Str.nl ++ fmt.d w ++ " " ++ fmt.d h ++ Str.nl)
            ++ body)%string /\
    (magic = "P1"%string -> body = textP1 w d) /\
    (magic = "P4"%string -> body = textP4 (PBM.mk d w h magic))).
  { unfold PBM.Save.
    cbn [PBM.data PBM.width PBM.height PBM.magicNumber].
    destruct Hmagic as [-> | [-> _]].
    - change (String.eqb "P1" "P1") with true. cbv iota.
      rewrite (saveP1_text d w h "P1" Hshape).
      eexists. split; [reflexivity |]. by split.
    - change (String.eqb "P4" "P1") with false.
      change (String.eqb "P4" "P4") with true. cbv iota.
      rewrite (saveP4_text d w h "P4" Hshape).
      eexists. split; [reflexivity |]. by split. }
  destruct Hsave as (body & Hsave & HP1 & HP4).
  rewrite Hsave. cbn [mbind result_bind bindR].
  destruct (ReadPBM_header magic body w h) as (reader & Hs & Hf & ->);
    [destruct Hmagic as [-> | [-> _]]; [by left | by right] | lia.. |].
  destruct (makeRaster_shape h w false) as (raster & -> & Hraster);
    [lia.. |].
  cbn [run mbind result_bind bindR].
  destruct Hmagic as [-> | [-> Hfit]].
  - change (String.eqb "P1" "P1") with true. cbv iota.
    destruct (readP1_rows d w h Hshape reader raster) as (r' & ->);
      [by rewrite Hs, HP1 | done |].
    done.
  - change (String.eqb "P4" "P1") with false. cbv iota.
    specialize (Hf (Hfit _ Hsave)).
    destruct (readP4_rows d w h "P4" Hshape ltac:(lia) reader raster)
      as (r' & ->); [| done | done].
    unfold stream in Hs. rewrite Hf, sapp_nil_r in Hs.
    by rewrite Hs, HP4.
Qed.

End BitmapRoundTrip.

Section DecimalLength.

Lemma valueZ_lower (d : Decimal.uint) (acc : Z) :
  0 <= acc ->
  acc * 10 ^ Z.of_nat (String.length (NilEmpty.string_of_uint d))
  <= valueZ acc d.
Proof.
  revert acc.
  induction d; intros acc Hacc;
    cbn [NilEmpty.string_of_uint String.length valueZ]; [lia | ..];
    rewrite Nat2Z.inj_succ, Z.pow_succ_r by lia;
    (etransitivity; [| apply IHd; lia]);
    (assert (0 <= 10 ^ Z.of_nat
                      (String.length (NilEmpty.string_of_uint d)))
       by (apply Z.pow_nonneg; lia)); nia.
Qed.

Lemma nzhead_self (d : Decimal.uint) :
  Decimal.unorm d = d -> d <> Decimal.D0 Decimal.Nil ->
  Decimal.nzhead d = d.
Proof.
  unfold Decimal.unorm. intros Hd Hz.
  destruct (Decimal.nzhead d) eqn:E; congruence.
Qed.

(** The decimal of a non-negative integer below [10 ^ k] has at most
    [k] digits. *)
Lemma d_length (z k : Z) :
  0 <= z < 10 ^ k -> 0 < k -> Str.len (fmt.d z) <= k.
Proof.
  intros Hz Hk. unfold fmt.d, Str.len.
  destruct z as [| p | p]; [cbn; lia | | lia].
  cbn [Z.to_int NilZero.string_of_int]. unfold NilZero.string_of_uint.
  pose proof (Unsigned.to_uint_nonnil p) as Hnil.
  pose proof (Unsigned.to_uint_nonzero p) as Hnz.
  pose proof (DecimalPos.Unsigned.to_of (Pos.to_uint p)) as Hnorm.
  rewrite DecimalPos.Unsigned.of_to in Hnorm.
  pose proof (nzhead_self _ (eq_sym Hnorm) Hnz) as Hhead.
  pose proof (valueZ_of_uint (Pos.to_uint p)) as Hval.
  rewrite DecimalPos.Unsigned.of_to in Hval. cbn [Z.of_N] in Hval.
  assert (Hlow :
    10 ^ (Z.of_nat (String.length
                      (NilEmpty.string_of_uint (Pos.to_uint p))) - 1)
    <= Z.pos p).
  { rewrite <- Hval.
    destruct (Pos.to_uint p) as [| l | l | l | l | l | l | l | l | l | l];
      [done | | ..];
      [exfalso; by apply (nzhead_nonzero (Decimal.D0 l) l) | ..];
      cbn [NilEmpty.string_of_uint String.length valueZ];
      rewrite Nat2Z.inj_succ;
      match goal with
      | |- _ <= valueZ ?a l =>
          pose proof (valueZ_lower l a ltac:(lia)) as Hl
      end;
      replace (Z.succ (Z.of_nat (String.length
                                   (NilEmpty.string_of_uint l))) - 1)
        with (Z.of_nat (String.length (NilEmpty.string_of_uint l)))
        by lia;
      (assert (0 < 10 ^ Z.of_nat
                        (String.length (NilEmpty.string_of_uint l)))
         by (apply Z.pow_pos_nonneg; lia)); nia. }
  destruct (Pos.to_uint p) eqn:E; [done | ..]; rewrite <- E in *;
    (destruct (Z.le_gt_cases
               (Z.of_nat (String.length
                            (NilEmpty.string_of_uint (Pos.to_uint p)))) k)
      as [Hle | Hgt]; [exact Hle |];
     exfalso;
     assert (10 ^ k <= 10 ^ (Z.of_nat
               (String.length (NilEmpty.string_of_uint (Pos.to_uint p)))
             - 1)) by (apply Z.pow_le_mono_r; lia);
     lia).
Qed.

End DecimalLength.

Section Scanner.

Lemma line_app (l r : string) :
  every notNewline l = true ->
  bufio.line (l ++ String Str.newline r) = l.
Proof.
  induction l as [| c l IH]; cbn [String.append bufio.line every].
  - intros _. by rewrite Ascii.eqb_refl.
  - intros [Hc Hl]%andb_true_iff. unfold notNewline in Hc.
    apply negb_true_iff in Hc. rewrite Hc. by rewrite (IH Hl).
Qed.

Lemma dropCR_plain (l : string) : every plain l = true -> bufio.dropCR l = l.
Proof.
  induction l as [| c l IH]; [done |]. cbn [every bufio.dropCR].
  intros [Hc Hl]%andb_true_iff. unfold plain in Hc.
  apply andb_true_iff in Hc as [_ Hc]. apply negb_true_iff in Hc.
  rewrite Hc. rewrite (IH Hl). by destruct l.
Qed.

Lemma plain_notNewline (l : string) :
  every plain l = true -> every notNewline l = true.
Proof.
  apply every_impl. intros c Hc. unfold plain in Hc.
  by apply andb_true_iff in Hc as [Hc _].
Qed.

Lemma drop_line (l r : string) :
  Str.drop (Datatypes.S (String.length l)) (l ++ String Str.newline r) = r.
Proof. induction l as [| c l IH]; [done | exact IH]. Qed.

Lemma Text_mk (r t : string) (s : bufio.status) :
  bufio.Text (bufio.mkScanner r t s) = t.
Proof. reflexivity. Qed.

Lemma line_first (a rest tail : string) :
  (((a ++ Str.nl) ++ rest) ++ tail
   = a ++ String Str.newline (rest ++ tail))%string.
Proof. by rewrite !sapp_assoc. Qed.

(** [Scan] on an input that begins with a short line without carriage
    return: the line is the token, and the scanner goes on after the
    newline. *)
Lemma Scan_line (l r tok : string) :
  every plain l = true -> Str.len l < bufio.MaxScanTokenSize ->
  bufio.Scan (bufio.mkScanner (l ++ String Str.newline r) tok bufio.Scanning)
  = bufio.mkScanner r l bufio.Scanning.
Proof.
  intros Hl Hlen. unfold bufio.Scan.
  cbn [bufio.state bufio.rest].
  assert (Hne : Str.isEmpty (l ++ String Str.newline r) = false)
    by (by destruct l).
  rewrite Hne, (line_app l r (plain_notNewline l Hl)).
  destruct (Z.leb_spec bufio.MaxScanTokenSize (Str.len l)); [lia |].
  by rewrite drop_line, dropCR_plain.
Qed.

Lemma digits_plain (s : string) :
  every fmt.isDigit s = true -> every plain s = true.
Proof.
  apply every_impl. intros c Hc%isDigit_code. unfold plain.
  apply andb_true_iff. split; apply negb_true_iff, Ascii.eqb_neq;
    intros ->; vm_compute in Hc; destruct Hc as [H1 H2]; by apply H1.
Qed.

Lemma len_app (a b : string) : Str.len (a ++ b) = Str.len a + Str.len b.
Proof. unfold Str.len. rewrite slen_app. lia. Qed.

Lemma pair_line (a b : Z) :
  0 <= a < 2 ^ 64 -> 0 <= b < 2 ^ 64 ->
  every plain (fmt.d a ++ " " ++ fmt.d b) = true /\
  Str.len (fmt.d a ++ " " ++ fmt.d b) < bufio.MaxScanTokenSize.
Proof.
  intros Ha Hb. split.
  - rewrite !every_app.
    rewrite (digits_plain (fmt.d a)) by (apply d_digits; lia).
    by rewrite (digits_plain (fmt.d b)) by (apply d_digits; lia).
  - rewrite !len_app.
    pose proof (d_length a 20 ltac:(lia) ltac:(lia)).
    pose proof (d_length b 20 ltac:(lia) ltac:(lia)).
    change (Str.len " ") with 1. unfold bufio.MaxScanTokenSize. lia.
Qed.

Lemma one_line (a : Z) :
  0 <= a < 2 ^ 64 ->
  every plain (fmt.d a) = true /\
  Str.len (fmt.d a) < bufio.MaxScanTokenSize.
Proof.
  intros Ha. split.
  - apply digits_plain, d_digits. lia.
  - pose proof (d_length a 20 ltac:(lia) ltac:(lia)).
    unfold bufio.MaxScanTokenSize. lia.
Qed.

Lemma triple_line (r g b : Z) :
  byte r -> byte g -> byte b ->
  every plain (fmt.d r ++ " " ++ fmt.d g ++ " " ++ fmt.d b) = true /\
  Str.len (fmt.d r ++ " " ++ fmt.d g ++ " " ++ fmt.d b)
  < bufio.MaxScanTokenSize.
Proof.
  unfold byte. intros Hr Hg Hb. split.
  - rewrite !every_app.
    rewrite (digits_plain (fmt.d r)) by (apply d_digits; lia).
    rewrite (digits_plain (fmt.d g)) by (apply d_digits; lia).
    by rewrite (digits_plain (fmt.d b)) by (apply d_digits; lia).
  - rewrite !len_app.
    pose proof (d_length r 3 ltac:(lia) ltac:(lia)).
    pose proof (d_length g 3 ltac:(lia) ltac:(lia)).
    pose proof (d_length b 3 ltac:(lia) ltac:(lia)).
    change (Str.len " ") with 1. unfold bufio.MaxScanTokenSize. lia.
Qed.

End Scanner.

Section PixmapCodec.

Variables (d : list (list PPM.Pixel)) (w h : Z).
Hypothesis Hshape : shape d w h.
Hypothesis Hbytes : samples byte_pixel d.
Hypothesis Hw : 0 <= w.

Lemma PPM_Save_text magic mx :
  PPM.Save (PPM.mk d w h magic mx)
  = Ok ((magic ++ Str.nl ++ fmt.d w ++ " " ++ fmt.d h ++ Str.nl
           ++ fmt.d mx ++ Str.nl) ++ textP3 d)%string.
Proof.
  unfold PPM.Save, textP3.
  cbn [PPM.data PPM.width PPM.height PPM.magicNumber PPM.max].
  replace h with (0 + Go.len d) at 1 by (destruct Hshape; lia).
  rewrite (emit_loop d (fun _ row => flati (fun _ p => pixelLine p) 0 row));
    [done |].
  intros k row out Hrow.
  pose proof (shape_row d w h k row Hshape Hrow) as Hrw.
  replace w with (0 + Go.len row) at 1 by lia.
  rewrite (emit_loop row (fun _ p => pixelLine p)); [done |].
  intros x p out' Hp. unfold Go.index2.
  replace (0 + k) with k by lia. replace (0 + x) with x by lia.
  rewrite Hrow. cbn [mbind option_bind]. by rewrite Hp.
Qed.

Lemma pixel_bytes (k : Z) (row : list PPM.Pixel) :
  Go.index d k = Some row -> Forall byte_pixel row.
Proof.
  intros Hrow. apply index_Some in Hrow as [_ Hrow].
  unfold samples in Hbytes. rewrite Forall_lookup in Hbytes.
  by apply (Hbytes _ _ Hrow).
Qed.

(** The [j] loop of [ReadPPM] on row [i]: one line per pixel. *)
Lemma readP3_row (i : Z) (row cur : list PPM.Pixel) (tail tok : string)
  (data : list (list PPM.Pixel)) :
  Forall byte_pixel row -> Go.len row = w ->
  Go.index data i = Some cur -> Go.len cur = w ->
  exists tok',
    Go.for_range 0 w (fun j '(scanner, data) =>
        let '(vs, _) :=
          fmt.Sscanf (bufio.Text (bufio.Scan scanner))
            [fmt.Uint8; fmt.Uint8; fmt.Uint8] in
        old ← Go.index2 data i j;
        data ← Go.update2 data i j
                 (PPM.mkPixel (fmt.stored vs 0 (PPM.R old))
                    (fmt.stored vs 1 (PPM.G old))
                    (fmt.stored vs 2 (PPM.B old)));
        Some (bufio.Scan scanner, data))
      (bufio.mkScanner (flati (fun _ p => pixelLine p) 0 row ++ tail) tok
         bufio.Scanning, data)
    = Some (bufio.mkScanner tail tok' bufio.Scanning,
            <[Z.to_nat i := row]> data).
Proof.
  intros Hrb Hrw Hcur Hcw.
  pose proof (index_range _ _ _ Hcur) as Hi.
  destruct (for_range_invariant
    (fun j st =>
       (exists tok',
          fst st
          = bufio.mkScanner
              (flati (fun _ p => pixelLine p) j (drop (Z.to_nat j) row)
                 ++ tail) tok' bufio.Scanning) /\
       exists r,
         snd st = <[Z.to_nat i := r]> data /\ Go.len r = w /\
         forall x, 0 <= x < j -> Go.index r x = Go.index row x)
    0 w (fun j '(scanner, data) =>
        let '(vs, _) :=
          fmt.Sscanf (bufio.Text (bufio.Scan scanner))
            [fmt.Uint8; fmt.Uint8; fmt.Uint8] in
        old ← Go.index2 data i j;
        data ← Go.update2 data i j
                 (PPM.mkPixel (fmt.stored vs 0 (PPM.R old))
                    (fmt.stored vs 1 (PPM.G old))
                    (fmt.stored vs 2 (PPM.B old)));
        Some (bufio.Scan scanner, data))
    (bufio.mkScanner (flati (fun _ p => pixelLine p) 0 row ++ tail) tok
       bufio.Scanning, data))
    as ([sc t] & Hloop & (tok' & Hsc) & r & Ht & Hlr & Hidx); [done | | |].
  - cbn [fst snd]. split; [by exists tok |].
    exists cur. split; [| split; [done | intros x Hx; lia]].
    symmetry. apply list_insert_id. apply index_Some in Hcur. tauto.
  - intros j [sc t] Hj ((tok' & Hsc) & r & Ht & Hlr & Hidx).
    cbn [fst snd] in *. subst sc t.
    destruct (index_in_range row j) as [p Hp]; [lia |].
    assert (Hpb : byte_pixel p).
    { apply index_Some in Hp as [_ Hp]. rewrite Forall_lookup in Hrb.
      by apply (Hrb _ _ Hp). }
    destruct p as [pr pg pb]. destruct Hpb as (Hpr & Hpg & Hpb).
    cbn [PPM.R PPM.G PPM.B] in *.
    rewrite (flati_drop _ row j _ Hp).
    destruct (triple_line pr pg pb Hpr Hpg Hpb) as [Hplain Hshort].
    assert (Hscan :
      bufio.Scan
        (bufio.mkScanner
           ((pixelLine (PPM.mkPixel pr pg pb)
               ++ flati (fun _ p => pixelLine p) (j + 1)
                    (drop (Z.to_nat (j + 1)) row)) ++ tail) tok'
           bufio.Scanning)
      = bufio.mkScanner
          (flati (fun _ p => pixelLine p) (j + 1)
             (drop (Z.to_nat (j + 1)) row) ++ tail)
          (fmt.d pr ++ " " ++ fmt.d pg ++ " " ++ fmt.d pb)
          bufio.Scanning).
    { unfold pixelLine at 1. cbn [PPM.R PPM.G PPM.B].
      replace (fmt.d pr ++ " " ++ fmt.d pg ++ " " ++ fmt.d pb ++ Str.nl)%string
        with ((fmt.d pr ++ " " ++ fmt.d pg ++ " " ++ fmt.d pb) ++ Str.nl)%string
        by (by rewrite !sapp_assoc).
      rewrite line_first. by apply Scan_line. }
    rewrite !Hscan.
    rewrite Text_mk.
    rewrite Sscanf_triple by done. cbv beta iota.
    destruct (index_in_range r j) as [old Hold]; [lia |].
    unfold Go.index2. rewrite index_insert_eq by lia.
    cbn [mbind option_bind]. rewrite Hold. cbn [mbind option_bind].
    change (fmt.stored [pr; pg; pb] 0 (PPM.R old)) with pr.
    change (fmt.stored [pr; pg; pb] 1 (PPM.G old)) with pg.
    change (fmt.stored [pr; pg; pb] 2 (PPM.B old)) with pb.
    rewrite (update2_Some _ i j _ r)
      by (lia || (apply index_insert_eq; lia)).
    cbn [mbind option_bind]. rewrite list_insert_insert_eq.
    eexists. split; [reflexivity |]. cbn [fst snd].
    split; [by eexists |].
    eexists. split; [reflexivity |]. split; [by rewrite len_insert |].
    intros x Hx. destruct (decide (x = j)) as [-> | Hne].
    + by rewrite index_insert_eq by lia.
    + rewrite index_insert_ne by lia. apply Hidx. lia.
  - cbn [fst snd] in *. subst sc t.
    rewrite drop_ge in Hloop by (unfold Go.len in Hrw; lia).
    cbn [flati String.append] in Hloop.
    exists tok'. rewrite Hloop. f_equal. f_equal. f_equal.
    apply list_ext_index; [lia |]. intros x Hx. apply Hidx. lia.
Qed.

Lemma readP3_rows (tok : string) (data0 : list (list PPM.Pixel)) :
  Go.len data0 = h ->
  exists sc,
    Go.for_range 0 h (fun i '(scanner, data) =>
      row ← Go.make w PPM.zeroPixel;
      data ← Go.update data i row;
      Go.for_range 0 w (fun j '(scanner, data) =>
        let '(vs, _) :=
          fmt.Sscanf (bufio.Text (bufio.Scan scanner))
            [fmt.Uint8; fmt.Uint8; fmt.Uint8] in
        old ← Go.index2 data i j;
        data ← Go.update2 data i j
                 (PPM.mkPixel (fmt.stored vs 0 (PPM.R old))
                    (fmt.stored vs 1 (PPM.G old))
                    (fmt.stored vs 2 (PPM.B old)));
        Some (bufio.Scan scanner, data)) (scanner, data))
      (bufio.mkScanner (textP3 d) tok bufio.Scanning, data0)
    = Some (sc, d).
Proof.
  intros Hlen0.
  pose proof (shape_nonneg d w h Hshape) as Hh.
  destruct (for_range_invariant
    (fun i st =>
       (exists tok',
          fst st
          = bufio.mkScanner
              (flati (fun _ row => flati (fun _ p => pixelLine p) 0 row) i
                 (drop (Z.to_nat i) d)) tok' bufio.Scanning) /\
       Go.len (snd st) = h /\
       forall k, 0 <= k < i -> Go.index (snd st) k = Go.index d k)
    0 h (fun i '(scanner, data) =>
      row ← Go.make w PPM.zeroPixel;
      data ← Go.update data i row;
      Go.for_range 0 w (fun j '(scanner, data) =>
        let '(vs, _) :=
          fmt.Sscanf (bufio.Text (bufio.Scan scanner))
            [fmt.Uint8; fmt.Uint8; fmt.Uint8] in
        old ← Go.index2 data i j;
        data ← Go.update2 data i j
                 (PPM.mkPixel (fmt.stored vs 0 (PPM.R old))
                    (fmt.stored vs 1 (PPM.G old))
                    (fmt.stored vs 2 (PPM.B old)));
        Some (bufio.Scan scanner, data)) (scanner, data))
    (bufio.mkScanner (textP3 d) tok bufio.Scanning, data0))
    as ([sc t] & Hloop & _ & Hlen & Hidx); [done | | |].
  - cbn [fst snd]. split; [by exists tok |]. split; [done |].
    intros k Hk. lia.
  - intros i [sc t] Hi ((tok' & Hsc) & Hlen & Hidx).
    cbn [fst snd] in *. subst sc.
    destruct (index_in_range d i) as [row Hrow]; [destruct Hshape; lia |].
    pose proof (shape_row d w h i row Hshape Hrow) as Hrw.
    rewrite (flati_drop _ d i row Hrow).
    rewrite (make_Some w PPM.zeroPixel Hw). cbn [mbind option_bind].
    rewrite update_Some by lia. cbn [mbind option_bind].
    destruct (readP3_row i row (replicate (Z.to_nat w) PPM.zeroPixel)
                (flati (fun _ row => flati (fun _ p => pixelLine p) 0 row)
                   (i + 1) (drop (Z.to_nat (i + 1)) d)) tok'
                (<[Z.to_nat i := replicate (Z.to_nat w) PPM.zeroPixel]> t)
                (pixel_bytes i row Hrow) Hrw)
      as (tok2 & ->);
      [apply index_insert_eq; lia | by apply len_replicate |].
    rewrite list_insert_insert_eq.
    eexists. split; [reflexivity |]. cbn [fst snd].
    split; [by eexists |]. split; [by rewrite len_insert |].
    intros k Hk. destruct (decide (k = i)) as [-> | Hne].
    + by rewrite index_insert_eq by lia.
    + rewrite index_insert_ne by lia. apply Hidx. lia.
  - exists sc. rewrite Hloop. f_equal. f_equal. cbn [snd] in *.
    apply list_ext_index; [destruct Hshape; lia |].
    intros k Hk. apply Hidx. lia.
Qed.

End PixmapCodec.

Section PixmapRoundTrip.

(** X8.  [ReadPPM] gives back the pixmap that [Save] wrote, whatever
    its size: the image is well shaped with byte channels, and its
    magic number is a short line of its own (no newline, no carriage
    return). *)
Theorem PPM_round_trip (ppm : PPM.t)
  (Hshape : shape (PPM.data ppm) (PPM.width ppm) (PPM.height ppm))
  (Hwidth : 0 <= PPM.width ppm < 2 ^ 63)
  (Hheight : PPM.height ppm < 2 ^ 63)
  (Hbytes : samples byte_pixel (PPM.data ppm))
  (Hmax : 0 <= PPM.max ppm < 2 ^ 64)
  (Hmagic : every plain (PPM.magicNumber ppm) = true)
  (Hshort : Str.len (PPM.magicNumber ppm) < bufio.MaxScanTokenSize) :
  (s ← PPM.Save ppm; PPM.ReadPPM s) = Ok ppm.
Proof.
  destruct ppm as [d w h magic mx].
  cbn [PPM.data PPM.width PPM.height PPM.magicNumber PPM.max] in *.
  pose proof (shape_nonneg d w h Hshape) as Hh.
  rewrite (PPM_Save_text d w h Hshape). cbn [mbind result_bind bindR].
  unfold PPM.ReadPPM, bufio.NewScanner. cbv zeta.
  replace ((magic ++ Str.nl ++ fmt.d w ++ " " ++ fmt.d h ++ Str.nl
              ++ fmt.d mx ++ Str.nl) ++ textP3 d)%string
    with (magic ++ String Str.newline
            ((fmt.d w ++ " " ++ fmt.d h) ++ String Str.newline
               (fmt.d mx ++ String Str.newline (textP3 d))))%string
    by (by rewrite !sapp_assoc).
  rewrite (Scan_line magic _ _ Hmagic Hshort).
  destruct (pair_line w h ltac:(lia) ltac:(lia)) as [Hp1 Hp2].
  rewrite (Scan_line _ _ _ Hp1 Hp2).
  destruct (one_line mx Hmax) as [Ho1 Ho2].
  rewrite (Scan_line _ _ _ Ho1 Ho2).
  rewrite !Text_mk.
  rewrite Sscanf_pair by lia. rewrite (Sscanf_one fmt.Uint) by lia.
  cbv beta iota.
  change (fmt.stored [w; h] 0 0) with w.
  change (fmt.stored [w; h] 1 0) with h.
  change (fmt.stored [mx] 0 0) with mx.
  rewrite (make_Some h []) by lia. cbn [run mbind result_bind bindR].
  destruct (readP3_rows d w h Hshape Hbytes ltac:(lia) (fmt.d mx)
              (replicate (Z.to_nat h) [])) as (sc & ->);
    [by apply len_replicate |].
  reflexivity.
Qed.

End PixmapRoundTrip.

Section RoundTripExamples.

Lemma gray2x2_raw_fits (s : string) :
  PGM.Save (PGM.SetMagicNumber Examples.gray2x2 "P5") = Ok s ->
  Str.len s <= bufio.defaultBufSize.
Proof. intros [= <-]. by vm_compute. Qed.

Lemma PGM_round_trip_witness :
  let pgm := PGM.SetMagicNumber Examples.gray2x2 "P5" in
  shape (PGM.data pgm) (PGM.width pgm) (PGM.height pgm) /\
  0 < PGM.width pgm < 2 ^ 63 /\
  0 < PGM.height pgm < 2 ^ 63 /\
  samples byte (PGM.data pgm) /\
  0 <= PGM.max pgm < 256 /\
  (PGM.magicNumber pgm = "P2"%string \/
   (PGM.magicNumber pgm = "P5"%string /\
    forall s, PGM.Save pgm = Ok s -> Str.len s <= bufio.defaultBufSize)) /\
  (s ← PGM.Save pgm; PGM.ReadPGM s) = Ok pgm.
Proof.
  assert (H1 : shape [[0; 255]; [128; 64]] 2 2)
    by (split; [reflexivity | repeat constructor]).
  assert (H2 : 0 < 2 < 2 ^ 63) by lia.
  assert (H3 : samples byte [[0; 255]; [128; 64]])
    by (repeat constructor; lia).
  assert (H4 : 0 <= 255 < 256) by lia.
  refine (conj H1 (conj H2 (conj H2 (conj H3 (conj H4
            (conj (or_intror (conj eq_refl gray2x2_raw_fits)) _)))))).
  exact (PGM_round_trip (PGM.SetMagicNumber Examples.gray2x2 "P5")
           H1 H2 H2 H3 H4 (or_intror (conj eq_refl gray2x2_raw_fits))).
Defined.

Lemma bitmap10x2_raw_fits (s : string) :
  PBM.Save (PBM.SetMagicNumber Examples.bitmap10x2 "P4") = Ok s ->
  Str.len s <= bufio.defaultBufSize.
Proof. intros [= <-]. by vm_compute. Qed.

Lemma PBM_round_trip_witness :
  let pbm := PBM.SetMagicNumber Examples.bitmap10x2 "P4" in
  shape (PBM.data pbm) (PBM.width pbm) (PBM.height pbm) /\
  0 <= PBM.width pbm < 2 ^ 63 /\
  PBM.height pbm < 2 ^ 63 /\
  (PBM.magicNumber pbm = "P1"%string \/
   (PBM.magicNumber pbm = "P4"%string /\
    forall s, PBM.Save pbm = Ok s -> Str.len s <= bufio.defaultBufSize)) /\
  (s ← PBM.Save pbm; PBM.ReadPBM s) = Ok pbm.
Proof.
  assert (H1 : shape (PBM.data Examples.bitmap10x2) 10 2)
    by (split; [reflexivity | repeat constructor]).
  assert (H2 : 0 <= 10 < 2 ^ 63) by lia.
  assert (H3 : 2 < 2 ^ 63) by lia.
  refine (conj H1 (conj H2 (conj H3
            (conj (or_intror (conj eq_refl bitmap10x2_raw_fits)) _)))).
  exact (PBM_round_trip (PBM.SetMagicNumber Examples.bitmap10x2 "P4")
           H1 H2 H3 (or_intror (conj eq_refl bitmap10x2_raw_fits))).
Defined.

Lemma PPM_round_trip_witness :
  let ppm := Examples.pix2x2 in
  shape (PPM.data ppm) (PPM.width ppm) (PPM.height ppm) /\
  0 <= PPM.width ppm < 2 ^ 63 /\
  PPM.height ppm < 2 ^ 63 /\
  samples byte_pixel (PPM.data ppm) /\
  0 <= PPM.max ppm < 2 ^ 64 /\
  every plain (PPM.magicNumber ppm) = true /\
  Str.len (PPM.magicNumber ppm) < bufio.MaxScanTokenSize /\
  (s ← PPM.Save ppm; PPM.ReadPPM s) = Ok ppm.
Proof.
  assert (H1 : shape (PPM.data Examples.pix2x2) 2 2)
    by (split; [reflexivity | repeat constructor]).
  assert (H2 : 0 <= 2 < 2 ^ 63) by lia.
  assert (H3 : 2 < 2 ^ 63) by lia.
  assert (H4 : samples byte_pixel (PPM.data Examples.pix2x2))
    by (repeat constructor; cbn; lia).
  assert (H5 : 0 <= 255 < 2 ^ 64) by lia.
  assert (H6 : Str.len "P3" < bufio.MaxScanTokenSize) by (by vm_compute).
  refine (conj H1 (conj H2 (conj H3 (conj H4 (conj H5
            (conj eq_refl (conj H6 _))))))).
  exact (PPM_round_trip Examples.pix2x2 H1 H2 H3 H4 H5 eq_refl H6).
Defined.

End RoundTripExamples.

Section Shapes.

Lemma loop_shift {S} (n : nat) (i a : Z) (f g : Z -> S -> option S) s :
  (forall k st, i <= k < i + Z.of_nat n -> g k st = f (k + a) st) ->
  Go.loop n i g s = Go.loop n (i + a) f s.
Proof.
  revert i s. induction n as [| n IH]; intros i s Hfg; [done |].
  cbn [Go.loop]. rewrite (Hfg i s) by lia.
  destruct (f (i + a) s) as [s' |]; [| done].
  replace (i + a + 1) with (i + 1 + a) by lia.
  apply IH. intros k st Hk. apply Hfg. lia.
Qed.

(** A loop over [0, n) whose body works on [i + a] is the loop over
    [a, a + n). *)
Lemma for_range_shift {S} (n a : Z) (f g : Z -> S -> option S) s :
  (forall k st, 0 <= k < n -> g k st = f (k + a) st) ->
  Go.for_range 0 n g s = Go.for_range a (a + n) f s.
Proof.
  intros Hfg. unfold Go.for_range.
  replace (Z.to_nat (a + n - a)) with (Z.to_nat (n - 0)) by lia.
  replace a with (0 + a) at 1 by lia.
  apply loop_shift. intros k st Hk. apply Hfg. lia.
Qed.

(** [DrawCircle] and [DrawFilledCircle] are the same loops, counted
    from 0 and from [-radius]. *)
Lemma DrawCircle_is_DrawFilledCircle (ppm : PPM.t) (center : PPM.Point)
  (radius : Z) (color : PPM.Pixel) :
  - 2 ^ 62 < radius < 2 ^ 62 ->
  PPM.DrawCircle ppm center radius color
  = PPM.DrawFilledCircle ppm center radius color.
Proof.
  intros Hradius. unfold PPM.DrawCircle, PPM.DrawFilledCircle.
  rewrite (int64_small (radius * 2)), (int64_small (- radius)) by lia.
  replace (radius + 1) with (- radius + (radius * 2 + 1)) by lia.
  apply for_range_shift. intros i st Hi.
  apply for_range_shift. intros j st' Hj. cbv zeta.
  rewrite (int64_small (i - radius)), (int64_small (j - radius)) by lia.
  replace (i + - radius) with (i - radius) by lia.
  by replace (j + - radius) with (j - radius) by lia.
Qed.

Lemma disc_bounds (i j r : Z) :
  0 <= r -> inDisc r i j -> (- r <= i <= r) /\ (- r <= j <= r).
Proof. unfold inDisc. intros Hr Hd. nia. Qed.

Lemma DrawFilledCircle_disc (ppm : PPM.t) (center : PPM.Point)
  (radius : Z) (color : PPM.Pixel)
  (Hshape : shape (PPM.data ppm) (PPM.width ppm) (PPM.height ppm))
  (Hint : PPM.width ppm < 2 ^ 63 /\ PPM.height ppm < 2 ^ 63)
  (Hradius : 0 <= radius < 2 ^ 31)
  (Hx : radius <= PPM.X center /\ PPM.X center + radius < PPM.width ppm)
  (Hy : radius <= PPM.Y center /\ PPM.Y center + radius < PPM.height ppm) :
  exists ppm',
    PPM.DrawFilledCircle ppm center radius color = Some ppm' /\
    (PPM.width ppm', PPM.height ppm', PPM.magicNumber ppm', PPM.max ppm')
    = (PPM.width ppm, PPM.height ppm, PPM.magicNumber ppm, PPM.max ppm) /\
    shape (PPM.data ppm') (PPM.width ppm) (PPM.height ppm) /\
    forall x y,
      PPM.At ppm' x y
      = if decide (inDisc radius (x - PPM.X center) (y - PPM.Y center))
        then Some color else PPM.At ppm x y.
Proof.
  destruct ppm as [d W H magic mx], center as [cx cy].
  cbn [PPM.data PPM.width PPM.height PPM.magicNumber PPM.max PPM.X PPM.Y]
    in *.
  unfold PPM.DrawFilledCircle. cbn [PPM.X PPM.Y].
  rewrite !(int64_small (- radius)) by lia.
  set (disc := inDisc radius).
  set (inv := fun (k m : Z) (st : PPM.t) =>
    exists d',
      st = PPM.mk d' W H magic mx /\ shape d' W H /\
      forall a b,
        Go.index2 d' a b
        = if decide (disc (b - cx) (a - cy) /\
                     (b - cx < k \/ (b - cx = k /\ a - cy < m)))
          then Some color else Go.index2 d a b).
  assert (Hsq : forall i j, - radius <= i <= radius ->
                  - radius <= j <= radius ->
                  Go.int64 (Go.int64 (i * i) + Go.int64 (j * j)) = i * i + j * j
                  /\ Go.int64 (radius * radius) = radius * radius).
  { intros i j Hi Hj.
    assert (0 <= i * i <= radius * radius) by nia.
    assert (0 <= j * j <= radius * radius) by nia.
    assert (radius * radius < 2 ^ 62) by nia.
    rewrite (int64_small (i * i)), (int64_small (j * j)) by lia.
    rewrite (int64_small (i * i + j * j)) by lia.
    by rewrite (int64_small (radius * radius)) by lia. }
  destruct (for_range_invariant (fun k st => inv k (- radius) st)
              (- radius) (radius + 1)
              (fun i ppm =>
                 Go.for_range (- radius) (radius + 1)
                   (fun j ppm =>
                      if Go.int64 (Go.int64 (i * i) + Go.int64 (j * j))
                           <=? Go.int64 (radius * radius)
                      then PPM.Set_ ppm (Go.int64 (cx + i))
                             (Go.int64 (cy + j)) color
                      else Some ppm) ppm)
              (PPM.mk d W H magic mx))
    as (st & Hst & d' & -> & Hsh' & Hcells); [lia | | |].
  - exists d. split; [done |]. split; [done |]. intros a b.
    destruct (decide _) as [[Hd Hlt] |]; [| done].
    apply disc_bounds in Hd; lia.
  - intros k st Hk Hinv.
    destruct (for_range_invariant (fun m st => inv k m st)
                (- radius) (radius + 1)
                (fun j ppm =>
                   if Go.int64 (Go.int64 (k * k) + Go.int64 (j * j))
                        <=? Go.int64 (radius * radius)
                   then PPM.Set_ ppm (Go.int64 (cx + k))
                          (Go.int64 (cy + j)) color
                   else Some ppm) st)
      as (st' & Hst' & d' & -> & Hsh' & Hcells); [lia | done | |].
    + intros m t Hm (d1 & -> & Hsh1 & Hc1).
      destruct (Hsq k m ltac:(lia) ltac:(lia)) as [-> ->].
      rewrite (int64_small (cx + k)), (int64_small (cy + m)) by lia.
      destruct (Z.leb_spec (k * k + m * m) (radius * radius)) as [Hin | Hout].
      * destruct (shape_update2 d1 W H (cy + m) (cx + k) color Hsh1
                    ltac:(lia) ltac:(lia)) as (d2 & Hd2 & Hsh2).
        unfold PPM.Set_. cbn [PPM.data PPM.width PPM.height PPM.magicNumber
                              PPM.max]. rewrite Hd2. cbn [mbind option_bind].
        eexists. split; [reflexivity |].
        exists d2. split; [done |]. split; [done |]. intros a b.
        rewrite (index2_update2 _ _ _ _ _ a b Hd2), Hc1.
        destruct (decide (cy + m = a /\ cx + k = b)) as [[<- <-] | Hne].
        -- replace (cx + k - cx) with k by lia.
           replace (cy + m - cy) with m by lia.
           destruct (decide (disc k m /\ (k < k \/ k = k /\ m < m + 1)))
             as [| Hn]; [done |]. exfalso. apply Hn. split; [done | lia].
        -- destruct (decide (disc (b - cx) (a - cy) /\
                             (b - cx < k \/ b - cx = k /\ a - cy < m)))
             as [Hd | Hd],
             (decide (disc (b - cx) (a - cy) /\
                      (b - cx < k \/ b - cx = k /\ a - cy < m + 1)))
             as [Hd' | Hd']; try done; exfalso.
           ++ apply Hd'. split; [tauto | lia].
           ++ destruct Hd' as [Hdisc Hlt]. apply Hd. split; [done | lia].
      * eexists. split; [reflexivity |].
        exists d1. split; [done |]. split; [done |]. intros a b.
        rewrite Hc1.
        destruct (decide (disc (b - cx) (a - cy) /\
                          (b - cx < k \/ b - cx = k /\ a - cy < m)))
          as [Hd | Hd],
          (decide (disc (b - cx) (a - cy) /\
                   (b - cx < k \/ b - cx = k /\ a - cy < m + 1)))
          as [Hd' | Hd']; try done; exfalso.
        -- apply Hd'. split; [tauto | lia].
        -- destruct Hd' as [Hdisc Hlt].
           destruct (decide (b - cx = k /\ a - cy = m)) as [[E1 E2] |].
           ++ unfold disc, inDisc in Hdisc. rewrite E1, E2 in Hdisc. lia.
           ++ apply Hd. split; [done | lia].
    + exists (PPM.mk d' W H magic mx). split; [done |].
      exists d'. split; [done |]. split; [done |]. intros a b.
      rewrite Hcells.
      destruct (decide (disc (b - cx) (a - cy) /\
                        (b - cx < k \/ b - cx = k /\ a - cy < radius + 1)))
        as [Hd | Hd],
        (decide (disc (b - cx) (a - cy) /\
                 (b - cx < k + 1 \/ b - cx = k + 1 /\ a - cy < - radius)))
        as [Hd' | Hd']; try done; exfalso.
      * apply Hd'. split; [tauto | lia].
      * destruct Hd' as [Hdisc Hlt]. apply Hd. split; [done |].
        pose proof (disc_bounds (b - cx) (a - cy) radius ltac:(lia) Hdisc).
        lia.
  - exists (PPM.mk d' W H magic mx). split; [done |]. split; [done |].
    split; [done |]. intros x y. unfold PPM.At. cbn [PPM.data].
    rewrite Hcells. fold (disc (x - cx) (y - cy)).
    destruct (decide (disc (x - cx) (y - cy) /\
                      (x - cx < radius + 1 \/
                       x - cx = radius + 1 /\ y - cy < - radius)))
      as [Hd | Hd], (decide (disc (x - cx) (y - cy))) as [Hd' | Hd'];
      try done; exfalso.
    + tauto.
    + apply Hd. split; [done |].
      pose proof (disc_bounds (x - cx) (y - cy) radius ltac:(lia) Hd').
      lia.
Qed.

(** X9.  [DrawCircle] does what [DrawFilledCircle] does, on every
    image and for every centre: it draws no outline.  When the square
    around the disc lies inside the image, both return the image in
    which exactly the pixels of the disc
    [(x-cx)*(x-cx) + (y-cy)*(y-cy) <= radius*radius] have the colour;
    every other pixel and the header are as they were. *)
Theorem DrawCircle_fills_the_disc (ppm : PPM.t) (center : PPM.Point)
  (radius : Z) (color : PPM.Pixel)
  (Hshape : shape (PPM.data ppm) (PPM.width ppm) (PPM.height ppm))
  (Hint : PPM.width ppm < 2 ^ 63 /\ PPM.height ppm < 2 ^ 63)
  (Hradius : 0 <= radius < 2 ^ 31)
  (Hx : radius <= PPM.X center /\ PPM.X center + radius < PPM.width ppm)
  (Hy : radius <= PPM.Y center /\ PPM.Y center + radius < PPM.height ppm) :
  (forall canvas c,
     PPM.DrawCircle canvas c radius color
     = PPM.DrawFilledCircle canvas c radius color) /\
  exists ppm',
    PPM.DrawCircle ppm center radius color = Some ppm' /\
    PPM.DrawFilledCircle ppm center radius color = Some ppm' /\
    (PPM.width ppm', PPM.height ppm', PPM.magicNumber ppm', PPM.max ppm')
    = (PPM.width ppm, PPM.height ppm, PPM.magicNumber ppm, PPM.max ppm) /\
    shape (PPM.data ppm') (PPM.width ppm) (PPM.height ppm) /\
    forall x y,
      PPM.At ppm' x y
      = if decide (inDisc radius (x - PPM.X center) (y - PPM.Y center))
        then Some color else PPM.At ppm x y.
Proof.
  assert (Hr : - 2 ^ 62 < radius < 2 ^ 62) by lia.
  split.
  - intros canvas c. by apply DrawCircle_is_DrawFilledCircle.
  - destruct (DrawFilledCircle_disc ppm center radius color Hshape Hint
                Hradius Hx Hy) as (ppm' & Hrun & Hheader & Hsh & Hat).
    exists ppm'. rewrite DrawCircle_is_DrawFilledCircle by done.
    split; [done | split; [done | split; [done | split; done]]].
Qed.

Lemma DrawCircle_fills_the_disc_witness :
  let ppm := Examples.canvas4 in
  let center := PPM.mkPoint 1 2 in
  shape (PPM.data ppm) (PPM.width ppm) (PPM.height ppm) /\
  (PPM.width ppm < 2 ^ 63 /\ PPM.height ppm < 2 ^ 63) /\
  0 <= 1 < 2 ^ 31 /\
  (1 <= PPM.X center /\ PPM.X center + 1 < PPM.width ppm) /\
  (1 <= PPM.Y center /\ PPM.Y center + 1 < PPM.height ppm) /\
  (forall canvas c,
     PPM.DrawCircle canvas c 1 Examples.red
     = PPM.DrawFilledCircle canvas c 1 Examples.red) /\
  exists ppm',
    PPM.DrawCircle ppm center 1 Examples.red = Some ppm' /\
    PPM.DrawFilledCircle ppm center 1 Examples.red = Some ppm' /\
    (PPM.width ppm', PPM.height ppm', PPM.magicNumber ppm', PPM.max ppm')
    = (PPM.width ppm, PPM.height ppm, PPM.magicNumber ppm, PPM.max ppm) /\
    shape (PPM.data ppm') (PPM.width ppm) (PPM.height ppm) /\
    forall x y,
      PPM.At ppm' x y
      = if decide (inDisc 1 (x - PPM.X center) (y - PPM.Y center))
        then Some Examples.red else PPM.At ppm x y.
Proof.
  assert (H0 : shape (PPM.data Examples.canvas4)
                 (PPM.width Examples.canvas4) (PPM.height Examples.canvas4))
    by (split; [reflexivity | repeat constructor]).
  assert (H1 : 4 < 2 ^ 63 /\ 4 < 2 ^ 63) by lia.
  assert (H2 : 0 <= 1 < 2 ^ 31) by lia.
  assert (H3 : 1 <= 1 /\ 1 + 1 < 4) by lia.
  assert (H4 : 1 <= 2 /\ 2 + 1 < 4) by lia.
  refine (conj H0 (conj H1 (conj H2 (conj H3 (conj H4 _))))).
  exact (DrawCircle_fills_the_disc Examples.canvas4 (PPM.mkPoint 1 2) 1
           Examples.red H0 H1 H2 H3 H4).
Defined.

Lemma index_first {A} (x : A) (l : list A) : Go.index (x :: l) 0 = Some x.
Proof. reflexivity. Qed.

Lemma index_second {A} (x y : A) (l : list A) :
  Go.index (x :: y :: l) 1 = Some y.
Proof. reflexivity. Qed.

Lemma index_third {A} (x y z : A) (l : list A) :
  Go.index (x :: y :: z :: l) 2 = Some z.
Proof. reflexivity. Qed.

Lemma index_fourth {A} (x y z u : A) (l : list A) :
  Go.index (x :: y :: z :: u :: l) 3 = Some u.
Proof. reflexivity. Qed.

Ltac index_literals :=
  change (0 + 1) with 1; change (1 + 1) with 2; change (2 + 1) with 3;
  rewrite ?index_first, ?index_second, ?index_third, ?index_fourth;
  cbn [mbind option_bind].

(** X10.  The outline operations are closed polygons: [DrawTriangle]
    is [DrawPolygon] on its three points, [DrawRectangle] is
    [DrawPolygon] on its corners taken clockwise, the far corners being
    [width] and [height] away; [DrawPolygon] on one point is
    [DrawLine] from the point to itself; and on no point at all
    [DrawPolygon] and [DrawFilledPolygon] panic. *)
Theorem outlines_are_polygons (ppm : PPM.t) (p1 p2 p3 : PPM.Point)
  (width height : Z) (color : PPM.Pixel) :
  PPM.DrawTriangle ppm p1 p2 p3 color
  = PPM.DrawPolygon ppm [p1; p2; p3] color /\
  PPM.DrawRectangle ppm p1 width height color
  = PPM.DrawPolygon ppm
      [p1;
       PPM.mkPoint (Go.int64 (PPM.X p1 + width)) (PPM.Y p1);
       PPM.mkPoint (Go.int64 (PPM.X p1 + width))
         (Go.int64 (PPM.Y p1 + height));
       PPM.mkPoint (PPM.X p1) (Go.int64 (PPM.Y p1 + height))] color /\
  PPM.DrawPolygon ppm [p1] color = PPM.DrawLine ppm p1 p1 color /\
  PPM.DrawPolygon ppm [] color = None /\
  PPM.DrawFilledPolygon ppm [] color = None.
Proof.
  split; [| split; [| split; [| split]]].
  - unfold PPM.DrawTriangle, PPM.DrawPolygon.
    change (Go.len [p1; p2; p3] - 1) with 2.
    rewrite (for_range_step 0 2) by lia. index_literals.
    destruct (PPM.DrawLine ppm p1 p2 color) as [s1 |]; [| done].
    cbn [mbind option_bind].
    rewrite (for_range_step 1 2) by lia. index_literals.
    destruct (PPM.DrawLine s1 p2 p3 color) as [s2 |]; [| done].
    cbn [mbind option_bind].
    rewrite for_range_empty by lia. by index_literals.
  - unfold PPM.DrawRectangle, PPM.DrawPolygon. cbv zeta.
    set (q2 := PPM.mkPoint (Go.int64 (PPM.X p1 + width)) (PPM.Y p1)).
    set (q4 := PPM.mkPoint (Go.int64 (PPM.X p1 + width))
                 (Go.int64 (PPM.Y p1 + height))).
    set (q3 := PPM.mkPoint (PPM.X p1) (Go.int64 (PPM.Y p1 + height))).
    change (Go.len [p1; q2; q4; q3] - 1) with 3.
    rewrite (for_range_step 0 3) by lia. index_literals.
    destruct (PPM.DrawLine ppm p1 q2 color) as [s1 |]; [| done].
    cbn [mbind option_bind].
    rewrite (for_range_step 1 3) by lia. index_literals.
    destruct (PPM.DrawLine s1 q2 q4 color) as [s2 |]; [| done].
    cbn [mbind option_bind].
    rewrite (for_range_step 2 3) by lia. index_literals.
    destruct (PPM.DrawLine s2 q4 q3 color) as [s3 |]; [| done].
    cbn [mbind option_bind].
    rewrite for_range_empty by lia. by index_literals.
  - unfold PPM.DrawPolygon. change (Go.len [p1] - 1) with 0.
    rewrite for_range_empty by lia. by index_literals.
  - unfold PPM.DrawPolygon. change (Go.len (@nil PPM.Point) - 1) with (-1).
    rewrite for_range_empty by lia. reflexivity.
  - reflexivity.
Qed.

End Shapes.

Section Pixels.

(** X11.  A pixel written by [Set] is the pixel read by [At], and no
    other pixel changes.  [Set] of a bitmap and of a pixmap needs
    coordinates inside the image.  [Set] of a graymap checks its
    coordinates, negative ones too: inside the image it writes the
    sample, outside it leaves the image as it is; and [At] of a graymap
    reads 0 at every address outside the image. *)
Theorem Set_then_At (pbm : PBM.t) (pgm : PGM.t) (ppm : PPM.t) (x y : Z)
  (b : bool) (g : Z) (c : PPM.Pixel)
  (Hpbm : shape (PBM.data pbm) (PBM.width pbm) (PBM.height pbm))
  (Hpgm : shape (PGM.data pgm) (PGM.width pgm) (PGM.height pgm))
  (Hppm : shape (PPM.data ppm) (PPM.width ppm) (PPM.height ppm))
  (Hbit : 0 <= x < PBM.width pbm /\ 0 <= y < PBM.height pbm)
  (Hpix : 0 <= x < PPM.width ppm /\ 0 <= y < PPM.height ppm) :
  (exists pbm',
     PBM.Set_ pbm x y b = Some pbm' /\
     (PBM.width pbm', PBM.height pbm', PBM.magicNumber pbm')
     = (PBM.width pbm, PBM.height pbm, PBM.magicNumber pbm) /\
     shape (PBM.data pbm') (PBM.width pbm) (PBM.height pbm) /\
     forall x' y',
       PBM.At pbm' x' y'
       = if decide (x' = x /\ y' = y) then Some b else PBM.At pbm x' y') /\
  (forall gx gy,
     exists pgm',
       PGM.Set_ pgm gx gy g = Some pgm' /\
       (PGM.width pgm', PGM.height pgm', PGM.magicNumber pgm', PGM.max pgm')
       = (PGM.width pgm, PGM.height pgm, PGM.magicNumber pgm, PGM.max pgm) /\
       shape (PGM.data pgm') (PGM.width pgm) (PGM.height pgm) /\
       ((0 <= gx < PGM.width pgm /\ 0 <= gy < PGM.height pgm) \/
        pgm' = pgm) /\
       forall x' y',
         PGM.At pgm' x' y'
         = if decide ((x' = gx /\ y' = gy) /\
                      0 <= gx < PGM.width pgm /\ 0 <= gy < PGM.height pgm)
           then Some g else PGM.At pgm x' y') /\
  (forall x' y',
     (0 <= x' < PGM.width pgm /\ 0 <= y' < PGM.height pgm) \/
     PGM.At pgm x' y' = Some 0) /\
  (exists ppm',
     PPM.Set_ ppm x y c = Some ppm' /\
     (PPM.width ppm', PPM.height ppm', PPM.magicNumber ppm', PPM.max ppm')
     = (PPM.width ppm, PPM.height ppm, PPM.magicNumber ppm, PPM.max ppm) /\
     shape (PPM.data ppm') (PPM.width ppm) (PPM.height ppm) /\
     forall x' y',
       PPM.At ppm' x' y'
       = if decide (x' = x /\ y' = y) then Some c else PPM.At ppm x' y').
Proof.
  split; [| split; [| split]].
  - destruct Hbit as [Hx Hy].
    destruct (shape_update2 _ _ _ y x b Hpbm Hy Hx) as (d' & Hd' & Hsh').
    exists (PBM.mk d' (PBM.width pbm) (PBM.height pbm) (PBM.magicNumber pbm)).
    split; [| split; [done | split; [done |]]].
    + unfold PBM.Set_. unfold Go.update2 in Hd'.
      destruct (Go.index (PBM.data pbm) y) as [row |]; [| done].
      cbn [mbind option_bind] in *.
      destruct (Go.update row x b) as [row' |]; [| done].
      cbn [mbind option_bind] in *. by rewrite Hd'.
    + intros x' y'. unfold PBM.At. cbn [PBM.data].
      pose proof (index2_update2 _ _ _ _ _ y' x' Hd') as Hi.
      unfold Go.index2 in Hi. rewrite Hi.
      destruct (decide (y = y' /\ x = x')), (decide (x' = x /\ y' = y));
        try done; exfalso; lia.
  - intros gx gy. unfold PGM.Set_, PGM.At, PGM.inBounds.
    destruct (Z.geb_spec gx 0), (Z.ltb_spec gx (PGM.width pgm)),
      (Z.geb_spec gy 0), (Z.ltb_spec gy (PGM.height pgm)); cbn [andb];
      try (exists pgm; split; [done |]; split; [done |]; split; [done |];
           split; [by right |];
           intros x' y'; destruct (decide _) as [Hd |]; [lia | done]).
    destruct (shape_update2 _ _ _ gy gx g Hpgm ltac:(lia) ltac:(lia))
      as (d' & Hd' & Hsh').
    rewrite Hd'. cbn [mbind option_bind].
    eexists. split; [reflexivity |]. split; [done |]. split; [done |].
    split; [left; lia |].
    intros x' y'.
    cbn [PGM.data PGM.width PGM.height].
    rewrite (index2_update2 _ _ _ _ _ y' x' Hd').
    destruct (decide (gy = y' /\ gx = x')) as [[-> ->] | Hne].
    + destruct (Z.geb_spec x' 0), (Z.ltb_spec x' (PGM.width pgm)),
        (Z.geb_spec y' 0), (Z.ltb_spec y' (PGM.height pgm)); try lia.
      cbn [andb]. destruct (decide _) as [|Hd]; [done | exfalso; lia].
    + destruct (decide _) as [[[-> ->] _] |]; [by destruct Hne | done].
  - intros x' y'. unfold PGM.At, PGM.inBounds.
    destruct (Z.geb_spec x' 0), (Z.ltb_spec x' (PGM.width pgm)),
      (Z.geb_spec y' 0), (Z.ltb_spec y' (PGM.height pgm)); cbn [andb];
      try (by right).
    left. lia.
  - destruct Hpix as [Hx Hy].
    destruct (shape_update2 _ _ _ y x c Hppm Hy Hx) as (d' & Hd' & Hsh').
    unfold PPM.Set_. rewrite Hd'. cbn [mbind option_bind].
    eexists. split; [reflexivity |]. split; [done |]. split; [done |].
    intros x' y'. unfold PPM.At. cbn [PPM.data].
    rewrite (index2_update2 _ _ _ _ _ y' x' Hd').
    destruct (decide (y = y' /\ x = x')), (decide (x' = x /\ y' = y));
      try done; exfalso; lia.
Qed.

Lemma Set_then_At_witness :
  let pbm := Examples.bitmap3x2 in
  let pgm := Examples.gray3x2 in
  let ppm := Examples.pix3x2 in
  shape (PBM.data pbm) (PBM.width pbm) (PBM.height pbm) /\
  shape (PGM.data pgm) (PGM.width pgm) (PGM.height pgm) /\
  shape (PPM.data ppm) (PPM.width ppm) (PPM.height ppm) /\
  (0 <= 2 < PBM.width pbm /\ 0 <= 1 < PBM.height pbm) /\
  (0 <= 2 < PPM.width ppm /\ 0 <= 1 < PPM.height ppm) /\
  (exists pbm',
     PBM.Set_ pbm 2 1 false = Some pbm' /\
     (PBM.width pbm', PBM.height pbm', PBM.magicNumber pbm')
     = (PBM.width pbm, PBM.height pbm, PBM.magicNumber pbm) /\
     shape (PBM.data pbm') (PBM.width pbm) (PBM.height pbm) /\
     forall x' y',
       PBM.At pbm' x' y'
       = if decide (x' = 2 /\ y' = 1) then Some false
         else PBM.At pbm x' y') /\
  (forall gx gy,
     exists pgm',
       PGM.Set_ pgm gx gy 77 = Some pgm' /\
       (PGM.width pgm', PGM.height pgm', PGM.magicNumber pgm', PGM.max pgm')
       = (PGM.width pgm, PGM.height pgm, PGM.magicNumber pgm, PGM.max pgm) /\
       shape (PGM.data pgm') (PGM.width pgm) (PGM.height pgm) /\
       ((0 <= gx < PGM.width pgm /\ 0 <= gy < PGM.height pgm) \/
        pgm' = pgm) /\
       forall x' y',
         PGM.At pgm' x' y'
         = if decide ((x' = gx /\ y' = gy) /\
                      0 <= gx < PGM.width pgm /\ 0 <= gy < PGM.height pgm)
           then Some 77 else PGM.At pgm x' y') /\
  (forall x' y',
     (0 <= x' < PGM.width pgm /\ 0 <= y' < PGM.height pgm) \/
     PGM.At pgm x' y' = Some 0) /\
  (exists ppm',
     PPM.Set_ ppm 2 1 Examples.red = Some ppm' /\
     (PPM.width ppm', PPM.height ppm', PPM.magicNumber ppm', PPM.max ppm')
     = (PPM.width ppm, PPM.height ppm, PPM.magicNumber ppm, PPM.max ppm) /\
     shape (PPM.data ppm') (PPM.width ppm) (PPM.height ppm) /\
     forall x' y',
       PPM.At ppm' x' y'
       = if decide (x' = 2 /\ y' = 1) then Some Examples.red
         else PPM.At ppm x' y').
Proof.
  assert (H : 0 <= 2 < 3 /\ 0 <= 1 < 2) by lia.
  refine (conj bitmap3x2_shape (conj gray3x2_shape (conj pix3x2_shape
            (conj H (conj H _))))).
  exact (Set_then_At Examples.bitmap3x2 Examples.gray3x2 Examples.pix3x2 2 1
           false 77 Examples.red bitmap3x2_shape gray3x2_shape pix3x2_shape
           H H).
Defined.

(** X12.  [DrawFilledRectangle] on a rectangle inside the image sets
    exactly the pixels of columns [X, X+width) and rows [Y, Y+height):
    the column [X+width] and the row [Y+height], on which
    [DrawRectangle] draws its far sides, stay as they were. *)
Theorem DrawFilledRectangle_paints (ppm : PPM.t) (p : PPM.Point)
  (width height : Z) (color : PPM.Pixel)
  (Hshape : shape (PPM.data ppm) (PPM.width ppm) (PPM.height ppm))
  (Hint : PPM.width ppm < 2 ^ 63 /\ PPM.height ppm < 2 ^ 63)
  (Hx : 0 <= PPM.X p /\ 0 <= width /\ PPM.X p + width <= PPM.width ppm)
  (Hy : 0 <= PPM.Y p /\ 0 <= height /\ PPM.Y p + height <= PPM.height ppm) :
  exists ppm',
    PPM.DrawFilledRectangle ppm p width height color = Some ppm' /\
    (PPM.width ppm', PPM.height ppm', PPM.magicNumber ppm', PPM.max ppm')
    = (PPM.width ppm, PPM.height ppm, PPM.magicNumber ppm, PPM.max ppm) /\
    shape (PPM.data ppm') (PPM.width ppm) (PPM.height ppm) /\
    forall x y,
      PPM.At ppm' x y
      = if decide (PPM.X p <= x < PPM.X p + width /\
                   PPM.Y p <= y < PPM.Y p + height)
        then Some color else PPM.At ppm x y.
Proof.
  destruct ppm as [d W H magic mx], p as [x0 y0].
  cbn [PPM.data PPM.width PPM.height PPM.magicNumber PPM.max PPM.X PPM.Y]
    in *.
  unfold PPM.DrawFilledRectangle. cbn [PPM.X PPM.Y].
  rewrite !int64_small by lia.
  set (inv := fun (k m : Z) (st : PPM.t) =>
    exists d',
      st = PPM.mk d' W H magic mx /\ shape d' W H /\
      forall i j,
        Go.index2 d' i j
        = if decide (y0 <= i /\ x0 <= j < x0 + width /\
                     (i < k \/ (i = k /\ j < m)))
          then Some color else Go.index2 d i j).
  destruct (for_range_invariant (fun k st => inv k x0 st)
              y0 (y0 + height)
              (fun i st =>
                 Go.for_range x0 (x0 + width)
                   (fun j st => PPM.Set_ st j i color) st)
              (PPM.mk d W H magic mx))
    as (st & Hst & d' & -> & Hsh' & Hcells); [lia | | |].
  - exists d. split; [done |]. split; [done |]. intros i j.
    destruct (decide _) as [Hd |]; [lia | done].
  - intros k st Hk Hinv.
    destruct (for_range_invariant (fun m st => inv k m st)
                x0 (x0 + width)
                (fun j st => PPM.Set_ st j k color) st)
      as (st' & Hst' & d' & -> & Hsh' & Hcells); [lia | done | |].
    + intros m t Hm (d1 & -> & Hsh1 & Hc1).
      destruct (shape_update2 d1 W H k m color Hsh1 ltac:(lia) ltac:(lia))
        as (d2 & Hd2 & Hsh2).
      unfold PPM.Set_. cbn [PPM.data PPM.width PPM.height PPM.magicNumber
                            PPM.max]. rewrite Hd2. cbn [mbind option_bind].
      eexists. split; [reflexivity |].
      exists d2. split; [done |]. split; [done |]. intros i j.
      rewrite (index2_update2 _ _ _ _ _ i j Hd2), Hc1.
      destruct (decide (k = i /\ m = j)),
        (decide (y0 <= i /\ x0 <= j < x0 + width /\
                 (i < k \/ i = k /\ j < m))),
        (decide (y0 <= i /\ x0 <= j < x0 + width /\
                 (i < k \/ i = k /\ j < m + 1)));
        try done; exfalso; lia.
    + exists (PPM.mk d' W H magic mx). split; [done |].
      exists d'. split; [done |]. split; [done |]. intros i j.
      rewrite Hcells.
      destruct (decide (y0 <= i /\ x0 <= j < x0 + width /\
                        (i < k \/ i = k /\ j < x0 + width))),
        (decide (y0 <= i /\ x0 <= j < x0 + width /\
                 (i < k + 1 \/ i = k + 1 /\ j < x0)));
        try done; exfalso; lia.
  - exists (PPM.mk d' W H magic mx). split; [done |]. split; [done |].
    split; [done |]. intros x y. unfold PPM.At. cbn [PPM.data].
    rewrite Hcells.
    destruct (decide (y0 <= y /\ x0 <= x < x0 + width /\
                      (y < y0 + height \/ y = y0 + height /\ x < x0))),
      (decide (x0 <= x < x0 + width /\ y0 <= y < y0 + height));
      try done; exfalso; lia.
Qed.

Lemma canvas4_shape :
  shape (PPM.data Examples.canvas4) (PPM.width Examples.canvas4)
    (PPM.height Examples.canvas4).
Proof. split; [reflexivity | repeat constructor]. Qed.

Lemma DrawFilledRectangle_paints_witness :
  let ppm := Examples.canvas4 in
  let p := PPM.mkPoint 1 1 in
  shape (PPM.data ppm) (PPM.width ppm) (PPM.height ppm) /\
  (PPM.width ppm < 2 ^ 63 /\ PPM.height ppm < 2 ^ 63) /\
  (0 <= PPM.X p /\ 0 <= 2 /\ PPM.X p + 2 <= PPM.width ppm) /\
  (0 <= PPM.Y p /\ 0 <= 3 /\ PPM.Y p + 3 <= PPM.height ppm) /\
  exists ppm',
    PPM.DrawFilledRectangle ppm p 2 3 Examples.red = Some ppm' /\
    (PPM.width ppm', PPM.height ppm', PPM.magicNumber ppm', PPM.max ppm')
    = (PPM.width ppm, PPM.height ppm, PPM.magicNumber ppm, PPM.max ppm) /\
    shape (PPM.data ppm') (PPM.width ppm) (PPM.height ppm) /\
    forall x y,
      PPM.At ppm' x y
      = if decide (PPM.X p <= x < PPM.X p + 2 /\
                   PPM.Y p <= y < PPM.Y p + 3)
        then Some Examples.red else PPM.At ppm x y.
Proof.
  assert (H1 : 4 < 2 ^ 63 /\ 4 < 2 ^ 63) by lia.
  assert (H2 : 0 <= 1 /\ 0 <= 2 /\ 1 + 2 <= 4) by lia.
  assert (H3 : 0 <= 1 /\ 0 <= 3 /\ 1 + 3 <= 4) by lia.
  refine (conj canvas4_shape (conj H1 (conj H2 (conj H3 _)))).
  exact (DrawFilledRectangle_paints Examples.canvas4 (PPM.mkPoint 1 1) 2 3
           Examples.red canvas4_shape H1 H2 H3).
Defined.

End Pixels.

Section Conversions.

Lemma convert_map {A B} (d : list (list A)) w h (f : A -> B) (zero : B) :
  shape d w h -> 0 <= w ->
  (u0 ← Go.make h ([] : list B);
   Go.for_range 0 h (fun i t =>
     row ← Go.make w zero;
     t1 ← Go.update t i row;
     Go.for_range 0 w (fun j t =>
       v ← Go.index2 d i j; Go.update2 t i j (f v)) t1) u0)
  = Some (fmap (M := list) f <$> d).
Proof.
  intros Hsh Hw.
  destruct (convert_raster d w h f zero Hsh Hw) as (u & -> & Hu & Hcells).
  f_equal. apply (raster_ext _ _ w h); [done | by apply shape_fmap |].
  intros i j Hi Hj. by rewrite Hcells, index2_fmap.
Qed.

(** X13.  The conversions map one function over the raster of a
    well-shaped image and keep its dimensions.  [PGM.ToPBM] of the
    graymap with a [uint] max value sets the samples below
    [uint8(max/2)] and writes magic number P1; [ToPBM] of the graymap
    with an [int] max value sets the samples above [uint8(max/2)] and
    writes P4; [PPM.ToPBM] sets the pixels whose luma exceeds [max/2]
    and writes P1; [PPM.ToPGM] stores [uint8] of the luma, writes P2
    and keeps the max value. *)
Theorem conversions_map_samples (pgm : PGM.t) (pgm2 : PGM2.t) (ppm : PPM.t)
  (Hpgm : shape (PGM.data pgm) (PGM.width pgm) (PGM.height pgm))
  (Hpgm2 : shape (PGM2.data pgm2) (PGM2.width pgm2) (PGM2.height pgm2))
  (Hppm : shape (PPM.data ppm) (PPM.width ppm) (PPM.height ppm))
  (Hwidths : 0 <= PGM.width pgm /\ 0 <= PGM2.width pgm2 /\
             0 <= PPM.width ppm) :
  PGM.ToPBM pgm
  = Some (PBM.mk
            (fmap (M := list) (fun v => v <? Go.uint8 (Go.div (PGM.max pgm) 2))
               <$> PGM.data pgm)
            (PGM.width pgm) (PGM.height pgm) "P1") /\
  PGM2.ToPBM pgm2
  = Some (PBM.mk
            (fmap (M := list)
               (fun v => v >? Go.uint8 (Go.div (PGM2.max pgm2) 2))
               <$> PGM2.data pgm2)
            (PGM2.width pgm2) (PGM2.height pgm2) "P4") /\
  PPM.ToPBM ppm
  = Some (PBM.mk
            (fmap (M := list)
               (fun p => F64.gt (PPM.luma p)
                           (F64.quo (F64.ofInt (PPM.max ppm)) (F64.ofInt 2)))
               <$> PPM.data ppm)
            (PPM.width ppm) (PPM.height ppm) "P1") /\
  PPM.ToPGM ppm
  = Some (PGM.mk
            (fmap (M := list) (fun p => F64.toUint8 (PPM.luma p))
               <$> PPM.data ppm)
            (PPM.width ppm) (PPM.height ppm) "P2" (PPM.max ppm)).
Proof.
  destruct Hwidths as (Hw1 & Hw2 & Hw3). repeat split.
  - pose proof (convert_map _ _ _
                  (fun v => v <? Go.uint8 (Go.div (PGM.max pgm) 2)) false
                  Hpgm Hw1) as Hc.
    unfold PGM.ToPBM.
    destruct (Go.make (PGM.height pgm) []) as [l |]; [| discriminate].
    cbn [mbind option_bind] in Hc |- *. by rewrite Hc.
  - pose proof (convert_map _ _ _
                  (fun v => v >? Go.uint8 (Go.div (PGM2.max pgm2) 2)) false
                  Hpgm2 Hw2) as Hc.
    unfold PGM2.ToPBM.
    destruct (Go.make (PGM2.height pgm2) []) as [l |]; [| discriminate].
    cbn [mbind option_bind] in Hc |- *. by rewrite Hc.
  - pose proof (convert_map _ _ _
                  (fun p => F64.gt (PPM.luma p)
                     (F64.quo (F64.ofInt (PPM.max ppm)) (F64.ofInt 2)))
                  false Hppm Hw3) as Hc.
    unfold PPM.ToPBM.
    destruct (Go.make (PPM.height ppm) []) as [l |]; [| discriminate].
    cbn [mbind option_bind] in Hc |- *. by rewrite Hc.
  - pose proof (convert_map _ _ _ (fun p => F64.toUint8 (PPM.luma p)) 0
                  Hppm Hw3) as Hc.
    unfold PPM.ToPGM.
    destruct (Go.make (PPM.height ppm) []) as [l |]; [| discriminate].
    cbn [mbind option_bind] in Hc |- *. by rewrite Hc.
Qed.

Lemma conversions_map_samples_witness :
  let pgm := Examples.gray3x2 in
  let pgm2 := Examples.bright2 in
  let ppm := Examples.pix3x2 in
  shape (PGM.data pgm) (PGM.width pgm) (PGM.height pgm) /\
  shape (PGM2.data pgm2) (PGM2.width pgm2) (PGM2.height pgm2) /\
  shape (PPM.data ppm) (PPM.width ppm) (PPM.height ppm) /\
  (0 <= PGM.width pgm /\ 0 <= PGM2.width pgm2 /\ 0 <= PPM.width ppm) /\
  PGM.ToPBM pgm
  = Some (PBM.mk
            (fmap (M := list) (fun v => v <? Go.uint8 (Go.div (PGM.max pgm) 2))
               <$> PGM.data pgm)
            (PGM.width pgm) (PGM.height pgm) "P1") /\
  PGM2.ToPBM pgm2
  = Some (PBM.mk
            (fmap (M := list)
               (fun v => v >? Go.uint8 (Go.div (PGM2.max pgm2) 2))
               <$> PGM2.data pgm2)
            (PGM2.width pgm2) (PGM2.height pgm2) "P4") /\
  PPM.ToPBM ppm
  = Some (PBM.mk
            (fmap (M := list)
               (fun p => F64.gt (PPM.luma p)
                           (F64.quo (F64.ofInt (PPM.max ppm)) (F64.ofInt 2)))
               <$> PPM.data ppm)
            (PPM.width ppm) (PPM.height ppm) "P1") /\
  PPM.ToPGM ppm
  = Some (PGM.mk
            (fmap (M := list) (fun p => F64.toUint8 (PPM.luma p))
               <$> PPM.data ppm)
            (PPM.width ppm) (PPM.height ppm) "P2" (PPM.max ppm)).
Proof.
  assert (H2 : shape (PGM2.data Examples.bright2) 1 1)
    by (split; [reflexivity | repeat constructor]).
  assert (Hw : 0 <= 3 /\ 0 <= 1 /\ 0 <= 3) by lia.
  refine (conj gray3x2_shape (conj H2 (conj pix3x2_shape (conj Hw _)))).
  exact (conversions_map_samples Examples.gray3x2 Examples.bright2
           Examples.pix3x2 gray3x2_shape H2 pix3x2_shape Hw).
Defined.

Lemma level_in (v : Z) : 0 <= v < 256 -> In v levels.
Proof.
  intros Hv. unfold levels. apply list_elem_of_In, list_elem_of_fmap.
  exists (Z.to_nat v). split; [lia |].
  apply list_elem_of_In, in_seq. lia.
Qed.

(** X14.  On a pixel whose three channels are the same level [v],
    with products and sums rounded one by one in float64:
    [PPM.ToPGM] yields [v] or [v - 1], and level 1 becomes 0, the
    weights 0.299, 0.587 and 0.114 adding up to less than 1; and
    [PPM.ToPBM] with max value 255 sets the pixel exactly when [v] is
    at least 128. *)
Theorem conversions_of_gray_pixels (v : Z) (Hv : 0 <= v < 256) :
  (F64.toUint8 (PPM.luma (grayPixel v)) = v \/
   F64.toUint8 (PPM.luma (grayPixel v)) = v - 1) /\
  F64.toUint8 (PPM.luma (grayPixel 1)) = 0 /\
  F64.gt (PPM.luma (grayPixel v)) (F64.quo (F64.ofInt 255) (F64.ofInt 2))
  = (128 <=? v).
Proof.
  assert (Hall :
    forallb (fun v =>
      ((F64.toUint8 (PPM.luma (grayPixel v)) =? v) ||
       (F64.toUint8 (PPM.luma (grayPixel v)) =? v - 1)) &&
      Bool.eqb
        (F64.gt (PPM.luma (grayPixel v))
           (F64.quo (F64.ofInt 255) (F64.ofInt 2)))
        (128 <=? v)) levels = true) by (vm_compute; reflexivity).
  rewrite forallb_forall in Hall.
  specialize (Hall v (level_in v Hv)).
  apply andb_true_iff in Hall as [H1 H2].
  apply orb_true_iff in H1. apply Bool.eqb_prop in H2.
  split; [| split; [by vm_compute | exact H2]].
  destruct H1 as [H1 | H1]; [left | right]; by apply Z.eqb_eq.
Qed.

Lemma conversions_of_gray_pixels_witness :
  0 <= 128 < 256 /\
  (F64.toUint8 (PPM.luma (grayPixel 128)) = 128 \/
   F64.toUint8 (PPM.luma (grayPixel 128)) = 128 - 1) /\
  F64.toUint8 (PPM.luma (grayPixel 1)) = 0 /\
  F64.gt (PPM.luma (grayPixel 128)) (F64.quo (F64.ofInt 255) (F64.ofInt 2))
  = (128 <=? 128).
Proof.
  assert (H : 0 <= 128 < 256) by lia.
  refine (conj H _).
  exact (conversions_of_gray_pixels 128 H).
Defined.

End Conversions.

Section OneLineFiles.

Lemma readString_eof (fuel : nat) (acc : string) (b : bufio.Reader) :
  every notNewline (stream b) = true ->
  (pending b < fuel)%nat ->
  exists b',
    bufio.readString fuel Str.newline acc b
    = ((acc ++ stream b)%string, true, b').
Proof.
  revert acc b. induction fuel as [| fuel IH]; intros acc b Hs Hfuel; [lia |].
  pose proof Hs as Hs'. unfold stream in Hs'. rewrite every_app in Hs'.
  apply andb_true_iff in Hs' as [Hbuf Hfile].
  cbn [bufio.readString]. rewrite (cut_None _ _ Hbuf).
  destruct (Z.leb_spec bufio.defaultBufSize (Str.len (bufio.buffered b)))
    as [Hfull | Hroom].
  - destruct (IH (acc ++ bufio.buffered b)%string
                (bufio.mkReader "" (bufio.file b)) Hfile) as (b' & ->).
    { rewrite pending_empty. rewrite (pending_full b Hfull) in Hfuel. lia. }
    exists b'. unfold stream. cbn [bufio.buffered bufio.file String.append].
    by rewrite sapp_assoc.
  - destruct (bufio.file b) as [| c f] eqn:Ef.
    + cbn [Str.isEmpty]. eexists. unfold stream. by rewrite Ef, sapp_nil_r.
    + cbn [Str.isEmpty].
      destruct (IH acc (bufio.fill b)) as (b' & ->).
      { by rewrite stream_fill. }
      { pose proof (pending_fill b Hroom) as Hp.
        pose proof (pending_bounds b). rewrite Ef in *.
        specialize (Hp ltac:(done)). lia. }
      exists b'. by rewrite stream_fill.
Qed.

Lemma ReadString_eof (content : string) :
  every notNewline content = true ->
  exists b',
    bufio.ReadString Str.newline (bufio.NewReader content)
    = (content, true, b').
Proof.
  intros Hc. unfold bufio.ReadString.
  destruct (readString_eof
              (2 * String.length (bufio.file (bufio.NewReader content)) + 2)
              "" (bufio.NewReader content) Hc) as (b' & Hb').
  { pose proof (pending_bounds (bufio.NewReader content)). lia. }
  exists b'. by rewrite Hb'.
Qed.

Lemma line_whole (l : string) :
  every notNewline l = true -> bufio.line l = l.
Proof.
  induction l as [| c l IH]; [done |]. cbn [every bufio.line].
  intros [Hc Hl]%andb_true_iff. unfold notNewline in Hc.
  apply negb_true_iff in Hc. by rewrite Hc, (IH Hl).
Qed.

Lemma Scan_last_line (l tok : string) :
  l <> EmptyString -> every plain l = true ->
  Str.len l < bufio.MaxScanTokenSize ->
  bufio.Scan (bufio.mkScanner l tok bufio.Scanning)
  = bufio.mkScanner EmptyString l bufio.Scanning.
Proof.
  intros Hne Hl Hlen. unfold bufio.Scan. cbn [bufio.state bufio.rest].
  assert (Hnot : Str.isEmpty l = false) by (by destruct l).
  rewrite Hnot, (line_whole _ (plain_notNewline _ Hl)).
  destruct (Z.leb_spec bufio.MaxScanTokenSize (Str.len l)); [lia |].
  rewrite drop_all by lia. by rewrite dropCR_plain.
Qed.

(** X15.  A file that is a single line without line terminator, the
    empty file among them: [ReadPBM] and [ReadPGM] report that the
    magic number cannot be read, while [ReadPPM] returns an empty
    pixmap, of width, height and max value 0, whose magic number is the
    content of the file. *)
Theorem one_line_files (content : string)
  (Hline : every plain content = true)
  (Hshort : Str.len content < bufio.MaxScanTokenSize) :
  PBM.ReadPBM content = Err ErrReadingMagicNumber /\
  PGM.ReadPGM content = Err ErrReadingMagicNumber /\
  PPM.ReadPPM content = Ok (PPM.mk [] 0 0 content 0).
Proof.
  destruct (ReadString_eof content (plain_notNewline _ Hline)) as (b' & Hb').
  split; [| split].
  - unfold PBM.ReadPBM. cbv zeta. by rewrite Hb'.
  - unfold PGM.ReadPGM. cbv zeta. by rewrite Hb'.
  - unfold PPM.ReadPPM, bufio.NewScanner. cbv zeta.
    destruct content as [| c s] eqn:Ec; [reflexivity |]. rewrite <- Ec in *.
    rewrite (Scan_last_line content "") by (done || by rewrite Ec).
    reflexivity.
Qed.

Lemma one_line_files_witness :
  every plain "P3" = true /\
  Str.len "P3" < bufio.MaxScanTokenSize /\
  PBM.ReadPBM "P3" = Err ErrReadingMagicNumber /\
  PGM.ReadPGM "P3" = Err ErrReadingMagicNumber /\
  PPM.ReadPPM "P3" = Ok (PPM.mk [] 0 0 "P3" 0).
Proof.
  assert (H : Str.len "P3" < bufio.MaxScanTokenSize) by (by vm_compute).
  refine (conj eq_refl (conj H _)).
  exact (one_line_files "P3" eq_refl H).
Defined.

End OneLineFiles.

Section PartialLoops.

Lemma loopR_post {S} (P : Z -> S -> Prop) n i
  (body : Z -> S -> result S) s s' :
  P i s ->
  (forall k st st', i <= k < i + Z.of_nat n -> P k st ->
     body k st = Ok st' -> P (k + 1) st') ->
  loopR n i body s = Ok s' -> P (i + Z.of_nat n) s'.
Proof.
  revert i s. induction n as [| n IH]; intros i s HP Hstep Hrun.
  - cbn in Hrun. injection Hrun as <-.
    by replace (i + Z.of_nat 0) with i by lia.
  - cbn [loopR] in Hrun. destruct (body i s) as [s1 | |] eqn:Hb;
      cbn [mbind result_bind bindR] in Hrun; try discriminate.
    replace (i + Z.of_nat (Datatypes.S n)) with (i + 1 + Z.of_nat n) by lia.
    apply (IH (i + 1) s1); [apply (Hstep i s s1); [lia | done | done] | | done].
    intros k st st' Hk. apply Hstep. lia.
Qed.

Lemma for_rangeR_post {S} (P : Z -> S -> Prop) lo hi
  (body : Z -> S -> result S) s s' :
  lo <= hi -> P lo s ->
  (forall k st st', lo <= k < hi -> P k st ->
     body k st = Ok st' -> P (k + 1) st') ->
  for_rangeR lo hi body s = Ok s' -> P hi s'.
Proof.
  intros Hle HP Hstep Hrun.
  replace hi with (lo + Z.of_nat (Z.to_nat (hi - lo))) by lia.
  apply (loopR_post P _ lo body s s' HP); [| done].
  intros k st st' Hk. apply Hstep. lia.
Qed.

Lemma loop_post {S} (P : Z -> S -> Prop) n i
  (body : Z -> S -> option S) s s' :
  P i s ->
  (forall k st st', i <= k < i + Z.of_nat n -> P k st ->
     body k st = Some st' -> P (k + 1) st') ->
  Go.loop n i body s = Some s' -> P (i + Z.of_nat n) s'.
Proof.
  revert i s. induction n as [| n IH]; intros i s HP Hstep Hrun.
  - cbn in Hrun. injection Hrun as <-.
    by replace (i + Z.of_nat 0) with i by lia.
  - cbn [Go.loop] in Hrun. destruct (body i s) as [s1 |] eqn:Hb;
      [| discriminate].
    replace (i + Z.of_nat (Datatypes.S n)) with (i + 1 + Z.of_nat n) by lia.
    apply (IH (i + 1) s1); [apply (Hstep i s s1); [lia | done | done] | | done].
    intros k st st' Hk. apply Hstep. lia.
Qed.

Lemma for_range_post {S} (P : Z -> S -> Prop) lo hi
  (body : Z -> S -> option S) s s' :
  lo <= hi -> P lo s ->
  (forall k st st', lo <= k < hi -> P k st ->
     body k st = Some st' -> P (k + 1) st') ->
  Go.for_range lo hi body s = Some s' -> P hi s'.
Proof.
  intros Hle HP Hstep Hrun.
  replace hi with (lo + Z.of_nat (Z.to_nat (hi - lo))) by lia.
  apply (loop_post P _ lo body s s' HP); [| done].
  intros k st st' Hk. apply Hstep. lia.
Qed.

Lemma for_range_nothing {S} lo hi (body : Z -> S -> option S) s s' :
  hi <= lo -> Go.for_range lo hi body s = Some s' -> s' = s.
Proof. intros Hle. rewrite for_range_empty by lia. by intros [= ->]. Qed.

End PartialLoops.

Section ScannedValues.

Lemma parseDigits_nonneg (tok : string) (acc v : Z) :
  0 <= acc -> fmt.parseDigits acc tok = Some v -> 0 <= v.
Proof.
  revert acc. induction tok as [| c tok IH]; intros acc Hacc.
  - cbn. intros [= <-]. lia.
  - cbn [fmt.parseDigits]. destruct (fmt.isDigit c) eqn:Hc; [| done].
    apply IH. apply isDigit_code in Hc. lia.
Qed.

Lemma scanOne_range (o : fmt.operand) (s r : string) (v : Z) :
  fmt.scanOne o s = Some (v, r) -> inRange o v.
Proof.
  unfold fmt.scanOne.
  destruct (fmt.SkipSpace s) as [s1 |]; [| done]. cbn [mbind option_bind].
  destruct s1 as [| c s2]; [done |].
  destruct (match o with
            | fmt.Int =>
                if fmt.isSign c then (Str.code c =? 45, s2)
                else (false, String c s2)
            | _ => (false, String c s2)
            end) as [neg s3].
  destruct (fmt.scanNumber s3) as [tok r'].
  destruct (Str.isEmpty tok); [done |].
  destruct (fmt.parseDigits 0 tok) as [u |] eqn:Hu; [| done].
  cbn [mbind option_bind].
  pose proof (parseDigits_nonneg tok 0 u ltac:(lia) Hu) as Hu0.
  destruct o; cbn [inRange].
  - destruct (Z.leb_spec (- 2 ^ 63) (if neg then - u else u)),
      (Z.ltb_spec (if neg then - u else u) (2 ^ 63)); cbn [andb]; try done.
    intros [= <- _]. lia.
  - destruct (Z.ltb_spec u (2 ^ 64)); [| done]. intros [= <- _]. lia.
  - destruct (Z.ltb_spec u (2 ^ 8)); [| done]. intros [= <- _]. lia.
Qed.

Lemma scanRest_range (os : list fmt.operand) (s : string) (vs : list Z)
  (e : bool) :
  fmt.scanRest os s = (vs, e) ->
  forall k o v, os !! k = Some o -> vs !! k = Some v -> inRange o v.
Proof.
  revert s vs e. induction os as [| o os IH]; intros s vs e.
  - cbn. by intros [= <- _] k o v.
  - cbn [fmt.scanRest]. destruct (fmt.advanceSpace s) as [s1 |];
      [| by intros [= <- _] k o' v].
    destruct (fmt.scanOne o s1) as [[v0 r] |] eqn:Hone;
      [| by intros [= <- _] k o' v].
    destruct (fmt.scanRest os r) as [vs' e'] eqn:Hrest.
    intros [= <- _] [| k] o' v; cbn.
    + intros [= <-] [= <-]. by apply (scanOne_range _ _ _ _ Hone).
    + by apply (IH _ _ _ Hrest).
Qed.

Lemma Sscanf_range (os : list fmt.operand) (s : string) (vs : list Z)
  (e : bool) :
  fmt.Sscanf s os = (vs, e) ->
  forall k o v, os !! k = Some o -> vs !! k = Some v -> inRange o v.
Proof.
  destruct os as [| o os]; cbn [fmt.Sscanf].
  - by intros [= <- _] k o v.
  - destruct (fmt.scanOne o s) as [[v0 r] |] eqn:Hone;
      [| by intros [= <- _] k o' v].
    destruct (fmt.scanRest os r) as [vs' e'] eqn:Hrest.
    intros [= <- _] [| k] o' v; cbn.
    + intros [= <-] [= <-]. by apply (scanOne_range _ _ _ _ Hone).
    + by apply (scanRest_range _ _ _ _ Hrest).
Qed.

(** What [Sscanf] leaves in an operand is in the range of its type,
    when the old value was. *)
Lemma stored_range (os : list fmt.operand) (s : string) (vs : list Z)
  (e : bool) (k : nat) (o : fmt.operand) (old : Z) :
  fmt.Sscanf s os = (vs, e) -> os !! k = Some o -> inRange o old ->
  inRange o (fmt.stored vs k old).
Proof.
  intros Hs Ho Hold. unfold fmt.stored.
  destruct (vs !! k) as [v |] eqn:Hv; [| done].
  by apply (Sscanf_range _ _ _ _ Hs k o v).
Qed.

Lemma toBytes_bytes (s : string) : Forall byte (Str.toBytes s).
Proof.
  unfold Str.toBytes. induction s as [| c s IH]; [constructor |].
  cbn [list_ascii_of_string map]. constructor; [| exact IH].
  unfold byte, Str.code. pose proof (N_ascii_bounded c). lia.
Qed.

End ScannedValues.

Section DecodedImages.

Lemma readP2Fields_bytes (y w : Z) (fields : list string) (x : Z)
  (cur row : list Z) :
  PGM.readP2Fields y w fields x cur = Ok row ->
  Go.len cur = w -> Forall byte cur ->
  Go.len row = w /\ Forall byte row.
Proof.
  revert x cur. induction fields as [| f fields IH]; intros x cur.
  - cbn. by intros [= <-].
  - cbn [PGM.readP2Fields]. destruct (x >=? w); [done |].
    destruct (fmt.Sscanf f [fmt.Uint8]) as [vs e] eqn:Hs.
    destruct e; [done |].
    destruct (Go.update cur x (fmt.stored vs 0 0)) as [cur' |] eqn:Hu;
      [| done].
    cbn [run mbind result_bind bindR]. intros Hrow Hlen Hb.
    apply update_inv in Hu as [Hx ->].
    apply (IH _ _ Hrow); [by rewrite len_insert |].
    apply Forall_insert; [done |].
    apply (stored_range _ _ _ _ 0%nat fmt.Uint8 0 Hs eq_refl).
    cbn. lia.
Qed.

Lemma copy_bytes (bytes r0 r : list Z) (w : Z) (f : Z -> Z) :
  Go.for_range 0 w (fun x rowData =>
    pixelValue ← Go.index bytes (f x); Go.update rowData x pixelValue) r0
  = Some r ->
  Forall byte bytes -> Forall byte r0 ->
  Go.len r = Go.len r0 /\ Forall byte r.
Proof.
  intros Hrun Hbytes Hr0.
  destruct (Z.le_gt_cases w 0) as [Hw | Hw].
  { apply for_range_nothing in Hrun; [by subst | done]. }
  apply (for_range_post
           (fun _ t => Go.len t = Go.len r0 /\ Forall byte t) 0 w
           (fun x rowData =>
              pixelValue ← Go.index bytes (f x);
              Go.update rowData x pixelValue) r0 r);
    [lia | done | | done].
  intros k t t' Hk [Hlen Hb] Hstep.
  destruct (Go.index bytes (f k)) as [v |] eqn:Hv; [| done].
  cbn [mbind option_bind] in Hstep. apply update_inv in Hstep as [_ ->].
  split; [by rewrite len_insert |]. apply Forall_insert; [done |].
  apply index_Some in Hv as [_ Hv]. rewrite Forall_lookup in Hbytes.
  by apply (Hbytes _ _ Hv).
Qed.

Lemma rows_shape {A} (d : list (list A)) (w h : Z) (P : A -> Prop) :
  Go.len d = h ->
  (forall i row, 0 <= i < h -> Go.index d i = Some row ->
     Go.len row = w /\ Forall P row) ->
  shape d w h /\ samples P d.
Proof.
  intros Hlen Hrows. split; [split; [done |] |]; apply Forall_lookup;
    intros i row Hi; pose proof (lookup_lt_Some _ _ _ Hi) as Hlt;
    apply (Hrows (Z.of_nat i) row); unfold Go.len in Hlen; try lia;
    apply index_Some; (split; [lia | by rewrite Nat2Z.id]).
Qed.

Lemma make_inv {A} (n : Z) (z : A) (l : list A) :
  Go.make n z = Some l -> 0 <= n /\ l = replicate (Z.to_nat n) z.
Proof.
  unfold Go.make. destruct (Z.ltb_spec n 0); [done |]. by intros [= <-].
Qed.

Lemma makeRaster_built {A} (h w : Z) (zero : A) (raster : list (list A)) :
  PBM.makeRaster h w zero = Some raster -> shape raster w h.
Proof.
  unfold PBM.makeRaster.
  destruct (Go.make h []) as [rows |] eqn:Hm; [| done].
  apply make_inv in Hm as [Hh ->]. cbn [mbind option_bind]. intros Hrun.
  apply (for_range_post
    (fun y d => Go.len d = h /\
       forall i, 0 <= i < y ->
         forall row, Go.index d i = Some row ->
           Go.len row = w /\ Forall (fun _ => True) row)) in Hrun;
    [| lia | |].
  - destruct Hrun as [Hlen Hrows].
    apply (rows_shape raster w h (fun _ => True)); [done |].
    intros i row Hi. by apply Hrows.
  - split; [by apply len_replicate | intros; lia].
  - intros k d d' Hk [Hlen Hrows] Hstep.
    destruct (Go.make w zero) as [r |] eqn:Hr; [| done].
    apply make_inv in Hr as [Hw ->]. cbn [mbind option_bind] in Hstep.
    apply update_inv in Hstep as [_ ->].
    split; [by rewrite len_insert |]. intros i Hi row Hrow.
    destruct (decide (i = k)) as [-> | Hne].
    + rewrite index_insert_eq in Hrow by lia. injection Hrow as <-.
      split; [by apply len_replicate |]. by apply Forall_true.
    + rewrite index_insert_ne in Hrow by lia.
      apply (Hrows i ltac:(lia) row Hrow).
Qed.

Lemma readP1Fields_shape (y w h : Z) (fields : list string) (x : Z)
  (d d' : list (list bool)) :
  PBM.readP1Fields y w fields x d = Ok d' -> shape d w h -> shape d' w h.
Proof.
  revert x d. induction fields as [| f fields IH]; intros x d.
  - cbn. by intros [= <-].
  - cbn [PBM.readP1Fields]. destruct (x >=? w); [done |].
    destruct (Go.index d y) as [row |] eqn:Hrow; [| done].
    cbn [run mbind result_bind bindR].
    destruct (Go.update row x _) as [row' |] eqn:Hu; [| done].
    cbn [run mbind result_bind bindR].
    destruct (Go.update d y row') as [d1 |] eqn:Hd; [| done].
    cbn [run mbind result_bind bindR]. intros Hrun Hs.
    apply (IH _ _ Hrun).
    apply update_inv in Hu as [_ ->]. apply update_inv in Hd as [_ ->].
    apply shape_insert; [done |]. rewrite len_insert.
    by apply (shape_row _ _ _ _ _ Hs Hrow).
Qed.

Lemma readP4Bits_shape (y w h : Z) (bytes : list Z)
  (d d' : list (list bool)) :
  PBM.readP4Bits y w bytes d = Some d' -> shape d w h -> shape d' w h.
Proof.
  unfold PBM.readP4Bits. intros Hrun Hs.
  destruct (Z.le_gt_cases w 0) as [Hw | Hw].
  { apply for_range_nothing in Hrun; [by subst | done]. }
  apply (for_range_post (fun _ t => shape t w h)) in Hrun;
    [done | lia | done |].
  intros k t t' Hk Ht. cbv zeta.
  destruct (Go.index bytes _) as [b |]; [| done].
  cbn [mbind option_bind].
  destruct (Go.index t y) as [r |] eqn:Hr; [| done].
  cbn [mbind option_bind].
  destruct (Go.update r k _) as [r' |] eqn:Hu; [| done].
  cbn [mbind option_bind]. intros Hd.
  apply update_inv in Hu as [_ ->]. apply update_inv in Hd as [_ ->].
  apply shape_insert; [done |]. rewrite len_insert.
  by apply (shape_row _ _ _ _ _ Ht Hr).
Qed.

(** X16. A graymap that ReadPGM returns is well formed: the raster has
    [height] rows of [width] samples, every sample is a byte, both
    dimensions are positive ints, the max value is below 256 and the
    magic number is P2 or P5. *)
Theorem ReadPGM_well_formed (content : string) (pgm : PGM.t) :
  PGM.ReadPGM content = Ok pgm ->
  shape (PGM.data pgm) (PGM.width pgm) (PGM.height pgm) /\
  samples byte (PGM.data pgm) /\
  0 < PGM.width pgm < 2 ^ 63 /\ 0 < PGM.height pgm < 2 ^ 63 /\
  0 <= PGM.max pgm < 256 /\
  (PGM.magicNumber pgm = "P2"%string \/ PGM.magicNumber pgm = "P5"%string).
Proof.
  unfold PGM.ReadPGM.
  destruct (bufio.ReadString _ _) as [[line1 [|]] r1]; [discriminate |].
  destruct (negb _ && negb _) eqn:Hmagic; [discriminate |].
  destruct (bufio.ReadString _ r1) as [[dims [|]] r2]; [discriminate |].
  destruct (fmt.Sscanf _ [fmt.Int; fmt.Int]) as [vs [|]] eqn:Hdims;
    [discriminate |].
  pose proof (stored_range _ _ _ _ 0%nat fmt.Int 0 Hdims eq_refl
                ltac:(cbn; lia)) as Hw.
  pose proof (stored_range _ _ _ _ 1%nat fmt.Int 0 Hdims eq_refl
                ltac:(cbn; lia)) as Hh.
  set (w := fmt.stored vs 0 0) in *. set (h := fmt.stored vs 1 0) in *.
  destruct (Z.leb_spec w 0), (Z.leb_spec h 0); cbn [orb]; try discriminate.
  destruct (bufio.ReadString _ r2) as [[mx [|]] r3]; [discriminate |].
  destruct (fmt.Sscanf _ [fmt.Uint8]) as [vs' [|]] eqn:Hmax;
    [discriminate |].
  pose proof (stored_range _ _ _ _ 0%nat fmt.Uint8 0 Hmax eq_refl
                ltac:(cbn; lia)) as Hmx.
  cbn [inRange] in Hw, Hh, Hmx.
  rewrite (make_Some h []) by lia. cbn [run mbind result_bind bindR].
  assert (Hfinal : forall (st : bufio.Reader * list (list Z)) magic,
    magic = "P2"%string \/ magic = "P5"%string ->
    (Go.len (snd st) = h /\
     forall i row, 0 <= i < h -> Go.index (snd st) i = Some row ->
       Go.len row = w /\ Forall byte row) ->
    (let '(_, data) := st in Ok (PGM.mk data w h magic (fmt.stored vs' 0 0)))
    = Ok pgm ->
    shape (PGM.data pgm) (PGM.width pgm) (PGM.height pgm) /\
    samples byte (PGM.data pgm) /\
    0 < PGM.width pgm < 2 ^ 63 /\ 0 < PGM.height pgm < 2 ^ 63 /\
    0 <= PGM.max pgm < 256 /\
    (PGM.magicNumber pgm = "P2"%string \/ PGM.magicNumber pgm = "P5"%string)).
  { intros [r d] magic Hm [Hlen Hrows] [= <-].
    cbn [snd PGM.data PGM.width PGM.height PGM.max PGM.magicNumber] in *.
    destruct (rows_shape d w h byte Hlen Hrows) as [Hs Hb].
    change (2 ^ 8) with 256 in Hmx.
    split; [done | split; [done | repeat split; [lia .. | done]]]. }
  set (start := (r3, replicate (Z.to_nat h) ([] : list Z))).
  assert (Hstart : Go.len (snd start) = h /\
    forall i, 0 <= i < 0 ->
      forall row, Go.index (snd start) i = Some row ->
        Go.len row = w /\ Forall byte row).
  { split; [by apply len_replicate; lia | intros i Hi; lia]. }
  destruct (String.eqb (strings.TrimSpace line1) "P2") eqn:E2.
  - destruct (for_rangeR 0 h _ start) as [st | |] eqn:Hloop;
      cbn [mbind result_bind bindR]; try discriminate.
    apply Hfinal; [left; by apply String.eqb_eq |].
    apply (for_rangeR_post
      (fun y st => Go.len (snd st) = h /\
         forall i, 0 <= i < y ->
           forall row, Go.index (snd st) i = Some row ->
             Go.len row = w /\ Forall byte row)) in Hloop;
      [| lia | exact Hstart |].
    + destruct Hloop as [Hlen Hrows]. split; [done |].
      intros i row Hi. by apply Hrows.
    + intros k [r d] [r' d'] Hk [Hlen Hrows]. cbn [fst snd] in *.
      destruct (bufio.ReadString _ r) as [[line [|]] r4]; [done |].
      rewrite (make_Some w 0) by lia. cbn [run mbind result_bind bindR].
      destruct (PGM.readP2Fields _ _ _ _ _) as [row | |] eqn:Hrow;
        cbn [run mbind result_bind bindR]; try done.
      destruct (Go.update d k row) as [d1 |] eqn:Hu;
        cbn [run mbind result_bind bindR]; [| done].
      intros [= <- <-]. apply update_inv in Hu as [_ ->].
      split; [by rewrite len_insert |].
      intros i Hi row' Hrow'.
      destruct (decide (i = k)) as [-> | Hne].
      * rewrite index_insert_eq in Hrow' by lia. injection Hrow' as <-.
        apply (readP2Fields_bytes _ _ _ _ _ _ Hrow).
        -- apply len_replicate. lia.
        -- apply Forall_replicate. unfold byte. lia.
      * rewrite index_insert_ne in Hrow' by lia.
        apply (Hrows i ltac:(lia) row' Hrow').
  - destruct (String.eqb (strings.TrimSpace line1) "P5") eqn:E5.
    + destruct (for_rangeR 0 h _ start) as [st | |] eqn:Hloop;
        cbn [mbind result_bind bindR]; try discriminate.
      apply Hfinal; [right; by apply String.eqb_eq |].
      apply (for_rangeR_post
        (fun y st => Go.len (snd st) = h /\
           forall i, 0 <= i < y ->
             forall row, Go.index (snd st) i = Some row ->
               Go.len row = w /\ Forall byte row)) in Hloop;
        [| lia | exact Hstart |].
      * destruct Hloop as [Hlen Hrows]. split; [done |].
        intros i row Hi. by apply Hrows.
      * intros k [r d] [r' d'] Hk [Hlen Hrows]. cbn [fst snd] in *.
        destruct (run (Go.make (Go.int64 (w * 1)) 0)) as [? | |];
          cbn [mbind result_bind bindR]; try done.
        destruct (bufio.Read _ r) as [[row [|]] r4]; [done |].
        destruct (_ <? _); [done |].
        rewrite (make_Some w 0) by lia. cbn [run mbind result_bind bindR].
        destruct (Go.for_range 0 w _ _) as [rowData |] eqn:Hcopy;
          cbn [run mbind result_bind bindR]; [| done].
        destruct (Go.update d k rowData) as [d1 |] eqn:Hu;
          cbn [run mbind result_bind bindR]; [| done].
        intros [= <- <-]. apply update_inv in Hu as [_ ->].
        split; [by rewrite len_insert |].
        intros i Hi row' Hrow'.
        destruct (decide (i = k)) as [-> | Hne].
        -- rewrite index_insert_eq in Hrow' by lia. injection Hrow' as <-.
           destruct (copy_bytes _ _ _ _ (fun x => Go.int64 (x * 1)) Hcopy
                       (toBytes_bytes row)) as [Hl Hb].
           { apply Forall_replicate. unfold byte. lia. }
           split; [| done]. rewrite Hl. apply len_replicate. lia.
        -- rewrite index_insert_ne in Hrow' by lia.
           apply (Hrows i ltac:(lia) row' Hrow').
    + discriminate Hmagic.
Qed.

(** X17. A bitmap that ReadPBM returns is well formed: the raster has
    [height] rows of [width] samples, the dimensions are ints, the
    height is not negative (it may be 0, the dimensions are not checked)
    and the magic number is P1 or P4. *)
Theorem ReadPBM_well_formed (content : string) (pbm : PBM.t) :
  PBM.ReadPBM content = Ok pbm ->
  shape (PBM.data pbm) (PBM.width pbm) (PBM.height pbm) /\
  - 2 ^ 63 <= PBM.width pbm < 2 ^ 63 /\ 0 <= PBM.height pbm < 2 ^ 63 /\
  (PBM.magicNumber pbm = "P1"%string \/ PBM.magicNumber pbm = "P4"%string).
Proof.
  unfold PBM.ReadPBM.
  destruct (bufio.ReadString _ _) as [[line1 [|]] r1]; [discriminate |].
  destruct (negb _ && negb _) eqn:Hmagic; [discriminate |].
  destruct (bufio.ReadString _ r1) as [[dims [|]] r2]; [discriminate |].
  destruct (fmt.Sscanf _ [fmt.Int; fmt.Int]) as [vs [|]] eqn:Hdims;
    [discriminate |].
  pose proof (stored_range _ _ _ _ 0%nat fmt.Int 0 Hdims eq_refl
                ltac:(cbn; lia)) as Hw.
  pose proof (stored_range _ _ _ _ 1%nat fmt.Int 0 Hdims eq_refl
                ltac:(cbn; lia)) as Hh.
  set (w := fmt.stored vs 0 0) in *. set (h := fmt.stored vs 1 0) in *.
  cbn [inRange] in Hw, Hh.
  destruct (PBM.makeRaster h w false) as [raster |] eqn:Hraster;
    cbn [run mbind result_bind bindR]; [| discriminate].
  apply makeRaster_built in Hraster.
  pose proof (shape_nonneg _ _ _ Hraster) as Hh0.
  assert (Hfinal : forall (st : bufio.Reader * list (list bool)) magic,
    magic = "P1"%string \/ magic = "P4"%string ->
    shape (snd st) w h ->
    (let '(_, data) := st in Ok (PBM.mk data w h magic)) = Ok pbm ->
    shape (PBM.data pbm) (PBM.width pbm) (PBM.height pbm) /\
    - 2 ^ 63 <= PBM.width pbm < 2 ^ 63 /\
    0 <= PBM.height pbm < 2 ^ 63 /\
    (PBM.magicNumber pbm = "P1"%string \/ PBM.magicNumber pbm = "P4"%string)).
  { intros [r d] magic Hm Hs [= <-].
    cbn [snd PBM.data PBM.width PBM.height PBM.magicNumber] in *.
    repeat split; [exact (proj1 Hs) | exact (proj2 Hs) | lia .. | done]. }
  destruct (String.eqb (strings.TrimSpace line1) "P1") eqn:E1.
  - destruct (for_rangeR 0 h _ (r2, raster)) as [st | |] eqn:Hloop;
      cbn [mbind result_bind bindR]; try discriminate.
    apply Hfinal; [left; by apply String.eqb_eq |].
    apply (for_rangeR_post (fun _ st => shape (snd st) w h)) in Hloop;
      [done | lia | done |].
    intros k [r d] [r' d'] Hk Hs. cbn [fst snd] in *.
    destruct (bufio.ReadString _ r) as [[line [|]] r4]; [done |].
    destruct (PBM.readP1Fields _ _ _ _ _) as [d1 | |] eqn:Hrow;
      cbn [run mbind result_bind bindR]; try done.
    intros [= <- <-]. by apply (readP1Fields_shape _ _ _ _ _ _ _ Hrow).
  - destruct (String.eqb (strings.TrimSpace line1) "P4") eqn:E4.
    + cbv zeta.
      destruct (for_rangeR 0 h _ (r2, raster)) as [st | |] eqn:Hloop;
        cbn [mbind result_bind bindR]; try discriminate.
      apply Hfinal; [right; by apply String.eqb_eq |].
      apply (for_rangeR_post (fun _ st => shape (snd st) w h)) in Hloop;
        [done | lia | done |].
      intros k [r d] [r' d'] Hk Hs. cbn [fst snd] in *.
      destruct (run (Go.make _ 0)) as [? | |];
        cbn [mbind result_bind bindR]; try done.
      destruct (bufio.Read _ r) as [[row [|]] r4]; [done |].
      destruct (_ <? _); [done |].
      destruct (PBM.readP4Bits _ _ _ _) as [d1 |] eqn:Hrow;
        cbn [run mbind result_bind bindR]; [| done].
      intros [= <- <-]. by apply (readP4Bits_shape _ _ _ _ _ _ Hrow).
    + discriminate Hmagic.
Qed.

Lemma byte_stored (os : list fmt.operand) (s : string) (vs : list Z)
  (e : bool) (k : nat) (old : Z) :
  fmt.Sscanf s os = (vs, e) -> os !! k = Some fmt.Uint8 -> byte old ->
  byte (fmt.stored vs k old).
Proof.
  intros Hs Hk Hold.
  pose proof (stored_range _ _ _ _ k fmt.Uint8 old Hs Hk) as Hr.
  cbn [inRange] in Hr. unfold byte in *. change (2 ^ 8) with 256 in Hr.
  by apply Hr.
Qed.

(** X18. ReadPPM never returns an error, whatever the file holds: it
    panics or returns a pixmap, and that pixmap is well formed:
    [height] rows of [width] pixels with byte channels, int dimensions
    with a height that is not negative, and a max value that fits a
    uint. *)
Theorem ReadPPM_result (content : string) :
  PPM.ReadPPM content = Panic \/
  exists ppm, PPM.ReadPPM content = Ok ppm /\
    shape (PPM.data ppm) (PPM.width ppm) (PPM.height ppm) /\
    samples byte_pixel (PPM.data ppm) /\
    - 2 ^ 63 <= PPM.width ppm < 2 ^ 63 /\
    0 <= PPM.height ppm < 2 ^ 63 /\
    0 <= PPM.max ppm < 2 ^ 64.
Proof.
  unfold PPM.ReadPPM. cbv zeta.
  destruct (fmt.Sscanf _ [fmt.Int; fmt.Int]) as [vs e1] eqn:Hdims.
  destruct (fmt.Sscanf _ [fmt.Uint]) as [vs' e2] eqn:Hmax.
  pose proof (stored_range _ _ _ _ 0%nat fmt.Int 0 Hdims eq_refl
                ltac:(cbn; lia)) as Hw.
  pose proof (stored_range _ _ _ _ 1%nat fmt.Int 0 Hdims eq_refl
                ltac:(cbn; lia)) as Hh.
  pose proof (stored_range _ _ _ _ 0%nat fmt.Uint 0 Hmax eq_refl
                ltac:(cbn; lia)) as Hmx.
  set (w := fmt.stored vs 0 0) in *. set (h := fmt.stored vs 1 0) in *.
  cbn [inRange] in Hw, Hh, Hmx.
  destruct (Go.make h []) as [rows |] eqn:Hm;
    cbn [run mbind result_bind bindR]; [| by left].
  apply make_inv in Hm as [Hh0 ->].
  destruct (Go.for_range 0 h _ _) as [[sc d] |] eqn:Hloop;
    cbn [run mbind result_bind bindR]; [| by left].
  right. eexists. split; [reflexivity |].
  cbn [PPM.data PPM.width PPM.height PPM.max].
  apply (for_range_post
    (fun y (st : bufio.Scanner * list (list PPM.Pixel)) =>
       Go.len (snd st) = h /\
       forall i, 0 <= i < y ->
         forall row, Go.index (snd st) i = Some row ->
           Go.len row = w /\ Forall byte_pixel row)) in Hloop;
    [| lia | |].
  - destruct Hloop as [Hlen Hrows]. cbn [snd] in *.
    destruct (rows_shape d w h byte_pixel Hlen) as [Hs Hb].
    { intros i row Hi. by apply Hrows. }
    split; [done | split; [done | lia]].
  - split; [by apply len_replicate | intros; lia].
  - intros k [sc0 d0] [sc1 d1] Hk [Hlen Hrows]. cbn [fst snd] in *.
    destruct (Go.make w PPM.zeroPixel) as [r |] eqn:Hr; [| done].
    apply make_inv in Hr as [Hw0 ->]. cbn [mbind option_bind].
    destruct (Go.update d0 k _) as [d2 |] eqn:Hu; [| done].
    apply update_inv in Hu as [_ ->]. cbn [mbind option_bind].
    intros Hinner.
    apply (for_range_post
      (fun _ (st : bufio.Scanner * list (list PPM.Pixel)) =>
         Go.len (snd st) = h /\
         forall i, 0 <= i < k + 1 ->
           forall row, Go.index (snd st) i = Some row ->
             Go.len row = w /\ Forall byte_pixel row)) in Hinner;
      [done | lia | |].
    + cbn [snd]. split; [by rewrite len_insert |]. intros i Hi row Hrow.
      destruct (decide (i = k)) as [-> | Hne].
      * rewrite index_insert_eq in Hrow by lia. injection Hrow as <-.
        split; [by apply len_replicate |]. apply Forall_replicate.
        unfold byte_pixel, byte. cbn. lia.
      * rewrite index_insert_ne in Hrow by lia.
        apply (Hrows i ltac:(lia) row Hrow).
    + intros j [sc2 d2] [sc3 d3] Hj [Hl Hr]. cbn [fst snd] in *.
      destruct (fmt.Sscanf (bufio.Text (bufio.Scan sc2)) _)
        as [vs3 e3] eqn:Hpix.
      destruct (Go.index2 d2 k j) as [old |] eqn:Hold;
        cbn [mbind option_bind]; [| done].
      destruct (Go.update2 d2 k j _) as [d4 |] eqn:Hup;
        cbn [mbind option_bind]; [| done].
      intros [= <- <-].
      apply update2_inv in Hup as (row & Hrow & Hjr & ->).
      apply index2_Some in Hold as (row0 & Hrow0 & Hold).
      rewrite Hrow in Hrow0. injection Hrow0 as <-.
      destruct (Hr k ltac:(lia) row Hrow) as [Hlr Hbr].
      assert (Hbold : byte_pixel old).
      { apply index_Some in Hold as [_ Hold].
        rewrite Forall_lookup in Hbr. by apply (Hbr _ _ Hold). }
      split; [by rewrite len_insert |]. intros i Hi row' Hrow'.
      destruct (decide (i = k)) as [-> | Hne].
      * rewrite index_insert_eq in Hrow' by lia. injection Hrow' as <-.
        split; [by rewrite len_insert |]. apply Forall_insert; [done |].
        destruct Hbold as (HR & HG & HB).
        unfold byte_pixel. cbn [PPM.R PPM.G PPM.B]. split; [| split].
        -- by apply (byte_stored _ _ _ _ 0%nat _ Hpix).
        -- by apply (byte_stored _ _ _ _ 1%nat _ Hpix).
        -- by apply (byte_stored _ _ _ _ 2%nat _ Hpix).
      * rewrite index_insert_ne in Hrow' by lia.
        apply (Hr i ltac:(lia) row' Hrow').
Qed.

Lemma ReadPGM_well_formed_witness :
  let pgm := PGM.mk [[0; 255]; [128; 64]] 2 2 "P2" 255 in
  PGM.ReadPGM Examples.streamP2 = Ok pgm /\
  shape (PGM.data pgm) (PGM.width pgm) (PGM.height pgm) /\
  samples byte (PGM.data pgm) /\
  0 < PGM.width pgm < 2 ^ 63 /\ 0 < PGM.height pgm < 2 ^ 63 /\
  0 <= PGM.max pgm < 256 /\
  (PGM.magicNumber pgm = "P2"%string \/ PGM.magicNumber pgm = "P5"%string).
Proof.
  intros pgm.
  assert (H : PGM.ReadPGM Examples.streamP2 = Ok pgm)
    by (vm_compute; reflexivity).
  exact (conj H (ReadPGM_well_formed Examples.streamP2 pgm H)).
Defined.

Lemma ReadPBM_well_formed_witness :
  let pbm :=
    PBM.mk [[true; true; false]; [false; false; true]] 3 2 "P1" in
  PBM.ReadPBM Examples.streamP1 = Ok pbm /\
  shape (PBM.data pbm) (PBM.width pbm) (PBM.height pbm) /\
  - 2 ^ 63 <= PBM.width pbm < 2 ^ 63 /\ 0 <= PBM.height pbm < 2 ^ 63 /\
  (PBM.magicNumber pbm = "P1"%string \/ PBM.magicNumber pbm = "P4"%string).
Proof.
  intros pbm.
  assert (H : PBM.ReadPBM Examples.streamP1 = Ok pbm)
    by (vm_compute; reflexivity).
  exact (conj H (ReadPBM_well_formed Examples.streamP1 pbm H)).
Defined.

End DecodedImages.

Section Painting.

Implicit Types (ppm : PPM.t) (color : PPM.Pixel) (region : Z -> Z -> Prop).

Lemma paintedIn_refl region color ppm : paintedIn region color ppm ppm.
Proof. repeat split. intros x y. by left. Qed.

Lemma paintedIn_trans region color ppm1 ppm2 ppm3 :
  paintedIn region color ppm1 ppm2 -> paintedIn region color ppm2 ppm3 ->
  paintedIn region color ppm1 ppm3.
Proof.
  intros (Hw & Hh & Hm & Hx & H12) (Hw' & Hh' & Hm' & Hx' & H23).
  repeat split; try congruence. intros x y.
  destruct (H23 x y) as [E23 | (Hr & Hs & E23)];
    destruct (H12 x y) as [E12 | (Hr' & Hs' & E12)].
  - left. congruence.
  - right. repeat split; [done | done | congruence].
  - right. repeat split; [done | by rewrite <- E12 | done].
  - right. by repeat split.
Qed.

Lemma paintedIn_mono region region' color ppm ppm' :
  (forall x y, region x y -> region' x y) ->
  paintedIn region color ppm ppm' -> paintedIn region' color ppm ppm'.
Proof.
  intros Hsub (Hw & Hh & Hm & Hx & H). repeat split; try done.
  intros x y. destruct (H x y) as [E | (Hr & Hs & E)]; [by left |].
  right. repeat split; [by apply Hsub | done | done].
Qed.

Lemma Set_paints ppm x y color ppm' :
  PPM.Set_ ppm x y color = Some ppm' ->
  paintedIn (fun x' y' => x' = x /\ y' = y) color ppm ppm'.
Proof.
  unfold PPM.Set_.
  destruct (Go.update2 (PPM.data ppm) y x color) as [d |] eqn:Hu;
    [| done].
  cbn [mbind option_bind]. intros [= <-]. repeat split.
  intros x' y'. unfold PPM.At. cbn [PPM.data].
  rewrite (index2_update2 _ _ _ _ _ y' x' Hu).
  destruct (decide (y = y' /\ x = x')) as [[<- <-] | Hne]; [| by left].
  right. split; [done | split; [| done]].
  apply update2_inv in Hu as (row & Hrow & Hx & _).
  unfold Go.index2. rewrite Hrow. cbn [mbind option_bind].
  destruct (index_in_range row x Hx) as [v ->]. by eexists.
Qed.

Lemma Set_painted region ppm x y color ppm' :
  region x y -> PPM.Set_ ppm x y color = Some ppm' ->
  paintedIn region color ppm ppm'.
Proof.
  intros Hr Hset. apply (paintedIn_mono (fun x' y' => x' = x /\ y' = y));
    [by intros ? ? [-> ->] | by apply Set_paints].
Qed.

(** A loop whose body only paints, only paints. *)
Lemma paint_loop {S} region color ppm (get : S -> PPM.t) lo hi
  (body : Z -> S -> option S) (s s' : S) :
  paintedIn region color ppm (get s) ->
  (forall k st st', lo <= k < hi -> body k st = Some st' ->
     paintedIn region color (get st) (get st')) ->
  Go.for_range lo hi body s = Some s' ->
  paintedIn region color ppm (get s').
Proof.
  intros Hs Hbody Hrun. destruct (Z.le_gt_cases hi lo) as [Hle | Hlt].
  { apply for_range_nothing in Hrun; [by subst | done]. }
  apply (for_range_post (fun _ st => paintedIn region color ppm (get st)))
    in Hrun; [done | lia | done |].
  intros k st st' Hk Hst Hstep.
  apply (paintedIn_trans _ _ _ (get st)); [done |].
  by apply (Hbody k).
Qed.

Lemma DrawLine_paints ppm p1 p2 color ppm' :
  PPM.DrawLine ppm p1 p2 color = Some ppm' -> painted color ppm ppm'.
Proof.
  unfold PPM.DrawLine. cbv zeta.
  destruct (Go.for_range 0 _ _ _) as [[[q x] y] |] eqn:Hloop; [| done].
  cbn [mbind option_bind]. intros [= <-].
  apply (paint_loop (fun _ _ => True) color ppm
           (fun st => fst (fst st))) in Hloop; [done | apply paintedIn_refl |].
  intros k [[q0 x0] y0] [[q1 x1] y1] _. cbn [fst].
  destruct (PPM.Set_ q0 _ _ color) as [q2 |] eqn:Hset; [| done].
  cbn [mbind option_bind]. intros [= <- _ _].
  by apply (Set_painted _ _ _ _ _ _ I Hset).
Qed.

Lemma painted_trans color ppm1 ppm2 ppm3 :
  painted color ppm1 ppm2 -> painted color ppm2 ppm3 ->
  painted color ppm1 ppm3.
Proof. apply paintedIn_trans. Qed.

Lemma DrawRectangle_paints ppm p1 w h color ppm' :
  PPM.DrawRectangle ppm p1 w h color = Some ppm' -> painted color ppm ppm'.
Proof.
  unfold PPM.DrawRectangle. cbv zeta.
  destruct (PPM.DrawLine ppm _ _ color) as [q1 |] eqn:H1; [| done].
  cbn [mbind option_bind].
  destruct (PPM.DrawLine q1 _ _ color) as [q2 |] eqn:H2; [| done].
  cbn [mbind option_bind].
  destruct (PPM.DrawLine q2 _ _ color) as [q3 |] eqn:H3; [| done].
  cbn [mbind option_bind]. intros H4.
  apply DrawLine_paints in H1, H2, H3, H4.
  eauto using painted_trans.
Qed.

Lemma DrawTriangle_paints ppm p1 p2 p3 color ppm' :
  PPM.DrawTriangle ppm p1 p2 p3 color = Some ppm' -> painted color ppm ppm'.
Proof.
  unfold PPM.DrawTriangle.
  destruct (PPM.DrawLine ppm _ _ color) as [q1 |] eqn:H1; [| done].
  cbn [mbind option_bind].
  destruct (PPM.DrawLine q1 _ _ color) as [q2 |] eqn:H2; [| done].
  cbn [mbind option_bind]. intros H3.
  apply DrawLine_paints in H1, H2, H3.
  eauto using painted_trans.
Qed.

Lemma DrawPolygon_paints ppm points color ppm' :
  PPM.DrawPolygon ppm points color = Some ppm' -> painted color ppm ppm'.
Proof.
  unfold PPM.DrawPolygon.
  destruct (Go.for_range 0 _ _ ppm) as [q |] eqn:Hloop; [| done].
  cbn [mbind option_bind].
  destruct (Go.index points (Go.len points - 1)) as [a |]; [| done].
  cbn [mbind option_bind].
  destruct (Go.index points 0) as [b |]; [| done].
  cbn [mbind option_bind]. intros Hlast%DrawLine_paints.
  apply (painted_trans _ _ q); [| done].
  apply (paint_loop (fun _ _ => True) color ppm id) in Hloop;
    [done | apply paintedIn_refl |].
  intros k st st' _.
  destruct (Go.index points k) as [a' |]; [| done].
  cbn [mbind option_bind].
  destruct (Go.index points (k + 1)) as [b' |]; [| done].
  cbn [mbind option_bind]. apply DrawLine_paints.
Qed.

Lemma DrawFilledRectangle_only_paints ppm p1 w h color ppm' :
  PPM.DrawFilledRectangle ppm p1 w h color = Some ppm' ->
  painted color ppm ppm'.
Proof.
  unfold PPM.DrawFilledRectangle. intros Hloop.
  apply (paint_loop (fun _ _ => True) color ppm id) in Hloop;
    [done | apply paintedIn_refl |].
  intros i st st' _ Hrow.
  apply (paint_loop (fun _ _ => True) color st id) in Hrow;
    [done | apply paintedIn_refl |].
  intros j q q' _. by apply Set_painted.
Qed.

Lemma DrawCircle_paints ppm c r color ppm' :
  PPM.DrawCircle ppm c r color = Some ppm' -> painted color ppm ppm'.
Proof.
  unfold PPM.DrawCircle. intros Hloop.
  apply (paint_loop (fun _ _ => True) color ppm id) in Hloop;
    [done | apply paintedIn_refl |].
  intros i st st' _ Hrow.
  apply (paint_loop (fun _ _ => True) color st id) in Hrow;
    [done | apply paintedIn_refl |].
  intros j q q' _. cbv zeta. destruct (_ <=? _).
  - by apply Set_painted.
  - intros [= <-]. apply paintedIn_refl.
Qed.

Lemma DrawFilledCircle_paints ppm c r color ppm' :
  PPM.DrawFilledCircle ppm c r color = Some ppm' -> painted color ppm ppm'.
Proof.
  unfold PPM.DrawFilledCircle. intros Hloop.
  apply (paint_loop (fun _ _ => True) color ppm id) in Hloop;
    [done | apply paintedIn_refl |].
  intros i st st' _ Hrow.
  apply (paint_loop (fun _ _ => True) color st id) in Hrow;
    [done | apply paintedIn_refl |].
  intros j q q' _. destruct (_ <=? _).
  - by apply Set_painted.
  - intros [= <-]. apply paintedIn_refl.
Qed.

Lemma DrawFilledTriangle_paints ppm p1 p2 p3 color ppm' :
  PPM.DrawFilledTriangle ppm p1 p2 p3 color = Some ppm' ->
  painted color ppm ppm'.
Proof.
  unfold PPM.DrawFilledTriangle.
  destruct (Go.for_range 0 2 _ _) as [points |]; [| done].
  cbn [mbind option_bind].
  destruct (Go.index points 0) as [q0 |]; [| done].
  cbn [mbind option_bind].
  destruct (Go.index points 1) as [q1 |]; [| done].
  cbn [mbind option_bind].
  destruct (Go.index points 2) as [q2 |]; [| done].
  cbn [mbind option_bind]. cbv zeta.
  destruct (Go.for_range (PPM.Y q0) _ _ ppm) as [q |] eqn:Hupper; [| done].
  cbn [mbind option_bind]. intros Hlower.
  apply (paint_loop (fun _ _ => True) color ppm id) in Hupper;
    [| apply paintedIn_refl | intros k st st' _; apply DrawLine_paints].
  apply (paint_loop (fun _ _ => True) color ppm id) in Hlower;
    [done | done | intros k st st' _; apply DrawLine_paints].
Qed.

(** The bounding box is made of coordinates of the points. *)
Lemma boundingBox_fold (points l : list PPM.Point) (a b c d : Z)
  (minX minY maxX maxY : Z) :
  fold_left (fun '(minX, minY, maxX, maxY) p =>
    let minX := if PPM.X p <? minX then PPM.X p else minX in
    let maxX := if PPM.X p >? maxX then PPM.X p else maxX in
    let minY := if PPM.Y p <? minY then PPM.Y p else minY in
    let maxY := if PPM.Y p >? maxY then PPM.Y p else maxY in
    (minX, minY, maxX, maxY)) l (a, b, c, d) = (minX, minY, maxX, maxY) ->
  Forall (fun p => p ∈ points) l ->
  Exists (fun p => PPM.Y p = b) points ->
  Exists (fun p => PPM.Y p = d) points ->
  Exists (fun p => PPM.Y p = minY) points /\
  Exists (fun p => PPM.Y p = maxY) points.
Proof.
  revert a b c d. induction l as [| p l IH]; intros a b c d Hfold Hl Hb Hd.
  - cbn in Hfold. by injection Hfold as _ <- _ <-.
  - cbn [fold_left] in Hfold. apply Forall_cons in Hl as [Hp Hl].
    apply (IH _ _ _ _ Hfold Hl).
    + destruct (PPM.Y p <? b); [| done]. apply Exists_exists. by exists p.
    + destruct (PPM.Y p >? d); [| done]. apply Exists_exists. by exists p.
Qed.

Lemma boundingBox_rows (points : list PPM.Point) (minX minY maxX maxY : Z) :
  PPM.boundingBox points = Some (minX, minY, maxX, maxY) ->
  Exists (fun p => PPM.Y p = minY) points /\
  Exists (fun p => PPM.Y p = maxY) points.
Proof.
  unfold PPM.boundingBox.
  destruct (Go.index points 0) as [p0 |] eqn:H0; [| done].
  cbn [mbind option_bind]. intros [= Hbox].
  assert (Hin : p0 ∈ points).
  { apply index_Some in H0 as [_ H0]. by apply list_elem_of_lookup_2 in H0. }
  apply (boundingBox_fold points points _ _ _ _ _ _ _ _ Hbox).
  - by apply Forall_forall.
  - apply Exists_exists. by exists p0.
  - apply Exists_exists. by exists p0.
Qed.

Lemma DrawFilledPolygon_region ppm points color ppm' :
  PPM.DrawFilledPolygon ppm points color = Some ppm' ->
  paintedIn (vertexColumn points) color ppm ppm'.
Proof.
  unfold PPM.DrawFilledPolygon.
  destruct (PPM.boundingBox points) as [[[[minX minY] maxX] maxY] |] eqn:Hbox;
    [| done].
  cbn [mbind option_bind]. intros Hloop.
  apply boundingBox_rows in Hbox as [Hmin Hmax].
  apply (paint_loop (vertexColumn points) color ppm id) in Hloop;
    [done | apply paintedIn_refl |].
  intros y st st' Hy.
  destruct (Go.for_range 0 _ _ (st, 0)) as [[q n] |] eqn:Hedges; [| done].
  cbn [mbind option_bind]. intros [= <-]. unfold id.
  apply (paint_loop (vertexColumn points) color st fst) in Hedges;
    [done | apply paintedIn_refl |].
  intros i [q0 n0] [q1 n1] Hi. cbn [fst].
  destruct (Go.index points i) as [a |] eqn:Ha; [| done].
  cbn [mbind option_bind].
  destruct (Go.index points (Go.rem _ _)) as [b |]; [| done].
  cbn [mbind option_bind]. cbv zeta.
  assert (Hcol : vertexColumn points (PPM.X a) y).
  { split; [| split]; apply Exists_exists.
    - exists a. split; [| done].
      apply index_Some in Ha as [_ Ha]. by apply list_elem_of_lookup_2 in Ha.
    - apply Exists_exists in Hmin as (p & Hp & Ep).
      exists p. split; [done | lia].
    - apply Exists_exists in Hmax as (p & Hp & Ep).
      exists p. split; [done | lia]. }
  destruct (negb _).
  - destruct (PPM.Set_ q0 (PPM.X a) y color) as [q2 |] eqn:Hset; [| done].
    cbn [mbind option_bind]. intros [= <- _].
    apply (Set_painted _ _ _ _ _ _ Hcol Hset).
  - intros [= <- _]. apply paintedIn_refl.
Qed.

(** X19. Drawing only paints: whichever drawing operation returns, the
    header is unchanged, no pixel is added or removed, and every pixel
    is as it was or has the colour drawn with. *)
Theorem drawing_only_paints (ppm : PPM.t) (op : drawing)
  (color : PPM.Pixel) (ppm' : PPM.t)
  (Hdraw : draw ppm op color = Some ppm') :
  painted color ppm ppm'.
Proof.
  destruct op; cbn [draw] in Hdraw.
  - by apply (DrawLine_paints _ _ _ _ _ Hdraw).
  - by apply (DrawRectangle_paints _ _ _ _ _ _ Hdraw).
  - by apply (DrawFilledRectangle_only_paints _ _ _ _ _ _ Hdraw).
  - by apply (DrawCircle_paints _ _ _ _ _ Hdraw).
  - by apply (DrawFilledCircle_paints _ _ _ _ _ Hdraw).
  - by apply (DrawTriangle_paints _ _ _ _ _ _ Hdraw).
  - by apply (DrawFilledTriangle_paints _ _ _ _ _ _ Hdraw).
  - by apply (DrawPolygon_paints _ _ _ _ Hdraw).
  - apply (paintedIn_mono (vertexColumn points)); [done |].
    by apply DrawFilledPolygon_region.
Qed.

Lemma drawing_only_paints_witness :
  let op :=
    FilledTriangle (PPM.mkPoint 1 0) (PPM.mkPoint 3 3) (PPM.mkPoint 0 3) in
  draw Examples.canvas4 op Examples.red = Some Examples.triangle4 /\
  painted Examples.red Examples.canvas4 Examples.triangle4.
Proof.
  intros op.
  assert (H : draw Examples.canvas4 op Examples.red
              = Some Examples.triangle4) by (vm_compute; reflexivity).
  exact (conj H (drawing_only_paints _ _ _ _ H)).
Defined.

(** X20. DrawFilledPolygon does not fill the polygon: when it returns,
    the only pixels it can have changed lie in the column of a vertex,
    on a row between the topmost and the lowest vertex; every other
    pixel, the inside of the polygon included, is as it was. *)
Theorem DrawFilledPolygon_paints_vertex_columns (ppm : PPM.t)
  (points : list PPM.Point) (color : PPM.Pixel) (ppm' : PPM.t)
  (Hdraw : PPM.DrawFilledPolygon ppm points color = Some ppm') :
  paintedIn (vertexColumn points) color ppm ppm'.
Proof. by apply DrawFilledPolygon_region. Qed.

Lemma DrawFilledPolygon_paints_vertex_columns_witness :
  let points := [PPM.mkPoint 3 0; PPM.mkPoint 0 3; PPM.mkPoint 3 3] in
  PPM.DrawFilledPolygon Examples.canvas4 points Examples.red
  = Some Examples.columns4 /\
  paintedIn (vertexColumn points) Examples.red
    Examples.canvas4 Examples.columns4.
Proof.
  intros points.
  assert (H : PPM.DrawFilledPolygon Examples.canvas4 points Examples.red
              = Some Examples.columns4) by (vm_compute; reflexivity).
  exact (conj H (DrawFilledPolygon_paints_vertex_columns _ _ _ _ H)).
Defined.

End Painting.

Section HeaderChecks.



(** X22. A header with a zero: ReadPGM refuses a width or a height of
    0, whatever follows the dimensions; ReadPBM checks neither, and for
    a height of 0 it returns a bitmap without rows and does not read
    on. *)
Theorem zero_dimensions (pgmMagic pbmMagic rest : string) (w h : Z)
  (Hpgm : pgmMagic = "P2"%string \/ pgmMagic = "P5"%string)
  (Hpbm : pbmMagic = "P1"%string \/ pbmMagic = "P4"%string)
  (Hw : 0 <= w < 2 ^ 63) (Hh : 0 <= h < 2 ^ 63)
  (Hzero : w = 0 \/ h = 0) :
  PGM.ReadPGM
    ((pgmMagic ++ Str.nl ++ fmt.d w ++ " " ++ fmt.d h ++ Str.nl) ++ rest)
  = Err ErrDimensionsNotPositive /\
  PBM.ReadPBM
    ((pbmMagic ++ Str.nl ++ fmt.d w ++ " " ++ fmt.d 0 ++ Str.nl) ++ rest)
  = Ok (PBM.mk [] w 0 pbmMagic).
Proof.
  split.
  - set (content := ((pgmMagic ++ Str.nl ++ fmt.d w ++ " " ++ fmt.d h
                        ++ Str.nl) ++ rest)%string).
    assert (Hc : content
      = (pgmMagic ++ String Str.newline
           ((fmt.d w ++ " " ++ fmt.d h) ++ String Str.newline rest))%string).
    { unfold content. by rewrite !sapp_assoc. }
    assert (Hm : every notNewline pgmMagic = true)
      by (by destruct Hpgm as [-> | ->]).
    destruct (ReadString_line (bufio.NewReader content) pgmMagic _ Hm Hc)
      as (b1 & Hr1 & Hs1 & _).
    destruct (ReadString_line b1 (fmt.d w ++ " " ++ fmt.d h) _
                (pair_notNewline w h ltac:(lia) ltac:(lia)) Hs1)
      as (b2 & Hr2 & _).
    unfold PGM.ReadPGM. cbv zeta. rewrite Hr1. cbv beta iota.
    assert (Ht : strings.TrimSpace (pgmMagic ++ Str.nl) = pgmMagic)
      by (by destruct Hpgm as [-> | ->]).
    rewrite Ht.
    assert (Hv : negb (String.eqb pgmMagic "P2")
                 && negb (String.eqb pgmMagic "P5") = false)
      by (by destruct Hpgm as [-> | ->]).
    rewrite Hv, Hr2. cbv beta iota.
    rewrite TrimSpace_dims, Sscanf_pair by lia. cbv beta iota.
    change (fmt.stored [w; h] 0 0) with w.
    change (fmt.stored [w; h] 1 0) with h.
    by destruct (Z.leb_spec w 0), (Z.leb_spec h 0); try lia.
  - destruct (ReadPBM_header pbmMagic rest w 0 Hpbm Hw ltac:(lia))
      as (reader & _ & _ & ->).
    assert (Hraster : PBM.makeRaster 0 w false = Some []) by done.
    rewrite Hraster. cbn [run mbind result_bind bindR].
    by destruct Hpbm as [-> | ->].
Qed.

Lemma zero_dimensions_witness :
  let rest := ("1 0 1" ++ Str.nl)%string in
  ("P5" = "P2" \/ "P5" = "P5")%string /\
  ("P1" = "P1" \/ "P1" = "P4")%string /\
  0 <= 3 < 2 ^ 63 /\ 0 <= 0 < 2 ^ 63 /\ (3 = 0 \/ 0 = 0) /\
  PGM.ReadPGM
    (("P5" ++ Str.nl ++ fmt.d 3 ++ " " ++ fmt.d 0 ++ Str.nl) ++ rest)
  = Err ErrDimensionsNotPositive /\
  PBM.ReadPBM
    (("P1" ++ Str.nl ++ fmt.d 3 ++ " " ++ fmt.d 0 ++ Str.nl) ++ rest)
  = Ok (PBM.mk [] 3 0 "P1").
Proof.
  intros rest.
  assert (H1 : ("P5" = "P2" \/ "P5" = "P5")%string) by (by right).
  assert (H2 : ("P1" = "P1" \/ "P1" = "P4")%string) by (by left).
  assert (H3 : 0 <= 3 < 2 ^ 63) by lia.
  assert (H4 : 0 <= 0 < 2 ^ 63) by lia.
  assert (H5 : 3 = 0 \/ 0 = 0) by (by right).
  exact (conj H1 (conj H2 (conj H3 (conj H4 (conj H5
           (zero_dimensions "P5" "P1" rest 3 0 H1 H2 H3 H4 H5)))))).
Defined.

End HeaderChecks.

Section IntMaxGraymap.



End IntMaxGraymap.

Section Atoi.





End Atoi.

Section TextGraymap.

Variables (d : list (list Z)) (w h : Z).
Hypothesis Hshape : shape d w h.
Hypothesis Hbytes : samples byte d.
Hypothesis Hw : 0 <= w.





End TextGraymap.

Section TextRoundTrip.



End TextRoundTrip.
